(* ===== verification/_CoqProject ===== *)
-Q . S2P
Prelude.v
Effects.v
Floats.v
Auth.v
RateLimit.v
Voices.v
Validation.v
Wav.v
Backend.v
Pool.v
PoolSpec.v
PoolServe.v
Config.v
Metrics.v
Http.v
RequestHandler.v
Uuid.v
Handoff.v
Server.v
Boot.v
HttpAdapter.v
Session.v
Service.v
Liveness.v
Abuse.v
Delivery.v
Logger.v
Main.v
Process.v
Order.v
Fairness.v
Accounting.v
Secrecy.v
System.v
Deployed.v
Lifecycle.v
Signals.v
