(* ===== verification/Prelude.v ===== *)
(** * A verification library for voxtral-server

    voxtral-server is an HTTP text-to-speech service.  cpp-httplib runs one
    thread per request; a request passes the middleware (lock-out, rate limit,
    bearer key), is validated, and hands a job to a bounded queue that a single
    worker thread empties into the synthesis engine; the request waits for the
    callback of its job.  The process loads a configuration, builds these
    objects, and stops on SIGTERM or SIGINT.

    ** Files and sources

    Foundations:
    - [Prelude]: machine integers (wrap-around written out: [u8], [u64], [i32],
      ...), strings, case-analysis tactics, hint databases.
    - [Effects]: C++ functions as trees of effects ([prog]), their runs
      ([runs]), partial runs ([steps]), execution by a handler ([exec]), and
      what a program cannot do ([within], [mute]).
    - [Floats]: IEEE 754 [float] and [double] on [spec_float].

    Components, one file each:
    - [Auth]: constant-time comparison, client address, bearer check, internal
      endpoints ([include/tts/auth.hpp], [src/server/auth.cpp]).
    - [RateLimit]: [AuthRateLimiter], [RequestRateLimiter]
      ([include/tts/auth.hpp]).
    - [Voices], [Validation]: [src/tts/voices.cpp],
      [src/server/validation.cpp].
    - [Wav], [Backend]: the WAV encoder, the port [ITtsBackend] as a class with
      its laws, [VoxtralBackend] in both compile-time variants
      ([src/tts/voxtral_backend.cpp]) and [MockBackend].
    - [Pool]: [InferencePool] ([src/tts/inference_pool.cpp]): methods and worker
      loop interleaved one atomic effect at a time.
    - [Config]: [src/config/config.cpp].  [Metrics]: [src/server/metrics.cpp].
    - [Http], [RequestHandler], [Uuid]: types, JSON interface ([JsonLib] with
      its laws [JsonLaws]), effects, handlers and request ids
      ([src/server/request_handler.cpp]).
    - [Handoff]: the local mutex, condition variable and result of
      [handle_speech], with the closures of its job on the worker thread, one
      statement at a time.
    - [Server]: [TtsServer] ([src/server/server.cpp]).
    - [HttpAdapter]: adaptation, middleware and routes
      ([src/server/http_adapter.cpp]).
    - [Logger]: [src/logging/logger.cpp].  [Main]: [src/main.cpp].

    Composition:
    - [Boot], [Process]: the server object that [main()] builds, and that it
      is the one the listener serves.
    - [PoolSpec]: the contract of the pool, an automaton with a queue, an open
      flag and one job in hand; [Pool] refines it.  [PoolServe]: the worker of
      [Pool] answers every queued job, in an open pool too.
    - [Session]: the protocol between a request and the pool, as typing of
      programs; every route of [HttpAdapter] is well typed.
    - [Service]: any number of requests ([HttpAdapter.route]), the worker and
      shutdown, interleaved over the limiters of [RateLimit], the automaton of
      [PoolSpec] and the result cells of [handle_speech].  A history lists the
      calls of the requests with their clock readings and answers, the jobs
      taken and the answers given; [served] are the histories that can happen.
    - [Liveness], [Abuse], [Delivery], [Order], [Fairness], [Accounting],
      [Secrecy]: what holds of every history ([Secrecy] also compares whole
      processes).
    - [System]: the same requests over [Pool] itself.  A call of a pool method
      is one of the pool's client programs, run effect by effect between the
      steps of the worker loop, of other requests and of [shutdown()]; the
      worker's callbacks run the closures of [handle_speech].  A simulation
      shows every such execution to be a history of [Service].  [Deployed]
      states what follows of it.
    - [Lifecycle]: the thread of [main()] from the signal handlers to its end
      ([Main.serve]) beside a [System]: requests arrive while it is in
      [listen()]; [TtsServer::shutdown()] and the destructors run the pool's
      [shutdown()] as clients of the pool and join its worker.
    - [Signals]: [signal_handler] on any thread of that process, nested signals
      included, one statement at a time; the adapter, [running_], [g_adapter]
      and [g_shutdown_requested] follow [main()].

    State corresponds to members by name ([queue_], [accepting_],
    [ip_states], [config_], ...); operations carry the names of the C++
    functions.  A section under a mutex is one function on the state; elsewhere
    every atomic access, clock reading, log line and call of a callback or of
    another library is an effect.

    ** What is proved

    - End to end: a speech request gets exactly the audio, or the error, that
      the worker answered for its own job ([Delivery.speech_delivered]); every
      job comes from a POST whose key was accepted and whose address was found
      neither locked out nor over its quota, by calls made before the submission
      ([Abuse.jobs_are_authorised]); the lock-out, window after window, and the
      rate limit work against concurrent requests ([Abuse.lockout_end_to_end],
      [Abuse.submission_rate]); no request waits
      for ever and no result is lost ([Liveness.every_request_ends]); the
      closures over a handler's stack frame are only called while it lives
      ([Liveness.callbacks_hit_live_frames], [Session.routes_well_typed]).
    - Across clients: accepted jobs are answered first come, first served
      ([Order]); nobody is throttled but for calls of its own address ([Fairness]); the gauge and the
      counters add up to the requests and their answers ([Accounting]); nothing
      that is logged, answered or called depends on the API key beyond which
      tokens are right ([Secrecy]).
    - The implementation: the mutex, the condition variable and the worker loop
      keep these promises ([Deployed.system_refines_service]); delivery, the
      end of every request, the life time of the closures and when [submit()]
      accepts and refuses are stated of it directly
      ([Deployed.deployed_delivery], [Deployed.deployed_ends],
      [Deployed.deployed_callbacks_live], [Deployed.backpressure_exact]).
    - Pool: exactly once and in order, every queued job served, draining at
      shutdown, no lost wake-up, bounds, and refinement of its contract.
    - Hand-over of a result: no access to a frame that is gone, no data race,
      no lost wake-up, and the value the closure stored ([Handoff]); the
      compositions take it as one step.
    - Handlers and routes: what is submitted, how a request ends and is
      counted, who passes the middleware, headers of every answer.
    - Limiters: each address has a counter of its own, windows, quotas, memory.
    - Data: the comparison, the choice of the client address, validators,
      request ids, time stamps; the WAV header and the samples, for exactly the
      sizes and rates where the C++ is defined ([Wav.wav_header_roundtrip],
      [Wav.build_wav_from_float_samples_correct],
      [Backend.voxtral_audio_wellformed]).
    - Configuration: layers and exact acceptance by [validate()].
    - Process: exit codes and order of start-up and shutdown for every answer
      of the system; that it serves the server it configured and validated
      ([Process.main_serves_booted]); behaviour under signals.
    - The end of the process: the engine is released only after the worker has
      returned and every accepted job has been answered
      ([Lifecycle.graceful_shutdown]), and from every state the process comes to
      its end, or to a listener that nobody stops
      ([Lifecycle.shutdown_completes]).
    - Signals: handlers use the adapter only while it lives
      ([Signals.handlers_safe]); a first signal while cpp-httplib serves ends the
      process, unless spdlog blocks its handler ([Signals.signal_ends_process]);
      one that is handled before is lost, and all that follow
      ([Signals.handled_signal_lost]).

    Files end with witnesses: the theorems applied to concrete inputs.

    ** Bounds and fuel

    - [AuthLimiter.evict_loop] has the size of the map as fuel: each round
      removes one entry.  Loops over strings and vectors are structural.
    - [Pool.drain_bound] counts nine steps per job and nine to leave: the longest
      path through [worker_loop()].  A route makes at most 40 calls
      ([Session.route_session]).  [Service.weight] bounds what is left: three
      steps per call, for a call may queue a job that is taken and answered.
    - [Deployed.steps_left]: 40 steps for each unit of [Liveness.work_left],
      which cover entering and leaving a pool method of at most eight effects,
      the rest of an iteration of the worker and one wake-up.
    - [Lifecycle.life_left]: [main()] makes at most 24 calls from the signal
      handlers on ([Lifecycle.main_winding]); 40 steps for each cover a
      [shutdown()] of at most eight effects.
    - [Signals.process_left] adds the at most six calls of each handler.
    - [Handoff.handoff_ends]: at most ten statements of the handler (lock, look,
      wait, wake, lock, look, unlock, two reads, return) and five of a closure.
    - [Liveness.LivenessWitness.drive] runs a request for at most 40 calls;
      [Deployed.DeployedWitness.turns] makes up to 200 steps, which take a request,
      its pool methods and the worker to the answer;
      [Lifecycle.LifecycleWitness.run_at] 100, which take the process to its end.
    - Clocks are nanoseconds in [Z]; queue sizes and counters are cut to their
      width where the source converts them.  Where a theorem needs a history
      to be shorter than [2^63] or [2^64] it says so.

    ** Assumptions and abstractions

    - The contract of the pool is all that [Service] knows of it: the worker
      may answer with any result, or with any non-empty error.  That
      it does answer is a step of the automaton; for the detailed worker it is
      [PoolServe.pool_serves_queue] and [Pool.pool_shutdown_drains], which take
      it that [synthesize()] and the callbacks return.
    - Between two calls of a request nothing else happens to its state; the
      calls themselves interleave freely.  Calls on one limiter are ordered by
      its mutex, and their clock readings do not go back; [submit()] reads the
      clock before it locks the queue, so its reading may be older
      ([Service.clock_reads]).
    - In [System] the clock is common to requests and pool, the closures of a
      handler do not throw (they lock, assign and notify), and the configured
      depth is an [int]; a worker step is one effect, so a callback may run
      while its handler is still inside [submit()].  A result is handed over in
      one step, and [AwaitResult] blocks until it is there ([Handoff]).
    - cpp-httplib returns from [listen()] only when its request threads have
      finished (it joins them); when it does so, and with what, is the parameter
      [listen_returns] of [Lifecycle].  The other calls of [main()] (logging,
      signals, the engine's release) return and do not throw.
    - In [Signals], cpp-httplib serves ([sg_serving]) from some moment inside
      [listen()] on, which is a step of its own; its [stop()] has an effect on a
      server that serves, and none before or after.  A stopped [listen()] may
      return once no request is in progress ([Hstop] of
      [Signals.signal_ends_process]).  Whether the call of spdlog in a handler
      returns is the parameter [log_returns]: spdlog is not async-signal-safe
      and may wait for a mutex that the interrupted thread holds
      ([log_blocked]).  A signal before [sigaction()] kills the process, which
      ends the execution.
    - [nlohmann::json] is any implementation of [JsonLib] that throws only its
      own exceptions where the source relies on it ([JsonLaws]); parsing may
      throw a parse error, or [out_of_range], which nothing catches
      ([RequestHandler.HandlerWitness.out_of_range_body_escapes]).
    - The engine's answers are arbitrary: what [synthesize()] needs of them for
      its C++ to be defined is part of [Backend.voxtral_audio_wellformed], not
      assumed.
    - Limits of the theorems on the auth limiter: no eviction, that is at most
      [max_tracked_ips] addresses in the history ([fits]); with eviction,
      [auth_limiter_evicts_oldest] and [auth_limiter_memory_cap] apply.

    ** Not modelled

    - The engine (a submodule that is absent), spdlog, cpp-httplib (its own
      routing, limits and answer to an exception), prometheus-cpp, toml++ and
      nlohmann::json: calls on them are effects or class members.
    - [std::bad_alloc] and failures of mutexes and thread creation; the
      memory order of the atomics, taken as sequentially consistent.
    - The generated version header, build files, deployment and tests.
    - [Main] and [Process] see the requests as one call ([HttpListen]), which
      [Lifecycle] opens; the start-up before it runs alone, with no thread but
      the worker, which waits.  [Main.signal_handler] is the handler run at one
      point of [main()]; [Signals] runs it on every thread.
    - What is left of the sources is comments, declarations, deleted copy
      operations and the accessors of the server object. *)

From Stdlib Require Import ZArith Lia Ascii String.
From stdpp Require Import base tactics numbers list strings gmap pretty.

#[local] Open Scope Z_scope.

(** ** Automation *)

(** Facts about strings and machine integers that close the common side
    goals: [eauto with tts] / [autorewrite with tts]. *)
Create HintDb tts.
Create Rewrite HintDb tts.

(** Case analysis on the boolean comparisons of [Z] that the translated code
    branches on; every branch keeps the comparison as an inequality. *)
Ltac zcase :=
  match goal with
  | |- context [Z.ltb ?a ?b] => destruct (Z.ltb_spec a b)
  | |- context [Z.leb ?a ?b] => destruct (Z.leb_spec a b)
  | |- context [Z.eqb ?a ?b] => destruct (Z.eqb_spec a b)
  end.

Ltac zcase_in H :=
  match type of H with
  | context [Z.ltb ?a ?b] => destruct (Z.ltb_spec a b)
  | context [Z.leb ?a ?b] => destruct (Z.leb_spec a b)
  | context [Z.eqb ?a ?b] => destruct (Z.eqb_spec a b)
  end.

(** ** Machine integers

    A [w]-bit unsigned value is its [Z] in [0, 2^w); a conversion to the type
    reduces modulo [2^w], as C++ defines it. *)

Definition u8 (z : Z) : Z := z mod 2 ^ 8.
Definition u16 (z : Z) : Z := z mod 2 ^ 16.
Definition u32 (z : Z) : Z := z mod 2 ^ 32.
Definition u64 (z : Z) : Z := z mod 2 ^ 64.

(** Conversion to a signed 32-bit [int] (C++20: two's complement). *)
Definition i32 (z : Z) : Z := (z + 2 ^ 31) mod 2 ^ 32 - 2 ^ 31.

Definition INT_MIN : Z := - 2 ^ 31.
Definition INT_MAX : Z := 2 ^ 31 - 1.
Definition LONG_MIN : Z := - 2 ^ 63.
Definition LONG_MAX : Z := 2 ^ 63 - 1.

(** Nanoseconds per second: clock readings and durations count nanoseconds. *)
Definition SEC : Z := 1000000000.

Definition in_int (z : Z) : Prop := INT_MIN <= z <= INT_MAX.

Lemma u8_bound z : 0 <= u8 z < 256.
Proof. unfold u8. apply (Z.mod_pos_bound z 256). lia. Qed.

Lemma u16_bound z : 0 <= u16 z < 2 ^ 16.
Proof. unfold u16. apply Z.mod_pos_bound. lia. Qed.

Lemma u32_bound z : 0 <= u32 z < 2 ^ 32.
Proof. unfold u32. apply Z.mod_pos_bound. lia. Qed.

Lemma u32_small z : 0 <= z < 2 ^ 32 -> u32 z = z.
Proof. intros H. unfold u32. by apply Z.mod_small. Qed.

Lemma u64_small z : 0 <= z < 2 ^ 64 -> u64 z = z.
Proof. intros H. unfold u64. by apply Z.mod_small. Qed.

Lemma u8_small z : 0 <= z < 256 -> u8 z = z.
Proof. intros H. unfold u8. by apply Z.mod_small. Qed.

Lemma i32_small z : in_int z -> i32 z = z.
Proof.
  unfold in_int, INT_MIN, INT_MAX, i32. intros H.
  rewrite Z.mod_small; lia.
Qed.

Lemma i32_bound z : in_int (i32 z).
Proof.
  unfold in_int, INT_MIN, INT_MAX, i32.
  pose proof (Z.mod_pos_bound (z + 2 ^ 31) (2 ^ 32)). lia.
Qed.

#[export] Hint Resolve u8_bound u16_bound u32_bound i32_bound : tts.

Lemma i32_add_l a b : i32 (i32 a + b) = i32 (a + b).
Proof.
  unfold i32. f_equal.
  replace ((a + 2 ^ 31) mod 2 ^ 32 - 2 ^ 31 + b + 2 ^ 31)
    with ((a + 2 ^ 31) mod 2 ^ 32 + b) by lia.
  rewrite Zplus_mod_idemp_l. f_equal. lia.
Qed.

(** [a lor b = 0] exactly when both are zero: the accumulator of a
    constant-time comparison. *)
Lemma lor_zero_iff a b : Z.lor a b = 0 <-> a = 0 /\ b = 0.
Proof. split; [apply Z.lor_eq_0_iff | intros [-> ->]; done]. Qed.

(** ** Bytes and characters *)

(** [static_cast<uint8_t>(c)] of a [char]. *)
Definition byte_of (c : ascii) : Z := Z.of_N (N_of_ascii c).

Lemma byte_of_bound c : 0 <= byte_of c < 256.
Proof.
  unfold byte_of. pose proof (N_ascii_bounded c). lia.
Qed.

Lemma byte_of_inj a b : byte_of a = byte_of b -> a = b.
Proof.
  unfold byte_of. intros H. apply N2Z.inj in H.
  rewrite <- (ascii_N_embedding a), <- (ascii_N_embedding b). by f_equal.
Qed.

#[export] Hint Resolve byte_of_bound : tts.

(** [std::isspace] and [std::tolower] in the "C" locale. *)
Definition isspace (c : ascii) : bool := Ascii.is_space c.

Definition tolower (c : ascii) : ascii :=
  let n := N_of_ascii c in
  if ((65 <=? n) && (n <=? 90))%N then ascii_of_N (n + 32) else c.

Definition is_upper (c : ascii) : bool :=
  let n := N_of_ascii c in ((65 <=? n) && (n <=? 90))%N.

Lemma tolower_not_upper c : is_upper (tolower c) = false.
Proof. by destruct c as [[] [] [] [] [] [] [] []]. Qed.

Lemma tolower_idemp c : tolower (tolower c) = tolower c.
Proof. by destruct c as [[] [] [] [] [] [] [] []]. Qed.

(** ** Strings

    [std::string] and [std::string_view] are byte strings: [string]. *)

Definition slen (s : string) : Z := Z.of_nat (String.length s).

Lemma slen_nonneg s : 0 <= slen s.
Proof. unfold slen. lia. Qed.

Lemma slen_cons c s : slen (String c s) = 1 + slen s.
Proof. unfold slen. simpl. lia. Qed.

Lemma slen_zero s : slen s = 0 <-> s = EmptyString.
Proof. destruct s; unfold slen; simpl; split; intros H; (done || lia). Qed.

Lemma sapp_cons c a b : String c a +:+ b = String c (a +:+ b).
Proof. done. Qed.

Lemma sapp_nil_l a : EmptyString +:+ a = a.
Proof. done. Qed.

Lemma sapp_nil_r a : a +:+ EmptyString = a.
Proof. induction a as [|c a IH]; [done|]. by rewrite sapp_cons, IH. Qed.

Lemma sapp_assoc a b c : (a +:+ b) +:+ c = a +:+ (b +:+ c).
Proof. induction a as [|x a IH]; [done|]. by rewrite !sapp_cons, IH. Qed.

Lemma sapp_inj_l a b c : a +:+ b = a +:+ c -> b = c.
Proof. induction a as [|x a IH]; [done|]. rewrite !sapp_cons. intros [= H]. auto. Qed.

Lemma slen_app a b : slen (a +:+ b) = slen a + slen b.
Proof.
  induction a as [|x a IH]; [done|].
  rewrite sapp_cons, !slen_cons, IH. lia.
Qed.

#[export] Hint Rewrite sapp_nil_l sapp_nil_r slen_cons slen_app : tts.
#[export] Hint Resolve slen_nonneg : tts.

(** [s.empty()]. *)
Definition sempty (s : string) : bool :=
  match s with EmptyString => true | _ => false end.

Lemma sempty_spec s : sempty s = true <-> s = EmptyString.
Proof. by destruct s. Qed.

(** The first [n] bytes and the bytes after them ([substr(0,n)], [substr(n)]
    for [n <= size()]). *)
Fixpoint stake (n : nat) (s : string) : string :=
  match n, s with
  | S n, String c s => String c (stake n s)
  | _, _ => EmptyString
  end.

Fixpoint sdrop (n : nat) (s : string) : string :=
  match n, s with
  | S n, String _ s => sdrop n s
  | _, _ => s
  end.

Lemma stake_sdrop n s : stake n s +:+ sdrop n s = s.
Proof.
  revert s. induction n as [|n IH]; intros [|c s]; [done..|].
  simpl. by rewrite sapp_cons, IH.
Qed.

Lemma stake_app_length a b : stake (String.length a) (a +:+ b) = a.
Proof. induction a as [|c a IH]; [by destruct b|]. rewrite sapp_cons. simpl. by rewrite IH. Qed.

Lemma sdrop_app_length a b : sdrop (String.length a) (a +:+ b) = b.
Proof. induction a as [|c a IH]; [by destruct b|]. rewrite sapp_cons. simpl. by rewrite IH. Qed.

(** [s.rfind(c)]: the index of the last occurrence. *)
Fixpoint rfind (c : ascii) (s : string) : option nat :=
  match s with
  | EmptyString => None
  | String x s' =>
      match rfind c s' with
      | Some n => Some (S n)
      | None => if Ascii.eqb x c then Some O else None
      end
  end.

(** [hay.find(needle) != npos]. *)
Fixpoint scontains (needle hay : string) : bool :=
  String.prefix needle hay ||
  match hay with EmptyString => false | String _ hay' => scontains needle hay' end.

Lemma prefix_app a s : String.prefix a s = true <-> exists t, s = a +:+ t.
Proof.
  revert s. induction a as [|c a IH]; intros s.
  - destruct s; (split; [intros _; by eexists | done]).
  - destruct s as [|d s]; [split; [done | by intros [t Ht]]|].
    simpl. destruct (ascii_dec c d) as [->|Hne].
    + rewrite IH. split; intros [t Ht].
      * exists t. by rewrite sapp_cons, Ht.
      * exists t. rewrite sapp_cons in Ht. by injection Ht.
    + split; [done|]. intros [t Ht]. rewrite sapp_cons in Ht. congruence.
Qed.

Lemma scontains_spec needle hay :
  scontains needle hay = true <-> exists p q, hay = p +:+ needle +:+ q.
Proof.
  induction hay as [|c hay IH]; cbn [scontains]; rewrite orb_true_iff, prefix_app.
  - split.
    + intros [[t Ht]|]; [|done]. by exists EmptyString, t.
    + intros (p & q & H). left. destruct p; [|done]. by exists q.
  - rewrite IH. split.
    + intros [[t Ht]|(p & q & ->)]; [by exists EmptyString, t | by exists (String c p), q].
    + intros (p & q & H). destruct p as [|d p]; [left; by exists q|right].
      rewrite sapp_cons in H. injection H as -> ->. by exists p, q.
Qed.

(** Every byte of the string satisfies [P] ([std::all_of]). *)
Fixpoint sall (P : ascii -> bool) (s : string) : bool :=
  match s with EmptyString => true | String c s => P c && sall P s end.

Fixpoint smap (f : ascii -> ascii) (s : string) : string :=
  match s with EmptyString => EmptyString | String c s => String (f c) (smap f s) end.

Lemma sall_app P a b : sall P (a +:+ b) = sall P a && sall P b.
Proof.
  induction a as [|c a IH]; [done|]. rewrite sapp_cons. simpl. by rewrite IH, andb_assoc.
Qed.

Definition schars (s : string) : list ascii := String.list_ascii_of_string s.

(** ** Splitting on a separator

    The reference reading of comma-separated headers: a string without the
    separator is one field. *)
Fixpoint split_on (c : ascii) (s : string) : list string :=
  match s with
  | EmptyString => [EmptyString]
  | String x s' =>
      if Ascii.eqb x c then EmptyString :: split_on c s'
      else match split_on c s' with
           | h :: t => String x h :: t
           | [] => [String x EmptyString]
           end
  end.

Lemma split_on_cons c s : exists h t, split_on c s = h :: t.
Proof.
  induction s as [|x s (h & t & IH)]; simpl; [by eexists _, _|].
  rewrite IH. destruct (Ascii.eqb x c); by eexists _, _.
Qed.

Lemma split_on_app c a b :
  split_on c (a +:+ String c b) = split_on c a ++ split_on c b.
Proof.
  induction a as [|x a IH]; [rewrite sapp_nil_l; simpl; by rewrite Ascii.eqb_refl|].
  rewrite sapp_cons. simpl. rewrite IH.
  destruct (Ascii.eqb x c); [done|].
  destruct (split_on_cons c a) as (h & t & ->). done.
Qed.

Lemma rfind_None_split c s : rfind c s = None -> split_on c s = [s].
Proof.
  induction s as [|x s IH]; [done|]. simpl.
  destruct (rfind c s); [done|]. destruct (Ascii.eqb x c); [done|].
  intros _. by rewrite IH.
Qed.

Lemma rfind_Some_split c s n :
  rfind c s = Some n ->
  split_on c s = split_on c (stake n s) ++ [sdrop (S n) s].
Proof.
  revert n. induction s as [|x s IH]; intros n; [done|]. cbn [rfind split_on].
  destruct (rfind c s) as [m|] eqn:E.
  - intros [= <-]. specialize (IH m eq_refl). cbn [stake split_on].
    destruct (Ascii.eqb x c); [by rewrite IH|].
    rewrite IH. destruct (split_on_cons c (stake m s)) as (h & t & ->). done.
  - destruct (Ascii.eqb x c) eqn:Ec; [|done]. intros [= <-].
    rewrite (rfind_None_split c s E). by destruct s.
Qed.

Lemma slength_app a b : String.length (a +:+ b) = (String.length a + String.length b)%nat.
Proof. induction a as [|c a IH]; [done|]. simpl. f_equal. exact IH. Qed.

(** ** Lists *)

Lemma Forall_filter_true {A} (P : A -> bool) (l : list A) :
  Forall (fun x => P x = true) (List.filter P l).
Proof.
  induction l as [|x l IH]; simpl; [constructor|].
  destruct (P x) eqn:E; [by constructor | done].
Qed.

(** [std::to_string] of an integer. *)
Definition to_string (z : Z) : string := pretty z.
