(* ===== verification/Effects.v ===== *)
(** * Effectful C++ code as programs over a signature of effects

    A C++ function that reads clocks, logs, locks shared objects or waits on
    a condition variable is a [prog E A]: a finite tree of calls [Vis e k] to
    effects of a signature [E], ending in a value ([Ret]) or in a C++
    exception that leaves the function ([Throw]).

    Two readings are given:
    - [runs p tr r]: [p] can perform the calls of [tr], each with the answer
      recorded in [tr], and end in [r].  The answers are arbitrary, so a
      theorem about every run holds whatever other threads, clocks and
      libraries answer.
    - [exec h p s]: the execution of [p] against a state [s] by a handler [h]
      that answers each effect from the state.  [exec_runs] says every
      execution is a run. *)

From Stdlib Require Import Lia.
From stdpp Require Import base tactics list strings.
From S2P Require Import Prelude.

(** ** Exceptions and results *)

(** The exception classes the sources throw or let through; each carries its
    [what()].  All derive from [std::exception]. *)
Inductive exn :=
| InvalidArgument (what : string)
| OutOfRange (what : string)
| LogicError (what : string)
| RuntimeError (what : string)
| FilesystemError (what : string)
| JsonParseError (what : string)
| JsonTypeError (what : string)
| JsonOutOfRange (what : string).

Definition what (e : exn) : string :=
  match e with
  | InvalidArgument w | OutOfRange w | LogicError w | RuntimeError w
  | FilesystemError w | JsonParseError w | JsonTypeError w | JsonOutOfRange w => w
  end.

(** How a function ends. *)
Inductive res (A : Type) :=
| Ok (a : A)
| Exn (e : exn).
Arguments Ok {A} a.
Arguments Exn {A} e.

#[export] Instance exn_eq_dec : EqDecision exn.
Proof. solve_decision. Defined.

#[export] Instance res_eq_dec {A} `{EqDecision A} : EqDecision (res A).
Proof. solve_decision. Defined.

#[export] Instance res_ret : MRet res := fun A a => Ok a.
#[export] Instance res_bind : MBind res :=
  fun A B f r => match r with Ok a => f a | Exn e => Exn e end.

Lemma res_bind_Ok {A B} (f : A -> res B) (m : res A) b :
  m ≫= f = Ok b <-> exists a, m = Ok a /\ f a = Ok b.
Proof.
  destruct m as [a|e]; simpl; split.
  - intros H. by exists a.
  - by intros (a' & [= ->] & H).
  - done.
  - by intros (a' & [=] & _).
Qed.

(** ** Programs *)

Inductive prog (E : Type -> Type) (A : Type) : Type :=
| Ret (a : A)
| Throw (e : exn)
| Vis {X : Type} (e : E X) (k : X -> prog E A).
Arguments Ret {E A} a.
Arguments Throw {E A} e.
Arguments Vis {E A X} e k.

Definition trigger {E X} (e : E X) : prog E X := Vis e Ret.

Fixpoint pbind {E A B} (k : A -> prog E B) (p : prog E A) : prog E B :=
  match p with
  | Ret a => k a
  | Throw e => Throw e
  | Vis e f => Vis e (fun x => pbind k (f x))
  end.

#[export] Instance prog_ret {E} : MRet (prog E) := fun A a => Ret a.
#[export] Instance prog_bind {E} : MBind (prog E) := fun A B k p => pbind k p.

Definition of_res {E A} (r : res A) : prog E A :=
  match r with Ok a => Ret a | Exn e => Throw e end.

(** [try { p } catch (const std::exception& e) { h(e) }]. *)
Fixpoint catch {E A} (h : exn -> prog E A) (p : prog E A) : prog E A :=
  match p with
  | Ret a => Ret a
  | Throw e => h e
  | Vis e f => Vis e (fun x => catch h (f x))
  end.

(** [p] with every call answered by the program [h] makes of it, and with
    every call renamed. *)
Fixpoint interp {E F A} (h : forall X, E X -> prog F X) (p : prog E A) : prog F A :=
  match p with
  | Ret a => Ret a
  | Throw e => Throw e
  | Vis e k => pbind (fun x => interp h (k x)) (h _ e)
  end.

Definition translate {E F A} (f : forall X, E X -> F X) (p : prog E A) : prog F A :=
  interp (fun X e => trigger (f X e)) p.

(** ** Runs *)

(** One call of an effect and the answer it got. *)
Inductive event (E : Type -> Type) : Type :=
| Ev {X : Type} (e : E X) (x : X).
Arguments Ev {E X} e x.

Fixpoint runs {E A} (p : prog E A) (tr : list (event E)) (r : res A) : Prop :=
  match p with
  | Ret a => tr = [] /\ r = Ok a
  | Throw e => tr = [] /\ r = Exn e
  | Vis e k => exists x tr', tr = Ev e x :: tr' /\ runs (k x) tr' r
  end.

(** [steps p tr q]: after the calls of [tr], [q] is left of [p]. *)
Fixpoint steps {E A} (p : prog E A) (tr : list (event E)) (q : prog E A) : Prop :=
  (tr = [] /\ q = p) \/
  match p with
  | Vis e k => exists x tr', tr = Ev e x :: tr' /\ steps (k x) tr' q
  | _ => False
  end.

(** [p] ends after at most [n] calls, whatever they answer. *)
Fixpoint within {E A} (n : nat) (p : prog E A) {struct p} : Prop :=
  match p with
  | Vis _ k => match n with O => False | S n' => forall x, within n' (k x) end
  | _ => True
  end.

(** What a trace shows of one kind of effect. *)
Definition observe {E B} (f : forall X, E X -> X -> option B)
    (tr : list (event E)) : list B :=
  omap (fun ev => match ev with Ev e x => f _ e x end) tr.

Lemma observe_app {E B} (f : forall X, E X -> X -> option B) t1 t2 :
  observe f (t1 ++ t2) = observe f t1 ++ observe f t2.
Proof. apply omap_app. Qed.

Section Runs.
Context {E : Type -> Type}.

Lemma runs_ret {A} (a : A) (tr : list (event E)) r :
  runs (mret a) tr r <-> tr = [] /\ r = Ok a.
Proof. done. Qed.

Lemma runs_trigger {X} (e : E X) tr r :
  runs (trigger e) tr r <-> exists x, tr = [Ev e x] /\ r = Ok x.
Proof.
  simpl. split.
  - intros (x & tr' & -> & -> & ->). by exists x.
  - intros (x & -> & ->). by exists x, [].
Qed.

Lemma runs_vis {A X} (e : E X) (k : X -> prog E A) tr r :
  runs (Vis e k) tr r -> exists x t, tr = [Ev e x] ++ t /\ runs (k x) t r.
Proof. done. Qed.

Lemma runs_translate {F A} (f : forall X, E X -> F X) (p : prog E A) tr r :
  runs (translate f p) tr r <->
  exists tr0, runs p tr0 r /\ tr = (fun ev => match ev with Ev e x => Ev (f _ e) x end) <$> tr0.
Proof.
  unfold translate. revert tr. induction p as [a|e|X e k IH]; intros tr; simpl.
  - split; [intros [-> ->]; by exists []|by intros (tr0 & [-> ->] & ->)].
  - split; [intros [-> ->]; by exists []|by intros (tr0 & [-> ->] & ->)].
  - split.
    + intros (x & t & -> & (t0 & H & ->)%IH). exists (Ev e x :: t0). split; [by exists x, t0|done].
    + intros (tr0 & (x & t0 & -> & H) & ->). exists x. eexists. split; [done|]. apply IH.
      by exists t0.
Qed.

Lemma runs_of_res {A} (x : res A) (tr : list (event E)) r :
  runs (of_res x) tr r <-> tr = [] /\ r = x.
Proof. by destruct x. Qed.

(** The run of a sequence: either the first part ends and the second runs
    after it, or the first part throws. *)
Lemma runs_bind {A B} (p : prog E A) (k : A -> prog E B) tr r :
  runs (p ≫= k) tr r <->
  (exists t1 t2 a, tr = t1 ++ t2 /\ runs p t1 (Ok a) /\ runs (k a) t2 r) \/
  (exists e, r = Exn e /\ runs p tr (Exn e)).
Proof.
  revert tr. induction p as [a|e|X e f IH]; intros tr; simpl.
  - split.
    + intros H. left. by exists [], tr, a.
    + intros [(t1 & t2 & a' & -> & [-> Ha] & Hk)|(e & -> & _ & He)]; [|done].
      by injection Ha as ->.
  - split.
    + intros [-> ->]. right. by exists e.
    + intros [(t1 & t2 & a' & -> & [_ Ha] & _)|(e' & -> & -> & He)]; [done|].
      by injection He as ->.
  - split.
    + intros (x & tr' & -> & H0). apply IH in H0 as [(t1 & t2 & a & -> & H1 & H2)|(e' & -> & H)].
      * left. exists (Ev e x :: t1), t2, a. split_and!; [done| |done]. by exists x, t1.
      * right. exists e'. split; [done|]. by exists x, tr'.
    + intros [(t1 & t2 & a & -> & (x & t1' & -> & H1) & H2)|(e' & -> & x & tr' & -> & H)].
      * exists x, (t1' ++ t2). split; [done|]. apply IH. left. by exists t1', t2, a.
      * exists x, tr'. split; [done|]. apply IH. right. by exists e'.
Qed.

Lemma steps_refl {A} (p : prog E A) : steps p [] p.
Proof. destruct p; by left. Qed.

Lemma steps_extend {A} (p q : prog E A) tr :
  steps p tr q ->
  match q with Vis e k => forall x, steps p (tr ++ [Ev e x]) (k x) | _ => True end.
Proof.
  revert tr. induction p as [a|err|Y e f IH]; intros tr; cbn [steps].
  - by intros [[_ ->]|[]].
  - by intros [[_ ->]|[]].
  - intros [[-> ->]|(y & tr' & -> & H)].
    + intros x. right. exists x, []. split; [done|]. apply steps_refl.
    + apply IH in H. destruct q as [a|err|X e' k]; try done.
      intros x. right. exists y, (tr' ++ [Ev e' x]). split; [done|]. apply H.
Qed.

Lemma steps_snoc {A} (p : prog E A) tr X (e : E X) k x :
  steps p tr (Vis e k) -> steps p (tr ++ [Ev e x]) (k x).
Proof. intros H. by apply (steps_extend p (Vis e k)). Qed.

Lemma within_mono {A} n m (p : prog E A) : (n <= m)%nat -> within n p -> within m p.
Proof.
  revert n m. induction p as [a|e|X e f IH]; intros n m Hle; cbn [within]; [done..|].
  destruct n as [|n]; [done|]. destruct m as [|m]; [lia|].
  intros H x. apply (IH x n); [lia|apply H].
Qed.

Lemma within_steps {A} n (p q : prog E A) tr : within n p -> steps p tr q -> within n q.
Proof.
  revert n tr. induction p as [a|err|X e f IH]; intros n tr Hp; cbn [steps].
  - by intros [[_ ->]|[]].
  - by intros [[_ ->]|[]].
  - intros [[_ ->]|(x & tr' & _ & H)]; [done|]. destruct n as [|n]; [done|].
    apply (within_mono n); [lia|]. apply (IH x n tr'); [apply Hp|done].
Qed.

Lemma steps_ret {A} (p : prog E A) tr a : steps p tr (Ret a) -> runs p tr (Ok a).
Proof.
  revert tr. induction p as [b|e|X e f IH]; intros tr; simpl.
  - by intros [[-> [= ->]]|[]].
  - by intros [[-> [=]]|[]].
  - intros [[_ [=]]|(x & tr' & -> & H)]. exists x, tr'. split; [done|]. by apply IH.
Qed.

Lemma steps_throw {A} (p : prog E A) tr e : steps p tr (Throw e) -> runs p tr (Exn e).
Proof.
  revert tr. induction p as [b|e'|X e' f IH]; intros tr; simpl.
  - by intros [[-> [=]]|[]].
  - by intros [[-> [= ->]]|[]].
  - intros [[_ [=]]|(x & tr' & -> & H)]. exists x, tr'. split; [done|]. by apply IH.
Qed.

(** The runs of what is left, and of a program whose calls [ans] can answer. *)
Lemma steps_runs {A} (p q : prog E A) tr tr2 r :
  steps p tr q -> runs q tr2 r -> runs p (tr ++ tr2) r.
Proof.
  revert tr. induction p as [b|e|X e f IH]; intros tr; cbn [steps].
  - by intros [[-> ->]|[]].
  - by intros [[-> ->]|[]].
  - intros [[-> ->]|(x & tr' & -> & H)] Hr; [done|]. exists x, (tr' ++ tr2).
    split; [done|]. by apply IH.
Qed.

Lemma some_run (ans : forall X, E X -> X) {A} (p : prog E A) : exists tr r, runs p tr r.
Proof.
  induction p as [a|e|X e k IH].
  - by exists [], (Ok a).
  - by exists [], (Exn e).
  - destruct (IH (ans X e)) as (tr & r & H). exists (Ev e (ans X e) :: tr), r. by exists (ans X e), tr.
Qed.

(** [mute f p]: no call of [p] shows in the observation [f]. *)
Fixpoint mute {B} (f : forall X, E X -> X -> option B) {A} (p : prog E A) : Prop :=
  match p with
  | Vis e k => forall x, f _ e x = None /\ mute f (k x)
  | _ => True
  end.

Lemma mute_bind {A B C} (f : forall X, E X -> X -> option C) (p : prog E A) (k : A -> prog E B) :
  mute f p -> (forall a, mute f (k a)) -> mute f (p ≫= k).
Proof.
  intros Hp Hk. unfold mbind, prog_bind.
  induction p as [a|e|X e g IH]; cbn [mute pbind] in *; [apply Hk|done|].
  intros x. destruct (Hp x) as [He Hg]. split; [done|]. by apply IH.
Qed.

Lemma mute_runs {A B} (f : forall X, E X -> X -> option B) (p : prog E A) tr r :
  mute f p -> runs p tr r -> observe f tr = [].
Proof.
  revert tr. induction p as [a|e|X e g IH]; intros tr; cbn [mute runs].
  - by intros _ [-> _].
  - by intros _ [-> _].
  - intros Hm (x & tr' & -> & H). destruct (Hm x) as [He Hg]. unfold observe. cbn. rewrite He.
    by apply (IH x).
Qed.

(** Post-conditions of all runs, with their composition rule. *)
Definition has_post {A} (p : prog E A) (Q : list (event E) -> res A -> Prop) : Prop :=
  forall tr r, runs p tr r -> Q tr r.

Lemma has_post_bind {A B} (p : prog E A) (k : A -> prog E B)
    (P : list (event E) -> res A -> Prop) (Q : list (event E) -> res B -> Prop) :
  has_post p P ->
  (forall t1 a, P t1 (Ok a) -> has_post (k a) (fun t2 r => Q (t1 ++ t2) r)) ->
  (forall t e, P t (Exn e) -> Q t (Exn e)) ->
  has_post (p ≫= k) Q.
Proof.
  intros HP HQ HE tr r Hrun.
  apply runs_bind in Hrun as [(t1 & t2 & a & -> & H1 & H2)|(e & -> & H)].
  - eapply HQ; eauto.
  - apply HE, HP, H.
Qed.

(** Sequencing after a part that always returns. *)
Lemma runs_after {A B} (p : prog E A) (k : A -> prog E B) a P tr r :
  has_post p (fun t r => r = Ok a /\ P t) -> runs (p ≫= k) tr r ->
  exists t1 t2, tr = t1 ++ t2 /\ P t1 /\ runs (k a) t2 r.
Proof.
  intros Hp [(t1 & t2 & x & -> & H1 & H2)|(e & -> & H)]%runs_bind.
  - apply Hp in H1 as [[= ->] ?]. by exists t1, t2.
  - by apply Hp in H as [[=] _].
Qed.

Lemma runs_after_ex {A B} (p : prog E A) (k : A -> prog E B) P tr r :
  has_post p (fun t r => exists a, r = Ok a /\ P a t) -> runs (p ≫= k) tr r ->
  exists a t1 t2, tr = t1 ++ t2 /\ P a t1 /\ runs (k a) t2 r.
Proof.
  intros Hp [(t1 & t2 & x & -> & H1 & H2)|(e & -> & H)]%runs_bind.
  - apply Hp in H1 as (a & [= ->] & ?). by exists a, t1, t2.
  - by apply Hp in H as (a & [=] & _).
Qed.

Lemma has_post_weaken {A} (p : prog E A) (P Q : list (event E) -> res A -> Prop) :
  has_post p P -> (forall t r, P t r -> Q t r) -> has_post p Q.
Proof. firstorder. Qed.

(** ** Execution against a state *)

Context {S : Type}.

(** The handler answers an effect and updates the state, or blocks
    ([None]). *)
Definition handler := forall X, E X -> S -> option (X * S).

Fixpoint exec (h : handler) {A} (p : prog E A) (s : S)
    : option (list (event E) * res A * S) :=
  match p with
  | Ret a => Some ([], Ok a, s)
  | Throw e => Some ([], Exn e, s)
  | Vis e k =>
      match h _ e s with
      | None => None
      | Some (x, s1) =>
          match exec h (k x) s1 with
          | None => None
          | Some (tr, r, s2) => Some (Ev e x :: tr, r, s2)
          end
      end
  end.

Lemma exec_runs (h : handler) {A} (p : prog E A) s tr r s' :
  exec h p s = Some (tr, r, s') -> runs p tr r.
Proof.
  revert s tr. induction p as [a|e|X e k IH]; intros s tr; simpl.
  - intros [= <- <- _]. done.
  - intros [= <- <- _]. done.
  - destruct (h X e s) as [[x s1]|]; [|done].
    destruct (exec h (k x) s1) as [[[tr' r'] s2]|] eqn:Ex; [|done].
    intros [= <- <- <-]. exists x, tr'. split; [done|]. by eapply IH.
Qed.

Lemma exec_bind (h : handler) {A B} (p : prog E A) (k : A -> prog E B) s t1 a s1 :
  exec h p s = Some (t1, Ok a, s1) ->
  exec h (p ≫= k) s =
    match exec h (k a) s1 with
    | None => None
    | Some (t2, r, s2) => Some (t1 ++ t2, r, s2)
    end.
Proof.
  unfold mbind, prog_bind.
  revert s t1. induction p as [a'|e|X e f IH]; intros s t1; cbn [exec pbind].
  - intros [= <- <- <-]. by destruct (exec h (k a') s) as [[[t2 r] s2]|].
  - done.
  - destruct (h X e s) as [[x s']|]; [|done].
    destruct (exec h (f x) s') as [[[t' r'] s'']|] eqn:Ex; [|done].
    intros [= <- -> ->]. specialize (IH _ _ _ Ex).
    rewrite IH.
    by destruct (exec h (k a) s1) as [[[t2 r] s2]|].
Qed.
End Runs.
Arguments handler E S : clear implicits.

(** ** Programs that behave alike

    [alike R p q]: both make the same calls, whatever they are answered, and
    end alike: in results related by [R], or in the same exception. *)
Inductive alike {E : Type -> Type} {A B : Type} (R : A -> B -> Prop) : prog E A -> prog E B -> Prop :=
| alike_ret a b : R a b -> alike R (Ret a) (Ret b)
| alike_throw e : alike R (Throw e) (Throw e)
| alike_vis X (e : E X) f g : (forall x, alike R (f x) (g x)) -> alike R (Vis e f) (Vis e g).

Section Alike.
Context {E : Type -> Type}.

Lemma alike_refl {A} (R : A -> A -> Prop) (p : prog E A) : (forall a, R a a) -> alike R p p.
Proof. intros HR. induction p as [a|e|X e k IH]; constructor; auto. Qed.

Lemma alike_bind {A B C D} (R : A -> B -> Prop) (S : C -> D -> Prop) (p : prog E A) (q : prog E B)
    (f : A -> prog E C) (g : B -> prog E D) :
  alike R p q -> (forall a b, R a b -> alike S (f a) (g b)) -> alike S (p ≫= f) (q ≫= g).
Proof.
  intros Hpq Hfg. unfold mbind, prog_bind.
  induction Hpq as [a b H|e|X e h k _ IH]; cbn [pbind]; [by apply Hfg|constructor|].
  by constructor.
Qed.

(** The common case: the same first part. *)
Lemma alike_seq {A C D} (S : C -> D -> Prop) (p : prog E A) (f : A -> prog E C) (g : A -> prog E D) :
  (forall a, alike S (f a) (g a)) -> alike S (p ≫= f) (p ≫= g).
Proof.
  intros Hfg. apply (alike_bind eq); [by apply alike_refl|]. by intros a ? <-.
Qed.

(** Alike programs have the same runs, up to their results. *)
Lemma alike_runs {A} (p q : prog E A) tr r : alike eq p q -> runs p tr r <-> runs q tr r.
Proof.
  intros H. revert tr. induction H as [a b ->|e|X e f g _ IH]; intros tr; cbn [runs]; [done..|].
  split; intros (x & t & -> & Hr); exists x, t; (split; [done|]); by apply IH.
Qed.
End Alike.

Lemma alike_interp {E F A B} (R : A -> B -> Prop) (h : forall X, E X -> prog F X) p q :
  alike R p q -> alike R (interp h p) (interp h q).
Proof.
  induction 1 as [a b H|e|X e f g _ IH]; cbn [interp]; [by constructor|constructor|].
  by apply (alike_seq R (h X e)).
Qed.

(** Destructs a hypothesis [runs p tr r] down to its leaves: one goal per
    control path of [p], the trace written out. *)
Ltac split_head p :=
  lazymatch p with
  | pbind _ ?q => split_head q
  | mbind _ ?q => split_head q
  | catch _ ?q => split_head q
  | of_res ?r => is_var r; destruct r
  | match ?c with _ => _ end => destruct c eqn:?
  end.

Ltac runs_step H :=
  lazymatch type of H with
  | runs ?p _ _ =>
      first [split_head p
            | progress cbn [runs pbind mbind prog_bind mret prog_ret trigger of_res catch] in H]
  | exists _, _ => let x := fresh "x" in destruct H as [x H]
  | ?t = _ /\ _ => destruct H as [-> H]
  | runs _ _ _ /\ _ => let H1 := fresh "Hrun" in destruct H as [H1 H]
  end.
Ltac runs_inv H := repeat (runs_step H).

(** Two steps of a sequence: [runs_seq H as x] for a call, [runs_part H L] for a
    sub-program whose runs [L] describes. *)
Tactic Notation "runs_seq" hyp(H) "as" ident(x) :=
  cbn [pbind mbind prog_bind trigger mret prog_ret catch of_res] in H;
  apply runs_vis in H as (x & ? & -> & H).

Tactic Notation "runs_skip" hyp(H) := let u := fresh "u" in runs_seq H as u.

(** The same for [steps p tr q], with one goal per reachable point of [p]. *)
Ltac steps_step H :=
  lazymatch type of H with
  | steps ?p _ _ =>
      first [split_head p
            | progress cbn [steps pbind mbind prog_bind mret prog_ret trigger of_res catch] in H]
  | _ \/ _ => let H1 := fresh "Hstop" in destruct H as [H1|H]; [destruct H1 as [-> ->]|]
  | False => destruct H
  | exists _, _ => let x := fresh "x" in destruct H as [x H]
  | ?t = _ /\ _ => destruct H as [-> H]
  end.
Ltac steps_inv H := repeat (steps_step H).

(** Closes [mute f p] by looking at every control path of [p]. *)
Ltac mute_solve :=
  repeat (first
    [ progress cbn [mute mbind prog_bind pbind trigger mret prog_ret of_res]
    | match goal with |- forall _, _ => intros ? | |- _ /\ _ => split end
    | match goal with |- context [of_res ?r] => destruct r end
    | match goal with |- context [if ?b then _ else _] => destruct b end
    | done ]).

Ltac split_units := repeat match goal with u : unit |- _ => destruct u end.

(** Builds a run step by step: the next call is answered by [x]. *)
Ltac answer x := exists x; eexists; split; [reflexivity|].

(** ** Logging

    [spdlog::<level>("<format>", args...)] is recorded with its arguments;
    formatting is the library's. *)
Inductive log_level := trace | debug | info | warn | err | critical.

#[export] Instance log_level_eq_dec : EqDecision log_level.
Proof. solve_decision. Defined.

Inductive log_arg :=
| AStr (s : string)
| AInt (z : Z).

Record log_record := mk_log {
  log_lvl : log_level;
  log_fmt : string;
  log_args : list log_arg;
}.
