(* ===== verification/Floats.v ===== *)
(** * IEEE 754 floats

    [float] and [double] as the axiom-free [spec_float] of the standard
    library, at the two formats the sources use, with the operations they
    perform.  A finite [float] is a multiple of [2^-149]: [units] gives that
    integer, and comparison of valid floats is comparison of units. *)

From Stdlib Require Import ZArith Lia SpecFloat.
From stdpp Require Import base tactics numbers.
From S2P Require Import Prelude.

#[local] Open Scope Z_scope.

(** [float]: 24 bits of precision; [double]: 53. *)
Definition f32_prec : Z := 24.
Definition f32_emax : Z := 128.
Definition f64_prec : Z := 53.
Definition f64_emax : Z := 1024.

Definition f32_valid (x : spec_float) : bool := valid_binary f32_prec f32_emax x.

Definition f32_of_Z (z : Z) : spec_float := binary_normalize f32_prec f32_emax z 0 false.
Definition f64_of_Z (z : Z) : spec_float := binary_normalize f64_prec f64_emax z 0 false.
Definition f32_mul : spec_float -> spec_float -> spec_float := SFmul f32_prec f32_emax.
Definition f64_mul : spec_float -> spec_float -> spec_float := SFmul f64_prec f64_emax.
Definition f64_div : spec_float -> spec_float -> spec_float := SFdiv f64_prec f64_emax.

(** The comparison operators of C++: false when an operand is NaN. *)
Definition flt (x y : spec_float) : bool := SFltb x y.
Definition fgt (x y : spec_float) : bool := SFltb y x.
Definition fle (x y : spec_float) : bool := SFleb x y.

(** [std::fmin] and [std::fmax]: a NaN operand is ignored. *)
Definition fmin (x y : spec_float) : spec_float :=
  match x, y with
  | S754_nan, _ => y
  | _, S754_nan => x
  | _, _ => if SFltb y x then y else x
  end.

Definition fmax (x y : spec_float) : spec_float :=
  match x, y with
  | S754_nan, _ => y
  | _, S754_nan => x
  | _, _ => if SFltb x y then y else x
  end.

(** Conversion of a finite float to an integer type truncates toward zero;
    it is undefined for infinities and NaN ([None]). *)
Definition ftrunc (x : spec_float) : option Z :=
  match x with
  | S754_zero _ => Some 0
  | S754_finite s m e =>
      let q := if 0 <=? e then Zpos m * 2 ^ e else Zpos m / 2 ^ (- e) in
      Some (if s then - q else q)
  | _ => None
  end.

(** Floating-point literals of the sources. *)
Definition f32_0_25 : spec_float := S754_finite false 8388608 (-25).
Definition f32_1 : spec_float := f32_of_Z 1.
Definition f32_m1 : spec_float := SFopp (f32_of_Z 1).
Definition f32_4 : spec_float := f32_of_Z 4.
Definition f32_32767 : spec_float := f32_of_Z 32767.
Definition f64_0 : spec_float := S754_zero false.
Definition f64_1 : spec_float := f64_of_Z 1.

(** ** Comparison of valid floats *)

Section Compare.
Variables prec emax : Z.

(** The value in units of the smallest positive float. *)
Definition units (x : spec_float) : option Z :=
  match x with
  | S754_zero _ => Some 0
  | S754_finite s m e =>
      Some (cond_Zopp s (Zpos m * 2 ^ (e - emin prec emax)))
  | _ => None
  end.

Lemma digits2_pos_bounds m :
  2 ^ (Zpos (digits2_pos m) - 1) <= Zpos m < 2 ^ Zpos (digits2_pos m).
Proof.
  induction m as [m IH|m IH|]; cbn [digits2_pos]; [| |simpl; lia];
    rewrite Pos2Z.inj_succ; rewrite Z.pow_succ_r by lia;
    replace (Z.succ (Zpos (digits2_pos m)) - 1) with (Z.succ (Zpos (digits2_pos m) - 1)) by lia;
    rewrite Z.pow_succ_r by lia; lia.
Qed.

Lemma valid_finite s m e :
  valid_binary prec emax (S754_finite s m e) = true ->
  emin prec emax <= e /\ Zpos m < 2 ^ prec /\
  (emin prec emax < e -> 2 ^ (prec - 1) <= Zpos m).
Proof.
  simpl. unfold bounded, canonical_mantissa, fexp.
  intros H. apply andb_true_iff in H as [H _]. apply Z.eqb_eq in H.
  pose proof (digits2_pos_bounds m) as [Hlo Hhi].
  split; [lia|]. split.
  - destruct (Z.le_gt_cases (Zpos (digits2_pos m)) prec) as [Hle|Hgt]; [|lia].
    eapply Z.lt_le_trans; [exact Hhi|]. by apply Z.pow_le_mono_r.
  - intros He. assert (Zpos (digits2_pos m) = prec) as <- by lia. done.
Qed.

(** A smaller exponent means a smaller magnitude. *)
Lemma valid_exponent_lt s1 m1 e1 s2 m2 e2 :
  0 < prec ->
  valid_binary prec emax (S754_finite s1 m1 e1) = true ->
  valid_binary prec emax (S754_finite s2 m2 e2) = true ->
  e1 < e2 ->
  Zpos m1 * 2 ^ (e1 - emin prec emax) < Zpos m2 * 2 ^ (e2 - emin prec emax).
Proof.
  intros Hp H1 H2 He.
  apply valid_finite in H1 as (He1 & Hm1 & _). apply valid_finite in H2 as (He2 & _ & Hm2).
  specialize (Hm2 ltac:(lia)).
  set (k := e1 - emin prec emax) in *.
  assert (0 < 2 ^ k) by (apply Z.pow_pos_nonneg; lia).
  assert (2 ^ (k + 1) <= 2 ^ (e2 - emin prec emax)) as Hk by (apply Z.pow_le_mono_r; lia).
  rewrite Z.pow_add_r in Hk by lia.
  replace prec with (Z.succ (prec - 1)) in Hm1 at 1 by lia.
  rewrite Z.pow_succ_r in Hm1 by lia. simpl (2 ^ 1) in Hk. nia.
Qed.

Lemma valid_magnitude_pos s m e :
  valid_binary prec emax (S754_finite s m e) = true ->
  0 < Zpos m * 2 ^ (e - emin prec emax).
Proof.
  intros H. apply valid_finite in H as (He & _).
  apply Z.mul_pos_pos; [lia|]. apply Z.pow_pos_nonneg; lia.
Qed.

Lemma magnitude_compare s1 m1 e1 s2 m2 e2 :
  0 < prec ->
  valid_binary prec emax (S754_finite s1 m1 e1) = true ->
  valid_binary prec emax (S754_finite s2 m2 e2) = true ->
  match e1 ?= e2 with Lt => Lt | Gt => Gt | Eq => Pos.compare_cont Eq m1 m2 end
  = (Zpos m1 * 2 ^ (e1 - emin prec emax) ?= Zpos m2 * 2 ^ (e2 - emin prec emax)).
Proof.
  intros Hp H1 H2. destruct (Z.compare_spec e1 e2) as [->|He|He]; symmetry.
  - rewrite <- Zmult_compare_compat_r; [done|].
    pose proof (valid_magnitude_pos _ _ _ H1). nia.
  - apply Z.compare_lt_iff. by eapply valid_exponent_lt.
  - apply Z.compare_gt_iff. by eapply valid_exponent_lt.
Qed.

Lemma SFcompare_units x y a b :
  0 < prec -> valid_binary prec emax x = true -> valid_binary prec emax y = true ->
  units x = Some a -> units y = Some b -> SFcompare x y = Some (a ?= b).
Proof.
  intros Hp Hx Hy Ha Hb.
  destruct x as [s1| | |s1 m1 e1], y as [s2| | |s2 m2 e2]; try done;
    injection Ha as <-; injection Hb as <-; cbn [SFcompare]; f_equal.
  - pose proof (valid_magnitude_pos _ _ _ Hy).
    destruct s2; symmetry; unfold cond_Zopp;
      [apply Z.compare_gt_iff | apply Z.compare_lt_iff]; lia.
  - pose proof (valid_magnitude_pos _ _ _ Hx).
    destruct s1; symmetry; unfold cond_Zopp;
      [apply Z.compare_lt_iff | apply Z.compare_gt_iff]; lia.
  - pose proof (valid_magnitude_pos _ _ _ Hx). pose proof (valid_magnitude_pos _ _ _ Hy).
    pose proof (magnitude_compare _ _ _ _ _ _ Hp Hx Hy) as Hm.
    destruct s1, s2; unfold cond_Zopp.
    + rewrite Z.compare_opp, (Z.compare_antisym (Zpos m1 * _)), <- Hm.
      by destruct (e1 ?= e2).
    + symmetry. apply Z.compare_lt_iff. lia.
    + symmetry. apply Z.compare_gt_iff. lia.
    + by rewrite <- Hm.
Qed.

Lemma SFltb_units x y a b :
  0 < prec -> valid_binary prec emax x = true -> valid_binary prec emax y = true ->
  units x = Some a -> units y = Some b -> SFltb x y = (a <? b).
Proof.
  intros Hp Hx Hy Ha Hb. unfold SFltb. by rewrite (SFcompare_units _ _ _ _ Hp Hx Hy Ha Hb).
Qed.
End Compare.

(** The value of a [float] as a number of [2^-149]. *)
Definition f32_units (x : spec_float) : option Z := units f32_prec f32_emax x.

Lemma flt_units x y a b :
  f32_valid x = true -> f32_valid y = true ->
  f32_units x = Some a -> f32_units y = Some b -> flt x y = (a <? b).
Proof. intros. eapply SFltb_units; eauto. done. Qed.

Definition is_finite (x : spec_float) : bool :=
  match x with S754_zero _ | S754_finite _ _ _ => true | _ => false end.

Lemma is_finite_units x : is_finite x = true <-> exists a, f32_units x = Some a.
Proof. destruct x; simpl; split; try done; try (by eexists); by intros [? [=]]. Qed.

(** ** Rounding

    How far [binary_round_aux] can move a product: it never exceeds a bound
    that is itself a multiple of the grid it rounds to. *)

Lemma iter_pos_nat {A} (f : A -> A) p x :
  SpecFloat.iter_pos f p x = Nat.iter (Pos.to_nat p) f x.
Proof.
  revert x. induction p as [p IH|p IH|]; intros x; cbn [SpecFloat.iter_pos]; [..|done].
  - rewrite !IH, Pos2Nat.inj_xI. rewrite <- Nat.iter_succ_r, <- Nat.iter_add.
    f_equal. lia.
  - rewrite !IH, Pos2Nat.inj_xO, <- Nat.iter_add. f_equal. lia.
Qed.

Lemma shr_1_iter M k :
  0 <= M ->
  let mrs := Nat.iter k shr_1 (Build_shr_record M false false) in
  shr_m mrs = M / 2 ^ Z.of_nat k /\
  (M mod 2 ^ Z.of_nat k = 0 -> shr_r mrs = false /\ shr_s mrs = false).
Proof.
  intros HM. induction k as [|k IH]; cbn [Nat.iter].
  { simpl. by rewrite Z.div_1_r. }
  change (Nat.iter (S k) shr_1 (Build_shr_record M false false))
    with (shr_1 (Nat.iter k shr_1 (Build_shr_record M false false))).
  cbn zeta in IH |- *.
  destruct (Nat.iter k shr_1 (Build_shr_record M false false)) as [m r s].
  cbn [shr_m shr_r shr_s] in IH. destruct IH as [Hm Hrs].
  rewrite Nat2Z.inj_succ, Z.pow_succ_r by lia.
  assert (0 < 2 ^ Z.of_nat k) by (apply Z.pow_pos_nonneg; lia).
  rewrite (Z.mul_comm 2), <- Z.div_div, <- Hm by lia.
  assert (M mod (2 ^ Z.of_nat k * 2) = 0 -> M mod 2 ^ Z.of_nat k = 0 /\ m mod 2 = 0) as Hd.
  { intros Hz0. apply Z.mod_divide in Hz0 as [q Hq]; [|lia]. subst m. split.
    - apply Z.mod_divide; [lia|]. exists (q * 2). lia.
    - rewrite Hq. replace (q * (2 ^ Z.of_nat k * 2)) with (q * 2 * 2 ^ Z.of_nat k) by lia.
      rewrite Z.div_mul by lia. apply Z.mod_mul. lia. }
  assert (0 <= m) by (subst m; apply Z.div_pos; lia).
  destruct m as [|p|p]; [| |lia].
  - split; [done|]. intros Hz0. destruct (Hrs (proj1 (Hd Hz0))) as [-> ->]. done.
  - destruct p as [p|p|]; cbn [shr_1 shr_m shr_r shr_s].
    + split; [rewrite (Pos2Z.inj_xI p), Z.add_comm, Z.mul_comm, Z.div_add by lia; done|].
      intros Hz0. destruct (Hd Hz0) as [_ H1]. rewrite Pos2Z.inj_xI, Z.add_comm, Z.mul_comm, Z.mod_add in H1 by lia. done.
    + split; [rewrite (Pos2Z.inj_xO p), Z.mul_comm, Z.div_mul by lia; done|].
      intros Hz0. destruct (Hrs (proj1 (Hd Hz0))) as [-> ->]. done.
    + split; [done|]. intros Hz0. destruct (Hd Hz0) as [_ H1]. done.
Qed.

(** One rounding step keeps a bound that is a multiple of the new grid. *)
Lemma round_step_bound M n V :
  0 <= M <= V -> (2 ^ Z.max 0 n | V) ->
  let mrs := (shr (Build_shr_record M false false) 0 n).1 in
  0 <= shr_m mrs /\
  shr_m mrs * 2 ^ Z.max 0 n <= M /\
  0 <= round_nearest_even (shr_m mrs) (loc_of_shr_record mrs) /\
  round_nearest_even (shr_m mrs) (loc_of_shr_record mrs) * 2 ^ Z.max 0 n <= V.
Proof.
  intros HM [q Hq]. destruct n as [|p|p]; cbn [shr fst];
    [change (Z.max 0 0) with 0 in *; rewrite Z.pow_0_r in *;
     cbn [shr_m loc_of_shr_record round_nearest_even]; lia
    | | change (Z.max 0 (Zneg p)) with 0 in *; rewrite Z.pow_0_r in *;
     cbn [shr_m loc_of_shr_record round_nearest_even]; lia].
  rewrite iter_pos_nat. pose proof (shr_1_iter M (Pos.to_nat p)) as Hs. cbn zeta in Hs.
  destruct Hs as [Hm Hrs]; [lia|].
  rewrite positive_nat_Z in *.
  change (Z.max 0 (Zpos p)) with (Zpos p) in *.
  assert (0 < 2 ^ Zpos p) as H2 by (apply Z.pow_pos_nonneg; lia).
  destruct (Nat.iter _ _ _) as [m r s]. cbn [shr_m shr_r shr_s] in *. subst m.
  pose proof (Z.div_mod M (2 ^ Zpos p)) as Hdm. pose proof (Z.mod_pos_bound M (2 ^ Zpos p) H2).
  assert (0 <= M / 2 ^ Zpos p) by (apply Z.div_pos; lia).
  specialize (Hdm ltac:(lia)).
  split; [done|]. split; [lia|].
  assert (M mod 2 ^ Zpos p <> 0 -> M / 2 ^ Zpos p + 1 <= q) as Hup.
  { intros Hne. assert (M / 2 ^ Zpos p < q); [|lia].
    apply Z.div_lt_upper_bound; [done|].
    destruct (Z.eq_dec M V) as [->|]; [|lia].
    exfalso. apply Hne. rewrite Hq. apply Z.mod_mul. lia. }
  assert (M / 2 ^ Zpos p <= q) as Hlow.
  { rewrite Hq in HM. apply Z.div_le_upper_bound; lia. }
  destruct (Z.eq_dec (M mod 2 ^ Zpos p) 0) as [Hz0|Hne].
  - destruct (Hrs Hz0) as [-> ->]. simpl. nia.
  - specialize (Hup Hne). destruct r, s; cbn [loc_of_shr_record round_nearest_even];
      try (destruct (Z.even _)); nia.
Qed.

Lemma shr_snd mrs e n : (shr mrs e n).2 = e + Z.max 0 n.
Proof. destruct n; simpl; lia. Qed.

Lemma shr_fst mrs e e' n : (shr mrs e n).1 = (shr mrs e' n).1.
Proof. by destruct n. Qed.

Lemma round_aux_bound prec emax sx M E V :
  0 < M <= V ->
  (2 ^ Z.max 0 (fexp prec emax (Zdigits2 M + E) - E) | V) ->
  match binary_round_aux prec emax sx M E loc_Exact with
  | S754_zero s => s = sx
  | S754_finite s m e => s = sx /\ E <= e /\ Zpos m * 2 ^ (e - E) <= V
  | S754_infinity s => exists e, emax - prec < e /\ E <= e /\ 2 ^ (e - E) <= V
  | S754_nan => False
  end.
Proof.
  intros HM Hdiv. unfold binary_round_aux, shr_fexp. cbn [shr_record_of_loc].
  set (n1 := fexp prec emax (Zdigits2 M + E) - E) in *.
  pose proof (round_step_bound M n1 V ltac:(lia) Hdiv) as Hs1.
  pose proof (shr_snd (Build_shr_record M false false) E n1) as He1.
  rewrite (shr_fst _ 0 E) in Hs1. cbn zeta in Hs1.
  destruct (shr (Build_shr_record M false false) E n1) as [mrs1 e1]. cbn [fst snd] in *.
  destruct Hs1 as (_ & _ & Hm1 & Hv1).
  set (m1 := round_nearest_even (shr_m mrs1) (loc_of_shr_record mrs1)) in *.
  set (n2 := fexp prec emax (Zdigits2 m1 + e1) - e1).
  assert (0 < 2 ^ Z.max 0 n2) by (apply Z.pow_pos_nonneg; lia).
  assert (0 < 2 ^ Z.max 0 n1) by (apply Z.pow_pos_nonneg; lia).
  pose proof (round_step_bound m1 n2 (m1 * 2 ^ Z.max 0 n2)) as Hs2.
  destruct Hs2 as (Hm2 & Hv2 & _); [nia | by apply Z.divide_factor_r |].
  rewrite (shr_fst _ 0 e1) in Hm2, Hv2.
  pose proof (shr_snd (Build_shr_record m1 false false) e1 n2) as He2.
  destruct (shr (Build_shr_record m1 false false) e1 n2) as [mrs2 e2]. cbn [fst snd] in *.
  assert (shr_m mrs2 * 2 ^ (e2 - E) <= V) as Hfin.
  { replace (e2 - E) with (Z.max 0 n2 + Z.max 0 n1) by lia.
    rewrite Z.pow_add_r by lia. nia. }
  destruct (shr_m mrs2) as [|m|m]; [done| |lia].
  destruct (Z.leb_spec e2 (emax - prec)).
  - split_and!; [done|lia|done].
  - exists e2. split_and!; [lia|lia|].
    assert (0 < 2 ^ (e2 - E)) by (apply Z.pow_pos_nonneg; lia). nia.
Qed.
