(* ===== verification/Auth.v ===== *)
(** * Authentication helpers

    The pure functions of [include/tts/auth.hpp] and [src/server/auth.cpp]:
    constant-time comparison, client address extraction, bearer-token
    checking and the list of endpoints exempt from authentication.  The two
    rate limiters of the same header are in [RateLimit]. *)

From Stdlib Require Import ZArith Lia Ascii String.
From stdpp Require Import base tactics numbers list strings.
From S2P Require Import Prelude.

#[local] Open Scope Z_scope.

(** ** Constant-time comparison *)

(** The loop over [i < min(a.size(), b.size())], with its [uint8_t]
    accumulator. *)
Fixpoint ct_loop (a b : string) (result : Z) : Z :=
  match a, b with
  | String x a', String y b' =>
      ct_loop a' b' (u8 (Z.lor result (u8 (Z.lxor (byte_of x) (byte_of y)))))
  | _, _ => result
  end.

Definition constant_time_equals (a b : string) : bool :=
  ct_loop a b (u8 (Z.lxor (slen a) (slen b))) =? 0.

(** ** Client address *)

Definition comma : ascii := ","%char.

(** Optional white space of RFC 7239. *)
Definition is_ows (c : ascii) : bool :=
  Ascii.eqb c " "%char || Ascii.eqb c "009"%char.

(** [while (!ip.empty() && is_ows(ip.front())) ip.remove_prefix(1)] *)
Fixpoint trim_front (s : string) : string :=
  match s with
  | String c s' => if is_ows c then trim_front s' else s
  | EmptyString => EmptyString
  end.

(** [while (!ip.empty() && is_ows(ip.back())) ip.remove_suffix(1)] *)
Fixpoint trim_back (s : string) : string :=
  match s with
  | String c s' =>
      let r := trim_back s' in
      if sempty r && is_ows c then EmptyString else String c r
  | EmptyString => EmptyString
  end.

(** The loop that drops one entry from the right per trusted hop; [None] is
    its early return when no separator is left. *)
Fixpoint drop_hops (n : nat) (remaining : string) : option string :=
  match n with
  | O => Some remaining
  | S n =>
      match rfind comma remaining with
      | None => None
      | Some pos => drop_hops n (stake pos remaining)
      end
  end.

Definition extract_client_ip (forwarded_for remote_addr : string)
    (trust_proxy : bool) (trusted_hops : Z) : string :=
  if negb trust_proxy || sempty forwarded_for then remote_addr
  else
    match drop_hops (Z.to_nat (trusted_hops - 1)) forwarded_for with
    | None => remote_addr
    | Some remaining =>
        let ip := match rfind comma remaining with
                  | Some pos => sdrop (S pos) remaining
                  | None => remaining
                  end in
        let ip := trim_back (trim_front ip) in
        if sempty ip then remote_addr else ip
    end.

(** ** Bearer tokens *)

Record AuthResult := mk_auth {
  authenticated : bool;
  rate_limited : bool;
  retry_after_seconds : Z;
  error_code : string;
  error_message : string;
}.

Definition auth_init : AuthResult := mk_auth false false 0 "" "".

Definition bearer_prefix : string := "Bearer ".

Definition auth_failure (msg : string) : AuthResult :=
  mk_auth false false 0 "invalid_api_key" msg.

Definition check_bearer_auth (auth_header api_key : string) : AuthResult :=
  if sempty auth_header then
    auth_failure "Missing Authorization header. Use: Authorization: Bearer <api_key>"
  else if (slen auth_header <=? slen bearer_prefix)
          || negb (String.eqb (stake (String.length bearer_prefix) auth_header) bearer_prefix)
  then
    auth_failure "Invalid Authorization header format. Use: Authorization: Bearer <api_key>"
  else
    let token := sdrop (String.length bearer_prefix) auth_header in
    if negb (constant_time_equals token api_key) then
      auth_failure "Invalid API key provided."
    else mk_auth true false 0 "" "".

(** ** Endpoints that skip authentication and rate limiting *)

Definition is_internal_endpoint (path : string) : bool :=
  String.eqb path "/health" || String.eqb path "/ready" || String.eqb path "/metrics".

(** ** Lemmas: constant-time comparison *)

Lemma u8_lor_zero r d :
  0 <= r < 256 -> 0 <= d < 256 -> u8 (Z.lor r d) = 0 <-> r = 0 /\ d = 0.
Proof.
  intros Hr Hd. rewrite u8_small, lor_zero_iff; [done|].
  split; [apply Z.lor_nonneg; lia|].
  destruct (Z.eq_dec (Z.lor r d) 0) as [->|Hnz]; [lia|].
  assert (0 <= Z.lor r d) as H0 by (apply Z.lor_nonneg; lia).
  change 256 with (2 ^ 8). apply Z.log2_lt_pow2; [lia|].
  rewrite Z.log2_lor by lia.
  assert (forall z, 0 <= z < 256 -> Z.log2 z < 8) as Hlog.
  { intros z Hz. destruct (Z.eq_dec z 0) as [->|]; [done|].
    apply Z.log2_lt_pow2; lia. }
  apply Z.max_lub_lt; auto.
Qed.

Lemma byte_xor_zero x y : u8 (Z.lxor (byte_of x) (byte_of y)) = 0 <-> x = y.
Proof.
  pose proof (byte_of_bound x). pose proof (byte_of_bound y).
  split; [|intros ->; by rewrite Z.lxor_nilpotent].
  intros Hz. apply byte_of_inj, Z.lxor_eq.
  rewrite <- Hz. symmetry. unfold u8. rewrite <- Z.land_ones by lia.
  apply Z.bits_inj'. intros n Hn.
  rewrite Z.land_spec, Z.lxor_spec.
  destruct (Z.ltb_spec n 8) as [Hlt|Hge].
  - rewrite Z.ones_spec_low by lia. by rewrite andb_true_r.
  - rewrite Z.ones_spec_high by lia. rewrite andb_false_r. symmetry.
    assert (forall z, 0 <= z < 256 -> Z.testbit z n = false) as Hb.
    { intros z Hz'. destruct (Z.eq_dec z 0) as [->|]; [apply Z.bits_0|].
      apply Z.bits_above_log2; [lia|].
      assert (Z.log2 z < 8) by (apply Z.log2_lt_pow2; lia). lia. }
    by rewrite !Hb.
Qed.

Lemma ct_loop_zero a b r :
  0 <= r < 256 ->
  ct_loop a b r = 0 <->
  r = 0 /\ stake (Nat.min (String.length a) (String.length b)) a
           = stake (Nat.min (String.length a) (String.length b)) b.
Proof.
  revert b r. induction a as [|x a IH]; intros [|y b] r Hr; cbn [ct_loop];
    [by (simpl; split; [intros ->; done | intros [-> _]; done]) ..|].
  rewrite IH by apply u8_bound.
  rewrite (u8_lor_zero r) by auto with tts. rewrite byte_xor_zero. simpl.
  split.
  - intros [[-> ->] ->]. done.
  - intros [-> [= -> ->]]. done.
Qed.

(** Sizes that differ in their low byte are always told apart. *)
Lemma size_xor_zero (m n : Z) :
  u8 (Z.lxor m n) = 0 <-> m mod 256 = n mod 256.
Proof.
  unfold u8. rewrite <- Z.land_ones by lia.
  change 256 with (2 ^ 8). rewrite <- !Z.land_ones by lia.
  split.
  - intros H. apply Z.lxor_eq. rewrite <- H.
    apply Z.bits_inj'. intros i Hi. rewrite !Z.land_spec, !Z.lxor_spec, !Z.land_spec.
    by destruct (Z.testbit m i), (Z.testbit n i), (Z.testbit (Z.ones 8) i).
  - intros H.
    assert (Z.lxor (Z.land m (Z.ones 8)) (Z.land n (Z.ones 8)) = 0) as <-
      by (rewrite H; apply Z.lxor_nilpotent).
    apply Z.bits_inj'. intros i Hi. rewrite !Z.land_spec, !Z.lxor_spec, !Z.land_spec.
    by destruct (Z.testbit m i), (Z.testbit n i), (Z.testbit (Z.ones 8) i).
Qed.

Lemma constant_time_equals_iff a b :
  constant_time_equals a b = true <->
  slen a mod 256 = slen b mod 256 /\
  stake (Nat.min (String.length a) (String.length b)) a
  = stake (Nat.min (String.length a) (String.length b)) b.
Proof.
  unfold constant_time_equals.
  rewrite Z.eqb_eq, ct_loop_zero by apply u8_bound. by rewrite size_xor_zero.
Qed.

Lemma stake_all n s : (String.length s <= n)%nat -> stake n s = s.
Proof.
  revert n. induction s as [|c s IH]; intros [|n]; simpl; [done..|lia|].
  intros H. rewrite IH; [done|lia].
Qed.

Lemma constant_time_equals_close a b :
  Z.abs (slen a - slen b) < 256 ->
  constant_time_equals a b = true <-> a = b.
Proof.
  intros Hd. rewrite constant_time_equals_iff. split; [|intros ->; done].
  intros [Hm Hs].
  assert (slen a = slen b) as Hl.
  { pose proof (Z.div_mod (slen a) 256). pose proof (Z.div_mod (slen b) 256). lia. }
  unfold slen in Hl. apply Nat2Z.inj in Hl.
  rewrite <- Hl, Nat.min_id in Hs. rewrite stake_all in Hs by lia.
  rewrite Hl, stake_all in Hs by lia. done.
Qed.

Lemma constant_time_equals_padded key pad k :
  slen pad = 256 * k -> constant_time_equals (key +:+ pad) key = true.
Proof.
  intros Hp. apply constant_time_equals_iff. split.
  - rewrite slen_app, Hp. replace (slen key + 256 * k) with (slen key + k * 256) by lia.
    by apply Z_mod_plus_full.
  - assert (String.length key <= String.length (key +:+ pad))%nat as Hl.
    { pose proof (slen_app key pad) as Ha. pose proof (slen_nonneg pad).
      unfold slen in *. lia. }
    rewrite Nat.min_r by done. by rewrite stake_app_length, stake_all.
Qed.

(** ** Lemmas: client address *)

(** The [n]-th entry of a comma-separated header, counted from the right. *)
Definition field_from_right (n : nat) (s : string) : option string :=
  nth_error (rev (split_on comma s)) n.

(** The reference reading of [X-Forwarded-For]: the entry written by the
    outermost trusted proxy, trimmed; the socket address when there is none. *)
Definition client_ip_spec (forwarded_for remote_addr : string)
    (trust_proxy : bool) (trusted_hops : Z) : string :=
  if negb trust_proxy || sempty forwarded_for then remote_addr
  else
    match field_from_right (Z.to_nat (trusted_hops - 1)) forwarded_for with
    | Some f =>
        if sempty (trim_back (trim_front f)) then remote_addr
        else trim_back (trim_front f)
    | None => remote_addr
    end.

Lemma field_from_right_rfind s :
  field_from_right 0 s =
  Some match rfind comma s with Some pos => sdrop (S pos) s | None => s end.
Proof.
  unfold field_from_right. destruct (rfind comma s) as [pos|] eqn:E.
  - rewrite (rfind_Some_split _ _ _ E), rev_app_distr. done.
  - by rewrite (rfind_None_split _ _ E).
Qed.

Lemma field_from_right_S n s :
  field_from_right (S n) s =
  match rfind comma s with Some pos => field_from_right n (stake pos s) | None => None end.
Proof.
  unfold field_from_right. destruct (rfind comma s) as [pos|] eqn:E.
  - by rewrite (rfind_Some_split _ _ _ E), rev_app_distr.
  - rewrite (rfind_None_split _ _ E). by destruct n.
Qed.

Lemma drop_hops_field n s :
  match drop_hops n s with
  | Some r => field_from_right n s = field_from_right 0 r
  | None => field_from_right n s = None
  end.
Proof.
  revert s. induction n as [|n IH]; intros s; cbn [drop_hops]; [done|].
  rewrite field_from_right_S. destruct (rfind comma s) as [pos|]; [apply IH|done].
Qed.

Lemma field_from_right_app n p t :
  (n < length (split_on comma t))%nat ->
  field_from_right n (p +:+ String comma t) = field_from_right n t.
Proof.
  intros Hn. unfold field_from_right.
  rewrite split_on_app, rev_app_distr, nth_error_app1; [done|].
  by rewrite length_rev.
Qed.

Lemma extract_client_ip_unfold xff remote trust hops :
  extract_client_ip xff remote trust hops = client_ip_spec xff remote trust hops.
Proof.
  unfold extract_client_ip, client_ip_spec.
  destruct (negb trust || sempty xff); [done|].
  pose proof (drop_hops_field (Z.to_nat (hops - 1)) xff) as H.
  destruct (drop_hops _ xff) as [r|]; rewrite H; [|done].
  by rewrite field_from_right_rfind.
Qed.

(** ** Lemmas: bearer tokens *)

Lemma bearer_prefix_split h :
  ((slen h <=? slen bearer_prefix)
   || negb (String.eqb (stake (String.length bearer_prefix) h) bearer_prefix)) = false <->
  exists token, h = bearer_prefix +:+ token /\ token <> EmptyString.
Proof.
  rewrite orb_false_iff, negb_false_iff, Z.leb_gt, String.eqb_eq.
  split.
  - intros [Hl Hp]. exists (sdrop (String.length bearer_prefix) h).
    rewrite <- Hp at 1. split; [by rewrite stake_sdrop|].
    intros Hd. rewrite <- (stake_sdrop (String.length bearer_prefix) h), Hp, Hd, sapp_nil_r in Hl.
    lia.
  - intros (token & -> & Hne). rewrite slen_app. split; [|apply stake_app_length].
    pose proof (slen_nonneg token). pose proof (proj1 (slen_zero token)).
    assert (slen token <> 0) by naive_solver. lia.
Qed.

Lemma check_bearer_auth_iff h key :
  authenticated (check_bearer_auth h key) = true <->
  exists token, h = bearer_prefix +:+ token /\ token <> EmptyString /\
                constant_time_equals token key = true.
Proof.
  unfold check_bearer_auth.
  destruct (sempty h) eqn:He.
  { apply sempty_spec in He as ->. split; [done|]. by intros (t & Ht & _). }
  destruct (_ || _) eqn:Hp.
  - split; [done|]. intros (token & -> & Hne & _).
    rewrite (proj2 (bearer_prefix_split (bearer_prefix +:+ token))) in Hp; [done|].
    by exists token.
  - apply bearer_prefix_split in Hp as (token & -> & Hne).
    rewrite sdrop_app_length.
    destruct (constant_time_equals token key) eqn:Hc; simpl; split; try done.
    + intros _. by exists token.
    + intros (t & Ht & _ & Hc'). apply sapp_inj_l in Ht as <-. congruence.
Qed.

(** ** Properties *)

(** C33: the constant-time comparison decides equality of the presented token
    and the key whenever their lengths differ by less than 256 bytes. *)
Theorem constant_time_equals_correct a b (Hlen : Z.abs (slen a - slen b) < 256) :
  constant_time_equals a b = true <-> a = b.
Proof. by apply constant_time_equals_close. Qed.

Lemma constant_time_equals_correct_witness :
  Z.abs (slen "sekrit" - slen "sekrit2") < 256 /\
  (constant_time_equals "sekrit" "sekrit2" = true <-> "sekrit" = "sekrit2").
Proof.
  split; [reflexivity|].
  apply (constant_time_equals_correct "sekrit" "sekrit2"). reflexivity.
Defined.

(** The length check keeps only the low byte of the two sizes, so any key
    followed by a multiple of 256 further bytes is reported equal to the key:
    the comparison does not decide equality in general. *)
Theorem constant_time_equals_collision key pad k
    (Hpad : slen pad = 256 * k) (Hk : 0 < k) :
  constant_time_equals (key +:+ pad) key = true /\ key +:+ pad <> key.
Proof.
  split; [by eapply constant_time_equals_padded|].
  intros H. apply (f_equal slen) in H. rewrite slen_app in H. lia.
Qed.

Fixpoint srepeat (c : ascii) (n : nat) : string :=
  match n with O => EmptyString | S n => String c (srepeat c n) end.

Lemma constant_time_equals_collision_witness :
  slen (srepeat "x" 256) = 256 * 1 /\
  constant_time_equals ("key" +:+ srepeat "x" 256) "key" = true /\
  "key" +:+ srepeat "x" 256 <> "key".
Proof.
  split; [vm_compute; reflexivity|].
  apply (constant_time_equals_collision "key" (srepeat "x" 256) 1); vm_compute; reflexivity.
Defined.

(** Client address extraction computes the entry of [X-Forwarded-For]
    that the outermost of the [trusted_hops] proxies wrote (the reference
    reading by splitting on commas), and the socket address when the proxy is
    not trusted or there is no such entry. *)
Theorem extract_client_ip_refines_split xff remote trust hops :
  extract_client_ip xff remote trust hops = client_ip_spec xff remote trust hops.
Proof. apply extract_client_ip_unfold. Qed.

(** C32: a client cannot choose its own address: whatever it puts in front of
    the entries written by the trusted proxies is ignored. *)
Theorem extract_client_ip_no_spoofing forged trusted remote trust hops
    (Hhops : 1 <= hops)
    (Htrusted : hops <= Z.of_nat (length (split_on comma trusted)))
    (Hne : trusted <> EmptyString) :
  extract_client_ip (forged +:+ String comma trusted) remote trust hops
  = extract_client_ip trusted remote trust hops.
Proof.
  rewrite !extract_client_ip_unfold. unfold client_ip_spec.
  destruct trust; [|done]. simpl.
  rewrite field_from_right_app by lia.
  destruct trusted as [|c s]; [done|]. by destruct forged.
Qed.

Lemma extract_client_ip_no_spoofing_witness :
  extract_client_ip ("1.2.3.4" +:+ String comma "9.9.9.9, 10.0.0.1") "10.0.0.2" true 2
  = extract_client_ip "9.9.9.9, 10.0.0.1" "10.0.0.2" true 2 /\
  extract_client_ip "9.9.9.9, 10.0.0.1" "10.0.0.2" true 2 = "9.9.9.9".
Proof.
  split; [|vm_compute; reflexivity].
  apply (extract_client_ip_no_spoofing "1.2.3.4" "9.9.9.9, 10.0.0.1" "10.0.0.2" true 2);
    [lia | vm_compute; discriminate | discriminate].
Defined.

(** C34: bearer authentication succeeds exactly on [Bearer <token>] with a
    non-empty token that the constant-time comparison equates with the key. *)
Theorem check_bearer_auth_correct header key :
  authenticated (check_bearer_auth header key) = true <->
  exists token, header = bearer_prefix +:+ token /\ token <> EmptyString /\
                constant_time_equals token key = true.
Proof. apply check_bearer_auth_iff. Qed.
