(* ===== verification/RateLimit.v ===== *)
(** * Rate limiters

    [AuthRateLimiter] and [RequestRateLimiter] of [include/tts/auth.hpp]:
    per-address fixed-window counters in an [unordered_map], modelled as
    [gmap string IpState].  Each method runs under the object's mutex, so it
    is one atomic function from the state to its result and the new state.

    Time is [steady_clock] in nanoseconds.  [ip_states_[ip]] default
    constructs a missing entry, whose [window_start] initialiser reads the
    clock again after [now] was read; the methods therefore take both
    readings, [now] and [now_ins].  The counters are [size_t] and wrap at
    [2^64]. *)

From Stdlib Require Import ZArith Lia.
From stdpp Require Import base tactics numbers list strings gmap fin_maps.
From S2P Require Import Prelude.

#[local] Open Scope Z_scope.

(** [duration_cast<seconds>] truncates. *)
Definition duration_secs (d : Z) : Z := Z.quot d SEC.

Lemma duration_secs_ge d k : 0 < k -> k <=? duration_secs d = (k * SEC <=? d).
Proof.
  intros Hk. unfold duration_secs, SEC.
  pose proof (Z.quot_rem' d 1000000000) as Hq.
  pose proof (Z.rem_bound_abs d 1000000000).
  destruct (Z.leb_spec k (Z.quot d 1000000000)), (Z.leb_spec (k * 1000000000) d); try done; exfalso.
  - assert (0 <= Z.rem d 1000000000 \/ Z.rem d 1000000000 < 0) as [?|?] by lia; [lia|].
    pose proof (Z.rem_sign_nz d 1000000000). nia.
  - assert (0 <= d) by nia.
    pose proof (Z.rem_nonneg d 1000000000). nia.
Qed.

(** ** Per-address authentication failures *)

Module AuthLimiter.

Record IpState := mk_ip { failures : Z; window_start : Z }.

#[export] Instance IpState_eq_dec : EqDecision IpState.
Proof. solve_decision. Defined.

Record AuthRateLimiter := mk_limiter {
  max_failures : Z;
  window_secs : Z;
  max_tracked_ips : Z;
  ip_states : gmap string IpState;
}.

Definition with_states (L : AuthRateLimiter) (m : gmap string IpState) : AuthRateLimiter :=
  mk_limiter (max_failures L) (window_secs L) (max_tracked_ips L) m.

(** The iteration order of an [unordered_map] is unspecified: any
    enumeration of its entries. *)
Class Iteration (it : gmap string IpState -> list (string * IpState)) : Prop :=
  iteration_perm : forall m, it m ≡ₚ map_to_list m.

#[export] Instance map_to_list_iteration : Iteration map_to_list.
Proof. by intros m. Qed.

Definition expired (window now : Z) (s : IpState) : bool :=
  window * SEC <? now - window_start s.

(** First loop of [evict_to_cap]. *)
Definition erase_expired (window now : Z) (m : gmap string IpState) : gmap string IpState :=
  filter (fun kv => expired window now kv.2 = false) m.

(** The scan for the oldest entry, in iteration order with a strict
    comparison. *)
Definition oldest (l : list (string * IpState)) : option (string * IpState) :=
  match l with
  | [] => None
  | kv :: l' =>
      Some (foldl (fun best kv =>
              if window_start kv.2 <? window_start best.2 then kv else best) kv l')
  end.

Definition evict_oldest (it : gmap string IpState -> list (string * IpState))
    (m : gmap string IpState) : gmap string IpState :=
  match oldest (it m) with Some kv => delete kv.1 m | None => m end.

(** Second loop of [evict_to_cap]; [fuel] bounds the number of evictions. *)
Fixpoint evict_loop it (cap : Z) (fuel : nat) (m : gmap string IpState) : gmap string IpState :=
  match fuel with
  | O => m
  | S fuel =>
      if cap <? Z.of_nat (size m) then evict_loop it cap fuel (evict_oldest it m) else m
  end.

Definition evict_to_cap it (L : AuthRateLimiter) (now : Z)
    (m : gmap string IpState) : gmap string IpState :=
  let m := erase_expired (window_secs L) now m in
  evict_loop it (max_tracked_ips L) (size m) m.

(** The entry [ip_states_[ip]] after the window check and the increment. *)
Definition next_state (window now now_ins : Z) (entry : option IpState) : IpState :=
  let state := default (mk_ip 0 now_ins) entry in
  let state := if expired window now state then mk_ip 0 now else state in
  mk_ip (u64 (failures state + 1)) (window_start state).

Definition check_and_record_failure it (L : AuthRateLimiter) (now now_ins : Z) (ip : string)
    : bool * AuthRateLimiter :=
  let state := next_state (window_secs L) now now_ins (ip_states L !! ip) in
  let m := <[ip := state]> (ip_states L) in
  let is_blocked := max_failures L <? failures state in
  let m := if (0 <? max_tracked_ips L) && (max_tracked_ips L <? Z.of_nat (size m))
           then evict_to_cap it L now m else m in
  (is_blocked, with_states L m).

Definition is_blocked (L : AuthRateLimiter) (now : Z) (ip : string) : bool * AuthRateLimiter :=
  match ip_states L !! ip with
  | None => (false, L)
  | Some s =>
      if expired (window_secs L) now s
      then (false, with_states L (delete ip (ip_states L)))
      else (max_failures L <? failures s, L)
  end.

Definition tracked (L : AuthRateLimiter) : Z := Z.of_nat (size (ip_states L)).

(** *** Lemmas: eviction *)

Lemma oldest_fold (l : list (string * IpState)) kv0 :
  let r := foldl (fun best kv =>
             if window_start kv.2 <? window_start best.2 then kv else best) kv0 l in
  r ∈ kv0 :: l /\ Forall (fun kv => window_start r.2 <= window_start kv.2) (kv0 :: l).
Proof.
  revert kv0. induction l as [|kv l IH]; intros kv0; simpl.
  - split; [by constructor|]. by repeat constructor.
  - destruct (Z.ltb_spec (window_start kv.2) (window_start kv0.2)) as [Hlt|Hge].
    + destruct (IH kv) as [Hin Hall]. split; [by constructor|].
      constructor; [|done]. apply Forall_cons in Hall as [? _]. lia.
    + destruct (IH kv0) as [Hin Hall]. apply Forall_cons in Hall as [Hk Hall].
      split; [|constructor; [done|]; constructor; [lia|done]].
      apply elem_of_cons in Hin as [->|Hin]; [by constructor|].
      by do 2 constructor.
Qed.

Lemma oldest_spec it `{!Iteration it} m kv :
  oldest (it m) = Some kv ->
  m !! kv.1 = Some kv.2 /\
  forall k s, m !! k = Some s -> window_start kv.2 <= window_start s.
Proof.
  pose proof (iteration_perm (it := it) m) as Hp.
  destruct (it m) as [|kv0 l] eqn:El; [done|]. simpl. intros [= <-].
  destruct (oldest_fold l kv0) as [Hin Hall]. split.
  - apply elem_of_map_to_list. destruct (foldl _ _ _) as [k s].
    by rewrite <- Hp.
  - intros k s Hk. apply elem_of_map_to_list in Hk. rewrite <- Hp in Hk.
    rewrite Forall_forall in Hall. by apply (Hall (k, s)).
Qed.

Lemma oldest_nonempty it `{!Iteration it} m :
  (0 < size m)%nat -> exists kv, oldest (it m) = Some kv.
Proof.
  intros Hs. pose proof (iteration_perm (it := it) m) as Hp.
  destruct (it m) as [|kv l]; [|by eexists].
  apply Permutation_nil_l in Hp. rewrite <- length_map_to_list, <- Hp in Hs. simpl in Hs. lia.
Qed.

Lemma evict_oldest_size it `{!Iteration it} m :
  (0 < size m)%nat -> size (evict_oldest it m) = (size m - 1)%nat.
Proof.
  intros Hs. unfold evict_oldest.
  destruct (oldest_nonempty it m Hs) as (kv & Hkv). rewrite Hkv.
  apply oldest_spec in Hkv as [Hk _]; [|done].
  rewrite (map_size_delete_Some kv.1 m) by done. lia.
Qed.

(** Each iteration of the loop removes one entry, so the number of entries
    is enough fuel. *)
Lemma evict_loop_size it `{!Iteration it} cap fuel m :
  0 <= cap -> (size m <= fuel)%nat ->
  Z.of_nat (size (evict_loop it cap fuel m)) <= cap.
Proof.
  intros Hcap. revert m. induction fuel as [|fuel IH]; intros m Hf; simpl; [lia|].
  zcase; [|lia]. apply IH. rewrite evict_oldest_size by (done || lia). lia.
Qed.

Lemma evict_loop_subseteq it cap fuel m : evict_loop it cap fuel m ⊆ m.
Proof.
  revert m. induction fuel as [|fuel IH]; intros m; simpl; [done|].
  zcase; [|done]. etrans; [apply IH|]. unfold evict_oldest.
  destruct (oldest _); [apply delete_subseteq|done].
Qed.

(** What the loop drops is never younger than what it keeps. *)
Lemma evict_loop_oldest it `{!Iteration it} cap fuel m k s k' s' :
  m !! k = Some s -> evict_loop it cap fuel m !! k = None ->
  evict_loop it cap fuel m !! k' = Some s' ->
  window_start s <= window_start s'.
Proof.
  revert m. induction fuel as [|fuel IH]; intros m Hk; simpl; [congruence|].
  zcase; [|congruence]. intros Hn Hk'.
  destruct (evict_oldest it m !! k) as [t|] eqn:Hd.
  - assert (t = s) as ->; [|by eapply IH].
    unfold evict_oldest in Hd. destruct (oldest (it m)); [|congruence].
    apply lookup_delete_Some in Hd as [_ Hd]. congruence.
  - pose proof (lookup_weaken _ _ _ _ Hk' (evict_loop_subseteq it cap fuel _)) as Hm'.
    unfold evict_oldest in Hd, Hm'. destruct (oldest (it m)) as [kv|] eqn:Ho; [|congruence].
    apply oldest_spec in Ho as [Hkv Hmin]; [|done].
    apply lookup_delete_Some in Hm' as [_ Hm'].
    apply lookup_delete_None in Hd as [Heq|?]; [|congruence].
    assert (kv.2 = s) as <- by congruence. by eapply Hmin.
Qed.

Lemma evict_to_cap_size it `{!Iteration it} L now m :
  0 <= max_tracked_ips L ->
  Z.of_nat (size (evict_to_cap it L now m)) <= max_tracked_ips L.
Proof. intros Hcap. by apply evict_loop_size. Qed.

Lemma evict_to_cap_subseteq it L now m : evict_to_cap it L now m ⊆ m.
Proof. etrans; [apply evict_loop_subseteq | apply map_filter_subseteq]. Qed.

Lemma check_and_record_failure_size it `{!Iteration it} L now now_ins ip :
  0 < max_tracked_ips L ->
  tracked (check_and_record_failure it L now now_ins ip).2 <= max_tracked_ips L.
Proof.
  intros Hcap. unfold check_and_record_failure, tracked. cbn [snd ip_states with_states].
  rewrite (proj2 (Z.ltb_lt _ _) Hcap). cbn [andb].
  zcase; [apply evict_to_cap_size; [done|lia] | done].
Qed.

(** *** Sequences of calls *)

(** A call of one of the two methods, with its clock readings. *)
Inductive op :=
| Record_ (now now_ins : Z) (ip : string)
| Query (now : Z) (ip : string).

Definition op_ip (o : op) : string :=
  match o with Record_ _ _ ip | Query _ ip => ip end.

Definition do_op it (L : AuthRateLimiter) (o : op) : bool * AuthRateLimiter :=
  match o with
  | Record_ now now_ins ip => check_and_record_failure it L now now_ins ip
  | Query now ip => is_blocked L now ip
  end.

Fixpoint run_ops it (L : AuthRateLimiter) (ops : list op)
    : list (string * bool) * AuthRateLimiter :=
  match ops with
  | [] => ([], L)
  | o :: ops =>
      let '(b, L1) := do_op it L o in
      let '(bs, L2) := run_ops it L1 ops in
      ((op_ip o, b) :: bs, L2)
  end.

(** *** Specification: one independent counter per address *)

Definition spec_op (window max : Z) (s : option IpState) (o : op) : bool * option IpState :=
  match o with
  | Record_ now now_ins _ =>
      let s' := next_state window now now_ins s in (max <? failures s', Some s')
  | Query now _ =>
      match s with
      | None => (false, None)
      | Some s' => if expired window now s' then (false, None)
                   else (max <? failures s', Some s')
      end
  end.

Fixpoint spec_run (window max : Z) (s : option IpState) (ops : list op)
    : list bool * option IpState :=
  match ops with
  | [] => ([], s)
  | o :: ops =>
      let '(b, s1) := spec_op window max s o in
      let '(bs, s2) := spec_run window max s1 ops in (b :: bs, s2)
  end.

Definition own (ip : string) (ops : list op) : list op :=
  filter (fun o => op_ip o = ip) ops.

Definition answers (ip : string) (l : list (string * bool)) : list bool :=
  snd <$> filter (fun ab => ab.1 = ip) l.

Lemma own_ops_cons ip o ops :
  own ip (o :: ops) = if decide (op_ip o = ip) then o :: own ip ops else own ip ops.
Proof. unfold own. by rewrite filter_cons. Qed.

Lemma answers_cons ip a b l :
  answers ip ((a, b) :: l) = if decide (a = ip) then b :: answers ip l else answers ip l.
Proof. unfold answers. rewrite filter_cons. simpl. by destruct (decide (a = ip)). Qed.

(** No eviction is needed: tracking is uncapped or every address seen fits. *)
Definition fits (L : AuthRateLimiter) (ops : list op) : Prop :=
  max_tracked_ips L <= 0 \/
  Z.of_nat (size (dom (ip_states L) ∪ list_to_set (op_ip <$> ops) : gset string))
  <= max_tracked_ips L.

Lemma do_op_config it L o :
  max_failures (do_op it L o).2 = max_failures L /\
  window_secs (do_op it L o).2 = window_secs L /\
  max_tracked_ips (do_op it L o).2 = max_tracked_ips L.
Proof.
  destruct o as [now now_ins ip|now ip]; simpl; [done|].
  unfold is_blocked. destruct (_ !! ip); [|done]. by destruct (expired _ _ _).
Qed.

(** Without eviction a call changes only its own address, as the
    specification says. *)
Lemma do_op_spec it L o ops ip :
  fits L (o :: ops) ->
  (op_ip o = ip ->
     (do_op it L o).1 = (spec_op (window_secs L) (max_failures L) (ip_states L !! ip) o).1 /\
     ip_states (do_op it L o).2 !! ip
     = (spec_op (window_secs L) (max_failures L) (ip_states L !! ip) o).2) /\
  (op_ip o <> ip -> ip_states (do_op it L o).2 !! ip = ip_states L !! ip).
Proof.
  intros Hfit. destruct o as [now now_ins a|now a]; simpl.
  - unfold check_and_record_failure. cbn [fst snd ip_states with_states].
    set (m := <[a := _]> (ip_states L)).
    destruct (_ && _) eqn:Hev.
    { exfalso. apply andb_true_iff in Hev as [H1 H2].
      apply Z.ltb_lt in H1, H2. destruct Hfit as [?|Hfit]; [lia|].
      assert (size m <= size (dom (ip_states L) ∪
                list_to_set (op_ip <$> Record_ now now_ins a :: ops) : gset string))%nat; [|lia].
      rewrite <- (size_dom (D := gset string) m). apply subseteq_size.
      subst m. rewrite dom_insert_L. set_solver. }
    subst m. split; [intros ->; by rewrite lookup_insert_eq|].
    intros Hne. by rewrite lookup_insert_ne.
  - unfold is_blocked. split.
    + intros ->. destruct (ip_states L !! ip) as [s|] eqn:Hs; [|done].
      destruct (expired _ _ _); simpl; [by rewrite lookup_delete_eq|done].
    + intros Hne. destruct (ip_states L !! a); [|done].
      destruct (expired _ _ _); simpl; [by rewrite lookup_delete_ne|done].
Qed.

Lemma fits_step it L o ops : fits L (o :: ops) -> fits (do_op it L o).2 ops.
Proof.
  intros Hfit. pose proof (do_op_config it L o) as (_ & _ & Hc).
  unfold fits. rewrite Hc. destruct Hfit as [?|Hfit]; [by left|right].
  etrans; [|exact Hfit]. apply inj_le, subseteq_size.
  assert (dom (ip_states (do_op it L o).2) ⊆@{gset string} {[op_ip o]} ∪ dom (ip_states L)).
  { intros k Hk. apply elem_of_dom in Hk.
    destruct (decide (op_ip o = k)) as [->|Hne]; [set_solver|].
    pose proof (proj2 (do_op_spec it L o ops k (or_intror Hfit)) Hne) as He.
    rewrite He in Hk. apply elem_of_dom in Hk. set_solver. }
  set_solver.
Qed.

Lemma run_ops_spec it L ops ip :
  fits L ops ->
  let R := run_ops it L ops in
  let S := spec_run (window_secs L) (max_failures L) (ip_states L !! ip) (own ip ops) in
  answers ip R.1 = S.1 /\ ip_states R.2 !! ip = S.2 /\
  max_failures R.2 = max_failures L /\ window_secs R.2 = window_secs L.
Proof.
  revert L. induction ops as [|o ops IH]; intros L Hfit; [done|].
  cbn [run_ops]. rewrite own_ops_cons.
  pose proof (do_op_spec it L o ops ip Hfit) as [Hown Hother].
  pose proof (do_op_config it L o) as (Hmax & Hwin & _).
  specialize (IH _ (fits_step it L o ops Hfit)). simpl in IH.
  destruct (do_op it L o) as [b L1]. simpl in *.
  destruct (run_ops it L1 ops) as [bs L2]. simpl in *.
  rewrite Hmax, Hwin in IH. rewrite answers_cons.
  destruct (decide (op_ip o = ip)) as [Heq|Hne].
  - destruct (Hown Heq) as [Hb Hs]. rewrite Hs in IH. cbn [spec_run].
    destruct (spec_op _ _ _ _) as [b' s1]. simpl in *. subst b'.
    destruct (spec_run _ _ s1 _) as [bs' s2]. simpl in *.
    destruct IH as (-> & -> & -> & ->). done.
  - by rewrite (Hother Hne) in IH.
Qed.

(** *** Windows of failures

    What the limiter promises of one address: its failures fall into windows,
    each opened by the first failure that the window before it no longer
    covers, and the address is locked out while its last window is open and
    holds too many of them. *)

(** The clock readings of a call: the one tested against the window, and the
    last one. *)
Definition op_now (o : op) : Z := match o with Record_ now _ _ | Query now _ => now end.
Definition op_done (o : op) : Z := match o with Record_ _ ins _ => ins | Query now _ => now end.

(** Calls made one after the other, from [t] on. *)
Fixpoint in_order (t : Z) (ops : list op) : Prop :=
  match ops with
  | [] => True
  | o :: ops => t <= op_now o /\ op_now o <= op_done o /\ in_order (op_done o) ops
  end.

(** The two clock readings of every recorded failure. *)
Definition failure_times (ops : list op) : list (Z * Z) :=
  omap (fun o => match o with Record_ now ins _ => Some (now, ins) | Query _ _ => None end) ops.

(** A split of the failures into windows of [W] nanoseconds: the opening
    time of each, between the two readings of its first failure, and its
    failures. *)
Inductive windows (W : Z) : list (Z * Z) -> list (Z * list (Z * Z)) -> Prop :=
| windows_nil : windows W [] []
| windows_cons now ins w g rest gs :
    now <= w <= ins ->
    Forall (fun f => f.1 - w <= W) g ->
    (forall f, head rest = Some f -> W < f.1 - w) ->
    windows W rest gs ->
    windows W ((now, ins) :: g ++ rest) ((w, (now, ins) :: g) :: gs).

Definition locked_out (W max : Z) (gs : list (Z * list (Z * Z))) (now : Z) : bool :=
  match last gs with
  | Some (w, g) => (now - w <=? W) && (max <? Z.of_nat (length g))
  | None => false
  end.

(** A failure that the last window covers joins it. *)
Lemma windows_join W l gs w g f :
  windows W l (gs ++ [(w, g)]) -> f.1 - w <= W -> windows W (l ++ [f]) (gs ++ [(w, g ++ [f])]).
Proof.
  intros H Hf. remember (gs ++ [(w, g)]) as gs1 eqn:Hg. revert gs Hg.
  induction H as [|now ins w1 g1 rest gs1 Hw1 Hg1 Hhd Hrest IH]; intros gs Hg; [by destruct gs|].
  destruct gs as [|x gs]; cbn [app] in Hg; simplify_eq.
  - inversion Hrest; subst. rewrite app_nil_r.
    pose proof (windows_cons W now ins w (g1 ++ [f]) [] [] Hw1) as Hc.
    rewrite app_nil_r in Hc. apply Hc; [|done|constructor].
    apply Forall_app. split; [done|by constructor].
  - cbn [app]. rewrite <- app_assoc. apply windows_cons; [done|done| |by apply IH].
    intros f1. destruct rest as [|f0 rest]; [|exact (Hhd f1)]. by inversion Hrest; destruct gs.
Qed.

(** A failure that it does not cover opens the next one. *)
Lemma windows_open W l gs f w0 :
  windows W l gs -> (forall w g, last gs = Some (w, g) -> W < f.1 - w) -> f.1 <= w0 <= f.2 ->
  windows W (l ++ [f]) (gs ++ [(w0, [f])]).
Proof.
  intros H Hlast Hw0. induction H as [|now ins w g rest gs Hw Hg Hhd Hrest IH].
  - destruct f as [now ins]. apply (windows_cons W now ins w0 [] []); [done|done|done|constructor].
  - cbn [app]. rewrite <- app_assoc. apply windows_cons; [done|done| |].
    + intros f1. destruct rest as [|f0 rest]; [|exact (Hhd f1)].
      inversion Hrest; subst. cbn. intros [= <-]. by apply (Hlast w ((now, ins) :: g)).
    + apply IH. intros w1 g1 Hl. apply (Hlast w1 g1). by destruct gs.
Qed.

Lemma in_order_le t t' ops : t' <= t -> in_order t ops -> in_order t' ops.
Proof. destruct ops; cbn; [done|]. intros ? (? & ? & ?). split_and!; (done || lia). Qed.

Lemma in_order_own t ip ops : in_order t ops -> in_order t (own ip ops).
Proof.
  revert t. induction ops as [|o ops IH]; intros t; [done|]. rewrite own_ops_cons.
  cbn [in_order]. intros (H1 & H2 & H3). destruct (decide _); [by split_and!; try apply IH|].
  apply IH. eapply in_order_le; [|done]. lia.
Qed.

Lemma in_order_snoc t ops o :
  in_order t ops -> Forall (fun d => op_done d <= op_now o) ops -> t <= op_now o ->
  op_now o <= op_done o -> in_order t (ops ++ [o]).
Proof.
  revert t. induction ops as [|d ops IH]; intros t; cbn [app in_order]; [done|].
  intros (H1 & H2 & H3) [Hd Hall]%Forall_cons Ht Ho. split_and!; [done..|]. by apply IH.
Qed.

(** The counter at time [t] and the windows of the failures so far. *)
Definition counts (W t : Z) (gs : list (Z * list (Z * Z))) (s : option IpState) : Prop :=
  match s with
  | Some st => exists g, last gs = Some (window_start st, g) /\ failures st = Z.of_nat (length g)
  | None => forall w g, last gs = Some (w, g) -> W < t - w
  end.

Lemma counts_later W t t' gs s : t <= t' -> counts W t gs s -> counts W t' gs s.
Proof. intros Ht. destruct s; [done|]. cbn. intros H w g Hl. specialize (H w g Hl). lia. Qed.

(** One recorded failure. *)
Lemma counts_record window l gs s now ins :
  0 <= window -> windows (window * SEC) l gs -> counts (window * SEC) now gs s -> now <= ins ->
  Z.of_nat (length l) + 1 < 2 ^ 64 ->
  exists gs', windows (window * SEC) (l ++ [(now, ins)]) gs' /\
    counts (window * SEC) ins gs' (Some (next_state window now ins s)).
Proof.
  intros Hwin Hgs Hs Hle Hlen. unfold next_state. destruct s as [st|]; cbn [from_option id]; cbn zeta.
  - destruct Hs as (g & Hl & Hf). destruct (expired window now st) eqn:Hx.
    + exists (gs ++ [(now, [(now, ins)])]). split.
      * apply windows_open; [done| |cbn; lia]. intros w g1. rewrite Hl. intros [= <- <-].
        unfold expired in Hx. cbn. lia.
      * exists [(now, ins)]. by rewrite last_snoc.
    + assert (exists gs0, gs = gs0 ++ [(window_start st, g)]) as [gs0 ->].
      { apply last_Some in Hl as [gs0 ->]. by exists gs0. }
      exists (gs0 ++ [(window_start st, g ++ [(now, ins)])]). split.
      * apply windows_join; [done|]. unfold expired in Hx. cbn. lia.
      * assert (length g <= length l)%nat as Hg.
        { clear -Hgs. remember (gs0 ++ _) as gs eqn:E. revert gs0 E.
          induction Hgs as [|? ? ? ? ? ? ? ? ? ? IH]; intros gs0 E; [by destruct gs0|].
          destruct gs0 as [|x gs0]; cbn [app] in E; simplify_eq;
            [|specialize (IH gs0 eq_refl)]; cbn; rewrite length_app; lia. }
        exists (g ++ [(now, ins)]). rewrite last_snoc. split; [done|]. cbn [failures].
        rewrite length_app, u64_small by lia. cbn. lia.
  - exists (gs ++ [(ins, [(now, ins)])]). split.
    + apply windows_open; [done|done|cbn; lia].
    + unfold expired. cbn [window_start failures].
      rewrite (proj2 (Z.ltb_ge _ _)) by (unfold SEC; lia). cbn [failures window_start].
      exists [(now, ins)]. by rewrite last_snoc.
Qed.

Lemma spec_run_windows window max ops : forall t l gs s,
  0 <= window -> windows (window * SEC) l gs -> counts (window * SEC) t gs s -> in_order t ops ->
  Z.of_nat (length l) + Z.of_nat (length ops) < 2 ^ 64 ->
  exists t' gs', windows (window * SEC) (l ++ failure_times ops) gs' /\
    (t' = t \/ exists o, o ∈ ops /\ t' = op_done o) /\
    counts (window * SEC) t' gs' (spec_run window max s ops).2.
Proof.
  induction ops as [|o ops IH]; intros t l gs s Hwin Hgs Hs Hord Hlen.
  { exists t, gs. cbn. rewrite app_nil_r. by split_and!; try left. }
  cbn [in_order] in Hord. destruct Hord as (Ht & Hdone & Hord). cbn [length] in Hlen.
  pose proof (counts_later _ _ _ _ _ Ht Hs) as Hs1.
  assert (forall t1 l1 gs1 s1 b, windows (window * SEC) l1 gs1 -> counts (window * SEC) t1 gs1 s1 ->
    in_order t1 ops -> spec_op window max s o = (b, s1) -> t1 = op_done o ->
    l1 ++ failure_times ops = l ++ failure_times (o :: ops) ->
    Z.of_nat (length l1) + Z.of_nat (length ops) < 2 ^ 64 ->
    exists t' gs', windows (window * SEC) (l ++ failure_times (o :: ops)) gs' /\
      (t' = t \/ exists d, d ∈ o :: ops /\ t' = op_done d) /\
      counts (window * SEC) t' gs' (spec_run window max s (o :: ops)).2) as Hgo.
  { intros t1 l1 gs1 s1 b Hg1 Hc1 Ho1 Hop -> Hl1 Hb1.
    destruct (IH _ l1 gs1 s1 Hwin Hg1 Hc1 Ho1 Hb1) as (t' & gs' & Hg' & Ht' & Hc').
    exists t', gs'. rewrite <- Hl1. split; [done|]. split.
    - right. destruct Ht' as [->|(d & Hd & ->)]; [exists o|exists d]; set_solver.
    - cbn [spec_run]. rewrite Hop. by destruct (spec_run window max s1 ops). }
  destruct o as [now ins a|now a]; cbn [op_now op_done] in *.
  - destruct (counts_record window l gs s now ins Hwin Hgs Hs1 Hdone ltac:(lia)) as (gs1 & Hg1 & Hc1).
    eapply (Hgo ins (l ++ [(now, ins)])); [done|exact Hc1|done|reflexivity|done| |].
    + by rewrite <- app_assoc.
    + rewrite length_app. cbn. lia.
  - destruct s as [st|]; [|eapply (Hgo now l); [done|exact Hs1|done|reflexivity|done|done|lia]].
    destruct (expired window now st) eqn:Hx.
    + eapply (Hgo now l gs None false); [done| |done|cbn; by rewrite Hx|done|done|lia].
      cbn. destruct Hs1 as (g & Hl & _). intros w g1. rewrite Hl. intros [= <- <-].
      unfold expired in Hx. lia.
    + eapply (Hgo now l gs (Some st)); [done|exact Hs1|done|cbn; by rewrite Hx|done|done|lia].
Qed.

(** The verdict on an address: the last of its windows. *)
Lemma run_ops_windows it L ops ip t now :
  fits L ops -> ip_states L !! ip = None -> 0 <= window_secs L -> in_order t ops ->
  t <= now -> Forall (fun o => op_done o <= now) ops -> Z.of_nat (length ops) < 2 ^ 64 ->
  exists gs, windows (window_secs L * SEC) (failure_times (own ip ops)) gs /\
    (is_blocked (run_ops it L ops).2 now ip).1
    = locked_out (window_secs L * SEC) (max_failures L) gs now.
Proof.
  intros Hfit Hnew Hwin Hord Ht Hnow Hlen.
  destruct (run_ops_spec it L ops ip Hfit) as (_ & Hs & Hm & Hw). rewrite Hnew in Hs.
  pose proof (length_filter (fun o => op_ip o = ip) ops) as Hl. fold (own ip ops) in Hl.
  destruct (spec_run_windows (window_secs L) (max_failures L) (own ip ops) t [] [] None)
    as (t' & gs & Hgs & Ht' & Hc); [done|constructor|done|by apply in_order_own|cbn; lia|].
  exists gs. split; [done|]. rewrite <- Hs in Hc.
  assert (t' <= now) as Hle.
  { destruct Ht' as [->|(o & [_ Ho]%list_elem_of_filter & ->)]; [done|].
    exact (proj1 (Forall_forall _ _) Hnow o Ho). }
  apply (counts_later _ _ _ _ _ Hle) in Hc.
  unfold is_blocked, locked_out. rewrite Hw, Hm.
  destruct (ip_states (run_ops it L ops).2 !! ip) as [st|]; cbn [counts] in Hc.
  - destruct Hc as (g & -> & <-). unfold expired.
    destruct (Z.ltb_spec (window_secs L * SEC) (now - window_start st)); cbn [fst].
    + by rewrite (proj2 (Z.leb_gt _ _)) by lia.
    + by rewrite (proj2 (Z.leb_le _ _)) by lia.
  - destruct (last gs) as [[w g]|] eqn:Hlast; [|done]. cbn [fst].
    specialize (Hc w g eq_refl). by rewrite (proj2 (Z.leb_gt _ _)) by lia.
Qed.

(** Sequences of calls compose. *)
Lemma run_ops_snoc it L ops o :
  run_ops it L (ops ++ [o]) =
  let '(bs, L1) := run_ops it L ops in
  let '(b, L2) := do_op it L1 o in (bs ++ [(op_ip o, b)], L2).
Proof.
  revert L. induction ops as [|o1 ops IH]; intros L; cbn [app run_ops].
  - by destruct (do_op it L o).
  - destruct (do_op it L o1) as [b L1]. rewrite IH. destruct (run_ops it L1 ops) as [bs L2].
    by destruct (do_op it L2 o).
Qed.
End AuthLimiter.

(** ** Requests per minute *)

Module RequestLimiter.

Record IpState := mk_ip { requests : Z; window_start : Z }.

#[export] Instance IpState_eq_dec : EqDecision IpState.
Proof. solve_decision. Defined.

Record RequestRateLimiter := mk_limiter {
  max_rpm : Z;
  max_tracked_ips : Z;
  ip_states : gmap string IpState;
}.

Definition with_states (L : RequestRateLimiter) (m : gmap string IpState) : RequestRateLimiter :=
  mk_limiter (max_rpm L) (max_tracked_ips L) m.

(** [duration_cast<seconds>(now - window_start).count()] *)
Definition elapsed (now : Z) (s : IpState) : Z := duration_secs (now - window_start s).

Definition next_state (now now_ins : Z) (entry : option IpState) : IpState :=
  let state := default (mk_ip 0 now_ins) entry in
  let state := if 60 <=? elapsed now state then mk_ip 0 now else state in
  mk_ip (u64 (requests state + 1)) (window_start state).

(** The expired entries leave; the order of the scan does not matter. *)
Definition erase_expired (now : Z) (m : gmap string IpState) : gmap string IpState :=
  filter (fun kv => (60 <=? elapsed now kv.2) = false) m.

Definition check_request (L : RequestRateLimiter) (now now_ins : Z) (ip : string)
    : Z * RequestRateLimiter :=
  let elapsed := elapsed now (default (mk_ip 0 now_ins) (ip_states L !! ip)) in
  let state := next_state now now_ins (ip_states L !! ip) in
  let m := <[ip := state]> (ip_states L) in
  if max_rpm L <? requests state then
    let remaining := 60 - elapsed in
    let remaining := if remaining <=? 0 then 1 else remaining in
    (i32 remaining, with_states L m)
  else
    let m := if (0 <? max_tracked_ips L) && (max_tracked_ips L <? Z.of_nat (size m))
             then erase_expired now m else m in
    (0, with_states L m).

Definition tracked (L : RequestRateLimiter) : Z := Z.of_nat (size (ip_states L)).

(** *** Lemmas *)

Lemma elapsed_60 now s : (60 <=? elapsed now s) = (60 * SEC <=? now - window_start s).
Proof. by apply duration_secs_ge. Qed.

Lemma check_request_entry L now now_ins ip :
  let s := next_state now now_ins (ip_states L !! ip) in
  ip_states (check_request L now now_ins ip).2 !! ip = Some s \/
  (60 <=? elapsed now s) = true.
Proof.
  unfold check_request. destruct (max_rpm L <? _); simpl; [left; by rewrite lookup_insert_eq|].
  destruct (_ && _); [|left; by rewrite lookup_insert_eq].
  unfold erase_expired.
  destruct (60 <=? elapsed now (next_state now now_ins (ip_states L !! ip))) eqn:He; [by right|left].
  apply map_lookup_filter_Some. split; [by rewrite lookup_insert_eq|done].
Qed.

(** The entry just counted is never expired at the same instant. *)
Lemma next_state_fresh now now_ins entry :
  (60 <=? elapsed now (next_state now now_ins entry)) = false.
Proof.
  unfold next_state. set (s0 := default (mk_ip 0 now_ins) entry).
  destruct (60 <=? elapsed now s0) eqn:E; rewrite elapsed_60; cbn [window_start].
  - apply Z.leb_gt. unfold SEC. lia.
  - by rewrite elapsed_60 in E.
Qed.

Lemma check_request_lookup_eq L now now_ins ip :
  ip_states (check_request L now now_ins ip).2 !! ip
  = Some (next_state now now_ins (ip_states L !! ip)).
Proof.
  destruct (check_request_entry L now now_ins ip) as [H|H]; [done|].
  by rewrite next_state_fresh in H.
Qed.

(** Another address keeps its entry, or loses it once expired. *)
Lemma check_request_lookup_ne L now now_ins ip ip' :
  ip <> ip' ->
  ip_states (check_request L now now_ins ip).2 !! ip' = ip_states L !! ip' \/
  (ip_states (check_request L now now_ins ip).2 !! ip' = None /\
   exists s, ip_states L !! ip' = Some s /\ 60 * SEC <= now - window_start s).
Proof.
  intros Hne. unfold check_request.
  destruct (max_rpm L <? _); simpl; [left; by rewrite lookup_insert_ne|].
  destruct (_ && _); [|left; by rewrite lookup_insert_ne].
  destruct (ip_states L !! ip') as [s|] eqn:Hs.
  - destruct (60 <=? elapsed now s) eqn:He.
    + right. split.
      * apply map_lookup_filter_None. right. intros s'. rewrite lookup_insert_ne, Hs by done.
        intros [= <-]. simpl. by rewrite He.
      * exists s. split; [done|]. rewrite elapsed_60 in He. by apply Z.leb_le in He.
    + left. apply map_lookup_filter_Some. by rewrite lookup_insert_ne.
  - left. apply map_lookup_filter_None. left. by rewrite lookup_insert_ne.
Qed.

Lemma check_request_config L now now_ins ip :
  max_rpm (check_request L now now_ins ip).2 = max_rpm L /\
  max_tracked_ips (check_request L now now_ins ip).2 = max_tracked_ips L.
Proof. unfold check_request. by destruct (_ <? _). Qed.

(** The answer: 0 when accepted, otherwise between 1 and 60 seconds as long
    as the clock has not run backwards. *)
Lemma check_request_answer L now now_ins ip :
  0 < max_rpm L ->
  (forall s, ip_states L !! ip = Some s -> window_start s <= now) ->
  let s := next_state now now_ins (ip_states L !! ip) in
  (requests s <= max_rpm L -> (check_request L now now_ins ip).1 = 0) /\
  (max_rpm L < requests s ->
     (check_request L now now_ins ip).1
     = 60 - elapsed now (default (mk_ip 0 now_ins) (ip_states L !! ip)) /\
     1 <= (check_request L now now_ins ip).1 <= 60).
Proof.
  intros Hmax Hmono. cbn zeta. unfold check_request.
  set (s0 := default (mk_ip 0 now_ins) (ip_states L !! ip)).
  split; intros Hlt; zcase; try lia; [done|]. cbn [fst].
  assert (elapsed now s0 < 60 /\ 0 <= elapsed now s0) as [Hub Hlb].
  { unfold next_state in Hlt. fold s0 in Hlt.
    destruct (Z.leb_spec 60 (elapsed now s0)) as [Hge|Hub]; simpl in Hlt;
      [rewrite u64_small in Hlt; lia|].
    split; [done|]. subst s0. destruct (ip_states L !! ip) as [s|]; simpl in *.
    - unfold elapsed, duration_secs. apply Z.quot_pos; [|done].
      specialize (Hmono s eq_refl). lia.
    - rewrite u64_small in Hlt; lia. }
  rewrite (proj2 (Z.leb_gt _ _)) by lia.
  rewrite i32_small; [split; [done|lia]|]. unfold in_int, INT_MIN, INT_MAX. lia.
Qed.

(** *** Sequences of calls *)

Record call := mk_call { c_now : Z; c_ins : Z; c_ip : string }.

Fixpoint run_calls (L : RequestRateLimiter) (cs : list call)
    : list (string * Z) * RequestRateLimiter :=
  match cs with
  | [] => ([], L)
  | c :: cs =>
      let '(r, L1) := check_request L (c_now c) (c_ins c) (c_ip c) in
      let '(rs, L2) := run_calls L1 cs in
      ((c_ip c, r) :: rs, L2)
  end.

(** The clock readings of a sequence of locked calls never go back. *)
Fixpoint clock_ok (t : Z) (cs : list call) : Prop :=
  match cs with
  | [] => True
  | c :: cs => t <= c_now c /\ c_now c <= c_ins c /\ clock_ok (c_ins c) cs
  end.

(** How many requests of an address were let through. *)
Fixpoint accepted (ip : string) (l : list (string * Z)) : Z :=
  match l with
  | [] => 0
  | (a, r) :: l => (if decide (a = ip) then if r =? 0 then 1 else 0 else 0) + accepted ip l
  end.

(** States reached by [n] calls up to time [t]. *)
Definition wf (L : RequestRateLimiter) (t n : Z) : Prop :=
  forall ip s, ip_states L !! ip = Some s -> window_start s <= t /\ 0 <= requests s <= n.

Lemma wf_mono L t t' n n' : wf L t n -> t <= t' -> n <= n' -> wf L t' n'.
Proof. intros H Ht Hn ip s Hs. specialize (H ip s Hs). lia. Qed.

Lemma next_state_bounds now now_ins entry n :
  now <= now_ins -> n + 1 < 2 ^ 64 -> 0 <= n ->
  (forall s, entry = Some s -> window_start s <= now /\ 0 <= requests s <= n) ->
  window_start (next_state now now_ins entry) <= now_ins /\
  0 <= requests (next_state now now_ins entry) <= n + 1.
Proof.
  intros Hle Hn H0 He. unfold next_state.
  destruct entry as [s|]; simpl.
  - specialize (He s eq_refl). destruct (60 <=? _); simpl; rewrite u64_small; lia.
  - destruct (60 <=? _); simpl; rewrite u64_small; lia.
Qed.

Lemma check_request_wf L c t n :
  wf L t n -> t <= c_now c -> c_now c <= c_ins c -> 0 <= n -> n + 1 < 2 ^ 64 ->
  wf (check_request L (c_now c) (c_ins c) (c_ip c)).2 (c_ins c) (n + 1).
Proof.
  intros Hwf H1 H2 Hn Hb ip s Hs.
  destruct (decide (c_ip c = ip)) as [<-|Hne].
  - rewrite check_request_lookup_eq in Hs. injection Hs as <-.
    apply next_state_bounds; try lia. intros s Hs. specialize (Hwf _ _ Hs). lia.
  - destruct (check_request_lookup_ne L (c_now c) (c_ins c) _ _ Hne) as [He|[He _]];
      rewrite He in Hs; [|done].
    specialize (Hwf _ _ Hs). lia.
Qed.

Lemma next_state_None now now_ins :
  now <= now_ins -> next_state now now_ins None = mk_ip 1 now_ins.
Proof.
  intros Hle. unfold next_state. simpl. rewrite elapsed_60. cbn [window_start].
  rewrite (proj2 (Z.leb_gt _ _)) by (unfold SEC; lia). done.
Qed.

Lemma next_state_Some now now_ins s :
  0 <= requests s -> requests s + 1 < 2 ^ 64 ->
  next_state now now_ins (Some s) =
  if 60 * SEC <=? now - window_start s then mk_ip 1 now
  else mk_ip (requests s + 1) (window_start s).
Proof.
  intros H0 Hb. unfold next_state. simpl. rewrite elapsed_60.
  zcase; cbn [requests window_start]; by rewrite u64_small by lia.
Qed.

(** How many more requests an entry can let through before [tend]. *)
Definition quota (max tend : Z) (entry : option IpState) : Z :=
  match entry with
  | None => max
  | Some s => Z.max (max - requests s) 0
              + (if window_start s + 60 * SEC <? tend then max else 0)
  end.

Lemma quota_own L c t n tend :
  0 < max_rpm L -> wf L t n -> t <= c_now c -> c_now c <= c_ins c ->
  0 <= n -> n + 1 < 2 ^ 64 ->
  c_now c < tend -> tend <= c_now c + 60 * SEC ->
  let R := check_request L (c_now c) (c_ins c) (c_ip c) in
  (if R.1 =? 0 then 1 else 0) + quota (max_rpm L) tend (ip_states R.2 !! c_ip c)
  <= quota (max_rpm L) tend (ip_states L !! c_ip c).
Proof.
  intros Hmax Hwf H1 H2 Hn Hb Hend1 Hend2. cbn zeta.
  pose proof (check_request_answer L (c_now c) (c_ins c) (c_ip c) Hmax) as Hans.
  destruct Hans as [Hok Hno].
  { intros s Hs. specialize (Hwf _ _ Hs). lia. }
  rewrite check_request_lookup_eq.
  set (s' := next_state _ _ _) in *.
  assert ((if (check_request L (c_now c) (c_ins c) (c_ip c)).1 =? 0 then 1 else 0)
          = if requests s' <=? max_rpm L then 1 else 0) as ->.
  { destruct (Z.leb_spec (requests s') (max_rpm L)) as [Hle|Hgt].
    - by rewrite (Hok Hle).
    - destruct (Hno Hgt) as [_ Hr]. by rewrite (proj2 (Z.eqb_neq _ _)) by lia. }
  clear Hok Hno. subst s'.
  destruct (ip_states L !! c_ip c) as [s|] eqn:Hs.
  - specialize (Hwf _ _ Hs). rewrite next_state_Some by lia.
    unfold quota. destruct (Z.leb_spec (60 * SEC) (c_now c - window_start s));
      cbn [window_start requests]; repeat zcase; lia.
  - rewrite next_state_None by done. unfold quota. cbn [window_start requests]. repeat zcase; lia.
Qed.

Lemma quota_other L c ip tend :
  c_ip c <> ip -> 0 <= max_rpm L -> c_now c < tend ->
  quota (max_rpm L) tend
    (ip_states (check_request L (c_now c) (c_ins c) (c_ip c)).2 !! ip)
  <= quota (max_rpm L) tend (ip_states L !! ip).
Proof.
  intros Hne Hmax Hend.
  destruct (check_request_lookup_ne L (c_now c) (c_ins c) _ _ Hne) as [->|(-> & s & -> & He)];
    [done|].
  unfold quota. zcase; lia.
Qed.

Lemma run_calls_quota L cs t n ip tend :
  0 < max_rpm L -> wf L t n -> clock_ok t cs -> 0 <= n ->
  n + Z.of_nat (length cs) < 2 ^ 64 ->
  Forall (fun c => c_now c < tend /\ tend <= c_now c + 60 * SEC) cs ->
  accepted ip (run_calls L cs).1 <= quota (max_rpm L) tend (ip_states L !! ip).
Proof.
  revert L t n. induction cs as [|c cs IH]; intros L t n Hmax Hwf Hclk Hn Hb Hall.
  { simpl. unfold quota. destruct (ip_states L !! ip); [zcase|]; lia. }
  destruct Hclk as (H1 & H2 & Hclk). apply Forall_cons in Hall as [[He1 He2] Hall].
  cbn [length] in Hb. cbn [run_calls].
  pose proof (quota_own L c t n tend) as Hq. cbn zeta in Hq.
  pose proof (quota_other L c ip tend) as Hq'.
  pose proof (check_request_wf L c t n Hwf H1 H2 Hn) as Hwf'.
  pose proof (proj1 (check_request_config L (c_now c) (c_ins c) (c_ip c))) as Hcfg.
  destruct (check_request L _ _ _) as [r L1]. cbn [fst snd] in *.
  specialize (IH L1 (c_ins c) (n + 1)).
  destruct (run_calls L1 cs) as [rs L2]. cbn [fst snd accepted] in *.
  rewrite Hcfg in IH.
  specialize (IH Hmax (Hwf' ltac:(lia)) Hclk ltac:(lia) ltac:(lia) Hall).
  destruct (decide (c_ip c = ip)) as [<-|Hne].
  - assert (n + 1 < 2 ^ 64) as Hb' by lia.
    specialize (Hq Hmax Hwf H1 H2 Hn Hb' He1 He2). lia.
  - specialize (Hq' Hne ltac:(lia) He1). lia.
Qed.

(** An entry inside its window counts exactly. *)
Definition own (ip : string) (cs : list call) : list call :=
  filter (fun c => c_ip c = ip) cs.

Lemma own_calls_cons ip c cs :
  own ip (c :: cs) = if decide (c_ip c = ip) then c :: own ip cs else own ip cs.
Proof. unfold own. by rewrite filter_cons. Qed.

Lemma run_calls_window L cs t n ip s :
  0 < max_rpm L -> wf L t n -> clock_ok t cs -> 0 <= n ->
  n + Z.of_nat (length cs) < 2 ^ 64 ->
  ip_states L !! ip = Some s ->
  Forall (fun c => c_now c - window_start s < 60 * SEC) cs ->
  accepted ip (run_calls L cs).1
  = Z.min (Z.of_nat (length (own ip cs))) (Z.max 0 (max_rpm L - requests s)).
Proof.
  revert L t n s. induction cs as [|c cs IH]; intros L t n s Hmax Hwf Hclk Hn Hb Hs Hall.
  { unfold own. simpl. lia. }
  destruct Hclk as (H1 & H2 & Hclk). apply Forall_cons in Hall as [He Hall].
  cbn [length] in Hb. cbn [run_calls]. rewrite own_calls_cons.
  pose proof (check_request_wf L c t n Hwf H1 H2 Hn ltac:(lia)) as Hwf'.
  pose proof (proj1 (check_request_config L (c_now c) (c_ins c) (c_ip c))) as Hcfg.
  pose proof (check_request_lookup_eq L (c_now c) (c_ins c) (c_ip c)) as Heq.
  pose proof (check_request_lookup_ne L (c_now c) (c_ins c) (c_ip c) ip) as Hne.
  pose proof (check_request_answer L (c_now c) (c_ins c) (c_ip c) Hmax) as Hans.
  destruct (check_request L _ _ _) as [r L1]. cbn [fst snd] in *.
  specialize (IH L1 (c_ins c) (n + 1)).
  destruct (run_calls L1 cs) as [rs L2]. cbn [fst snd accepted] in *. rewrite Hcfg in IH.
  pose proof (Hwf _ _ Hs) as Hsb.
  destruct (decide (c_ip c = ip)) as [<-|Hd].
  - destruct Hans as [Hok Hno].
    { intros s1 Hs1. specialize (Hwf _ _ Hs1). lia. }
    rewrite Hs in *.
    assert (next_state (c_now c) (c_ins c) (Some s) = mk_ip (requests s + 1) (window_start s)) as Hn'.
    { rewrite next_state_Some by lia. zcase; [lia|done]. }
    rewrite Hn' in *. cbn [requests window_start] in *.
    rewrite (IH _ Hmax Hwf' Hclk ltac:(lia) ltac:(lia) Heq Hall). cbn [length requests].
    destruct (Z.leb_spec (requests s + 1) (max_rpm L)) as [Hle|Hgt].
    + rewrite (Hok Hle). simpl. lia.
    + destruct (Hno Hgt) as [_ Hr]. rewrite (proj2 (Z.eqb_neq _ _)) by lia. lia.
  - destruct (Hne Hd) as [Hk|(_ & s1 & Hk & Hx)].
    + rewrite Hs in Hk. rewrite (IH _ Hmax Hwf' Hclk ltac:(lia) ltac:(lia) Hk Hall). lia.
    + rewrite Hs in Hk. injection Hk as <-. lia.
Qed.

(** While nothing has expired, every new address stays tracked. *)
Lemma run_calls_tracked rpm cap t ips :
  NoDup ips -> 0 < rpm ->
  forall L, max_rpm L = rpm -> max_tracked_ips L = cap ->
  (forall ip s, ip_states L !! ip = Some s -> window_start s = t) ->
  Forall (fun ip => ip_states L !! ip = None) ips ->
  tracked (run_calls L (mk_call t t <$> ips)).2 = tracked L + Z.of_nat (length ips).
Proof.
  intros Hnd Hrpm. induction Hnd as [|ip ips Hin Hnd IH]; intros L Hr Hc Hws Hfresh.
  { simpl. lia. }
  apply Forall_cons in Hfresh as [Hf Hfresh]. rewrite fmap_cons. cbn [run_calls c_now c_ins c_ip].
  assert (next_state t t (ip_states L !! ip) = mk_ip 1 t) as Hns.
  { rewrite Hf. unfold next_state. cbn [default]. by destruct (60 <=? _). }
  assert (check_request L t t ip = (0, with_states L (<[ip := mk_ip 1 t]> (ip_states L)))) as ->.
  { unfold check_request. rewrite Hns. cbn [requests]. zcase; [lia|].
    destruct (_ && _); [|done]. do 2 f_equal. unfold erase_expired. apply map_filter_id.
    intros k s Hk. rewrite elapsed_60. simpl.
    apply lookup_insert_Some in Hk as [[_ <-]|[_ Hk]]; apply Z.leb_gt; unfold SEC; simpl;
      [|rewrite (Hws _ _ Hk)]; lia. }
  specialize (IH (with_states L (<[ip := mk_ip 1 t]> (ip_states L))) Hr Hc).
  destruct (run_calls _ _) as [rs L2]. cbn [fst snd] in *. rewrite IH.
  - unfold tracked. simpl. rewrite map_size_insert_None by done. lia.
  - intros k s Hk. simpl in Hk. apply lookup_insert_Some in Hk as [[_ <-]|[_ Hk]]; [done|eauto].
  - rewrite Forall_forall in Hfresh |- *. intros k Hk. simpl.
    rewrite lookup_insert_ne by (intros ->; done). by apply Hfresh.
Qed.

(** Waiting the announced time is enough. *)
Lemma check_request_retry_after L now now_ins ip now' now_ins' :
  0 < max_rpm L -> max_rpm L < 2 ^ 64 ->
  (forall s, ip_states L !! ip = Some s ->
     window_start s <= now /\ 0 <= requests s /\ requests s + 1 < 2 ^ 64) ->
  now <= now_ins ->
  let R := check_request L now now_ins ip in
  0 < R.1 -> now + R.1 * SEC <= now' -> now' <= now_ins' ->
  (check_request R.2 now' now_ins' ip).1 = 0.
Proof.
  intros Hmax _ Hwf Hle R Hr Hnow' Hins'. subst R.
  pose proof (check_request_answer L now now_ins ip Hmax) as Hans.
  destruct Hans as [Hok Hno]; [intros s Hs; by destruct (Hwf s Hs)|].
  pose proof (check_request_lookup_eq L now now_ins ip) as Heq.
  pose proof (proj1 (check_request_config L now now_ins ip)) as Hcfg.
  destruct (Z.le_gt_cases (requests (next_state now now_ins (ip_states L !! ip))) (max_rpm L))
    as [Hle'|Hgt]; [specialize (Hok Hle'); lia|].
  destruct (Hno Hgt) as [Hrem _]. clear Hok Hno.
  destruct (check_request L now now_ins ip) as [r L1]. cbn [fst snd] in *.
  destruct (ip_states L !! ip) as [s|] eqn:Hs;
    [|rewrite next_state_None in Hgt by done; simpl in Hgt; lia].
  destruct (Hwf s eq_refl) as (Hws & H0 & Hb).
  rewrite next_state_Some in Hgt, Heq by done.
  destruct (Z.leb_spec (60 * SEC) (now - window_start s)) as [Hx|Hx]; [simpl in Hgt; lia|].
  simpl in Hrem. unfold elapsed, duration_secs in Hrem.
  pose proof (Z.mul_quot_le (now - window_start s) SEC) as Hq.
  unfold SEC in *. specialize (Hq ltac:(lia) ltac:(lia)).
  assert (next_state now' now_ins' (ip_states L1 !! ip) = mk_ip 1 now') as Hn.
  { rewrite Heq. unfold next_state. simpl. rewrite elapsed_60. cbn [window_start].
    rewrite (proj2 (Z.leb_le _ _)) by (unfold SEC; lia). done. }
  unfold check_request. rewrite Hn. cbn [requests]. rewrite Hcfg.
  rewrite (proj2 (Z.ltb_ge _ _)) by lia. done.
Qed.

(** Sequences of calls compose. *)
Lemma run_calls_app L cs1 cs2 :
  run_calls L (cs1 ++ cs2) =
  let '(rs1, L1) := run_calls L cs1 in
  let '(rs2, L2) := run_calls L1 cs2 in (rs1 ++ rs2, L2).
Proof.
  revert L. induction cs1 as [|c cs1 IH]; intros L; cbn [app run_calls].
  - by destruct (run_calls L cs2).
  - destruct (check_request L _ _ _) as [r L1]. rewrite IH. destruct (run_calls L1 cs1) as [rs1 L2].
    by destruct (run_calls L2 cs2).
Qed.

Lemma run_calls_snoc L cs c :
  run_calls L (cs ++ [c]) =
  let '(rs, L1) := run_calls L cs in
  let '(r, L2) := check_request L1 (c_now c) (c_ins c) (c_ip c) in (rs ++ [(c_ip c, r)], L2).
Proof.
  rewrite run_calls_app. destruct (run_calls L cs) as [rs L1]. cbn [run_calls].
  by destruct (check_request L1 _ _ _).
Qed.

Lemma clock_ok_snoc t cs c :
  clock_ok t cs -> Forall (fun d => c_ins d <= c_now c) cs -> t <= c_now c -> c_now c <= c_ins c ->
  clock_ok t (cs ++ [c]).
Proof.
  intros Hok Hall. revert t Hok. induction Hall as [|d cs Hd _ IH]; intros t Hok H1 H2; cbn in *.
  - by split_and!.
  - destruct Hok as (? & ? & Hok). split_and!; [done|done|]. by apply IH.
Qed.

Lemma clock_ok_app t cs1 cs2 :
  clock_ok t (cs1 ++ cs2) -> exists t2, t <= t2 /\ clock_ok t2 cs2 /\ clock_ok t cs1 /\
    Forall (fun c => c_ins c <= t2) cs1.
Proof.
  revert t. induction cs1 as [|c cs1 IH]; intros t; cbn [app clock_ok].
  - intros H. exists t. by split_and!.
  - intros (H1 & H2 & H). destruct (IH _ H) as (t2 & Hle & Hc2 & Hc1 & Hall). exists t2.
    split; [lia|]. split_and!; try done. by constructor.
Qed.

(** The states a sequence of calls reaches. *)
Lemma run_calls_wf L cs t n :
  wf L t n -> clock_ok t cs -> 0 <= n -> n + Z.of_nat (length cs) < 2 ^ 64 ->
  forall t2, t <= t2 -> Forall (fun c => c_ins c <= t2) cs ->
  wf (run_calls L cs).2 t2 (n + Z.of_nat (length cs)) /\ max_rpm (run_calls L cs).2 = max_rpm L.
Proof.
  revert L t n. induction cs as [|c cs IH]; intros L t n Hwf Hclk Hn Hb t2 Ht2 Hall.
  - split; [|done]. eapply wf_mono; [exact Hwf|done|]. cbn. lia.
  - destruct Hclk as (H1 & H2 & Hclk). apply Forall_cons in Hall as [Hc Hall].
    cbn [length] in *. pose proof (check_request_wf L c t n Hwf H1 H2 Hn ltac:(lia)) as Hwf'.
    pose proof (proj1 (check_request_config L (c_now c) (c_ins c) (c_ip c))) as Hcfg.
    cbn [run_calls]. destruct (check_request L _ _ _) as [r L1]. cbn [snd] in *.
    destruct (IH L1 (c_ins c) (n + 1) Hwf' Hclk ltac:(lia) ltac:(lia) t2 Hc Hall) as [Hw Hm].
    destruct (run_calls L1 cs) as [rs L2]. cbn [snd] in *. split; [|congruence].
    eapply wf_mono; [exact Hw|done|lia].
Qed.

(** An answer is a number of seconds, or 0. *)
Lemma run_calls_answers L cs t n :
  0 < max_rpm L -> wf L t n -> clock_ok t cs -> 0 <= n -> n + Z.of_nat (length cs) < 2 ^ 64 ->
  Forall (fun ar => 0 <= ar.2) (run_calls L cs).1.
Proof.
  revert L t n. induction cs as [|c cs IH]; intros L t n Hmax Hwf Hclk Hn Hb; [constructor|].
  destruct Hclk as (H1 & H2 & Hclk). cbn [length] in Hb.
  pose proof (check_request_wf L c t n Hwf H1 H2 Hn ltac:(lia)) as Hwf'.
  pose proof (proj1 (check_request_config L (c_now c) (c_ins c) (c_ip c))) as Hcfg.
  destruct (check_request_answer L (c_now c) (c_ins c) (c_ip c) Hmax) as [Hok Hno].
  { intros s Hs. destruct (Hwf _ _ Hs). lia. }
  cbn [run_calls]. destruct (check_request L _ _ _) as [r L1]. cbn [fst snd] in *.
  specialize (IH L1 (c_ins c) (n + 1) ltac:(lia) Hwf' Hclk ltac:(lia) ltac:(lia)).
  destruct (run_calls L1 cs) as [rs L2]. cbn [fst] in *. constructor; [|done]. cbn [snd].
  destruct (Z.le_gt_cases (requests (next_state (c_now c) (c_ins c) (ip_states L !! c_ip c)))
              (max_rpm L)) as [Hle|Hgt]; [rewrite (Hok Hle); lia|]. destruct (Hno Hgt). lia.
Qed.
End RequestLimiter.

(** ** Properties of the authentication limiter *)

Section AuthLimiterProperties.
Import AuthLimiter.
Context (it : gmap string IpState -> list (string * IpState)) `{!Iteration it}.

(** Recording a failure never leaves more tracked addresses than the
    cap, whatever state the limiter was in and whatever order the hash map
    iterates in. *)
Theorem auth_limiter_memory_cap L now now_ins ip (Hcap : 0 < max_tracked_ips L) :
  tracked (check_and_record_failure it L now now_ins ip).2 <= max_tracked_ips L.
Proof. by apply check_and_record_failure_size. Qed.

(** Eviction under pressure is oldest-first: an unexpired entry that is
    dropped is never younger than one that is kept. *)
Theorem auth_limiter_evicts_oldest L now m k s k' s'
    (Hk : m !! k = Some s)
    (Hlive : expired (window_secs L) now s = false)
    (Hdrop : evict_to_cap it L now m !! k = None)
    (Hkeep : evict_to_cap it L now m !! k' = Some s') :
  window_start s <= window_start s'.
Proof.
  eapply evict_loop_oldest; [done| |exact Hdrop|exact Hkeep].
  by apply map_lookup_filter_Some.
Qed.

(** C27: refinement.  As long as the addresses seen fit under the cap, the
    answers an address gets and its final entry are those of a counter of
    its own: no other client's calls influence them. *)
Theorem auth_limiter_refines_counters L ops ip (Hfit : fits L ops) :
  answers ip (run_ops it L ops).1
  = (spec_run (window_secs L) (max_failures L) (ip_states L !! ip) (own ip ops)).1 /\
  ip_states (run_ops it L ops).2 !! ip
  = (spec_run (window_secs L) (max_failures L) (ip_states L !! ip) (own ip ops)).2.
Proof. by destruct (run_ops_spec it L ops ip Hfit) as (? & ? & _). Qed.

End AuthLimiterProperties.

(** ** Properties of the request limiter *)

Section RequestLimiterProperties.
Import RequestLimiter.

(** A request is let through exactly while the address' counter stays
    within [max_rpm]; otherwise the answer is a number of seconds between 1
    and 60, and a request made that much later is let through. *)
Theorem request_limiter_retry_after L now now_ins ip now' now_ins'
    (Hmax : 0 < max_rpm L < 2 ^ 64)
    (Hwf : forall s, ip_states L !! ip = Some s ->
             window_start s <= now /\ 0 <= requests s /\ requests s + 1 < 2 ^ 64)
    (Hclk : now <= now_ins) :
  let R := check_request L now now_ins ip in
  (R.1 = 0 <-> requests (next_state now now_ins (ip_states L !! ip)) <= max_rpm L) /\
  0 <= R.1 <= 60 /\
  (0 < R.1 -> now + R.1 * SEC <= now' -> now' <= now_ins' ->
   (check_request R.2 now' now_ins' ip).1 = 0).
Proof.
  intros R. subst R.
  pose proof (check_request_answer L now now_ins ip ltac:(lia)) as Hans.
  destruct Hans as [Hok Hno]; [intros s Hs; by destruct (Hwf s Hs)|].
  split; [|split].
  - split; [|done]. intros H.
    destruct (Z.le_gt_cases (requests (next_state now now_ins (ip_states L !! ip))) (max_rpm L))
      as [?|Hgt]; [done|]. destruct (Hno Hgt). lia.
  - destruct (Z.le_gt_cases (requests (next_state now now_ins (ip_states L !! ip))) (max_rpm L))
      as [Hle|Hgt]; [rewrite (Hok Hle); lia|]. destruct (Hno Hgt). lia.
  - intros. eapply check_request_retry_after; eauto; lia.
Qed.

(** Inside one window an address gets exactly [max_rpm] requests
    through: of the calls that follow its first request at [ws] by less
    than 60 seconds, those within what is left of the quota succeed. *)
Theorem request_limiter_window_quota L cs t n ip s
    (Hmax : 0 < max_rpm L) (Hwf : wf L t n) (Hclk : clock_ok t cs)
    (Hn : 0 <= n) (Hb : n + Z.of_nat (length cs) < 2 ^ 64)
    (Hs : ip_states L !! ip = Some s)
    (Hall : Forall (fun c => c_now c - window_start s < 60 * SEC) cs) :
  accepted ip (run_calls L cs).1
  = Z.min (Z.of_nat (length (own ip cs))) (Z.max 0 (max_rpm L - requests s)).
Proof. by eapply run_calls_window. Qed.

(** In any span of 60 seconds, from any state the limiter can be in, at
    most twice [max_rpm] requests of one address are let through. *)
Theorem request_limiter_sliding_bound L cs t n ip tend
    (Hmax : 0 < max_rpm L) (Hwf : wf L t n) (Hclk : clock_ok t cs)
    (Hn : 0 <= n) (Hb : n + Z.of_nat (length cs) < 2 ^ 64)
    (Hall : Forall (fun c => c_now c < tend /\ tend <= c_now c + 60 * SEC) cs) :
  accepted ip (run_calls L cs).1 <= 2 * max_rpm L.
Proof.
  etrans; [by eapply run_calls_quota|].
  unfold quota. destruct (ip_states L !! ip) as [s|] eqn:Hs; [|lia].
  specialize (Hwf _ _ Hs). zcase; lia.
Qed.

(** The counter is a fixed window, not a sliding one: with the default
    of 10 requests per minute, 19 requests of one address pass within half
    a second. *)
Theorem request_limiter_is_fixed_window :
  let cs := mk_call 0 0 "9.9.9.9"
            :: List.repeat (mk_call (59 * SEC + SEC / 2) (59 * SEC + SEC / 2) "9.9.9.9") 9
            ++ List.repeat (mk_call (60 * SEC) (60 * SEC) "9.9.9.9") 10 in
  accepted "9.9.9.9" (drop 1 (run_calls (mk_limiter 10 10000 ∅) cs).1) = 19.
Proof. by vm_compute. Qed.

(** The cap on tracked addresses is not enforced: requests of distinct
    addresses within one window are all tracked, for every value of
    [max_tracked_ips]. *)
Theorem request_limiter_unbounded rpm cap t ips
    (Hrpm : 0 < rpm) (Hnd : NoDup ips) :
  tracked (run_calls (mk_limiter rpm cap ∅) (mk_call t t <$> ips)).2
  = Z.of_nat (length ips).
Proof.
  rewrite (run_calls_tracked rpm cap) by (done || apply Forall_forall; done). done.
Qed.
End RequestLimiterProperties.

(** ** Witnesses *)

Module AuthWitness.
Import AuthLimiter.

Definition limiter (cap : Z) (m : gmap string IpState) : AuthRateLimiter :=
  mk_limiter 2 60 cap m.

Definition three : gmap string IpState :=
  {[ "a" := mk_ip 1 (10 * SEC); "b" := mk_ip 1 (20 * SEC); "c" := mk_ip 1 (30 * SEC) ]}.

Lemma auth_limiter_memory_cap_witness :
  0 < max_tracked_ips (limiter 2 three) /\
  tracked (check_and_record_failure map_to_list (limiter 2 three) (40 * SEC) (40 * SEC) "d").2 <= 2.
Proof.
  split; [done|].
  apply (auth_limiter_memory_cap map_to_list (limiter 2 three) (40 * SEC) (40 * SEC) "d"). done.
Defined.

Lemma auth_limiter_evicts_oldest_witness :
  evict_to_cap map_to_list (limiter 2 three) (40 * SEC) three !! "a" = None /\
  window_start (mk_ip 1 (10 * SEC)) <= window_start (mk_ip 1 (30 * SEC)).
Proof.
  split; [by vm_compute|].
  apply (auth_limiter_evicts_oldest map_to_list (limiter 2 three) (40 * SEC) three
           "a" (mk_ip 1 (10 * SEC)) "c" (mk_ip 1 (30 * SEC))); by vm_compute.
Defined.

Definition attack : list op :=
  [ Record_ 0 1 "x"; Record_ 2 3 "y"; Record_ (10 * SEC) (10 * SEC) "x";
    Query (11 * SEC) "x"; Record_ (20 * SEC) (20 * SEC) "x" ].

Lemma auth_limiter_refines_counters_witness :
  answers "x" (run_ops map_to_list (limiter 5 ∅) attack).1 = [false; false; false; true] /\
  answers "x" (run_ops map_to_list (limiter 5 ∅) attack).1
  = (spec_run 60 2 None (own "x" attack)).1.
Proof.
  split; [by vm_compute|].
  refine (proj1 (auth_limiter_refines_counters map_to_list (limiter 5 ∅) attack "x" _)).
  right. by vm_compute.
Defined.

End AuthWitness.

Module RequestWitness.
Import RequestLimiter.

Definition limiter : RequestRateLimiter := mk_limiter 1 10000 {[ "x" := mk_ip 1 0 ]}.

Lemma limiter_wf : wf limiter 0 1.
Proof. intros ip s Hs. simpl in Hs. apply lookup_singleton_Some in Hs as [_ <-]. simpl. lia. Qed.

Definition calls : list call :=
  [ mk_call (5 * SEC) (5 * SEC) "x"; mk_call (6 * SEC) (6 * SEC) "y" ].

Lemma request_limiter_retry_after_witness :
  (check_request limiter (10 * SEC) (10 * SEC) "x").1 = 50 /\
  (check_request (check_request limiter (10 * SEC) (10 * SEC) "x").2
     (60 * SEC) (60 * SEC) "x").1 = 0.
Proof.
  split; [by vm_compute|].
  assert (forall s, ip_states limiter !! "x" = Some s ->
            window_start s <= 10 * SEC /\ 0 <= requests s /\ requests s + 1 < 2 ^ 64) as Hwf.
  { intros s Hs. cbn [ip_states limiter] in Hs.
    apply lookup_singleton_Some in Hs as [_ <-]. by vm_compute. }
  refine (proj2 (proj2 (request_limiter_retry_after limiter (10 * SEC) (10 * SEC) "x"
            (60 * SEC) (60 * SEC) _ Hwf _)) _ _ _); by vm_compute.
Defined.

Lemma calls_clock : clock_ok 0 calls.
Proof. by vm_compute. Qed.

Lemma request_limiter_window_quota_witness :
  accepted "x" (run_calls limiter calls).1
  = Z.min (Z.of_nat (length (own "x" calls))) (Z.max 0 (1 - 1)).
Proof.
  refine (request_limiter_window_quota limiter calls 0 1 "x" (mk_ip 1 0)
            _ limiter_wf calls_clock _ _ _ _).
  1-4: by vm_compute.
  repeat constructor; by vm_compute.
Defined.

Lemma request_limiter_sliding_bound_witness :
  accepted "y" (run_calls limiter calls).1 <= 2 * 1.
Proof.
  refine (request_limiter_sliding_bound limiter calls 0 1 "y" (65 * SEC)
            _ limiter_wf calls_clock _ _ _).
  1-3: by vm_compute.
  repeat constructor; by vm_compute.
Defined.

Lemma request_limiter_unbounded_witness :
  tracked (run_calls (mk_limiter 10 2 ∅) (mk_call 0 0 <$> ["a"; "b"; "c"])).2 = 3.
Proof.
  apply (request_limiter_unbounded 10 2 0 ["a"; "b"; "c"]); [done|].
  apply (bool_decide_unpack _). by vm_compute.
Defined.
End RequestWitness.
