(* ===== verification/Voices.v ===== *)
(** * Voice catalog

    [include/tts/voices.hpp] and [src/tts/voices.cpp]: the immutable vector of
    preset voices with its lookups. *)

From Stdlib Require Import ZArith Lia Ascii String Sorted.
From stdpp Require Import base tactics numbers list sets strings.
From S2P Require Import Prelude.

#[local] Open Scope Z_scope.

Record Voice := mk_voice { id : string; name : string; language : string }.

#[export] Instance Voice_eq_dec : EqDecision Voice.
Proof. solve_decision. Defined.

(** The class has one field, the vector. *)
Definition VoiceCatalog := list Voice.

(** The vector the constructor fills in. *)
Definition voice_catalog : VoiceCatalog :=
  [ mk_voice "ar_male" "Arabic Male" "ar";
    mk_voice "de_female" "German Female" "de";
    mk_voice "de_male" "German Male" "de";
    mk_voice "casual_female" "Casual Female" "en";
    mk_voice "casual_male" "Casual Male" "en";
    mk_voice "cheerful_female" "Cheerful Female" "en";
    mk_voice "neutral_female" "Neutral Female" "en";
    mk_voice "neutral_male" "Neutral Male" "en";
    mk_voice "es_female" "Spanish Female" "es";
    mk_voice "es_male" "Spanish Male" "es";
    mk_voice "fr_female" "French Female" "fr";
    mk_voice "fr_male" "French Male" "fr";
    mk_voice "hi_female" "Hindi Female" "hi";
    mk_voice "hi_male" "Hindi Male" "hi";
    mk_voice "it_female" "Italian Female" "it";
    mk_voice "it_male" "Italian Male" "it";
    mk_voice "nl_female" "Dutch Female" "nl";
    mk_voice "nl_male" "Dutch Male" "nl";
    mk_voice "pt_female" "Portuguese Female" "pt";
    mk_voice "pt_male" "Portuguese Male" "pt" ].

(** [std::ranges::find(voices_, id, &Voice::id)]: the first match. *)
Fixpoint find (catalog : VoiceCatalog) (i : string) : option Voice :=
  match catalog with
  | [] => None
  | v :: rest => if String.eqb (id v) i then Some v else find rest i
  end.

Definition all (catalog : VoiceCatalog) : list Voice := catalog.

Definition by_language (catalog : VoiceCatalog) (lang : string) : list Voice :=
  List.filter (fun v => String.eqb (language v) lang) catalog.

Definition is_valid (catalog : VoiceCatalog) (i : string) : bool :=
  match find catalog i with Some _ => true | None => false end.

(** The loop of [list_valid_ids]: [", "] before every entry but the first. *)
Fixpoint list_ids_from (i : nat) (voices : list Voice) : string :=
  match voices with
  | [] => EmptyString
  | v :: rest =>
      (if (0 <? i)%nat then ", " else EmptyString) +:+ id v +:+ list_ids_from (S i) rest
  end.

Definition list_valid_ids (catalog : VoiceCatalog) : string := list_ids_from 0 catalog.

(** ** Lemmas *)

Lemma find_Some catalog i v :
  find catalog i = Some v -> v ∈ catalog /\ id v = i.
Proof.
  induction catalog as [|w rest IH]; [done|]. simpl.
  destruct (String.eqb_spec (id w) i) as [Heq|Hne].
  - intros [= ->]. split; [by constructor | done].
  - intros H. destruct (IH H). split; [by constructor | done].
Qed.

Lemma find_None catalog i : find catalog i = None <-> i ∉ (id <$> catalog).
Proof.
  induction catalog as [|w rest IH]; simpl; [split; [set_solver | done]|].
  rewrite elem_of_cons. destruct (String.eqb_spec (id w) i) as [Heq|Hne].
  - split; [done|]. intros H. destruct H. by left.
  - rewrite IH. split; [intros H [?|?]; congruence || done | intros H ?; apply H; by right].
Qed.

Lemma find_unique catalog i v :
  NoDup (id <$> catalog) -> v ∈ catalog -> id v = i -> find catalog i = Some v.
Proof.
  induction catalog as [|w rest IH]; [set_solver|].
  rewrite fmap_cons, NoDup_cons. intros [Hni Hnd] Hin Hid. simpl.
  apply elem_of_cons in Hin as [->|Hin].
  - by rewrite (proj2 (String.eqb_eq _ _) Hid).
  - destruct (String.eqb_spec (id w) i) as [Heq|Hne]; [|by apply IH].
    destruct Hni. apply list_elem_of_fmap. exists v. split; [congruence|done].
Qed.

Lemma is_valid_spec catalog i : is_valid catalog i = true <-> i ∈ (id <$> catalog).
Proof.
  unfold is_valid. destruct (find catalog i) as [v|] eqn:Hf.
  - apply find_Some in Hf as [Hin <-]. split; [|done]. intros _.
    apply list_elem_of_fmap. by exists v.
  - apply find_None in Hf. done.
Qed.

(** Splitting what [list_ids_from] prints gives the identifiers back, each
    but the first with the blank that follows the separator. *)
Definition comma_sep : ascii := ","%char.

Lemma list_ids_from_split voices i :
  voices <> [] -> Forall (fun v => rfind comma_sep (id v) = None) voices ->
  split_on comma_sep (list_ids_from i voices)
  = match i with
    | O => match voices with
           | [] => []
           | v :: rest => id v :: ((fun w => String " "%char (id w)) <$> rest)
           end
    | S _ => EmptyString :: ((fun w => String " "%char (id w)) <$> voices)
    end.
Proof.
  assert (forall c (s t : string), rfind c s = None -> exists h u,
            split_on c t = h :: u /\ split_on c (s +:+ t) = (s +:+ h) :: u) as Happ.
  { intros c s t. destruct (split_on_cons c t) as (h & u & Ht). rewrite Ht.
    induction s as [|x s IH]; intros Hs; exists h, u; (split; [done|]).
    - by rewrite !sapp_nil_l.
    - rewrite !sapp_cons. simpl in *. destruct (rfind c s); [done|].
      destruct (Ascii.eqb x c); [done|]. destruct (IH eq_refl) as (h' & u' & [= <- <-] & ->). done. }
  revert i. induction voices as [|v rest IH]; intros i Hne Hall; [done|].
  apply Forall_cons in Hall as [Hv Hall].
  assert (split_on comma_sep (id v +:+ list_ids_from (S i) rest)
          = id v :: ((fun w => String " "%char (id w)) <$> rest)) as Hrest.
  { destruct (Happ _ (id v) (list_ids_from (S i) rest) Hv) as (h & u & Ht & ->).
    destruct rest as [|w rest'].
    - simpl in Ht. injection Ht as <- <-. by rewrite sapp_nil_r.
    - rewrite (IH (S i)) in Ht by done. injection Ht as <- <-. by rewrite sapp_nil_r. }
  destruct i as [|i]; cbn [list_ids_from Nat.ltb Nat.leb].
  - by rewrite sapp_nil_l.
  - change (", " +:+ id v +:+ list_ids_from (S (S i)) rest)
      with (String comma_sep (String " "%char (id v +:+ list_ids_from (S (S i)) rest))).
    assert (forall s h t, split_on comma_sep s = h :: t ->
              split_on comma_sep (String comma_sep (String " "%char s))
              = EmptyString :: String " "%char h :: t) as Hsp.
    { intros s h t Hs. simpl. by rewrite Hs. }
    rewrite fmap_cons. apply Hsp.
    destruct (Happ _ (id v) (list_ids_from (S (S i)) rest) Hv) as (h & u & Ht & ->).
    destruct rest as [|w rest'].
    + simpl in Ht. injection Ht as <- <-. by rewrite sapp_nil_r.
    + rewrite (IH (S (S i))) in Ht by done. injection Ht as <- <-. by rewrite sapp_nil_r.
Qed.

(** The order the comment of the constructor promises: by language, then by
    identifier. *)
Definition voice_leb (v w : Voice) : bool :=
  match String.compare (language v) (language w) with
  | Lt => true
  | Gt => false
  | Eq => match String.compare (id v) (id w) with Gt => false | _ => true end
  end.

Fixpoint sorted_voices (l : list Voice) : bool :=
  match l with
  | v :: ((w :: _) as rest) => voice_leb v w && sorted_voices rest
  | _ => true
  end.

(** ** Properties *)

(** The catalog is what its comments promise: 20 voices with pairwise
    distinct identifiers, sorted by language and then by identifier; they
    cover nine languages. *)
Theorem voice_catalog_wellformed :
  length (all voice_catalog) = 20%nat /\
  NoDup (id <$> voice_catalog) /\
  sorted_voices voice_catalog = true /\
  remove_dups (language <$> voice_catalog)
  = ["ar"; "de"; "en"; "es"; "fr"; "hi"; "it"; "nl"; "pt"].
Proof.
  split_and!; try by vm_compute. apply (bool_decide_unpack _). by vm_compute.
Qed.

(** Looking a voice up by identifier finds exactly the voice of the
    catalog with that identifier, and [is_valid] is membership. *)
Theorem find_correct i v :
  (find voice_catalog i = Some v <-> v ∈ voice_catalog /\ id v = i) /\
  (is_valid voice_catalog i = true <-> i ∈ (id <$> voice_catalog)).
Proof.
  split; [|apply is_valid_spec]. split; [apply find_Some|].
  intros [Hin Hid]. apply find_unique; [|done..].
  apply (bool_decide_unpack _). by vm_compute.
Qed.

(** Round trip of the list printed in error messages: splitting it at the
    commas and dropping the blank gives the identifiers in catalog order. *)
Theorem list_valid_ids_roundtrip catalog
    (Hne : catalog <> [])
    (Hcomma : Forall (fun v => rfind comma_sep (id v) = None) catalog) :
  exists first rest,
    split_on comma_sep (list_valid_ids catalog) = first :: (String " "%char <$> rest) /\
    first :: rest = id <$> catalog.
Proof.
  unfold list_valid_ids. rewrite list_ids_from_split by done.
  destruct catalog as [|v rest]; [done|].
  exists (id v), (id <$> rest). split; [|done]. f_equal. by rewrite <- list_fmap_compose.
Qed.

Lemma list_valid_ids_roundtrip_witness :
  exists first rest,
    split_on comma_sep (list_valid_ids voice_catalog) = first :: (String " "%char <$> rest) /\
    first :: rest = id <$> voice_catalog.
Proof.
  apply (list_valid_ids_roundtrip voice_catalog); [done|].
  repeat constructor.
Defined.
