(* ===== verification/Validation.v ===== *)
(** * Request validation

    [include/tts/validation.hpp] and [src/server/validation.cpp]: one
    validator per field of a speech request, each returning a
    [ValidationResult]. *)

From Stdlib Require Import ZArith Lia Ascii String SpecFloat.
From stdpp Require Import base tactics numbers list strings.
From S2P Require Import Prelude Floats Voices.

#[local] Open Scope Z_scope.

Record ValidationResult := mk_validation {
  valid : bool;
  http_status : Z;
  error_type : string;
  error_code : string;
  error_message : string;
  error_param : string;
}.

(** [return {}] *)
Definition validation_ok : ValidationResult := mk_validation true 200 "" "" "" "".

Definition make_validation_error (status : Z) (code message param : string) : ValidationResult :=
  mk_validation false status "invalid_request_error" code message param.

Definition validate_content_type (content_type : string) : ValidationResult :=
  if negb (scontains "application/json" content_type) then
    make_validation_error 400 "invalid_content_type" "Content-Type must be application/json." ""
  else validation_ok.

(** The default of [max_body_bytes]. *)
Definition MAX_BODY_BYTES : Z := 1048576.

Definition validate_body_size (body_size max_body_bytes : Z) : ValidationResult :=
  if max_body_bytes <? body_size then
    make_validation_error 413 "payload_too_large" "Request body exceeds maximum size of 1MB." ""
  else validation_ok.

Definition validate_model (model : string) : ValidationResult :=
  if sempty model then
    make_validation_error 400 "missing_input" "Missing required parameter: 'model'." "model"
  else if negb (String.eqb model "voxtral-4b") then
    make_validation_error 400 "invalid_model" "Invalid model. Supported models: voxtral-4b." "model"
  else validation_ok.

(** [input.size()] is a count of bytes, cast to [int]. *)
Definition validate_input (input : string) (max_chars : Z) : ValidationResult :=
  if sempty input then
    make_validation_error 400 "missing_input" "Missing required parameter: 'input'." "input"
  else if sall isspace input then
    make_validation_error 400 "missing_input" "Input must not be empty or whitespace-only." "input"
  else if (0 <? max_chars) && (max_chars <? i32 (slen input)) then
    make_validation_error 400 "string_above_max_length"
      ("Input exceeds maximum length of " +:+ to_string max_chars +:+ " characters.") "input"
  else validation_ok.

Definition validate_voice (voice : string) (catalog : VoiceCatalog) : ValidationResult :=
  if sempty voice then
    make_validation_error 400 "missing_input" "Missing required parameter: 'voice'." "voice"
  else if negb (is_valid catalog voice) then
    make_validation_error 400 "invalid_voice"
      ("Invalid voice: '" +:+ voice +:+ "'. Available voices: " +:+ list_valid_ids catalog +:+ ".")
      "voice"
  else validation_ok.

Definition validate_response_format (format : string) : ValidationResult :=
  if sempty format || String.eqb format "wav" then validation_ok
  else
    make_validation_error 400 "invalid_format"
      ("Invalid response_format: '" +:+ format +:+ "'. Supported formats: wav.") "response_format".

Definition kMinSpeed : spec_float := f32_0_25.
Definition kMaxSpeed : spec_float := f32_4.

Definition validate_speed (speed : spec_float) : ValidationResult :=
  if flt speed kMinSpeed || fgt speed kMaxSpeed then
    make_validation_error 400 "speed_out_of_range" "Speed must be between 0.25 and 4.0." "speed"
  else validation_ok.

(** ** Lemmas *)

(** Every validator returns either the empty result or an error with the
    same type, a non-empty code and a client-error status. *)
Definition well_formed (r : ValidationResult) : Prop :=
  r = validation_ok \/
  (valid r = false /\ (http_status r = 400 \/ http_status r = 413) /\
   error_type r = "invalid_request_error" /\ error_code r <> "" /\ error_message r <> "").

Lemma validation_ok_wf : well_formed validation_ok.
Proof. by left. Qed.

Lemma make_validation_error_wf status code message param :
  status = 400 \/ status = 413 -> code <> "" -> message <> "" ->
  well_formed (make_validation_error status code message param).
Proof. intros. right. by split_and!. Qed.

#[export] Hint Resolve validation_ok_wf make_validation_error_wf : tts.

(** Splits a validator into its branches. *)
Ltac validator :=
  repeat case_match; first [apply validation_ok_wf
                           | apply make_validation_error_wf; [by auto | done | done]].

Lemma validate_content_type_wf s : well_formed (validate_content_type s).
Proof. unfold validate_content_type. validator. Qed.

Lemma validate_body_size_wf n m : well_formed (validate_body_size n m).
Proof. unfold validate_body_size. validator. Qed.

Lemma validate_model_wf s : well_formed (validate_model s).
Proof. unfold validate_model. validator. Qed.

Lemma validate_input_wf s m : well_formed (validate_input s m).
Proof. unfold validate_input. validator. Qed.

Lemma validate_voice_wf s c : well_formed (validate_voice s c).
Proof. unfold validate_voice. validator. Qed.

Lemma validate_response_format_wf s : well_formed (validate_response_format s).
Proof. unfold validate_response_format. validator. Qed.

Lemma validate_speed_wf x : well_formed (validate_speed x).
Proof. unfold validate_speed. validator. Qed.

#[export] Hint Resolve validate_content_type_wf validate_body_size_wf validate_model_wf
  validate_input_wf validate_voice_wf validate_response_format_wf validate_speed_wf : tts.

Lemma well_formed_invalid r :
  well_formed r -> valid r = false -> http_status r = 400 \/ http_status r = 413.
Proof. intros [->|H]; [done|]. naive_solver. Qed.

Lemma validate_model_valid s : valid (validate_model s) = true <-> s = "voxtral-4b".
Proof.
  unfold validate_model. destruct (sempty s) eqn:He.
  - apply sempty_spec in He as ->. done.
  - destruct (String.eqb_spec s "voxtral-4b"); simpl; split; done.
Qed.

Lemma validate_input_valid s m :
  slen s <= INT_MAX ->
  valid (validate_input s m) = true <->
  s <> "" /\ sall isspace s = false /\ (0 < m -> slen s <= m).
Proof.
  intros Hlen. unfold validate_input.
  destruct (sempty s) eqn:He; [apply sempty_spec in He as ->; naive_solver|].
  assert (s <> "") by (intros ->; done).
  destruct (sall isspace s); [simpl; naive_solver|].
  rewrite i32_small by (unfold in_int, INT_MIN; pose proof (slen_nonneg s); lia).
  destruct (Z.ltb_spec 0 m), (Z.ltb_spec m (slen s)); simpl; split; try done; intros; try split_and!; try done; try lia.
Qed.

Lemma validate_voice_valid v c :
  valid (validate_voice v c) = true <-> v <> "" /\ v ∈ (id <$> c).
Proof.
  unfold validate_voice. destruct (sempty v) eqn:He.
  - apply sempty_spec in He as ->. simpl. naive_solver.
  - assert (v <> "") by (intros ->; done).
    rewrite <- is_valid_spec. destruct (is_valid c v); simpl; naive_solver.
Qed.

Lemma validate_response_format_valid f :
  valid (validate_response_format f) = true <-> f = "" \/ f = "wav".
Proof.
  unfold validate_response_format. destruct (sempty f) eqn:He.
  - apply sempty_spec in He as ->. simpl. naive_solver.
  - assert (f <> "") by (intros ->; done).
    destruct (String.eqb_spec f "wav"); simpl; naive_solver.
Qed.

(** 0.25 and 4.0 in units of [2^-149]. *)
Lemma speed_bounds_units :
  f32_units kMinSpeed = Some (2 ^ 147) /\ f32_units kMaxSpeed = Some (2 ^ 151) /\
  f32_valid kMinSpeed = true /\ f32_valid kMaxSpeed = true.
Proof. by vm_compute. Qed.

Lemma validate_speed_valid x u :
  f32_valid x = true -> f32_units x = Some u ->
  valid (validate_speed x) = true <-> 2 ^ 147 <= u <= 2 ^ 151.
Proof.
  intros Hx Hu. destruct speed_bounds_units as (Hmin & Hmax & Vmin & Vmax).
  unfold validate_speed, fgt. fold (flt kMaxSpeed x).
  rewrite (flt_units _ _ _ _ Hx Vmin Hu Hmin), (flt_units _ _ _ _ Vmax Hx Hmax Hu).
  destruct (Z.ltb_spec u (2 ^ 147)), (Z.ltb_spec (2 ^ 151) u); simpl; split; (done || lia).
Qed.

(** ** Properties *)

(** Every validator answers either the empty result or an error of type
    [invalid_request_error] with a 400 or 413 status, a code and a message. *)
Theorem validators_well_formed ct n m model input max_chars voice catalog format speed :
  Forall well_formed
    [ validate_content_type ct; validate_body_size n m; validate_model model;
      validate_input input max_chars; validate_voice voice catalog;
      validate_response_format format; validate_speed speed ].
Proof. rewrite !Forall_cons. split_and!; [auto with tts..|done]. Qed.

(** An input is accepted exactly when it is not empty, not only white
    space, and has at most [max_chars] bytes (unlimited when [max_chars] is
    not positive). *)
Theorem validate_input_correct s m (Hlen : slen s <= INT_MAX) :
  valid (validate_input s m) = true <->
  s <> "" /\ sall isspace s = false /\ (0 < m -> slen s <= m).
Proof. by apply validate_input_valid. Qed.

Lemma validate_input_correct_witness :
  slen "Hello, world!" <= INT_MAX /\
  (valid (validate_input "Hello, world!" 4096) = true <->
   "Hello, world!" <> "" /\ sall isspace "Hello, world!" = false /\
   (0 < 4096 -> slen "Hello, world!" <= 4096)).
Proof.
  split; [by vm_compute|]. apply (validate_input_correct "Hello, world!" 4096). by vm_compute.
Defined.

(** A finite speed is accepted exactly when it lies in [0.25, 4.0], and
    an infinite one is rejected; NaN, which JSON cannot carry, is accepted. *)
Theorem validate_speed_correct x (Hx : f32_valid x = true) :
  valid (validate_speed x) = true <->
  x = S754_nan \/ exists u, f32_units x = Some u /\ 2 ^ 147 <= u <= 2 ^ 151.
Proof.
  destruct (f32_units x) as [u|] eqn:Hu.
  - rewrite (validate_speed_valid x u) by done. split; [intros; right; by exists u|].
    intros [->|(u' & [= <-] & H)]; done.
  - destruct x as [s|s| |s m e]; try done.
    + destruct s; simpl; split; try done; intros [?|(? & [=] & _)]; done.
    + split; [by left | done].
Qed.

Lemma validate_speed_correct_witness :
  f32_valid f32_1 = true /\
  (valid (validate_speed f32_1) = true <->
   f32_1 = S754_nan \/ exists u, f32_units f32_1 = Some u /\ 2 ^ 147 <= u <= 2 ^ 151).
Proof.
  split; [by vm_compute|]. apply (validate_speed_correct f32_1). by vm_compute.
Defined.

(** A text of two characters and six bytes is refused by a limit of three:
    the limit counts bytes, not characters. *)
Example validate_input_counts_bytes :
  let euro := String "226"%char (String "130"%char (String "172"%char EmptyString)) in
  error_code (validate_input (euro +:+ euro) 3) = "string_above_max_length".
Proof. by vm_compute. Qed.
