(* ===== verification/Wav.v ===== *)
(** * WAV encoding

    The anonymous-namespace functions of [src/tts/voxtral_backend.cpp] (and
    the header of [src/tts/mock_backend.hpp]): the 44-byte RIFF header, the
    silent file of the stub and the conversion of float samples to 16-bit PCM.

    A [std::vector<uint8_t>] is a list of bytes in [0, 256); writes through a
    pointer are list updates, and an access outside the vector, a cast of a
    float that does not fit or an overflow of [int] is undefined behaviour,
    written [None]. *)

From Stdlib Require Import ZArith Lia Ascii String SpecFloat.
From stdpp Require Import base tactics numbers list strings.
From S2P Require Import Prelude Floats.

#[local] Open Scope Z_scope.

(** The bytes [write_u32] and [write_u16] store, in little-endian order. *)
Definition write_u32 (val : Z) : list Z :=
  [ u8 (Z.land val 255);
    u8 (Z.land (Z.shiftr val 8) 255);
    u8 (Z.land (Z.shiftr val 16) 255);
    u8 (Z.land (Z.shiftr val 24) 255) ].

Definition write_u16 (val : Z) : list Z :=
  [ u8 (Z.land val 255); u8 (Z.land (Z.shiftr val 8) 255) ].

Definition str_bytes (s : string) : list Z := byte_of <$> schars s.

Definition kChannels : Z := 1.
Definition kBitsPerSample : Z := 16.
Definition kBytesPerSample : Z := kBitsPerSample / 8.

(** [memcpy(p + off, bytes, n)] into a vector that is large enough. *)
Definition store (off : nat) (bytes : list Z) (v : list Z) : list Z :=
  list_inserts off bytes v.

(** The value of an expression of type [int]: overflow is undefined. *)
Definition int_value (z : Z) : option Z :=
  if (INT_MIN <=? z) && (z <=? INT_MAX) then Some z else None.

Definition build_wav_header (sample_rate num_samples : Z) : option (list Z) :=
  let data_size := u32 (num_samples * u32 (kChannels * kBytesPerSample)) in
  let file_size := u32 (36 + data_size) in
  let hdr := replicate 44 0 in
  let hdr := store 0 (str_bytes "RIFF") hdr in
  let hdr := store 4 (write_u32 file_size) hdr in
  let hdr := store 8 (str_bytes "WAVE") hdr in
  let hdr := store 12 (str_bytes "fmt ") hdr in
  let hdr := store 16 (write_u32 16) hdr in
  let hdr := store 20 (write_u16 1) hdr in
  let hdr := store 22 (write_u16 (u16 kChannels)) hdr in
  let hdr := store 24 (write_u32 (u32 sample_rate)) hdr in
  frame_rate ← int_value (sample_rate * kChannels);
  byte_rate ← int_value (frame_rate * kBytesPerSample);
  let hdr := store 28 (write_u32 (u32 byte_rate)) hdr in
  let hdr := store 32 (write_u16 (u16 (kChannels * kBytesPerSample))) hdr in
  let hdr := store 34 (write_u16 (u16 kBitsPerSample)) hdr in
  let hdr := store 36 (str_bytes "data") hdr in
  Some (store 40 (write_u32 data_size) hdr).

(** [static_cast<uint32_t>] and [static_cast<int16_t>] of a float. *)
Definition cast_u32 (x : spec_float) : option Z :=
  match ftrunc x with
  | Some z => if (0 <=? z) && (z <? 2 ^ 32) then Some z else None
  | None => None
  end.

Definition cast_i16 (x : spec_float) : option Z :=
  match ftrunc x with
  | Some z => if (- 2 ^ 15 <=? z) && (z <? 2 ^ 15) then Some z else None
  | None => None
  end.

(** The size [44 + num * 2] is computed in [uint32_t]. *)
Definition wav_size (num : Z) : Z := u32 (44 + u32 (num * 2)).

Definition build_silent_wav (sample_rate : Z) (duration_sec : spec_float) : option (list Z) :=
  if (sample_rate <=? 0) || flt duration_sec f64_0 then Some []
  else
    num_samples ← cast_u32 (f64_mul (f64_of_Z sample_rate) duration_sec);
    wav ← build_wav_header sample_rate num_samples;
    Some (resize (Z.to_nat (wav_size num_samples)) 0 wav).

(** One sample: clamped to [-1, 1], scaled, truncated. *)
Definition pcm_sample (x : spec_float) : option Z :=
  let clamped := fmax f32_m1 (fmin f32_1 x) in
  cast_i16 (f32_mul clamped f32_32767).

Definition pcm_bytes (sample : Z) : list Z :=
  [ u8 (Z.land (u16 sample) 255); u8 (Z.land (Z.shiftr (u16 sample) 8) 255) ].

(** The loop: [n] iterations are left and [i] are done; [samples] are the
    floats from index [i] on, and [pcm] is [wav.data() + 44]. *)
Fixpoint write_samples (n i : nat) (samples : list spec_float) (wav : list Z) : option (list Z) :=
  match n, samples with
  | O, _ => Some wav
  | S _, [] => None
  | S n', x :: rest =>
      sample ← pcm_sample x;
      if decide (44 + i * 2 + 1 < length wav)%nat
      then write_samples n' (S i) rest (store (44 + i * 2) (pcm_bytes sample) wav)
      else None
  end.

(** [samples] points to an array of floats, or is null; a read past the end
    of the array is undefined. *)
Definition build_wav_from_float_samples (samples : option (list spec_float)) (n_samples : Z)
    (sample_rate : Z) : option (list Z) :=
  if n_samples <=? 0 then build_silent_wav sample_rate f64_0
  else
    match samples with
    | None => build_silent_wav sample_rate f64_0
    | Some xs =>
        let num := u32 n_samples in
        wav ← build_wav_header sample_rate num;
        let wav := resize (Z.to_nat (wav_size num)) 0 wav in
        write_samples (Z.to_nat num) 0 xs wav
    end.

(** ** Reference header and reading of a RIFF file *)

(** The fields one after the other. *)
Definition wav_header (sample_rate num : Z) : list Z :=
  str_bytes "RIFF" ++ write_u32 (u32 (36 + u32 (num * 2))) ++ str_bytes "WAVE" ++
  str_bytes "fmt " ++ write_u32 16 ++ write_u16 1 ++ write_u16 1 ++
  write_u32 (u32 sample_rate) ++ write_u32 (u32 (sample_rate * 2)) ++
  write_u16 2 ++ write_u16 16 ++ str_bytes "data" ++ write_u32 (u32 (num * 2)).

(** The rates whose byte rate is an [int]. *)
Definition rate_fits (sample_rate : Z) : bool :=
  (INT_MIN <=? 2 * sample_rate) && (2 * sample_rate <=? INT_MAX).
(** The sizes that fit in the header. *)
Definition size_fits (num : Z) : bool := 44 + 2 * num <? 2 ^ 32.

Fixpoint le_value (bytes : list Z) : Z :=
  match bytes with
  | [] => 0
  | b :: rest => b + 256 * le_value rest
  end.

Definition field (off len : nat) (v : list Z) : list Z := take len (drop off v).
Definition u32_at (off : nat) (v : list Z) : Z := le_value (field off 4 v).
Definition u16_at (off : nat) (v : list Z) : Z := le_value (field off 2 v).

Record wav_info := mk_wav_info {
  riff_size : Z; fmt_size : Z; audio_format : Z; channels : Z; rate : Z;
  byte_rate : Z; block_align : Z; bits : Z; data_size : Z;
}.

Definition parse_wav (v : list Z) : option wav_info :=
  if decide (44 <= length v)%nat then
    if decide (field 0 4 v = str_bytes "RIFF" /\ field 8 4 v = str_bytes "WAVE"
               /\ field 12 4 v = str_bytes "fmt " /\ field 36 4 v = str_bytes "data") then
      Some (mk_wav_info (u32_at 4 v) (u32_at 16 v) (u16_at 20 v) (u16_at 22 v) (u32_at 24 v)
              (u32_at 28 v) (u16_at 32 v) (u16_at 34 v) (u32_at 40 v))
    else None
  else None.

(** ** Lemmas *)

Lemma byte_at z k : 0 <= k -> u8 (Z.land (Z.shiftr z k) 255) = (z / 2 ^ k) mod 256.
Proof.
  intros Hk. change 255 with (Z.ones 8). rewrite Z.land_ones, Z.shiftr_div_pow2 by lia.
  unfold u8. by rewrite Z.mod_mod.
Qed.

Lemma byte_at_0 z : u8 (Z.land z 255) = z mod 256.
Proof. change 255 with (Z.ones 8). rewrite Z.land_ones by lia. unfold u8. by rewrite Z.mod_mod. Qed.

Lemma le_value_u32 z : 0 <= z < 2 ^ 32 -> le_value (write_u32 z) = z.
Proof.
  intros Hz. unfold write_u32. cbn [le_value].
  rewrite byte_at_0, !byte_at by lia.
  change (2 ^ 8) with 256. change (2 ^ 16) with (256 * 256). change (2 ^ 24) with (256 * 256 * 256).
  rewrite <- !Z.div_div by lia.
  pose proof (Z.div_mod z 256). pose proof (Z.div_mod (z / 256) 256).
  pose proof (Z.div_mod (z / 256 / 256) 256).
  rewrite (Z.mod_small (z / 256 / 256 / 256)); [lia|].
  split; [repeat apply Z.div_pos; lia|].
  repeat (apply Z.div_lt_upper_bound; [lia|]). lia.
Qed.

Lemma le_value_u16 z : 0 <= z < 2 ^ 16 -> le_value (write_u16 z) = z.
Proof.
  intros Hz. unfold write_u16. cbn [le_value]. rewrite byte_at_0, byte_at by lia.
  change (2 ^ 8) with 256. pose proof (Z.div_mod z 256).
  rewrite (Z.mod_small (z / 256)); [lia|].
  split; [apply Z.div_pos; lia | apply Z.div_lt_upper_bound; lia].
Qed.

Lemma int_value_in z : INT_MIN <= z <= INT_MAX -> int_value z = Some z.
Proof. intros Hz. unfold int_value. by rewrite !(proj2 (Z.leb_le _ _)) by lia. Qed.

Lemma int_value_out z : ~ (INT_MIN <= z <= INT_MAX) -> int_value z = None.
Proof. intros Hz. unfold int_value. destruct (_ && _) eqn:E; [lia|done]. Qed.

Lemma int_value_Some z y : int_value z = Some y -> y = z.
Proof. unfold int_value. by destruct (_ && _) as [|]; intros [= <-]. Qed.

(** The header is defined exactly when the byte rate is an [int]. *)
Lemma build_wav_header_eq sample_rate num :
  build_wav_header sample_rate num =
  if rate_fits sample_rate then Some (wav_header sample_rate num) else None.
Proof.
  unfold build_wav_header. change kChannels with 1. change kBytesPerSample with 2.
  rewrite Z.mul_1_r. destruct (rate_fits sample_rate) eqn:Hf.
  - rewrite int_value_in by (unfold rate_fits, INT_MIN, INT_MAX in *; lia).
    cbn [mbind option_bind].
    rewrite int_value_in by (unfold rate_fits, INT_MIN, INT_MAX in *; lia). reflexivity.
  - destruct (int_value sample_rate) as [fr|] eqn:Hfr; [|done]. cbn [mbind option_bind].
    apply int_value_Some in Hfr as ->.
    by rewrite int_value_out by (unfold rate_fits, INT_MIN, INT_MAX in *; lia).
Qed.

Lemma wav_header_length sample_rate num : length (wav_header sample_rate num) = 44%nat.
Proof. reflexivity. Qed.

Lemma parse_header sample_rate num rest :
  0 <= sample_rate < 2 ^ 31 ->
  parse_wav (wav_header sample_rate num ++ rest) =
  Some (mk_wav_info (u32 (36 + u32 (num * 2))) 16 1 1 sample_rate
          (sample_rate * 2) 2 16 (u32 (num * 2))).
Proof.
  intros Hr. unfold parse_wav.
  rewrite decide_True by (rewrite length_app, wav_header_length; lia).
  rewrite decide_True by (split_and!; reflexivity).
  f_equal.
  assert (forall off n, (off + n <= 44)%nat ->
            field off n (wav_header sample_rate num ++ rest)
            = field off n (wav_header sample_rate num)) as Hf.
  { intros off n Hn. unfold field.
    rewrite drop_app_le by (rewrite wav_header_length; lia).
    by rewrite take_app_le by (rewrite length_drop, wav_header_length; lia). }
  unfold u32_at, u16_at. rewrite !Hf by lia.
  f_equal.
  - apply (le_value_u32 (u32 (36 + u32 (num * 2)))), u32_bound.
  - rewrite <- (u32_small sample_rate) at 2 by lia. apply (le_value_u32 (u32 sample_rate)), u32_bound.
  - etrans; [apply (le_value_u32 (u32 (sample_rate * 2))), u32_bound|].
    rewrite u32_small; lia.
  - apply (le_value_u32 (u32 (num * 2))), u32_bound.
Qed.

Lemma store_length off bytes v : length (store off bytes v) = length v.
Proof. apply length_inserts. Qed.

(** Stores at the end of what was written so far append. *)
Lemma store_app l1 bytes l2 :
  (length bytes <= length l2)%nat ->
  store (length l1) bytes (l1 ++ l2) = l1 ++ bytes ++ drop (length bytes) l2.
Proof.
  unfold store. revert l1 l2. induction bytes as [|b bytes IH]; intros l1 l2 Hl; [done|].
  destruct l2 as [|x l2]; [simpl in Hl; lia|]. simpl in Hl |- *.
  rewrite (cons_middle x l1 l2), app_assoc.
  replace (S (length l1)) with (length (l1 ++ [x])) by (rewrite length_app; simpl; lia).
  rewrite IH by lia. rewrite <- app_assoc.
  rewrite insert_app_r_alt by lia. by rewrite Nat.sub_diag.
Qed.

Lemma pcm_bytes_length y : length (pcm_bytes y) = 2%nat.
Proof. done. Qed.

Lemma write_samples_spec xs ys n i hd tl :
  Forall2 (fun x y => pcm_sample x = Some y) xs ys -> (n <= length xs)%nat ->
  length hd = (44 + i * 2)%nat -> (2 * n <= length tl)%nat ->
  write_samples n i xs (hd ++ tl) =
  Some (hd ++ mjoin (pcm_bytes <$> take n ys) ++ drop (2 * n) tl).
Proof.
  intros Hall. revert n i hd tl.
  induction Hall as [|x y xs ys Hx Hall IH]; intros [|n] i hd tl Hn Hh Ht;
    [done|simpl in Hn; lia|done|].
  cbn [write_samples]. rewrite Hx. cbn [mbind option_bind].
  destruct tl as [|t0 [|t1 tl]]; [simpl in Ht; lia..|]. simpl in Hn, Ht.
  rewrite decide_True by (rewrite length_app; simpl; lia).
  rewrite <- Hh, store_app by (rewrite pcm_bytes_length; simpl; lia). rewrite app_assoc.
  rewrite pcm_bytes_length, (IH n (S i));
    [|lia|rewrite length_app, pcm_bytes_length; lia | simpl; rewrite drop_0; lia].
  rewrite <- app_assoc. cbn [take]. rewrite fmap_cons. cbn [mjoin list_join].
  rewrite <- app_assoc.
  replace (2 * S n)%nat with (2 + 2 * n)%nat by lia.
  done.
Qed.

(** A loop that runs past the samples is undefined. *)
Lemma write_samples_short n i xs wav :
  (length xs < n)%nat -> write_samples n i xs wav = None.
Proof.
  revert n i wav. induction xs as [|x xs IH]; intros [|n] i wav Hl; simpl in Hl; [lia|done|lia|].
  cbn [write_samples]. destruct (pcm_sample x) as [y|]; [|done]. cbn [mbind option_bind].
  destruct (decide _); [|done]. apply IH. lia.
Qed.

(** ** Lemmas: clamping and scaling a sample *)

Lemma f32_consts :
  f32_valid f32_1 = true /\ f32_valid f32_m1 = true /\
  f32_units f32_1 = Some (2 ^ 149) /\ f32_units f32_m1 = Some (- 2 ^ 149) /\
  f32_32767 = S754_finite false 16776704 (-9).
Proof. by vm_compute. Qed.

Lemma clamp_bounds x :
  f32_valid x = true ->
  let c := fmax f32_m1 (fmin f32_1 x) in
  f32_valid c = true /\ exists u, f32_units c = Some u /\ - 2 ^ 149 <= u <= 2 ^ 149.
Proof.
  intros Hx. destruct f32_consts as (V1 & Vm1 & U1 & Um1 & _).
  destruct (f32_units x) as [u|] eqn:Hu.
  - assert (fmin f32_1 x = if u <? 2 ^ 149 then x else f32_1) as ->.
    { rewrite <- (flt_units x f32_1 u (2 ^ 149) Hx V1 Hu U1). by destruct x. }
    assert (exists y w, (if u <? 2 ^ 149 then x else f32_1) = y /\ f32_valid y = true /\
              f32_units y = Some w /\ w <= 2 ^ 149) as (y & w & -> & Vy & Uy & Hw).
    { destruct (Z.ltb_spec u (2 ^ 149)); [exists x, u|exists f32_1, (2 ^ 149)]; split_and!; (done || lia). }
    assert (fmax f32_m1 y = if - 2 ^ 149 <? w then y else f32_m1) as ->.
    { rewrite <- (flt_units f32_m1 y (- 2 ^ 149) w Vm1 Vy Um1 Uy).
      by destruct y. }
    destruct (Z.ltb_spec (- 2 ^ 149) w); (split; [done|]).
    + exists w. split; [done|lia].
    + exists (- 2 ^ 149). split; [done|lia].
  - destruct x as [s|s| |s m e]; try done; [destruct s|];
      (split; [by vm_compute|]);
      [exists (- 2 ^ 149) | exists (2 ^ 149) | exists (2 ^ 149)];
      (split; [by vm_compute | lia]).
Qed.

(** A scaled sample never leaves the range of [int16_t]. *)
Lemma scale_bounds c u :
  f32_valid c = true -> f32_units c = Some u -> - 2 ^ 149 <= u <= 2 ^ 149 ->
  exists z, ftrunc (f32_mul c f32_32767) = Some z /\ - 32767 <= z <= 32767.
Proof.
  intros Vc Uc Hu. destruct f32_consts as (_ & _ & _ & _ & ->).
  destruct c as [s| | |s m e]; [by exists 0| done | done |].
  apply valid_finite in Vc as (He & _).
  unfold f32_units, units in Uc. injection Uc as Uc.
  change (emin f32_prec f32_emax) with (-149) in *.
  assert (0 < 2 ^ (e - -149)) by (apply Z.pow_pos_nonneg; lia).
  assert (Zpos m * 2 ^ (e - -149) <= 2 ^ 149) as Hm by (unfold cond_Zopp in Uc; destruct s; lia).
  assert (e <= 0) as He0.
  { destruct (Z.le_gt_cases e 0) as [?|Hgt]; [done|exfalso].
    assert (2 ^ 149 < 2 ^ (e - -149)) by (apply Z.pow_lt_mono_r; lia). nia. }
  assert (Zpos m <= 2 ^ (- e)) as Hm'.
  { replace (2 ^ 149) with (2 ^ (- e + (e - -149))) in Hm by (f_equal; lia).
    rewrite Z.pow_add_r in Hm by lia. nia. }
  unfold f32_mul. cbn [SFmul]. rewrite Pos2Z.inj_mul.
  set (M := Zpos m * Zpos 16776704). set (E := e + -9).
  assert (0 < 2 ^ (- e)) by (apply Z.pow_pos_nonneg; lia).
  assert (2 ^ (- E) = 512 * 2 ^ (- e)) as HE.
  { subst E. replace (- (e + -9)) with (9 + - e) by lia. by rewrite Z.pow_add_r by lia. }
  pose proof (round_aux_bound f32_prec f32_emax (xorb s false) M E (32767 * 2 ^ (- E))) as Hb.
  assert (0 < M <= 32767 * 2 ^ (- E)) as HM by (subst M; lia).
  specialize (Hb HM).
  assert (Zdigits2 M <= 15 - E) as Hd.
  { assert (exists p, M = Zpos p) as [p Hp] by (subst M; by eexists).
    rewrite Hp. cbn [Zdigits2]. pose proof (digits2_pos_bounds p) as [Hlo _].
    rewrite Hp in HM. destruct (Z.le_gt_cases (Zpos (digits2_pos p)) (15 - E)) as [?|Hgt]; [done|].
    exfalso. assert (2 ^ (15 + - E) <= 2 ^ (Zpos (digits2_pos p) - 1)) as H2
      by (apply Z.pow_le_mono_r; lia).
    rewrite Z.pow_add_r in H2 by (subst E; lia).
    change (2 ^ 15) with 32768 in H2. lia. }
  assert (2 ^ Z.max 0 (fexp f32_prec f32_emax (Zdigits2 M + E) - E) | 32767 * 2 ^ (- E)) as Hdiv.
  { apply Z.divide_mul_r.
    set (n := Z.max 0 _). assert (0 <= n <= - E) as Hn.
    { subst n. unfold fexp. change (emin f32_prec f32_emax) with (-149).
      unfold f32_prec. lia. }
    exists (2 ^ (- E - n)). rewrite <- Z.pow_add_r by lia. f_equal. lia. }
  specialize (Hb Hdiv).
  destruct (binary_round_aux _ _ _ _ _ _) as [s'|s'| |s' m' e'].
  - by exists 0.
  - exfalso. destruct Hb as (e' & He' & HEe & Hp).
    assert (2 ^ (15 + - E) <= 2 ^ (e' - E)) as H2
      by (apply Z.pow_le_mono_r; unfold f32_emax, f32_prec in He'; lia).
    rewrite Z.pow_add_r in H2 by (subst E; lia). change (2 ^ 15) with 32768 in H2. lia.
  - done.
  - destruct Hb as (_ & HEe & Hp). cbn [ftrunc].
    set (q := if 0 <=? e' then _ else _).
    assert (0 <= q <= 32767) as Hq; [|destruct s'; eexists; (split; [done|lia])].
    subst q. destruct (Z.leb_spec 0 e') as [Hpos|Hneg].
    + assert (0 < 2 ^ e') by (apply Z.pow_pos_nonneg; lia).
      replace (e' - E) with (e' + - E) in Hp by lia. rewrite Z.pow_add_r in Hp by (subst E; lia).
      split; nia.
    + assert (0 < 2 ^ (- e')) by (apply Z.pow_pos_nonneg; lia).
      assert (0 < 2 ^ (e' - E)) by (apply Z.pow_pos_nonneg; lia).
      split; [apply Z.div_pos; lia|]. apply Z.div_le_upper_bound; [lia|].
      replace (- E) with (- e' + (e' - E)) in Hp by lia. rewrite Z.pow_add_r in Hp by lia. nia.
Qed.

Lemma pcm_sample_bounds x :
  f32_valid x = true -> exists z, pcm_sample x = Some z /\ - 32767 <= z <= 32767.
Proof.
  intros Hx. destruct (clamp_bounds x Hx) as (Vc & u & Uc & Hu).
  destruct (scale_bounds _ u Vc Uc Hu) as (z & Hz & Hb).
  exists z. split; [|done]. unfold pcm_sample, cast_i16. rewrite Hz.
  rewrite (proj2 (Z.leb_le _ _)), (proj2 (Z.ltb_lt _ _)) by lia. done.
Qed.

(** Reading a sample back. *)
Definition i16_of_bytes (bytes : list Z) : Z :=
  let v := le_value bytes in if v <? 2 ^ 15 then v else v - 2 ^ 16.

Lemma pcm_bytes_roundtrip z : - 2 ^ 15 <= z < 2 ^ 15 -> i16_of_bytes (pcm_bytes z) = z.
Proof.
  intros Hz. unfold i16_of_bytes.
  change (le_value (pcm_bytes z)) with (le_value (write_u16 (u16 z))).
  rewrite le_value_u16 by apply u16_bound. unfold u16.
  destruct (Z.le_gt_cases 0 z).
  - rewrite Z.mod_small by lia. zcase; lia.
  - rewrite <- (Z.mod_unique_pos z (2 ^ 16) (-1) (z + 2 ^ 16)) by lia. zcase; lia.
Qed.

Lemma samples_convert xs :
  Forall (fun x => f32_valid x = true) xs ->
  exists ys, Forall2 (fun x y => pcm_sample x = Some y) xs ys /\
             Forall (fun y => - 32767 <= y <= 32767) ys.
Proof.
  induction 1 as [|x xs Hx Hall (ys & H2 & Hb)]; [by exists []|].
  destruct (pcm_sample_bounds x Hx) as (y & Hy & Hby).
  exists (y :: ys). by split; constructor.
Qed.

Lemma wav_size_small num : 0 <= num -> 44 + 2 * num < 2 ^ 32 -> wav_size num = 44 + 2 * num.
Proof. intros. unfold wav_size. rewrite (u32_small (num * 2)) by lia. rewrite u32_small; lia. Qed.

Lemma resize_header rate num :
  0 <= num -> 44 + 2 * num < 2 ^ 32 ->
  resize (Z.to_nat (wav_size num)) 0 (wav_header rate num)
  = wav_header rate num ++ replicate (Z.to_nat (2 * num)) 0.
Proof.
  intros H0 Hn. rewrite resize_ge by (rewrite wav_header_length, wav_size_small; lia).
  rewrite wav_header_length, wav_size_small by lia.
  f_equal. f_equal. lia.
Qed.

(** The size computation wraps for the largest sample counts [int] can hold:
    the buffer is then shorter than its header and the first sample is
    written past its end. *)
Lemma write_samples_overflow xs x n wav :
  f32_valid x = true -> size_fits n = false -> 0 < n <= INT_MAX ->
  write_samples (Z.to_nat n) 0 (x :: xs) (resize (Z.to_nat (wav_size n)) 0 wav) = None.
Proof.
  unfold INT_MAX, size_fits. intros Hx Hlo Hhi.
  replace (Z.to_nat n) with (S (Z.to_nat (n - 1))) by lia. cbn [write_samples].
  destruct (pcm_sample_bounds x Hx) as (z & -> & _). cbn [mbind option_bind].
  assert (wav_size n = 44 + 2 * n - 2 ^ 32) as ->.
  { unfold wav_size. rewrite (u32_small (n * 2)) by lia. unfold u32.
    symmetry. apply (Z.mod_unique_pos _ _ 1); lia. }
  rewrite decide_False; [done|]. rewrite length_resize. lia.
Qed.

Lemma write_samples_fits xs ys n rate :
  Forall2 (fun x y => pcm_sample x = Some y) xs ys -> 0 < n <= Z.of_nat (length xs) ->
  size_fits n = true ->
  write_samples (Z.to_nat n) 0 xs (resize (Z.to_nat (wav_size n)) 0 (wav_header rate n))
  = Some (wav_header rate n ++ mjoin (pcm_bytes <$> take (Z.to_nat n) ys)).
Proof.
  unfold size_fits. intros Hys Hn Hfit. rewrite resize_header by lia.
  rewrite (write_samples_spec _ ys);
    [|done|lia|by rewrite wav_header_length|rewrite length_replicate; lia].
  rewrite drop_ge by (rewrite length_replicate; lia). by rewrite app_nil_r.
Qed.

(** The buffers the conversion is defined on: all [n] samples can be read,
    the file fits in the header's size and the byte rate is an [int]. *)
Definition encodable (xs : list spec_float) (n rate : Z) : bool :=
  (n <=? Z.of_nat (length xs)) && size_fits n && rate_fits rate.

(** The conversion on every buffer and every count: the complete file, or
    undefined. *)
Lemma build_wav_samples xs n rate :
  Forall (fun x => f32_valid x = true) xs -> 0 < n <= INT_MAX ->
  exists ys,
    Forall2 (fun x y => pcm_sample x = Some y) xs ys /\
    build_wav_from_float_samples (Some xs) n rate =
    if encodable xs n rate
    then Some (wav_header rate n ++ mjoin (pcm_bytes <$> take (Z.to_nat n) ys)) else None.
Proof.
  intros Hv Hpos. destruct (samples_convert xs Hv) as (ys & Hys & _).
  exists ys. split; [done|]. unfold encodable.
  unfold build_wav_from_float_samples. rewrite (proj2 (Z.leb_gt _ _)) by lia.
  rewrite u32_small by (unfold INT_MAX in Hpos; lia). rewrite build_wav_header_eq.
  destruct (rate_fits rate); cbn [mbind option_bind]; [|by rewrite andb_false_r].
  rewrite andb_true_r. destruct (Z.leb_spec n (Z.of_nat (length xs))) as [Hn|Hn]; cbn [andb].
  2: { apply write_samples_short. lia. }
  destruct (size_fits n) eqn:Hfit; [apply write_samples_fits; [done|lia|done]|].
  destruct xs as [|x xs]; [simpl in Hn; lia|]. apply Forall_cons in Hv as [Hx _].
  by apply write_samples_overflow.
Qed.

Lemma pcm_data_length ys : length (mjoin (pcm_bytes <$> ys)) = (2 * length ys)%nat.
Proof.
  induction ys as [|y ys IH]; [done|]. rewrite fmap_cons.
  change (mjoin (pcm_bytes y :: (pcm_bytes <$> ys)))
    with (pcm_bytes y ++ mjoin (pcm_bytes <$> ys)).
  rewrite length_app, IH, pcm_bytes_length. simpl. lia.
Qed.

(** A complete file: its header describes it. *)
Definition wav_ok (v : list Z) (sample_rate : Z) : Prop :=
  exists info,
    parse_wav v = Some info /\ rate info = sample_rate /\
    data_size info = Z.of_nat (length v) - 44 /\
    riff_size info = Z.of_nat (length v) - 8 /\
    channels info = 1 /\ bits info = 16 /\ audio_format info = 1.

Lemma wav_ok_intro sample_rate num data :
  0 <= sample_rate < 2 ^ 31 -> 0 <= num -> size_fits num = true ->
  Z.of_nat (length data) = 2 * num ->
  wav_ok (wav_header sample_rate num ++ data) sample_rate.
Proof.
  unfold size_fits. intros Hr H0 Hn Hd. eexists. split; [by apply parse_header|].
  cbn [rate data_size riff_size channels bits audio_format].
  rewrite length_app, wav_header_length.
  rewrite (u32_small (num * 2)) by lia. rewrite u32_small by lia.
  split_and!; (done || lia).
Qed.

(** The stub's second of silence. *)
Lemma stub_wav :
  build_silent_wav 24000 f64_1 = Some (wav_header 24000 24000 ++ replicate 48000 0).
Proof.
  unfold build_silent_wav.
  assert (flt f64_1 f64_0 = false) as -> by by vm_compute.
  assert (cast_u32 (f64_mul (f64_of_Z 24000) f64_1) = Some 24000) as -> by by vm_compute.
  cbn [Z.leb Z.compare orb mbind option_bind]. rewrite build_wav_header_eq.
  change (rate_fits 24000) with true. cbn [mbind option_bind]. by rewrite resize_header by lia.
Qed.

(** ** Properties *)

(** C38: for every sample rate that is a non-negative [int] and every number
    of samples whose file fits in 32 bits, [build_wav_header] is defined
    exactly when [2 * sample_rate] is an [int], and a RIFF reader then gets
    back from its header the sample rate, the format and the sizes that agree
    with the PCM data. *)
Theorem wav_header_roundtrip sample_rate num
    (Hrate : 0 <= sample_rate <= INT_MAX) (Hnum : 0 <= num) (Hfit : 44 + 2 * num < 2 ^ 32) :
  if 2 * sample_rate <=? INT_MAX then
    exists hdr, build_wav_header sample_rate num = Some hdr /\ forall rest,
      parse_wav (hdr ++ rest) =
      Some (mk_wav_info (36 + 2 * num) 16 1 1 sample_rate (2 * sample_rate) 2 16 (2 * num))
  else build_wav_header sample_rate num = None.
Proof.
  rewrite build_wav_header_eq.
  replace (rate_fits sample_rate) with (2 * sample_rate <=? INT_MAX)
    by (unfold rate_fits, INT_MIN; lia).
  destruct (2 * sample_rate <=? INT_MAX); [|done]. eexists. split; [done|]. intros rest.
  rewrite parse_header by (unfold INT_MAX in *; lia). rewrite (u32_small (num * 2)) by lia.
  rewrite u32_small by lia. do 2 f_equal; lia.
Qed.

(** A header that is defined, and the first rate for which it is not. *)
Lemma wav_header_roundtrip_witness :
  (exists hdr, build_wav_header 24000 100 = Some hdr /\ forall rest,
     parse_wav (hdr ++ rest) =
     Some (mk_wav_info (36 + 2 * 100) 16 1 1 24000 (2 * 24000) 2 16 (2 * 100))) /\
  build_wav_header (2 ^ 30) 100 = None.
Proof.
  split.
  - apply (wav_header_roundtrip 24000 100); unfold INT_MAX; lia.
  - apply (wav_header_roundtrip (2 ^ 30) 100); unfold INT_MAX; lia.
Defined.

(** The conversion of a sample to 16 bits is defined for every float,
    infinities and NaN included, and the stored bytes read back as a value
    between -32767 and 32767: the cast to [int16_t] never overflows. *)
Theorem pcm_sample_total x (Hx : f32_valid x = true) :
  exists z, pcm_sample x = Some z /\ - 32767 <= z <= 32767 /\
            i16_of_bytes (pcm_bytes z) = z.
Proof.
  destruct (pcm_sample_bounds x Hx) as (z & Hz & Hb). exists z.
  split; [done|split; [done|]]. apply pcm_bytes_roundtrip. lia.
Qed.

Lemma pcm_sample_total_witness :
  f32_valid f32_4 = true /\ exists z, pcm_sample f32_4 = Some z /\ - 32767 <= z <= 32767 /\
            i16_of_bytes (pcm_bytes z) = z.
Proof. split; [by vm_compute|]. apply (pcm_sample_total f32_4). by vm_compute. Defined.

(** C37: for every array of floats and every positive [int] [n], the encoding
    of [n] samples is defined exactly when the array holds them, the file size
    [44 + 2 * n] fits in 32 bits and the byte rate [2 * rate] is an [int]; it
    then yields the header for [n] samples followed by the first [n] converted
    values, every access being inside its array and every cast in range. *)
Theorem build_wav_from_float_samples_correct xs n rate
    (Hv : Forall (fun x => f32_valid x = true) xs) (Hpos : 0 < n <= INT_MAX) :
  exists ys,
    Forall2 (fun x y => pcm_sample x = Some y) xs ys /\
    build_wav_from_float_samples (Some xs) n rate =
    if (n <=? Z.of_nat (length xs)) && (44 + 2 * n <? 2 ^ 32)
       && ((INT_MIN <=? 2 * rate) && (2 * rate <=? INT_MAX))
    then Some (wav_header rate n ++ mjoin (pcm_bytes <$> take (Z.to_nat n) ys)) else None.
Proof. exact (build_wav_samples xs n rate Hv Hpos). Qed.

(** Two samples, and a count the array does not hold. *)
Lemma build_wav_from_float_samples_correct_witness :
  (exists ys,
    Forall2 (fun x y => pcm_sample x = Some y) [f32_1; f32_m1] ys /\
    build_wav_from_float_samples (Some [f32_1; f32_m1]) 2 24000
    = Some (wav_header 24000 2 ++ mjoin (pcm_bytes <$> take 2 ys))) /\
  (exists ys, Forall2 (fun x y => pcm_sample x = Some y) [f32_1; f32_m1] ys /\
    build_wav_from_float_samples (Some [f32_1; f32_m1]) 3 24000 = None).
Proof.
  split.
  - apply (build_wav_from_float_samples_correct [f32_1; f32_m1] 2 24000);
      [repeat constructor; by vm_compute | unfold INT_MAX; lia].
  - apply (build_wav_from_float_samples_correct [f32_1; f32_m1] 3 24000);
      [repeat constructor; by vm_compute | unfold INT_MAX; lia].
Defined.

(** So the last sample counts of [int] write past the end of the vector. *)
Lemma build_wav_from_float_samples_overflow xs n rate :
  Forall (fun x => f32_valid x = true) xs -> 2 ^ 32 <= 44 + 2 * n -> n <= INT_MAX ->
  build_wav_from_float_samples (Some xs) n rate = None.
Proof.
  intros Hv Hlo Hhi. destruct (build_wav_samples xs n rate Hv) as (ys & _ & ->); [lia|].
  unfold encodable, size_fits. rewrite (proj2 (Z.ltb_ge _ _)) by lia. by rewrite andb_false_r.
Qed.
