(* ===== verification/Backend.v ===== *)
(** * TTS backends

    The port [ITtsBackend] of [include/tts/backend.hpp] as a type class with
    its laws, and its two implementations: [VoxtralBackend]
    ([src/tts/voxtral_backend.cpp], both compile-time variants) and
    [MockBackend] ([src/tts/mock_backend.hpp]).

    The inference engine, the file system and the clock are effects
    ([engineE]): the engine's C functions are declared in a header outside the
    repository, so their answers are arbitrary. *)

From Stdlib Require Import ZArith Lia Ascii String SpecFloat.
From stdpp Require Import base tactics numbers list strings.
From S2P Require Import Prelude Effects Floats Wav.

#[local] Open Scope Z_scope.

(** ** Requests and results *)

Record SynthesisRequest := mk_request {
  text : string;
  voice : string;
  model : string;
  response_format : string;
  speed : spec_float;
}.

Record SynthesisResult := mk_result {
  audio_data : list Z;
  sample_rate : Z;
  duration_seconds : spec_float;
  inference_time_seconds : spec_float;
}.

(** The member initialisers. *)
Definition request_init : SynthesisRequest := mk_request "" "" "" "wav" f32_1.
Definition result_init : SynthesisResult := mk_result [] 24000 f64_0 f64_0.

(** ** Effects of a backend

    A pointer is a [Z] handle; [TtsGenerate] answers the return code, the
    buffer it allocated (handle and contents) or null, and [n_samples].
    [Undefined] marks a step with undefined behaviour; what follows it is
    arbitrary. *)
Variant engineE : Type -> Type :=
| ENow : engineE Z
| FsExists (path : string) : engineE (bool * bool)
| FsIsRegularFile (path : string) : engineE bool
| FsIsDirectory (path : string) : engineE bool
| TtsLoad (path : string) : engineE (option Z)
| TtsGenerate (ctx : option Z) (text voice : string)
    : engineE (Z * option (Z * list spec_float) * Z)
| Free (ptr : Z) : engineE unit
| TtsFree (ctx : Z) : engineE unit
| SleepMs (ms : Z) : engineE unit
| ELog (l : log_record) : engineE unit
| Undefined : engineE (list Z).

Definition elog (lvl : log_level) (fmt : string) (args : list log_arg) : prog engineE unit :=
  trigger (ELog (mk_log lvl fmt args)).

(** [duration<double>(end - start).count()] of two clock readings in
    nanoseconds. *)
Definition seconds_between (t0 t1 : Z) : spec_float :=
  f64_div (f64_of_Z (t1 - t0)) (f64_of_Z 1000000000).

(** [s.c_str()] read as a C string: up to the first NUL. *)
Fixpoint c_str (s : string) : string :=
  match s with
  | EmptyString => EmptyString
  | String c s' => if Ascii.eqb c "000"%char then EmptyString else String c (c_str s')
  end.

(** Memory written out of bounds, or an undefined cast. *)
Definition defined_or_undefined (r : option (list Z)) : prog engineE (list Z) :=
  match r with Some v => mret v | None => trigger Undefined end.

(** ** The interface *)

Class ITtsBackend (B : Type) := {
  initialize : B -> string -> prog engineE (bool * B);
  synthesize : B -> SynthesisRequest -> prog engineE (SynthesisResult * B);
  is_ready : B -> bool;
  model_name : B -> string;
}.

(** What the rest of the server relies on: [is_ready] says whether an
    initialisation has succeeded. *)
Class BackendLaws (B : Type) `{ITtsBackend B} : Prop := {
  initialize_ready : forall b path tr b',
    runs (initialize b path) tr (Ok (true, b')) -> is_ready b' = true;
  initialize_failed : forall b path tr b',
    runs (initialize b path) tr (Ok (false, b')) -> b' = b;
  initialize_no_throw : forall b path tr e,
    ~ runs (initialize b path) tr (Exn e);
  synthesize_keeps_ready : forall b req tr r b',
    runs (synthesize b req) tr (Ok (r, b')) -> is_ready b' = is_ready b;
}.

(** ** VoxtralBackend *)

Module Voxtral.
Section Voxtral.
(** [TTS_HAS_VOXTRAL_ENGINE] at compile time, and [TTS_SAMPLE_RATE] of the
    engine's header. *)
Context (has_engine : bool) (TTS_SAMPLE_RATE : Z).

Record VoxtralBackend := mk_voxtral {
  initialized_ : bool;
  model_path_ : string;
  ctx_ : option Z;
  use_real_engine_ : bool;
}.

Definition voxtral_new : VoxtralBackend := mk_voxtral false "" None false.

(** The loading part of [initialize()]: [ctx_] and [use_real_engine_]. *)
Definition load_engine (b : VoxtralBackend) (path : string)
    : prog engineE (option Z * bool) :=
  t_start ← trigger ENow;
  if has_engine then
    ctx ← trigger (TtsLoad (c_str path));
    match ctx with
    | Some c =>
        t_end ← trigger ENow;
        _ ← elog info "VoxtralBackend — real engine loaded in {:.3f}s (path={})"
              [AInt (t_end - t_start); AStr path];
        mret (Some c, true)
    | None =>
        _ ← elog warn "VoxtralBackend — tts_load() failed, falling back to stub (path={})"
              [AStr path];
        mret (ctx_ b, false)
    end
  else
    t_end ← trigger ENow;
    _ ← elog info "VoxtralBackend — stub mode, model path validated in {:.3f}s (path={})"
          [AInt (t_end - t_start); AStr path];
    mret (ctx_ b, use_real_engine_ b).

Definition voxtral_initialize (b : VoxtralBackend) (path : string)
    : prog engineE (bool * VoxtralBackend) :=
  if sempty path then
    _ ← elog err "VoxtralBackend::initialize — model_path is empty" [];
    mret (false, b)
  else
    ex ← trigger (FsExists path);
    if negb ex.1 || ex.2 then
      _ ← elog err "VoxtralBackend::initialize — model_path does not exist: {}" [AStr path];
      mret (false, b)
    else
      regular ← trigger (FsIsRegularFile path);
      directory ← (if regular then mret true else trigger (FsIsDirectory path));
      if negb regular && negb directory then
        _ ← elog err "VoxtralBackend::initialize — model_path is not a file or directory: {}"
              [AStr path];
        mret (false, b)
      else
        eng ← load_engine b path;
        mret (true, mk_voxtral true path eng.1 eng.2).

(** The engine path of [synthesize()]. *)
Definition synthesize_real (b : VoxtralBackend) (req : SynthesisRequest) (t_start : Z)
    : prog engineE SynthesisResult :=
  gen ← trigger (TtsGenerate (ctx_ b) (c_str (text req)) (c_str (voice req)));
  let '(rc, samples, n_samples) := gen in
  t_end ← trigger ENow;
  match samples with
  | Some (ptr, xs) =>
      if negb (rc =? 0) || (n_samples <=? 0) then
        _ ← elog err "VoxtralBackend::synthesize — tts_generate() failed (rc={})" [AInt rc];
        _ ← trigger (Free ptr);
        Throw (RuntimeError "TTS inference failed")
      else
        wav ← defined_or_undefined
                (build_wav_from_float_samples (Some xs) n_samples TTS_SAMPLE_RATE);
        let duration := f64_div (f64_of_Z n_samples) (f64_of_Z TTS_SAMPLE_RATE) in
        _ ← trigger (Free ptr);
        _ ← elog debug "VoxtralBackend::synthesize — voice={} text_len={} duration={:.3f}s inference={:.3f}s samples={}"
              [AStr (voice req); AInt (slen (text req)); AInt n_samples];
        mret (mk_result wav TTS_SAMPLE_RATE duration (seconds_between t_start t_end))
  | None =>
      _ ← elog err "VoxtralBackend::synthesize — tts_generate() failed (rc={})" [AInt rc];
      Throw (RuntimeError "TTS inference failed")
  end.

(** The stub path: one second of silence. *)
Definition synthesize_stub (req : SynthesisRequest) (t_start : Z)
    : prog engineE SynthesisResult :=
  wav ← defined_or_undefined (build_silent_wav 24000 f64_1);
  t_end ← trigger ENow;
  _ ← elog debug "VoxtralBackend::synthesize [stub] — voice={} text_len={} duration={:.3f}s inference={:.6f}s"
        [AStr (voice req); AInt (slen (text req))];
  mret (mk_result wav 24000 f64_1 (seconds_between t_start t_end)).

Definition voxtral_synthesize (b : VoxtralBackend) (req : SynthesisRequest)
    : prog engineE (SynthesisResult * VoxtralBackend) :=
  if negb (initialized_ b) then
    Throw (LogicError "VoxtralBackend::synthesize() called before successful initialize()")
  else
    t_start ← trigger ENow;
    r ← (if has_engine && use_real_engine_ b then synthesize_real b req t_start
         else synthesize_stub req t_start);
    mret (r, b).

(** The destructor. *)
Definition voxtral_destroy (b : VoxtralBackend) : prog engineE unit :=
  if has_engine then
    match ctx_ b with
    | Some c =>
        _ ← trigger (TtsFree c);
        elog debug "VoxtralBackend — engine context freed" []
    | None => mret tt
    end
  else mret tt.

#[export] Instance voxtral_backend : ITtsBackend VoxtralBackend := {
  initialize := voxtral_initialize;
  synthesize := voxtral_synthesize;
  is_ready := initialized_;
  model_name := fun _ => "voxtral-4b";
}.

(** *** Lemmas *)

Lemma voxtral_initialize_post b path :
  has_post (voxtral_initialize b path) (fun _ r =>
    exists ok b', r = Ok (ok, b') /\
      if ok then initialized_ b' = true /\ model_path_ b' = path else b' = b).
Proof.
  intros tr r H. unfold voxtral_initialize, load_engine, elog in H.
  runs_inv H; subst; eexists _, _; (split; [reflexivity|]); simpl; auto.
Qed.

#[export] Instance voxtral_laws : BackendLaws VoxtralBackend.
Proof.
  split.
  - intros b path tr b' H. by apply voxtral_initialize_post in H as (ok & b1 & [= <- <-] & ? & _).
  - intros b path tr b' H. by apply voxtral_initialize_post in H as (ok & b1 & [= <- <-] & ?).
  - intros b path tr e H. by apply voxtral_initialize_post in H as (ok & b1 & [=] & _).
  - intros b req tr r b' H. simpl in H. unfold voxtral_synthesize in H.
    destruct (negb (initialized_ b)); [by destruct H|].
    apply runs_bind in H as [(t1 & t2 & x & -> & _ & H)|(e & [=] & _)].
    apply runs_bind in H as [(t3 & t4 & y & -> & _ & H)|(e & [=] & _)].
    by destruct H as [_ [= _ ->]].
Qed.

(** The buffers the engine handed out and the ones given back. *)
Definition generated (tr : list (event engineE)) : list Z :=
  observe (fun X e => match e in engineE X return X -> option Z with
                      | TtsGenerate _ _ _ => fun a => fst <$> a.1.2
                      | _ => fun _ => None
                      end) tr.

Definition freed (tr : list (event engineE)) : list Z :=
  observe (fun X e _ => match e with Free p => Some p | _ => None end) tr.

Definition no_undefined (tr : list (event engineE)) : Prop :=
  observe (fun X e _ => match e with Undefined => Some tt | _ => None end) tr = [].

(** The answers of the engine: return code, buffer and [n_samples]. *)
Definition generations (tr : list (event engineE)) : list (Z * list spec_float * Z) :=
  observe (fun X e => match e in engineE X return X -> option (Z * list spec_float * Z) with
                      | TtsGenerate _ _ _ => fun a => (fun b => (a.1.1, b.2, a.2)) <$> a.1.2
                      | _ => fun _ => None
                      end) tr.

(** The types of the engine's interface: floats, and an [int] count. *)
Definition typed_answers (tr : list (event engineE)) : Prop :=
  Forall (fun g => Forall (fun x => f32_valid x = true) g.1.2 /\ g.2 <= INT_MAX) (generations tr).

(** An answer that the code reports as a failure, or whose samples it can
    encode. *)
Definition encodable_answer (g : Z * list spec_float * Z) : Prop :=
  g.1.1 <> 0 \/ g.2 <= 0 \/ encodable g.1.2 g.2 TTS_SAMPLE_RATE = true.

Lemma synthesize_real_frees b req t0 :
  has_post (synthesize_real b req t0) (fun tr _ => freed tr = generated tr).
Proof.
  intros tr r H. unfold synthesize_real, elog, defined_or_undefined in H.
  runs_inv H; subst; reflexivity.
Qed.

Lemma synthesize_stub_frees req t0 :
  has_post (synthesize_stub req t0) (fun tr _ => freed tr = generated tr).
Proof.
  intros tr r H. unfold synthesize_stub, elog, defined_or_undefined in H.
  rewrite stub_wav in H. runs_inv H; subst; reflexivity.
Qed.

(** Undefined exactly when a generation is not encodable; otherwise the
    documented exception or a complete file. *)
Definition wav_post (tr : list (event engineE)) (r : res SynthesisResult) : Prop :=
  (no_undefined tr <-> Forall encodable_answer (generations tr)) /\
  (no_undefined tr -> r = Exn (RuntimeError "TTS inference failed") \/
     exists res, r = Ok res /\ wav_ok (audio_data res) (sample_rate res)).

Lemma synthesize_stub_wav req t0 : has_post (synthesize_stub req t0) wav_post.
Proof.
  intros tr r H. unfold synthesize_stub, elog, defined_or_undefined in H.
  rewrite stub_wav in H. runs_inv H; subst. split; [by split|]. intros _. right.
  eexists. split; [done|]. cbn [audio_data sample_rate].
  apply wav_ok_intro; [lia|lia|done|]. rewrite length_replicate. by vm_compute.
Qed.

Lemma wav_post_failed tr rc xs n :
  no_undefined tr -> generations tr = [(rc, xs, n)] -> negb (rc =? 0) || (n <=? 0) = true ->
  wav_post tr (Exn (RuntimeError "TTS inference failed")).
Proof.
  intros Hu Hg Hf. split; [|by left]. rewrite Hg. split; [|done]. intros _.
  constructor; [|constructor]. unfold encodable_answer. cbn. lia.
Qed.

Lemma synthesize_real_wav b req t0 :
  0 <= TTS_SAMPLE_RATE ->
  has_post (synthesize_real b req t0) (fun tr r => typed_answers tr -> wav_post tr r).
Proof.
  intros Hrate tr r H Htyped. unfold synthesize_real, elog in H.
  cbn [runs pbind mbind prog_bind trigger] in H.
  destruct H as ([[rc samples] n] & tr1 & -> & H).
  cbn [runs pbind mbind prog_bind trigger] in H. destruct H as (t1 & tr2 & -> & H).
  destruct samples as [[ptr xs]|]; [|runs_inv H; subst; split; [done|by left]].
  destruct (negb (rc =? 0) || (n <=? 0)) eqn:Hfail.
  { runs_inv H; subst; by eapply wav_post_failed. }
  apply orb_false_iff in Hfail as [Hrc Hn]. apply Z.leb_gt in Hn. apply negb_false_iff, Z.eqb_eq in Hrc.
  apply Forall_cons in Htyped as [[Hv Hmax] _]. cbn [fst snd] in Hv, Hmax.
  destruct (build_wav_samples xs n TTS_SAMPLE_RATE Hv (conj Hn Hmax)) as (ys & Hys & Hw).
  rewrite Hw in H. destruct (encodable xs n TTS_SAMPLE_RATE) eqn:Henc;
    cbn [defined_or_undefined] in H; runs_inv H; subst.
  - split; [split; [|done]; intros _; constructor; [by right; right|constructor]|]. intros _.
    right. eexists. split; [done|]. cbn [audio_data sample_rate].
    unfold encodable, rate_fits in Henc. apply andb_true_iff in Henc as [[Hl Hfit]%andb_true_iff Hr].
    apply wav_ok_intro; [unfold INT_MAX in *; lia|lia|done|].
    rewrite pcm_data_length, length_take, <- (Forall2_length _ _ _ Hys). lia.
  - split; [|done]. split; [done|]. intros [Hbad _]%Forall_cons.
    unfold encodable_answer in Hbad. cbn [fst snd] in Hbad. rewrite Henc in Hbad. destruct Hbad as [?|[?|?]]; [lia..|done].
Qed.

(** Lifts a post-condition of the engine call to [synthesize()]. *)
Lemma voxtral_synthesize_post (P : list (event engineE) -> res SynthesisResult -> Prop)
    b req tr r :
  initialized_ b = true ->
  (forall t0, has_post (synthesize_real b req t0) P) ->
  (forall t0, has_post (synthesize_stub req t0) P) ->
  runs (voxtral_synthesize b req) tr r ->
  exists t0 tr' r', tr = Ev ENow t0 :: tr' /\ P tr' r' /\
    r = match r' with Ok x => Ok (x, b) | Exn e => Exn e end.
Proof.
  intros Hi HR HS H. unfold voxtral_synthesize in H. rewrite Hi in H. cbn [negb] in H.
  cbn [runs pbind mbind prog_bind trigger] in H. destruct H as (t0 & tr1 & -> & H).
  apply runs_bind in H as [(t1 & t2 & x & -> & Hx & H)|(e & -> & Hx)].
  - destruct H as [-> ->]. exists t0, t1, (Ok x). rewrite app_nil_r. split; [done|]. split; [|done].
    destruct (has_engine && use_real_engine_ b); [by eapply HR | by eapply HS].
  - exists t0, tr1, (Exn e). split; [done|]. split; [|done].
    destruct (has_engine && use_real_engine_ b); [by eapply HR | by eapply HS].
Qed.

End Voxtral.
End Voxtral.

(** ** MockBackend *)

Module Mock.

Record MockBackend := mk_mock {
  should_fail : bool;
  fail_message : string;
  latency_ms : Z;
  mock_audio_data : list Z;
  mock_sample_rate : Z;
  mock_duration_seconds : spec_float;
  fail_initialize : bool;
  call_count : Z;
  last_request : SynthesisRequest;
  mock_initialized : bool;
}.

Definition mock_init : MockBackend :=
  mk_mock false "Mock backend failure" 0 [] 24000 f64_1 false 0 request_init false.

Definition mock_initialize (b : MockBackend) (_ : string) : prog engineE (bool * MockBackend) :=
  if fail_initialize b then mret (false, b)
  else mret (true, mk_mock (should_fail b) (fail_message b) (latency_ms b) (mock_audio_data b)
                     (mock_sample_rate b) (mock_duration_seconds b) (fail_initialize b)
                     (call_count b) (last_request b) true).

(** The stores of [minimal_wav_header()] on a zeroed vector of 44 bytes. *)
Definition minimal_wav_header : list Z :=
  fold_left (fun (h : list Z) (p : Z * Z) => <[Z.to_nat p.1 := p.2]> h)
    [(0, 82); (1, 73); (2, 70); (3, 70); (4, 36); (5, 0); (6, 0); (7, 0);
     (8, 87); (9, 65); (10, 86); (11, 69); (12, 102); (13, 109); (14, 116); (15, 32);
     (16, 16); (20, 1); (22, 1); (24, 192); (25, 93); (28, 128); (29, 187); (32, 2); (34, 16);
     (36, 100); (37, 97); (38, 116); (39, 97)]
    (replicate 44 0).

(** The call counter is an [std::atomic<int>]; its arithmetic wraps. *)
Definition mock_count (b : MockBackend) (req : SynthesisRequest) : MockBackend :=
  mk_mock (should_fail b) (fail_message b) (latency_ms b) (mock_audio_data b)
    (mock_sample_rate b) (mock_duration_seconds b) (fail_initialize b)
    (i32 (call_count b + 1)) req (mock_initialized b).

Definition mock_synthesize (b : MockBackend) (req : SynthesisRequest)
    : prog engineE (SynthesisResult * MockBackend) :=
  let b' := mock_count b req in
  if should_fail b then Throw (RuntimeError (fail_message b))
  else
    _ ← (if 0 <? latency_ms b then trigger (SleepMs (latency_ms b)) else mret tt);
    mret (mk_result
            (if negb (bool_decide (mock_audio_data b = [])) then mock_audio_data b
             else minimal_wav_header)
            (mock_sample_rate b) (mock_duration_seconds b)
            (f64_div (f64_of_Z 1) (f64_of_Z 1000)), b').

#[export] Instance mock_backend : ITtsBackend MockBackend := {
  initialize := mock_initialize;
  synthesize := mock_synthesize;
  is_ready := mock_initialized;
  model_name := fun _ => "mock-backend";
}.

#[export] Instance mock_laws : BackendLaws MockBackend.
Proof.
  split; simpl; unfold mock_initialize, mock_synthesize.
  - intros b path tr b' H. runs_inv H; by simplify_eq.
  - intros b path tr b' H. runs_inv H; by simplify_eq.
  - intros b path tr e H. runs_inv H; by simplify_eq.
  - intros b req tr r b' H. runs_inv H; by simplify_eq.
Qed.

(** The mock's header is the one the server's backend writes. *)
Lemma minimal_wav_header_eq : build_wav_header 24000 0 = Some minimal_wav_header.
Proof. by vm_compute. Qed.

End Mock.

(** ** Properties of the engine backend *)

Section EngineProperties.
Context (has_engine : bool) (TTS_SAMPLE_RATE : Z).

#[local] Notation synthesize_real := (Voxtral.synthesize_real TTS_SAMPLE_RATE).
#[local] Notation voxtral_synthesize := (Voxtral.voxtral_synthesize has_engine TTS_SAMPLE_RATE).

(** C36: the sample buffer the engine allocates is freed exactly once on every
    path of synthesize(): success, a non-zero return code, an empty result and
    the exception it throws. *)
Theorem voxtral_frees_samples b req tr r
    (Hrun : runs (voxtral_synthesize b req) tr r) :
  Voxtral.freed tr = Voxtral.generated tr.
Proof.
  destruct (Voxtral.initialized_ b) eqn:Hi.
  - destruct (Voxtral.voxtral_synthesize_post has_engine TTS_SAMPLE_RATE
      (fun tr _ => Voxtral.freed tr = Voxtral.generated tr) b req tr r)
      as (t0 & tr' & r' & -> & HP & _); [done| | |done|done].
    + intros t0. apply Voxtral.synthesize_real_frees.
    + intros t0. apply Voxtral.synthesize_stub_frees.
  - unfold Voxtral.voxtral_synthesize in Hrun. rewrite Hi in Hrun. by destruct Hrun as [-> _].
Qed.

(** Life of the engine context: contexts [tts_load] answered, and contexts
    given to [tts_free]. *)
Definition loaded (tr : list (event engineE)) : list Z :=
  observe (fun X e => match e in engineE X return X -> option Z with
                      | TtsLoad _ => fun a => a
                      | _ => fun _ => None
                      end) tr.

Definition released (tr : list (event engineE)) : list Z :=
  observe (fun X e _ => match e with TtsFree c => Some c | _ => None end) tr.

(** A backend as [main] uses it: built, initialised once, destroyed. *)
Definition voxtral_lifetime (path : string) : prog engineE bool :=
  r ← Voxtral.voxtral_initialize has_engine Voxtral.voxtral_new path;
  _ ← Voxtral.voxtral_destroy has_engine r.2;
  mret r.1.

Lemma voxtral_initialize_contexts path tr ok b :
  runs (Voxtral.voxtral_initialize has_engine Voxtral.voxtral_new path) tr (Ok (ok, b)) ->
  released tr = [] /\ loaded tr = option_list (Voxtral.ctx_ b) /\
  (has_engine = false -> Voxtral.ctx_ b = None) /\ Voxtral.initialized_ b = ok.
Proof.
  intros H. unfold Voxtral.voxtral_initialize, Voxtral.load_engine, elog in H.
  runs_inv H; simplify_eq; cbn; by split_and!.
Qed.

Lemma voxtral_destroy_contexts b :
  has_post (Voxtral.voxtral_destroy has_engine b) (fun tr r => r = Ok tt /\ loaded tr = [] /\
    released tr = if has_engine then option_list (Voxtral.ctx_ b) else []).
Proof.
  intros tr r H. unfold Voxtral.voxtral_destroy, elog in H.
  runs_inv H; split_units; subst; cbn; by rewrite ?Heqo.
Qed.

(** A backend that is initialised once frees the engine context it loaded,
    and only that one, whatever the file system and the engine answer. *)
Theorem voxtral_context_freed path tr r
    (Hrun : runs (voxtral_lifetime path) tr r) :
  released tr = loaded tr.
Proof.
  unfold voxtral_lifetime, Voxtral.voxtral_initialize, Voxtral.load_engine,
    Voxtral.voxtral_destroy, elog in Hrun.
  runs_inv Hrun; subst; simpl in *; simplify_eq; reflexivity.
Qed.

(** C35: a synthesis of an initialized backend, whatever the engine answers,
    is free of undefined steps (accesses out of bounds, undefined casts, [int]
    overflow) exactly when every generation that the engine reports as
    successful comes with the samples it announces, few enough for a 32-bit
    file size, and the engine's sample rate has an [int] byte rate; the
    synthesis then throws "TTS inference failed" or returns a complete WAV file
    whose header carries the result's sample rate and the exact data size. *)
Theorem voxtral_audio_wellformed b req tr r
    (Hready : Voxtral.initialized_ b = true) (Hrate : 0 <= TTS_SAMPLE_RATE)
    (Htyped : Voxtral.typed_answers tr)
    (Hrun : runs (voxtral_synthesize b req) tr r) :
  (Voxtral.no_undefined tr <->
   forall rc xs n, (rc, xs, n) ∈ Voxtral.generations tr -> rc = 0 -> 0 < n ->
     n <= Z.of_nat (length xs) /\ 44 + 2 * n < 2 ^ 32 /\ 2 * TTS_SAMPLE_RATE <= INT_MAX) /\
  (Voxtral.no_undefined tr ->
   r = Exn (RuntimeError "TTS inference failed") \/
   exists res, r = Ok (res, b) /\ wav_ok (audio_data res) (sample_rate res)).
Proof.
  destruct (Voxtral.voxtral_synthesize_post has_engine TTS_SAMPLE_RATE
    (fun tr r => Voxtral.typed_answers tr -> Voxtral.wav_post TTS_SAMPLE_RATE tr r) b req tr r)
    as (t0 & tr' & r' & -> & HP & Hr); [done| | |done|].
  - intros t0. by apply Voxtral.synthesize_real_wav.
  - intros t0 tr1 r1 H _. by apply (Voxtral.synthesize_stub_wav _ _ _ _ _ H).
  - destruct (HP Htyped) as [Hu Hcase]. split.
    + etrans; [exact Hu|]. rewrite Forall_forall. split.
      * intros Hg rc xs n Hin Hrc Hn. destruct (Hg _ Hin) as [?|[?|He]]; [done|cbn in *; lia|].
        cbn in He. unfold encodable, size_fits, rate_fits in He. lia.
      * intros Hg [[rc xs] n] Hin. unfold Voxtral.encodable_answer. cbn [fst snd].
        destruct (Z.eq_dec rc 0) as [->|?]; [right|by left].
        destruct (Z.le_gt_cases n 0) as [?|Hn]; [by left|right].
        destruct (Hg 0 xs n Hin eq_refl) as (? & ? & ?); [lia|].
        unfold encodable, size_fits, rate_fits, INT_MIN. lia.
    + intros Hn. subst r. destruct (Hcase Hn) as [->|(res & -> & Hw)]; [by left|].
      right. by exists res.
Qed.
End EngineProperties.

(** A concrete run: the engine answers two samples in buffer 7. *)
Definition demo_backend : Voxtral.VoxtralBackend :=
  Voxtral.mk_voxtral true "/models/voxtral" (Some 3) true.

Definition demo_trace : list (event engineE) :=
  [Ev ENow 0; Ev (TtsGenerate (Some 3) "" "") (0, Some (7, [f32_1; f32_m1]), 2); Ev ENow 5;
   Ev (Free 7) tt;
   Ev (ELog (mk_log debug
     "VoxtralBackend::synthesize — voice={} text_len={} duration={:.3f}s inference={:.3f}s samples={}"
     [AStr ""; AInt 0; AInt 2])) tt].

Definition demo_result : SynthesisResult :=
  mk_result (wav_header 24000 2 ++ [255; 127; 1; 128]) 24000
    (f64_div (f64_of_Z 2) (f64_of_Z 24000)) (seconds_between 0 5).

Lemma demo_run :
  runs (Voxtral.voxtral_synthesize true 24000 demo_backend request_init) demo_trace
    (Ok (demo_result, demo_backend)).
Proof.
  answer 0. answer (0, Some (7, [f32_1; f32_m1]), 2). answer 5. answer tt. answer tt.
  by vm_compute.
Qed.

Lemma demo_typed : Voxtral.typed_answers demo_trace.
Proof. repeat constructor. by vm_compute. Qed.

Lemma voxtral_frees_samples_witness :
  Voxtral.freed demo_trace = Voxtral.generated demo_trace /\ Voxtral.freed demo_trace = [7].
Proof.
  split; [|reflexivity].
  exact (voxtral_frees_samples true 24000 demo_backend request_init demo_trace _ demo_run).
Defined.

Lemma voxtral_context_freed_witness :
  let tr := [Ev (FsExists "m") (true, false); Ev (FsIsRegularFile "m") true; Ev ENow 0;
             Ev (TtsLoad "m") (Some 9); Ev ENow 4;
             Ev (ELog (mk_log info "VoxtralBackend — real engine loaded in {:.3f}s (path={})"
                         [AInt 4; AStr "m"])) tt;
             Ev (TtsFree 9) tt;
             Ev (ELog (mk_log debug "VoxtralBackend — engine context freed" [])) tt] in
  released tr = loaded tr /\ released tr = [9].
Proof.
  intros tr. split; [|reflexivity].
  refine (voxtral_context_freed true "m" tr (Ok true) _).
  repeat (eexists _, _; split; [reflexivity|]). split; reflexivity.
Defined.

(** A second initialisation overwrites [ctx_]: the first context is never
    released. *)
Definition voxtral_twice (path : string) : prog engineE unit :=
  r1 ← Voxtral.voxtral_initialize true Voxtral.voxtral_new path;
  r2 ← Voxtral.voxtral_initialize true r1.2 path;
  Voxtral.voxtral_destroy true r2.2.

Example reinitialize_leaks : exists tr,
  runs (voxtral_twice "m") tr (Ok tt) /\ loaded tr = [1; 2] /\ released tr = [2].
Proof.
  eexists. split.
  - answer (true, false). answer true. answer 0. answer (Some 1). answer 0. answer tt.
    answer (true, false). answer true. answer 0. answer (Some 2). answer 0.
    repeat answer tt. split; reflexivity.
  - split; reflexivity.
Qed.

Lemma voxtral_audio_wellformed_witness :
  Ok (demo_result, demo_backend) = Exn (RuntimeError "TTS inference failed") \/
  exists res, Ok (demo_result, demo_backend) = Ok (res, demo_backend) /\
    wav_ok (audio_data res) (sample_rate res).
Proof.
  refine (proj2 (voxtral_audio_wellformed true 24000 demo_backend request_init demo_trace _ _ _
    demo_typed demo_run) _).
  - reflexivity.
  - lia.
  - reflexivity.
Defined.
