(* ===== verification/Pool.v ===== *)
(** * The inference pool

    [InferencePool] of [include/tts/inference_pool.hpp] and
    [src/tts/inference_pool.cpp]: a bounded queue filled by HTTP threads and
    emptied by one worker thread.

    - The sections run under [mutex_] are functions on the shared state
      ([submit_locked], [take_locked], [close_locked]).
    - The methods and the body of [worker_loop()] are programs over the
      effects [poolE], one effect per atomic access to shared state, call of
      the backend or call of a callback.
    - [sys_step] interleaves the worker with any number of calling threads,
      one effect at a time; [reach] collects the states and the trace. *)

From Stdlib Require Import ZArith Lia String SpecFloat.
From stdpp Require Import base tactics numbers list strings.
From S2P Require Import Prelude Effects Backend.

#[local] Open Scope Z_scope.

(** ** Data *)

(** A [std::function] is a handle, [None] when empty.  A deadline is in
    nanoseconds of [steady_clock]; 0 is the epoch sentinel. *)
Record InferenceJob := mk_job {
  request : SynthesisRequest;
  deadline : Z;
  on_success : option Z;
  on_error : option Z;
}.

Definition with_deadline (job : InferenceJob) (d : Z) : InferenceJob :=
  mk_job (request job) d (on_success job) (on_error job).

(** The constants of a pool. *)
Record PoolConfig := mk_config {
  max_queue_depth_ : Z;
  request_timeout_seconds_ : Z;
}.

(** The shared members.  [waiting] says that the worker is in the wait set of
    [cv_]; [joinable] is [worker_.joinable()]; [clock] is the last reading of
    [steady_clock]. *)
Record InferencePool := mk_pool {
  queue_ : list InferenceJob;
  accepting_ : bool;
  active_ : Z;
  expired_ : Z;
  waiting : bool;
  joinable : bool;
  clock : Z;
}.

(** The constructor; [true] for a non-null backend. *)
Definition pool_create (backend : bool) (max_queue_depth request_timeout_seconds : Z)
    : res (PoolConfig * InferencePool) :=
  if negb backend then Exn (InvalidArgument "InferencePool requires a non-null backend")
  else if max_queue_depth <? 1 then Exn (InvalidArgument "max_queue_depth must be >= 1")
  else if request_timeout_seconds <? 1 then
    Exn (InvalidArgument "request_timeout_seconds must be >= 1")
  else Ok (mk_config max_queue_depth request_timeout_seconds,
           mk_pool [] true 0 0 false true 0).

(** ** Critical sections *)

Definition queue_size (s : InferencePool) : Z := i32 (Z.of_nat (length (queue_ s))).

(** [Full] carries the size the log message shows; the message is written
    after the section here, before releasing the mutex in the source. *)
Variant push_result := NotAccepting | Full (size : Z) | Pushed.

(** The locked part of [submit()]. *)
Definition submit_locked (cfg : PoolConfig) (job : InferenceJob) (s : InferencePool)
    : push_result * InferencePool :=
  if negb (accepting_ s) then (NotAccepting, s)
  else if max_queue_depth_ cfg <=? queue_size s then (Full (Z.of_nat (length (queue_ s))), s)
  else (Pushed, mk_pool (queue_ s ++ [job]) (accepting_ s) (active_ s) (expired_ s)
                  (waiting s) (joinable s) (clock s)).

(** The locked part of [shutdown()]. *)
Definition close_locked (s : InferencePool) : InferencePool :=
  mk_pool (queue_ s) false (active_ s) (expired_ s) (waiting s) (joinable s) (clock s).

Variant take_result := Blocked | Shutdown | Took (job : InferenceJob).

Definition set_waiting (w : bool) (s : InferencePool) : InferencePool :=
  mk_pool (queue_ s) (accepting_ s) (active_ s) (expired_ s) w (joinable s) (clock s).

(** The worker's locked part, from acquiring the mutex to releasing it: the
    predicate of [cv_.wait] is tested with the mutex held; when it is false
    the worker enters the wait set and releases the mutex in one step. *)
Definition take_locked (s : InferencePool) : take_result * InferencePool :=
  if negb (negb (accepting_ s) || negb (bool_decide (queue_ s = []))) then
    (Blocked, set_waiting true s)
  else if negb (accepting_ s) && bool_decide (queue_ s = []) then (Shutdown, s)
  else
    match queue_ s with
    | [] => (Shutdown, s)
    | job :: rest =>
        (Took job, mk_pool rest (accepting_ s) (active_ s) (expired_ s)
                     (waiting s) (joinable s) (clock s))
    end.

(** ** Effects *)

Variant poolE : Type -> Type :=
| Now : poolE Z
| LockSubmit (job : InferenceJob) : poolE push_result
| LockClose : poolE unit
| LockSize : poolE Z
| Notify : poolE unit
| Joinable : poolE bool
| Join : poolE (res unit)
| LoadActive : poolE Z
| LoadAccepting : poolE bool
| LoadExpired : poolE Z
| LockTake : poolE take_result
| CvBlock : poolE unit
| AddExpired : poolE unit
| AddActive (d : Z) : poolE unit
| Synthesize (req : SynthesisRequest) : poolE (res SynthesisResult)
| CallError (callback : Z) (message : string) : poolE (res unit)
| CallSuccess (callback : Z) (result : SynthesisResult) : poolE (res unit)
| PLog (l : log_record) : poolE unit.

Definition plog (lvl : log_level) (fmt : string) (args : list log_arg) : prog poolE unit :=
  trigger (PLog (mk_log lvl fmt args)).

(** A call that may throw. *)
Definition call {A} (e : poolE (res A)) : prog poolE A := r ← trigger e; of_res r.

(** ** Methods *)

Definition submit (cfg : PoolConfig) (job : InferenceJob) : prog poolE bool :=
  job ← (if deadline job =? 0 then
           now ← trigger Now;
           mret (with_deadline job (now + request_timeout_seconds_ cfg * SEC))
         else mret job);
  r ← trigger (LockSubmit job);
  match r with
  | NotAccepting => mret false
  | Full size =>
      _ ← plog warn "InferencePool — queue full ({}/{} jobs), rejecting request"
            [AInt size; AInt (max_queue_depth_ cfg)];
      mret false
  | Pushed => _ ← trigger Notify; mret true
  end.

Definition shutdown : prog poolE unit :=
  _ ← trigger LockClose;
  _ ← trigger Notify;
  j ← trigger Joinable;
  if (j : bool) then call Join else mret tt.

Definition queue_depth : prog poolE Z := trigger LockSize.
Definition active_jobs : prog poolE Z := trigger LoadActive.
Definition is_accepting : prog poolE bool := trigger LoadAccepting.
Definition expired_jobs : prog poolE Z := trigger LoadExpired.

(** [try { if (job.on_error) job.on_error(message); } catch ...] *)
Definition report_error (job : InferenceJob) (message : string) : prog poolE unit :=
  catch (fun e => plog err "InferencePool — on_error callback threw: {}" [AStr (what e)])
    match on_error job with
    | Some cb => call (CallError cb message)
    | None => mret tt
    end.

Definition report_success (job : InferenceJob) (result : SynthesisResult) : prog poolE unit :=
  catch (fun e => plog err "InferencePool — on_success callback threw: {}" [AStr (what e)])
    match on_success job with
    | Some cb => call (CallSuccess cb result)
    | None => mret tt
    end.

(** The first [try] of the guarded block: the result when synthesis succeeded. *)
Definition try_synthesize (job : InferenceJob) : prog poolE (option SynthesisResult) :=
  catch (fun e =>
      _ ← plog err "InferencePool — inference failed: {}" [AStr (what e)];
      _ ← report_error job ("Inference failed: " +:+ what e);
      mret None)
    (result ← call (Synthesize (request job)); mret (Some result)).

(** The block guarded by [ActiveGuard]. *)
Definition run_inference (job : InferenceJob) : prog poolE unit :=
  _ ← trigger (AddActive 1);
  r ← try_synthesize job;
  _ ← match r with
      | Some result =>
          now ← trigger Now;
          if deadline job <=? now then
            _ ← plog warn "InferencePool — request exceeded deadline during inference" [];
            report_error job "Request exceeded deadline during inference"
          else report_success job result
      | None => mret tt
      end;
  trigger (AddActive (-1)).

(** One iteration of [worker_loop()]; [false] leaves the loop.  Waking up from
    [cv_.wait] tests the predicate again with the mutex held, as a new
    iteration does. *)
Definition worker_iteration : prog poolE bool :=
  t ← trigger LockTake;
  match t with
  | Blocked => _ ← trigger CvBlock; mret true
  | Shutdown => mret false
  | Took job =>
      now ← trigger Now;
      if deadline job <=? now then
        _ ← trigger AddExpired;
        _ ← plog warn "InferencePool — job expired in queue, skipping inference" [];
        _ ← report_error job "Request timed out in queue";
        mret true
      else
        _ ← run_inference job;
        mret true
  end.

(** ** Shared-state semantics

    The oracle of a step fixes what the environment decides: how far the
    clock moved, a spurious wake-up, how the backend and the callbacks
    answer. *)
Record oracle := mk_oracle {
  o_tick : N;
  o_spurious : bool;
  o_synth : res SynthesisResult;
  o_callback : res unit;
}.

Definition set_clock (c : Z) (s : InferencePool) : InferencePool :=
  mk_pool (queue_ s) (accepting_ s) (active_ s) (expired_ s) (waiting s) (joinable s) c.
Definition set_joinable (j : bool) (s : InferencePool) : InferencePool :=
  mk_pool (queue_ s) (accepting_ s) (active_ s) (expired_ s) (waiting s) j (clock s).
Definition add_active (d : Z) (s : InferencePool) : InferencePool :=
  mk_pool (queue_ s) (accepting_ s) (i32 (active_ s + d)) (expired_ s) (waiting s) (joinable s)
    (clock s).
Definition add_expired (s : InferencePool) : InferencePool :=
  mk_pool (queue_ s) (accepting_ s) (active_ s) (i32 (expired_ s + 1)) (waiting s) (joinable s)
    (clock s).

(** [None]: the thread cannot move now (a wait without a signal, a join of a
    running thread).  [exited] says the worker thread has ended. *)
Definition perform (cfg : PoolConfig) (exited : bool) (o : oracle) {X} (e : poolE X)
    (s : InferencePool) : option (X * InferencePool) :=
  match e in poolE X return option (X * InferencePool) with
  | Now => let c := clock s + Z.of_N (o_tick o) in Some (c, set_clock c s)
  | LockSubmit job => Some (submit_locked cfg job s)
  | LockClose => Some (tt, close_locked s)
  | LockSize => Some (queue_size s, s)
  | Notify => Some (tt, set_waiting false s)
  | Joinable => Some (joinable s, s)
  | Join =>
      if negb exited then None
      else if joinable s then Some (Ok tt, set_joinable false s)
      else Some (Exn (RuntimeError "Invalid argument"), s)
  | LoadActive => Some (active_ s, s)
  | LoadAccepting => Some (accepting_ s, s)
  | LoadExpired => Some (expired_ s, s)
  | LockTake => Some (take_locked s)
  | CvBlock =>
      if waiting s && negb (o_spurious o) then None else Some (tt, set_waiting false s)
  | AddExpired => Some (tt, add_expired s)
  | AddActive d => Some (tt, add_active d s)
  | Synthesize _ => Some (o_synth o, s)
  | CallError _ _ => Some (o_callback o, s)
  | CallSuccess _ _ => Some (o_callback o, s)
  | PLog _ => Some (tt, s)
  end.

(** ** Threads *)

(** The worker thread: in an iteration, returned from [worker_loop()], or
    ended by an exception ([std::terminate]). *)
Inductive worker_state :=
| Running (p : prog poolE bool)
| Exited
| Terminated.

Definition settle (p : prog poolE bool) : worker_state :=
  match p with
  | Ret true => Running worker_iteration
  | Ret false => Exited
  | Throw _ => Terminated
  | Vis _ _ => Running p
  end.

(** The calls other threads make, and what they return. *)
Variant pool_answer := AnsBool (b : bool) | AnsInt (n : Z) | AnsUnit.
Variant pool_call :=
| CSubmit (job : InferenceJob)
| CShutdown
| CQueueDepth
| CActiveJobs
| CIsAccepting
| CExpiredJobs.

Definition call_prog (cfg : PoolConfig) (c : pool_call) : prog poolE pool_answer :=
  match c with
  | CSubmit job => b ← submit cfg job; mret (AnsBool b)
  | CShutdown => _ ← shutdown; mret AnsUnit
  | CQueueDepth => n ← queue_depth; mret (AnsInt n)
  | CActiveJobs => n ← active_jobs; mret (AnsInt n)
  | CIsAccepting => b ← is_accepting; mret (AnsBool b)
  | CExpiredJobs => n ← expired_jobs; mret (AnsInt n)
  end.

Record sys := mk_sys {
  shared : InferencePool;
  worker : worker_state;
  clients : list (prog poolE pool_answer);
}.

Variant label :=
| LCall (c : pool_call)
| LWorker (o : oracle)
| LClient (i : nat) (o : oracle).

(** The state after the constructor has started the worker. *)
Definition sys_init (s : InferencePool) : sys := mk_sys s (Running worker_iteration) [].

Definition has_exited (w : worker_state) : bool :=
  match w with Exited => true | _ => false end.

(** A trace entry: the worker's ([true]) or another thread's event. *)
Definition trace := list (bool * event poolE).

Definition worker_step (cfg : PoolConfig) (o : oracle) (y : sys) : option (sys * trace) :=
  match worker y with
  | Running (Vis e k) =>
      '(x, s) ← perform cfg false o e (shared y);
      Some (mk_sys s (settle (k x)) (clients y), [(true, Ev e x)])
  | _ => None
  end.

Definition client_step (cfg : PoolConfig) (i : nat) (o : oracle) (y : sys)
    : option (sys * trace) :=
  match clients y !! i with
  | Some (Vis e k) =>
      '(x, s) ← perform cfg (has_exited (worker y)) o e (shared y);
      Some (mk_sys s (worker y) (<[i := k x]> (clients y)), [(false, Ev e x)])
  | _ => None
  end.

Definition sys_step (cfg : PoolConfig) (l : label) (y : sys) : option (sys * trace) :=
  match l with
  | LCall c => Some (mk_sys (shared y) (worker y) (clients y ++ [call_prog cfg c]), [])
  | LWorker o => worker_step cfg o y
  | LClient i o => client_step cfg i o y
  end.

(** Reachable states with the trace that led to them. *)
Inductive reach (cfg : PoolConfig) : sys -> trace -> Prop :=
| reach_init s :
    pool_create true (max_queue_depth_ cfg) (request_timeout_seconds_ cfg) = Ok (cfg, s) ->
    reach cfg (sys_init s) []
| reach_step y tr l y' tr' :
    reach cfg y tr -> sys_step cfg l y = Some (y', tr') -> reach cfg y' (tr ++ tr').

(** Executable runs of a schedule. *)
Fixpoint run_schedule (cfg : PoolConfig) (ls : list label) (y : sys) : option (sys * trace) :=
  match ls with
  | [] => Some (y, [])
  | l :: ls' =>
      '(y1, t1) ← sys_step cfg l y;
      '(y2, t2) ← run_schedule cfg ls' y1;
      Some (y2, t1 ++ t2)
  end.

(** ** Observations of a trace *)

Definition worker_trace (tr : trace) : list (event poolE) :=
  omap (fun te => if te.1 : bool then Some te.2 else None) tr.
Definition client_trace (tr : trace) : list (event poolE) :=
  omap (fun te => if te.1 : bool then None else Some te.2) tr.

Definition accepted_of {X} (e : poolE X) : X -> option InferenceJob :=
  match e in poolE X return X -> option InferenceJob with
  | LockSubmit job => fun r => match r with Pushed => Some job | _ => None end
  | _ => fun _ => None
  end.
Definition taken_of {X} (e : poolE X) : X -> option InferenceJob :=
  match e in poolE X return X -> option InferenceJob with
  | LockTake => fun r => match r with Took job => Some job | _ => None end
  | _ => fun _ => None
  end.

(** Callback invocations. *)
Inductive notice :=
| NError (callback : Z) (message : string)
| NSuccess (callback : Z) (result : SynthesisResult).

Definition notice_of {X} (e : poolE X) (_ : X) : option notice :=
  match e with
  | CallError cb m => Some (NError cb m)
  | CallSuccess cb r => Some (NSuccess cb r)
  | _ => None
  end.
Definition reading_of {X} (e : poolE X) : X -> option Z :=
  match e in poolE X return X -> option Z with Now => Some | _ => fun _ => None end.
Definition synth_of {X} (e : poolE X) : X -> option (res SynthesisResult) :=
  match e in poolE X return X -> option (res SynthesisResult) with
  | Synthesize _ => Some
  | _ => fun _ => None
  end.
Definition active_of {X} (e : poolE X) (_ : X) : option Z :=
  match e with AddActive d => Some d | _ => None end.
Definition expired_of {X} (e : poolE X) (_ : X) : option unit :=
  match e with AddExpired => Some tt | _ => None end.

(** Jobs the callers queued, jobs the worker took, what the callbacks were
    told, clock readings, answers of the backend. *)
Definition accepted (tr : trace) : list InferenceJob := observe (@accepted_of) (client_trace tr).
Definition taken (t : list (event poolE)) : list InferenceJob := observe (@taken_of) t.
Definition notices (t : list (event poolE)) : list notice := observe (@notice_of) t.
Definition readings (t : list (event poolE)) : list Z := observe (@reading_of) t.
Definition synths (t : list (event poolE)) : list (res SynthesisResult) := observe (@synth_of) t.

Definition zsum (l : list Z) : Z := fold_right Z.add 0 l.
Definition active_delta (t : list (event poolE)) : Z := zsum (observe (@active_of) t).
Definition expirations (t : list (event poolE)) : Z :=
  Z.of_nat (length (observe (@expired_of) t)).

Lemma zsum_app l1 l2 : zsum (l1 ++ l2) = zsum l1 + zsum l2.
Proof. induction l1 as [|x l1 IH]; simpl; [done|]. rewrite IH. lia. Qed.

(** Everything that is observed of a stretch of the worker's trace. *)
Record footprint := mk_foot {
  f_taken : list InferenceJob;
  f_notices : list notice;
  f_readings : list Z;
  f_synths : list (res SynthesisResult);
  f_active : Z;
  f_expired : Z;
}.

Definition foot (t : list (event poolE)) : footprint :=
  mk_foot (taken t) (notices t) (readings t) (synths t) (active_delta t) (expirations t).

Definition fadd (f g : footprint) : footprint :=
  mk_foot (f_taken f ++ f_taken g) (f_notices f ++ f_notices g) (f_readings f ++ f_readings g)
    (f_synths f ++ f_synths g) (f_active f + f_active g) (f_expired f + f_expired g).

Lemma foot_app t1 t2 : foot (t1 ++ t2) = fadd (foot t1) (foot t2).
Proof.
  unfold foot, fadd, taken, notices, readings, synths, active_delta, expirations.
  cbn [f_taken f_notices f_readings f_synths f_active f_expired].
  rewrite !observe_app, zsum_app, length_app, Nat2Z.inj_add. done.
Qed.

Lemma taken_app t1 t2 : taken (t1 ++ t2) = taken t1 ++ taken t2.
Proof. apply observe_app. Qed.
Lemma notices_app t1 t2 : notices (t1 ++ t2) = notices t1 ++ notices t2.
Proof. apply observe_app. Qed.
Lemma active_delta_app t1 t2 : active_delta (t1 ++ t2) = active_delta t1 + active_delta t2.
Proof. unfold active_delta. by rewrite observe_app, zsum_app. Qed.
Lemma expirations_app t1 t2 : expirations (t1 ++ t2) = expirations t1 + expirations t2.
Proof. unfold expirations. rewrite observe_app, length_app. lia. Qed.
Lemma worker_trace_app tr1 tr2 : worker_trace (tr1 ++ tr2) = worker_trace tr1 ++ worker_trace tr2.
Proof. apply omap_app. Qed.
Lemma accepted_app tr1 tr2 : accepted (tr1 ++ tr2) = accepted tr1 ++ accepted tr2.
Proof. unfold accepted, client_trace. by rewrite omap_app, observe_app. Qed.

Create HintDb pool.
#[export] Hint Rewrite taken_app notices_app active_delta_app expirations_app worker_trace_app
  accepted_app : pool.

(** The footprint of reporting one verdict. *)
Definition foot_notices (ns : list notice) : footprint := mk_foot [] ns [] [] 0 0.

Ltac foot_solve :=
  rewrite ?foot_app;
  repeat match goal with Hf : foot _ = _ |- _ => rewrite Hf; clear Hf end;
  unfold fadd, foot_notices; simpl; rewrite ?app_nil_r; done.

(** ** One iteration of the worker *)

(** What a job is told. *)
Inductive verdict :=
| VError (message : string)
| VSuccess (result : SynthesisResult).

(** The verdict on a job, from the clock when it is taken, the backend's
    answer and the clock afterwards. *)
Definition job_verdict (job : InferenceJob) (now1 : Z) (synth : res SynthesisResult) (now2 : Z)
    : verdict :=
  if deadline job <=? now1 then VError "Request timed out in queue"
  else
    match synth with
    | Exn e => VError ("Inference failed: " +:+ what e)
    | Ok r =>
        if deadline job <=? now2 then VError "Request exceeded deadline during inference"
        else VSuccess r
    end.

Definition verdict_notice (job : InferenceJob) (v : verdict) : list notice :=
  match v with
  | VError m => match on_error job with Some cb => [NError cb m] | None => [] end
  | VSuccess r => match on_success job with Some cb => [NSuccess cb r] | None => [] end
  end.

(** The footprint of an iteration that took [job]: an expired job is not
    synthesised; a synthesised one is timed again. *)
Definition job_foot (job : InferenceJob) (now1 : Z) (synth : res SynthesisResult) (now2 : Z)
    : footprint :=
  let ns := verdict_notice job (job_verdict job now1 synth now2) in
  if deadline job <=? now1 then mk_foot [job] ns [now1] [] 0 1
  else mk_foot [job] ns (now1 :: match synth with Ok _ => [now2] | Exn _ => [] end) [synth] 0 0.

Lemma report_error_post job m :
  has_post (report_error job m) (fun t r =>
    r = Ok tt /\ foot t = foot_notices (verdict_notice job (VError m))).
Proof.
  intros t r H. unfold report_error, call, plog in H. unfold verdict_notice.
  runs_inv H; subst; split_units; done.
Qed.

Lemma report_success_post job res :
  has_post (report_success job res) (fun t r =>
    r = Ok tt /\ foot t = foot_notices (verdict_notice job (VSuccess res))).
Proof.
  intros t r H. unfold report_success, call, plog in H. unfold verdict_notice.
  runs_inv H; subst; split_units; done.
Qed.

Lemma try_synthesize_post job :
  has_post (try_synthesize job) (fun t r => exists synth,
    match synth with
    | Ok res => r = Ok (Some res) /\ foot t = mk_foot [] [] [] [synth] 0 0
    | Exn e => r = Ok None /\
        foot t = mk_foot [] (verdict_notice job (VError ("Inference failed: " +:+ what e))) []
                   [synth] 0 0
    end).
Proof.
  intros t r H. unfold try_synthesize, call, plog in H. runs_seq H as synth. exists synth.
  destruct synth as [res|e]; [by destruct H as [-> ->]|].
  runs_seq H as u. apply (runs_after _ _ tt _ _ _ (report_error_post _ _)) in H
    as (t1 & t2 & -> & Hf & -> & ->).
  split; [done|]. foot_solve.
Qed.

(** The part of the guarded block after a synthesis. *)
Lemma after_synthesis_post job now2 res :
  has_post (if deadline job <=? now2 then
              _ ← plog warn "InferencePool — request exceeded deadline during inference" [];
              report_error job "Request exceeded deadline during inference"
            else report_success job res)
    (fun t r => r = Ok tt /\ foot t = foot_notices (verdict_notice job
       (if deadline job <=? now2 then VError "Request exceeded deadline during inference"
        else VSuccess res))).
Proof.
  intros t r H. destruct (deadline job <=? now2); [|by apply report_success_post].
  unfold plog in H. runs_seq H as u. apply report_error_post in H as [-> Hf].
  split; [done|]. foot_solve.
Qed.

Lemma run_inference_post job now1 :
  deadline job <=? now1 = false ->
  has_post (run_inference job) (fun t r => r = Ok tt /\
    exists synth now2, foot ([Ev LockTake (Took job); Ev Now now1] ++ t) =
      job_foot job now1 synth now2).
Proof.
  intros Hd t r H. unfold run_inference in H. runs_seq H as u.
  apply runs_bind in H as [(t2 & t3 & v & -> & [synth Hs]%try_synthesize_post & H)|(e & -> & H)];
    [|apply try_synthesize_post in H as [[?|?] [[=] _]]].
  destruct synth as [res|e]; destruct Hs as [[= ->] Hs].
  - runs_seq H as now2. rename x into t4.
    apply (runs_after _ _ tt _ _ _ (after_synthesis_post job now2 res)) in H
      as (t5 & t6 & -> & Hf & H).
    apply runs_trigger in H as ([] & -> & ->). split; [done|]. exists (Ok res), now2.
    unfold job_foot, job_verdict. rewrite Hd. foot_solve.
  - apply runs_trigger in H as ([] & -> & ->). split; [done|]. exists (Exn e), 0.
    unfold job_foot, job_verdict. rewrite Hd. foot_solve.
Qed.

Definition foot_nil : footprint := mk_foot [] [] [] [] 0 0.

(** Every complete iteration. *)
Lemma iteration_post :
  has_post worker_iteration (fun t r =>
    (r = Ok false /\ foot t = foot_nil) \/
    (r = Ok true /\
     (foot t = foot_nil \/
      exists job now1 synth now2, foot t = job_foot job now1 synth now2))).
Proof.
  intros t r H. unfold worker_iteration in H. runs_seq H as a. destruct a as [| |job].
  - runs_seq H as u. destruct H as [-> ->]. by right; split; [|left].
  - destruct H as [-> ->]. by left.
  - right. runs_seq H as now1. destruct (deadline job <=? now1) eqn:Hd.
    + unfold plog in H. runs_seq H as u. runs_seq H as v.
      apply (runs_after _ _ tt _ _ _ (report_error_post _ _)) in H
        as (t1 & t2 & -> & Hf & -> & ->).
      split; [done|]. right. exists job, now1, (Ok result_init), 0.
      unfold job_foot, job_verdict. rewrite Hd. foot_solve.
    + apply (runs_after _ _ tt _ _ _ (run_inference_post job now1 Hd)) in H
        as (t1 & t2 & -> & (synth & now2 & Hf) & -> & ->).
      split; [done|]. right. exists job, now1, synth, now2. by rewrite app_nil_r.
Qed.

(** *** Points inside an iteration *)

(** The kinds of effects the worker performs, and those of other threads. *)
Definition worker_effect {X} (e : poolE X) : bool :=
  match e with
  | Now | LockTake | CvBlock | AddExpired | AddActive _ | Synthesize _ | CallError _ _
  | CallSuccess _ _ | PLog _ => true
  | _ => false
  end.

Definition at_synthesize {A} (p : prog poolE A) : bool :=
  match p with Vis (Synthesize _) _ => true | _ => false end.
Definition at_block {A} (p : prog poolE A) : bool :=
  match p with Vis CvBlock _ => true | _ => false end.
Definition at_take {A} (p : prog poolE A) : bool :=
  match p with Vis LockTake _ => true | _ => false end.
(** The answer of the last call, when it was a [LockTake]. *)
Definition last_take (t : list (event poolE)) : option take_result :=
  match last t with
  | Some (Ev e x) =>
      match e in poolE X return X -> option take_result with
      | LockTake => Some
      | _ => fun _ => None
      end x
  | None => None
  end.
Definition last_blocked (t : list (event poolE)) : bool :=
  match last_take t with Some Blocked => true | _ => false end.

Lemma last_take_snoc t ev : last_take (t ++ [ev]) = last_take [ev].
Proof. unfold last_take. by rewrite last_snoc. Qed.

(** No further job is taken in the rest [p] of an iteration. *)
Fixpoint no_take (p : prog poolE bool) : Prop :=
  match p with Vis e k => at_take p = false /\ forall x, no_take (k x) | _ => True end.

Lemma no_take_steps p t q : no_take p -> steps p t q -> no_take q.
Proof.
  revert t. induction p as [b|e|X e k IH]; intros t Hp; cbn [steps].
  - by intros [[_ ->]|[]].
  - by intros [[_ ->]|[]].
  - intros [[_ ->]|(x & t' & _ & H)]; [done|]. eapply IH; [apply Hp|done].
Qed.

Lemma worker_iteration_rest :
  match worker_iteration with
  | Vis e k => forall x, within 8 (k x) /\ no_take (k x)
  | _ => False
  end.
Proof.
  cbn [worker_iteration mbind prog_bind pbind trigger]. intros [| |job].
  - by cbn.
  - by cbn.
  - unfold run_inference, try_synthesize, report_error, report_success, call, plog.
    destruct job as [rq dl [cs|] [ce|]]; cbn.
    all: repeat match goal with
         | |- _ /\ _ => split
         | |- forall _, _ => intros ?
         | |- context [if ?c then _ else _] => destruct c; cbn
         | |- context [of_res ?x] => destruct x; cbn
         end.
    all: try done.
Qed.

(** What holds at every point of an iteration: [t] has been performed and [q]
    is left. *)
Definition point_ok (t : list (event poolE)) (q : prog poolE bool) : Prop :=
  match q with Vis e _ => worker_effect e = true | Throw _ => False | Ret _ => True end /\
  (active_delta t = 0 \/ active_delta t = 1) /\
  (at_synthesize q = true -> active_delta t = 1) /\
  at_block q = last_blocked t /\
  ((taken t = [] /\ notices t = []) \/
   (exists job, taken t = [job] /\
      (notices t = [] \/
       exists n v, notices t = [n] /\ verdict_notice job v = [n] /\ v <> VError ""))).

Lemma iteration_point t q : steps worker_iteration t q -> point_ok t q.
Proof.
  intros H. unfold worker_iteration, run_inference, try_synthesize, report_error,
    report_success, call, plog in H.
  steps_inv H.
  all: unfold point_ok; split_units; (split; [done|]; split; [first [by left | by right]|];
    split; [done|]; split; [done|]).
  all: first [by left | right; eexists; split; [done|]].
  all: first [by left | right; eexists; eexists (VError _); split; [reflexivity|]; split;
       [unfold verdict_notice; (rewrite Heqo || rewrite Heqo0); reflexivity|discriminate]
       | right; eexists; eexists (VSuccess _); split; [reflexivity|]; split;
       [unfold verdict_notice; (rewrite Heqo || rewrite Heqo0); reflexivity|discriminate]|idtac].
Qed.

Lemma iteration_exit t : runs worker_iteration t (Ok false) -> last_take t = Some Shutdown.
Proof.
  intros H. unfold worker_iteration in H. runs_seq H as a. destruct a as [| |job].
  - runs_seq H as u. by destruct H as [_ [=]].
  - by destruct H as [-> _].
  - runs_seq H as now1. destruct (deadline job <=? now1) eqn:Hd.
    + unfold plog in H. runs_seq H as u. runs_seq H as v.
      apply (runs_after _ _ tt _ _ _ (report_error_post _ _)) in H
        as (t1 & t2 & -> & Hf & _ & [=]).
    + apply (runs_after _ _ tt _ _ _ (run_inference_post job now1 Hd)) in H
        as (t1 & t2 & -> & _ & _ & [=]).
Qed.

Lemma iteration_tail t q :
  steps worker_iteration t q ->
  (t = [] /\ q = worker_iteration) \/ (within 8 q /\ no_take q).
Proof.
  intros H. pose proof worker_iteration_rest as Hrest.
  destruct worker_iteration as [b|e|X e k]; [done..|].
  destruct H as [[-> ->]|(x & t' & -> & H)]; [by left|]. right.
  destruct (Hrest x) as [Hw Hn]. split; [by eapply within_steps|by eapply no_take_steps].
Qed.

(** ** The worker thread *)

(** The worker's trace is a sequence of complete iterations and the beginning
    of the current one. *)
Definition worker_inv (w : worker_state) (t : list (event poolE)) : Prop :=
  exists its cur,
    t = mjoin its ++ cur /\
    Forall (fun t => runs worker_iteration t (Ok true)) its /\
    match w with
    | Running p =>
        steps worker_iteration cur p /\ match p with Vis _ _ => True | _ => False end
    | Exited => runs worker_iteration cur (Ok false)
    | Terminated => False
    end.

Lemma worker_inv_init : worker_inv (Running worker_iteration) [].
Proof. exists [], []. split_and!; [done|constructor|apply steps_refl|done]. Qed.

Lemma worker_inv_step {X} (e : poolE X) k x t :
  worker_inv (Running (Vis e k)) t -> worker_inv (settle (k x)) (t ++ [Ev e x]).
Proof.
  intros (its & cur & -> & Hits & Hcur & _).
  apply (steps_snoc _ _ _ _ _ x) in Hcur. rewrite <- app_assoc.
  pose proof (iteration_point _ _ Hcur) as [Hvis _].
  destruct (k x) as [[|]|err|Y e' k'] eqn:Hk; simpl settle; [| |done|].
  - exists (its ++ [cur ++ [Ev e x]]), []. split_and!.
    + by rewrite join_app, app_nil_r; simpl; rewrite app_nil_r.
    + apply Forall_app. split; [done|]. constructor; [by apply steps_ret|constructor].
    + apply steps_refl.
    + done.
  - exists its, (cur ++ [Ev e x]). split_and!; [done|done|by apply steps_ret].
  - exists its, (cur ++ [Ev e x]). by split_and!.
Qed.

(** What a job is told comes from its own callbacks. *)
Definition answers (job : InferenceJob) (n : notice) : Prop := exists v, verdict_notice job v = [n].

Definition has_callbacks (job : InferenceJob) : Prop :=
  is_Some (on_success job) /\ is_Some (on_error job).

Lemma has_callbacks_notice job v :
  has_callbacks job -> exists n, verdict_notice job v = [n].
Proof. intros [[cs Hs] [ce He]]. destruct v; simpl; rewrite ?Hs, ?He; eauto. Qed.

Lemma iterations_done its :
  Forall (fun t => runs worker_iteration t (Ok true)) its ->
  active_delta (mjoin its) = 0 /\
  (Forall has_callbacks (taken (mjoin its)) ->
   Forall2 answers (taken (mjoin its)) (notices (mjoin its))).
Proof.
  induction 1 as [|t its Ht _ [IHa IHn]]; [by split; [|constructor]|].
  change (mjoin (t :: its)) with (t ++ mjoin its). autorewrite with pool.
  apply iteration_post in Ht as [[[=] _]|[_ [Hf|(job & now1 & synth & now2 & Hf)]]].
  - injection Hf as H1 H2 _ _ H3 _. rewrite H1, H2, H3. by split; [lia|].
  - assert (taken t = [job] /\ active_delta t = 0 /\
      notices t = verdict_notice job (job_verdict job now1 synth now2)) as (H1 & H3 & H2).
    { unfold job_foot in Hf. by destruct (deadline job <=? now1); injection Hf as ? ? _ _ ? _. }
    rewrite H1, H2, H3. split; [lia|]. intros [Hj Hr]%Forall_app.
    apply (Forall_singleton has_callbacks) in Hj.
    destruct (has_callbacks_notice job (job_verdict job now1 synth now2) Hj) as [n Hn].
    rewrite Hn. constructor; [by exists (job_verdict job now1 synth now2)|]. by apply IHn.
Qed.

(** What the worker's trace says of the job in hand. *)
Lemma worker_inv_cases w t :
  worker_inv w t ->
  (active_delta t = 0 \/ active_delta t = 1) /\
  (forall p, w = Running p -> at_synthesize p = true -> active_delta t = 1) /\
  (w = Exited -> active_delta t = 0) /\
  (Forall has_callbacks (taken t) -> exists fin inflight,
     taken t = fin ++ inflight /\ Forall2 answers fin (notices t) /\
     (length inflight <= 1)%nat /\ (w = Exited -> inflight = [])).
Proof.
  intros (its & cur & -> & Hits & Hcur). apply iterations_done in Hits as [Ha Hn].
  autorewrite with pool. rewrite Ha. destruct w as [p| |]; [| |done].
  - destruct Hcur as [Hcur _]. apply iteration_point in Hcur as (_ & Hd & Hs & _ & Hj).
    split_and!; [by rewrite Z.add_0_l|intros p' [= <-] Hp; rewrite (Hs Hp); done|done|].
    intros [Hc1 Hc2]%Forall_app. specialize (Hn Hc1).
    destruct Hj as [[-> ->]|(job & -> & [->|(n & v & -> & Hv & _)])].
    + exists (taken (mjoin its)), []. rewrite !app_nil_r. split_and!; (done || simpl; lia).
    + exists (taken (mjoin its)), [job]. rewrite app_nil_r. split_and!; (done || simpl; lia).
    + exists (taken (mjoin its) ++ [job]), []. rewrite app_nil_r. split_and!; [done| |simpl; lia|done].
      apply Forall2_app; [done|]. constructor; [by exists v|constructor].
  - apply iteration_post in Hcur as [[_ Hf]|[[=] _]]. injection Hf as H1 H2 _ _ H3 _.
    rewrite H1, H2, H3. split_and!; [by left|done|done|]. rewrite !app_nil_r. intros Hc.
    exists (taken (mjoin its)), []. rewrite app_nil_r. split_and!; [done|by apply Hn|simpl; lia|done].
Qed.

(** ** Calling threads *)

Definition client_effect {X} (e : poolE X) : bool :=
  match e with
  | Now | LockSubmit _ | LockClose | LockSize | Notify | Joinable | Join | LoadActive
  | LoadAccepting | LoadExpired | PLog _ => true
  | _ => false
  end.

(** After a push or after closing, the caller still has to notify. *)
Definition must_notify {X} (e : poolE X) : X -> bool :=
  match e in poolE X return X -> bool with
  | LockSubmit _ => fun r => match r with Pushed => true | _ => false end
  | LockClose => fun _ => true
  | _ => fun _ => false
  end.

Definition notifying {A} (p : prog poolE A) : bool :=
  match p with Vis Notify _ => true | _ => false end.

Fixpoint client_ok {A} (p : prog poolE A) : Prop :=
  match p with
  | Vis e k =>
      client_effect e = true /\
      (forall x, must_notify e x = true -> notifying (k x) = true) /\
      forall x, client_ok (k x)
  | _ => True
  end.

Lemma call_prog_ok cfg c : client_ok (call_prog cfg c).
Proof.
  destruct c as [[rq dl cs ce]| | | | |]; unfold call_prog, submit, shutdown, queue_depth,
    active_jobs, is_accepting, expired_jobs, call, plog;
    try destruct (dl =? 0) eqn:Hd; cbn [deadline]; rewrite ?Hd; cbn; split_and!; try done.
  all: repeat match goal with
       | |- _ /\ _ => split
       | |- forall _, _ => intros ?
       | |- context [match ?x with _ => _ end] => is_var x; destruct x; cbn
       | |- context [of_res ?x] => destruct x; cbn
       end.
  all: done.
Qed.

(** ** Effects of single steps on the shared state *)

Lemma perform_worker cfg b o X (e : poolE X) s x s' :
  worker_effect e = true -> perform cfg b o e s = Some (x, s') ->
  queue_ s = option_list (taken_of e x) ++ queue_ s' /\
  accepting_ s' = accepting_ s /\
  active_ s' = match active_of e x with Some d => i32 (active_ s + d) | None => active_ s end /\
  expired_ s' = match expired_of e x with Some _ => i32 (expired_ s + 1) | None => expired_ s end /\
  (waiting s' = true ->
   (waiting s = true /\ at_block (Vis e Ret) = false) \/
   (last_blocked [Ev e x] = true /\ accepting_ s = true /\ queue_ s = [])) /\
  (last_take [Ev e x] = Some Shutdown -> accepting_ s = false /\ queue_ s = []).
Proof.
  intros He Hp. destruct e; try discriminate He; cbn in Hp.
  - injection Hp as <- <-. split_and!; try done. by left.
  - unfold take_locked in Hp. destruct s as [q acc ac ex w j c]. cbn in Hp |- *.
    destruct q as [|job q], acc; cbn in Hp; injection Hp as <- <-; cbn; split_and!; try done;
      auto.
  - destruct (waiting s && negb (o_spurious o)); [done|]. injection Hp as <- <-. by split_and!.
  - injection Hp as <- <-. split_and!; try done. by left.
  - injection Hp as <- <-. split_and!; try done. by left.
  - injection Hp as <- <-. split_and!; try done. by left.
  - injection Hp as <- <-. split_and!; try done. by left.
  - injection Hp as <- <-. split_and!; try done. by left.
  - injection Hp as <- <-. split_and!; try done. by left.
Qed.

Lemma perform_client cfg b o X (e : poolE X) s x s' :
  client_effect e = true -> perform cfg b o e s = Some (x, s') ->
  queue_ s' = queue_ s ++ option_list (accepted_of e x) /\
  active_ s' = active_ s /\ expired_ s' = expired_ s /\
  (accepted_of e x <> None ->
   accepting_ s = true /\ queue_size s < max_queue_depth_ cfg) /\
  (accepting_ s = false -> accepting_ s' = false) /\
  (waiting s' = true ->
   waiting s = true /\ notifying (Vis e Ret) = false /\
   (must_notify e x = true \/ (queue_ s' = queue_ s /\ accepting_ s' = accepting_ s))).
Proof.
  intros He Hp. destruct e; try discriminate He; cbn in Hp.
  2: { unfold submit_locked in Hp. destruct (accepting_ s) eqn:Ha; cbn in Hp.
       - destruct (Z.leb_spec (max_queue_depth_ cfg) (queue_size s)); injection Hp as <- <-; cbn;
           rewrite ?app_nil_r; split_and!; try done; auto.
       - injection Hp as <- <-. cbn. rewrite ?app_nil_r. split_and!; try done. auto. }
  6: { destruct (negb b), (joinable s); try done; injection Hp as <- <-; cbn;
         rewrite ?app_nil_r; split_and!; try done; auto. }
  all: injection Hp as <- <-; cbn; rewrite ?app_nil_r; split_and!; try done; auto.
Qed.

(** ** The invariant of reachable states *)

Section Reachable.
Context (cfg : PoolConfig) (Hdepth : in_int (max_queue_depth_ cfg)).

Record Inv (y : sys) (tr : trace) : Prop := mk_inv {
  inv_depth : Z.of_nat (length (queue_ (shared y))) <= max_queue_depth_ cfg;
  inv_fifo : accepted tr = taken (worker_trace tr) ++ queue_ (shared y);
  inv_worker : worker_inv (worker y) (worker_trace tr);
  inv_active : active_ (shared y) = active_delta (worker_trace tr);
  inv_expired : expired_ (shared y) = i32 (expirations (worker_trace tr));
  inv_clients : Forall client_ok (clients y);
  inv_wake : waiting (shared y) = true ->
    (exists p, worker y = Running p /\ at_block p = true) /\
    ((accepting_ (shared y) = true /\ queue_ (shared y) = []) \/
     Exists (fun p => notifying p = true) (clients y));
  inv_exit : worker y = Exited -> accepting_ (shared y) = false /\ queue_ (shared y) = [];
}.

Lemma queue_size_exact s :
  Z.of_nat (length (queue_ s)) <= max_queue_depth_ cfg ->
  queue_size s = Z.of_nat (length (queue_ s)).
Proof.
  intros H. apply i32_small. destruct Hdepth as [_ Hmax]. unfold in_int, INT_MIN in *. lia.
Qed.

Lemma inv_init s :
  pool_create true (max_queue_depth_ cfg) (request_timeout_seconds_ cfg) = Ok (cfg, s) ->
  Inv (sys_init s) [].
Proof.
  unfold pool_create. cbn [negb]. zcase; [done|]. zcase; [done|]. intros [= _ <-].
  split; cbn; try done; try lia. apply worker_inv_init.
Qed.

Lemma worker_blocked_step {X} (e : poolE X) k x t :
  worker_inv (Running (Vis e k)) t -> last_blocked [Ev e x] = true ->
  exists p, settle (k x) = Running p /\ at_block p = true.
Proof.
  intros (its & cur & _ & _ & Hcur & _) Hlast.
  apply (steps_snoc _ _ _ _ _ x), iteration_point in Hcur as (_ & _ & _ & Hb & _).
  assert (at_block (k x) = true) as Hblock.
  { rewrite Hb. unfold last_blocked in *. by rewrite last_take_snoc. }
  destruct (k x); [done|done|]. by eexists.
Qed.

Lemma worker_exit_step {X} (e : poolE X) k x t :
  worker_inv (Running (Vis e k)) t -> settle (k x) = Exited ->
  last_take [Ev e x] = Some Shutdown.
Proof.
  intros (its & cur & _ & _ & Hcur & _) Hset. apply (steps_snoc _ _ _ _ _ x) in Hcur.
  destruct (k x) as [[|]|err|Y e' k']; try done.
  apply steps_ret, iteration_exit in Hcur. by rewrite last_take_snoc in Hcur.
Qed.

(** The active counter is exact: it only takes the values 0 and 1. *)
Lemma active_exact w t X (e : poolE X) x :
  worker_inv w (t ++ [Ev e x]) ->
  match active_of e x with Some d => i32 (active_delta t + d) | None => active_delta t end =
  active_delta (t ++ [Ev e x]).
Proof.
  intros [Hd _]%worker_inv_cases. rewrite active_delta_app in *.
  assert (active_delta [Ev e x] = match active_of e x with Some d => d | None => 0 end) as Heq.
  { unfold active_delta. cbn. destruct (active_of e x); cbn; lia. }
  rewrite Heq in *. destruct (active_of e x); [|lia].
  apply i32_small. unfold in_int, INT_MIN, INT_MAX. lia.
Qed.

Lemma inv_worker_step o y y' tr tr' :
  Inv y tr -> worker_step cfg o y = Some (y', tr') -> Inv y' (tr ++ tr').
Proof.
  intros [Hd Hf Hw Ha Hx Hc Hk Hcl] Hstep. unfold worker_step in Hstep.
  destruct (worker y) as [[b|err|X e k]| |] eqn:Hwy; try done.
  destruct (perform cfg false o e (shared y)) as [[x s']|] eqn:Hp; [|done].
  injection Hstep as <- <-.
  assert (Heff : worker_effect e = true).
  { destruct Hw as (its & cur & _ & _ & Hcur & _). by apply iteration_point in Hcur as [? _]. }
  destruct (perform_worker _ _ _ _ _ _ _ _ Heff Hp)
    as (Hq & Hacc & Hact & Hexp & Hwait & Hshut).
  pose proof (worker_inv_step e k x _ Hw) as Hw'.
  assert (worker_trace (tr ++ [(true, Ev e x)]) = worker_trace tr ++ [Ev e x]) as Hwt
    by by rewrite worker_trace_app.
  split; rewrite ?Hwt; cbn [shared worker clients].
  - rewrite Hq, length_app in Hd. lia.
  - rewrite accepted_app, Hf, Hq, taken_app, app_nil_r, <- app_assoc. done.
  - done.
  - rewrite Hact, Ha. by eapply active_exact.
  - rewrite Hexp, Hx. unfold expirations. rewrite observe_app, length_app. cbn.
    destruct (expired_of e x); cbn; rewrite ?i32_add_l; f_equal; lia.
  - done.
  - intros [[Hwt1 Hnb]|(Hlast & Hacc1 & Hq1)]%Hwait.
    + destruct (Hk Hwt1) as [(p & [= <-] & Hb) _]. by destruct e.
    + split; [by eapply worker_blocked_step|]. left. rewrite Hacc. split; [done|].
      rewrite Hq1 in Hq. symmetry in Hq. by apply app_nil in Hq as [_ ?].
  - intros Hset. rewrite Hacc. destruct (Hshut (worker_exit_step _ _ _ _ Hw Hset)) as [? Hq1].
    split; [done|]. rewrite Hq1 in Hq. symmetry in Hq. by apply app_nil in Hq as [_ ?].
Qed.

Lemma Exists_insert {A} (P : A -> Prop) (l : list A) i x y :
  l !! i = Some x -> (P x -> False) -> Exists P l -> Exists P (<[i := y]> l).
Proof.
  intros Hi Hx [z [[j Hj]%list_elem_of_lookup Hz]]%Exists_exists. apply Exists_exists.
  exists z. split; [|done]. apply list_elem_of_lookup. exists j.
  rewrite list_lookup_insert_ne; [done|]. intros ->. naive_solver.
Qed.

Lemma inv_client_step i o y y' tr tr' :
  Inv y tr -> client_step cfg i o y = Some (y', tr') -> Inv y' (tr ++ tr').
Proof.
  intros [Hd Hf Hw Ha Hx Hc Hk Hcl] Hstep. unfold client_step in Hstep.
  destruct (clients y !! i) as [[u|err|X e k]|] eqn:Hi; try done.
  destruct (perform cfg (has_exited (worker y)) o e (shared y)) as [[x s']|] eqn:Hp; [|done].
  injection Hstep as <- <-.
  pose proof (Forall_lookup_1 _ _ _ _ Hc Hi) as (Heff & Hmust & Hok).
  destruct (perform_client _ _ _ _ _ _ _ _ Heff Hp)
    as (Hq & Hact & Hexp & Hroom & Hclosed & Hwait).
  assert (worker_trace (tr ++ [(false, Ev e x)]) = worker_trace tr) as Hwt
    by by rewrite worker_trace_app, app_nil_r.
  split; cbn [shared worker clients]; change (fun H : Type => poolE H) with poolE; rewrite ?Hwt.
  - rewrite Hq, length_app. destruct (accepted_of e x) as [job|]; simpl; [|lia].
    destruct Hroom as [_ Hroom]; [done|]. rewrite queue_size_exact in Hroom by done. lia.
  - rewrite accepted_app, Hf, Hq, <- app_assoc. done.
  - done.
  - congruence.
  - congruence.
  - by apply Forall_insert.
  - intros (Hwt1 & Hnn & Hcase)%Hwait. destruct (Hk Hwt1) as [Hb Hor]. split; [done|].
    destruct Hcase as [Hm|[Hq1 Ha1]].
    + right. apply Exists_exists. exists (k x). split; [|by apply Hmust].
      apply list_elem_of_lookup. exists i. apply list_lookup_insert_eq. by eapply lookup_lt_Some.
    + rewrite Hq1, Ha1. destruct Hor as [?|Hor]; [by left|]. right.
      eapply Exists_insert; [done| |done]. by destruct e.
  - intros [Hc1 Hq1]%Hcl. split; [by apply Hclosed|]. rewrite Hq, Hq1.
    destruct (accepted_of e x) eqn:Hacc; [|done]. destruct Hroom as [? _]; [done|congruence].
Qed.

Lemma reach_inv y tr : reach cfg y tr -> Inv y tr.
Proof.
  induction 1 as [s Hs|y tr l y' tr' _ IH Hstep]; [by apply inv_init|].
  destruct l as [c|o|i o]; cbn in Hstep.
  - injection Hstep as <- <-. rewrite app_nil_r. destruct IH as [Hd Hf Hw Ha Hx Hc Hk Hcl].
    split; cbn [shared worker clients]; try done.
    + apply Forall_app. split; [done|]. constructor; [apply call_prog_ok|constructor].
    + intros Hwt. destruct (Hk Hwt) as [? [?|?]]; (split; [done|]); [by left|].
      right. apply Exists_app. by left.
  - by eapply inv_worker_step.
  - by eapply inv_client_step.
Qed.

(** *** Progress of the worker *)

Lemma perform_progress o X (e : poolE X) s :
  worker_effect e = true -> at_block (Vis e Ret) = false \/ waiting s = false ->
  exists x s', perform cfg false o e s = Some (x, s').
Proof.
  intros He Hb. destruct e; try discriminate He; cbn; try by eexists _, _.
  - destruct (take_locked s). by eexists _, _.
  - destruct Hb as [Hb|Hb]; [discriminate Hb|]. rewrite Hb. by eexists _, _.
Qed.

(** No caller is between changing the state and notifying. *)
Definition settled (y : sys) : Prop := Forall (fun p => notifying p = false) (clients y).

Lemma worker_moves o y tr :
  Inv y tr -> settled y -> queue_ (shared y) <> [] \/ accepting_ (shared y) = false ->
  worker y <> Exited -> exists y' tr', worker_step cfg o y = Some (y', tr').
Proof.
  intros HI Hset Hwork Hne. destruct HI as [_ _ Hw _ _ _ Hk _]. unfold worker_step.
  destruct (worker y) as [p| |] eqn:Hwy; [|done|by destruct Hw as (? & ? & _ & _ & [])].
  destruct Hw as (its & cur & _ & _ & Hcur & Hvis). destruct p as [b|err|X e k]; [done|done|].
  apply iteration_point in Hcur as [He _].
  destruct (perform_progress o X e (shared y) He) as (x & s' & ->); [|by eexists _, _].
  right. destruct (waiting (shared y)) eqn:Hwt; [|done]. exfalso.
  destruct (Hk eq_refl) as [_ [[Ha Hq]|Hex]].
  - destruct Hwork; congruence.
  - apply Exists_exists in Hex as (q & Hq & Hn).
    apply (proj1 (Forall_forall _ _) Hset) in Hq. congruence.
Qed.

(** The worker alone, up to one step per oracle; it stops when it cannot
    move. *)
Fixpoint worker_alone (os : list oracle) (y : sys) : sys * trace :=
  match os with
  | [] => (y, [])
  | o :: os' =>
      match worker_step cfg o y with
      | Some (y1, t1) => let '(y2, t2) := worker_alone os' y1 in (y2, t1 ++ t2)
      | None => (y, [])
      end
  end.

(** Steps left before the worker of a closed pool exits: nine for each queued
    job, what is left of the current iteration, and the last look at the
    queue. *)
Definition potential (w : worker_state) (len m : nat) : Prop :=
  match w with
  | Exited => True
  | Terminated => False
  | Running p =>
      (p = worker_iteration /\ (9 * len + 1 <= m)%nat) \/
      (exists n, within n p /\ no_take p /\ (n + 9 * len + 1 <= m)%nat)
  end.

Lemma settle_potential p n len m :
  within n p -> no_take p -> settle p <> Terminated -> (n + 9 * len + 1 <= m)%nat ->
  potential (settle p) len m.
Proof.
  intros Hw Hn Ht Hm. destruct p as [[|]|err|X e k]; cbn; [left; split; [done|lia]|done|done|].
  right. by exists n.
Qed.

Lemma worker_iteration_eq : exists k,
  worker_iteration = Vis LockTake k /\ k Shutdown = Ret false /\
  forall a, within 8 (k a) /\ no_take (k a).
Proof.
  pose proof worker_iteration_rest as H. eexists. split; [reflexivity|]. split; [reflexivity|].
  exact H.
Qed.

Lemma no_take_taken {X} (e : poolE X) x : at_take (Vis e Ret) = false -> taken_of e x = None.
Proof. by destruct e. Qed.

Lemma drain_step o y tr m :
  Inv y tr -> settled y -> accepting_ (shared y) = false -> worker y <> Exited ->
  potential (worker y) (length (queue_ (shared y))) m ->
  exists y' tr' m', worker_step cfg o y = Some (y', tr') /\ m = S m' /\
    settled y' /\ accepting_ (shared y') = false /\
    potential (worker y') (length (queue_ (shared y'))) m'.
Proof.
  intros HI Hset Hacc Hne Hpot.
  destruct (worker_moves o y tr HI Hset (or_intror Hacc) Hne) as (y' & tr' & Hstep).
  pose proof (inv_worker y' _ (inv_worker_step o y y' tr tr' HI Hstep)) as Hw'.
  exists y', tr'. destruct (worker y) as [p| |] eqn:Hwy; [|done|done].
  assert (Hm : exists m', m = S m').
  { destruct m as [|m']; [|by exists m']. cbn in Hpot. exfalso.
    destruct Hpot as [[_ ?]|(n & _ & _ & ?)]; lia. }
  destruct Hm as [m' ->]. exists m'. split; [done|]. split; [done|].
  assert (Hterm : worker y' <> Terminated).
  { intros Heq. rewrite Heq in Hw'. by destruct Hw' as (? & ? & _ & _ & []). }
  assert (Hpoint : match p with Vis e _ => worker_effect e = true | _ => True end).
  { destruct (inv_worker _ _ HI) as (its & cur & _ & _ & Hcur). rewrite Hwy in Hcur.
    destruct Hcur as [Hcur _]. apply iteration_point in Hcur as [? _]. by destruct p. }
  unfold worker_step in Hstep. rewrite Hwy in Hstep. destruct Hpot as [[-> Hm]|(n & Hn & Hnt & Hm)].
  - destruct worker_iteration_eq as (k & Heq & Hk1 & Hk2). rewrite Heq in Hstep. cbn in Hstep.
    unfold take_locked in Hstep. rewrite Hacc in Hstep.
    destruct (queue_ (shared y)) as [|job q] eqn:Hq; cbn in Hstep; injection Hstep as <- _;
      cbn [shared worker clients queue_ accepting_] in *; (split; [done|]).
    + by rewrite Hk1.
    + split; [done|]. destruct (Hk2 (Took job)) as [Hkw Hkn].
      apply (settle_potential _ 8); [done|done|done|]. simpl in Hm. lia.
  - destruct p as [b|err|X e k]; [done|done|].
    destruct (perform cfg false o e (shared y)) as [[x s']|] eqn:Hp; [|done].
    injection Hstep as <- _. cbn [shared worker clients] in *. split; [done|].
    destruct (perform_worker _ _ _ _ _ _ _ _ Hpoint Hp) as (Hq & Hacc' & _).
    split; [congruence|]. destruct Hnt as [Hnt Hk]. destruct n as [|n]; [done|].
    rewrite (no_take_taken e x Hnt) in Hq. cbn in Hq.
    rewrite <- Hq. apply (settle_potential _ n); [apply Hn|apply Hk|done|lia].
Qed.

Lemma drain os y tr m :
  reach cfg y tr -> settled y -> accepting_ (shared y) = false ->
  potential (worker y) (length (queue_ (shared y))) m -> (m <= length os)%nat ->
  reach cfg (worker_alone os y).1 (tr ++ (worker_alone os y).2) /\
  worker (worker_alone os y).1 = Exited.
Proof.
  revert y tr m. induction os as [|o os IH]; intros y tr m Hr Hset Hacc Hpot Hm.
  - cbn. rewrite app_nil_r. split; [done|].
    destruct (worker y) as [p| |] eqn:Hwy; [|done|done].
    assert (m = 0)%nat as -> by (simpl in Hm; lia). cbn in Hpot.
    exfalso. destruct Hpot as [[_ ?]|(n & _ & _ & ?)]; lia.
  - destruct (worker y) as [p| |] eqn:Hwy; [| |done].
    + rewrite <- Hwy in Hpot.
      destruct (drain_step o y tr m (reach_inv _ _ Hr) Hset Hacc) as
        (y1 & t1 & m1 & Hstep & -> & Hset1 & Hacc1 & Hpot1); [congruence|done|].
      destruct (IH y1 (tr ++ t1) m1) as [IHr IHw]; try done.
      { by apply (reach_step cfg y tr (LWorker o)). }
      { simpl in Hm. lia. }
      cbn [worker_alone]. rewrite Hstep. destruct (worker_alone os y1) as [y2 t2].
      cbn [fst snd] in *. by rewrite app_assoc.
    + cbn [worker_alone]. unfold worker_step. rewrite Hwy. cbn. by rewrite app_nil_r.
Qed.

Definition drain_bound (y : sys) : nat := 9 * length (queue_ (shared y)) + 9.

Lemma drain_bound_potential y tr :
  reach cfg y tr -> potential (worker y) (length (queue_ (shared y))) (drain_bound y).
Proof.
  intros Hr%reach_inv. destruct (inv_worker _ _ Hr) as (its & cur & _ & _ & Hcur).
  destruct (worker y) as [p| |]; [|done|done]. destruct Hcur as [Hcur _]. unfold drain_bound.
  apply iteration_tail in Hcur as [[_ ->]|[Hw Hn]]; cbn [potential].
  - left. split; [done|lia].
  - right. exists 8%nat. split_and!; [done|done|lia].
Qed.
End Reachable.

Lemma run_schedule_reach cfg ls y tr y' tr' :
  reach cfg y tr -> run_schedule cfg ls y = Some (y', tr') -> reach cfg y' (tr ++ tr').
Proof.
  revert y tr tr'. induction ls as [|l ls IH]; intros y tr tr' Hr; cbn [run_schedule].
  - intros [= <- <-]. by rewrite app_nil_r.
  - destruct (sys_step cfg l y) as [[y1 t1]|] eqn:Hstep; [|done]. cbn.
    destruct (run_schedule cfg ls y1) as [[y2 t2]|] eqn:Hrun; [|done]. cbn.
    intros [= <- <-]. rewrite app_assoc. eapply IH; [|done]. by eapply reach_step.
Qed.

Lemma run_schedule_reach_pair cfg ls y tr p :
  reach cfg y tr -> run_schedule cfg ls y = Some p -> reach cfg p.1 (tr ++ p.2).
Proof. destruct p as [y' tr']. apply run_schedule_reach. Qed.

(** One step of a closed pool accepts nothing and leaves it closed. *)
Lemma closed_step cfg l y tr y' tr' :
  Inv cfg y tr -> accepting_ (shared y) = false -> sys_step cfg l y = Some (y', tr') ->
  accepting_ (shared y') = false /\ accepted tr' = [].
Proof.
  intros HI Hacc Hstep. destruct l as [c|o|i o]; cbn in Hstep.
  - by injection Hstep as <- <-.
  - unfold worker_step in Hstep. destruct (worker y) as [[b|err|X e k]| |] eqn:Hwy; try done.
    destruct (perform cfg false o e (shared y)) as [[x s']|] eqn:Hp; [|done].
    injection Hstep as <- <-. destruct (inv_worker _ _ _ HI) as (its & cur & _ & _ & Hcur).
    rewrite Hwy in Hcur. destruct Hcur as [[Heff _]%iteration_point _].
    destruct (perform_worker _ _ _ _ _ _ _ _ Heff Hp) as (_ & Ha & _). cbn. by rewrite Ha.
  - unfold client_step in Hstep. destruct (clients y !! i) as [[u|err|X e k]|] eqn:Hi; try done.
    destruct (perform cfg (has_exited (worker y)) o e (shared y)) as [[x s']|] eqn:Hp; [|done].
    injection Hstep as <- <-.
    pose proof (Forall_lookup_1 _ _ _ _ (inv_clients _ _ _ HI) Hi) as (Heff & _).
    destruct (perform_client _ _ _ _ _ _ _ _ Heff Hp) as (_ & _ & _ & Hroom & Hcl & _).
    cbn. split; [by apply Hcl|]. unfold accepted, client_trace. cbn.
    destruct (accepted_of e x) eqn:Hj; [|done]. destruct Hroom as [? _]; [done|congruence].
Qed.

(** ** Properties *)

(** C25: exactly once, in order: the jobs accepted by submit() are, in order,
    the jobs that have been answered, at most one job in the worker's hands,
    and the queue; every answered job got exactly one call, of its own
    callback, and none is in hand once the worker has returned. *)
Theorem pool_fifo_exactly_once cfg y tr
    (Hdepth : in_int (max_queue_depth_ cfg)) (Hreach : reach cfg y tr)
    (Hcb : Forall has_callbacks (accepted tr)) :
  exists fin inflight,
    accepted tr = fin ++ inflight ++ queue_ (shared y) /\
    Forall2 answers fin (notices (worker_trace tr)) /\
    (length inflight <= 1)%nat /\ (worker y = Exited -> inflight = []).
Proof.
  apply reach_inv in Hreach; [|done]. destruct Hreach as [_ Hf Hw _ _ _ _ _].
  rewrite Hf in Hcb. apply Forall_app in Hcb as [Hcb _].
  destruct (worker_inv_cases _ _ Hw) as (_ & _ & _ & Hj).
  destruct (Hj Hcb) as (fin & inflight & Ht & Ha & Hl & He). exists fin, inflight.
  rewrite Hf, Ht, <- app_assoc. done.
Qed.

(** Bounds: the queue never exceeds max_queue_depth, so the cast of its
    size to int is exact; active_jobs() is 0 or 1, 1 while the backend runs and
    0 once the worker has returned. *)
Theorem pool_bounds cfg y tr
    (Hdepth : in_int (max_queue_depth_ cfg)) (Hreach : reach cfg y tr) :
  0 <= queue_size (shared y) <= max_queue_depth_ cfg /\
  queue_size (shared y) = Z.of_nat (length (queue_ (shared y))) /\
  (active_ (shared y) = 0 \/ active_ (shared y) = 1) /\
  (forall p, worker y = Running p -> at_synthesize p = true -> active_ (shared y) = 1) /\
  (worker y = Exited -> active_ (shared y) = 0).
Proof.
  apply reach_inv in Hreach; [|done]. destruct Hreach as [Hd _ Hw Ha _ _ _ _].
  rewrite (queue_size_exact cfg) by done. rewrite Ha.
  destruct (worker_inv_cases _ _ Hw) as (Hc & Hs & He & _).
  split; [lia|]. split; [done|]. done.
Qed.

(** No wake-up is lost: once every caller that changed the state has
    notified, the worker can move whenever there is a job or the pool is
    closed, also right after it decided to wait; it returns only from a closed,
    empty pool. *)
Theorem pool_no_lost_wakeup cfg y tr o
    (Hdepth : in_int (max_queue_depth_ cfg)) (Hreach : reach cfg y tr)
    (Hsettled : settled y)
    (Hwork : queue_ (shared y) <> [] \/ accepting_ (shared y) = false) :
  (worker y = Exited /\ accepting_ (shared y) = false /\ queue_ (shared y) = []) \/
  exists y' tr', worker_step cfg o y = Some (y', tr').
Proof.
  apply reach_inv in Hreach; [|done]. destruct (worker y) eqn:Hwy.
  - right. eapply worker_moves; try done. congruence.
  - left. split; [done|]. by apply (inv_exit _ _ _ Hreach).
  - exfalso. destruct Hreach as [_ _ Hw _ _ _ _ _]. rewrite Hwy in Hw.
    by destruct Hw as (? & ? & _ & _ & []).
Qed.

(** Shutdown drains and terminates: once the pool is closed and the
    notification is out, the worker returns after at most nine steps per queued
    job and nine more, whatever the backend, the callbacks and the clock do;
    then the queue is empty and every accepted job has been answered. *)
Theorem pool_shutdown_drains cfg y tr os
    (Hdepth : in_int (max_queue_depth_ cfg)) (Hreach : reach cfg y tr)
    (Hsettled : settled y) (Hclosed : accepting_ (shared y) = false)
    (Hfuel : (drain_bound y <= length os)%nat) :
  let '(y', tr') := worker_alone cfg os y in
  reach cfg y' (tr ++ tr') /\ worker y' = Exited /\ queue_ (shared y') = [] /\
  (Forall has_callbacks (accepted (tr ++ tr')) ->
   Forall2 answers (accepted (tr ++ tr')) (notices (worker_trace (tr ++ tr')))).
Proof.
  destruct (drain cfg Hdepth os y tr _ Hreach Hsettled Hclosed
    (drain_bound_potential cfg Hdepth y tr Hreach) Hfuel) as [Hr Hx].
  destruct (worker_alone cfg os y) as [y' tr']. cbn [fst snd] in *.
  pose proof (reach_inv cfg Hdepth _ _ Hr) as [_ Hf Hw _ _ _ _ He].
  destruct (He Hx) as [_ Hq]. split_and!; [done..|]. intros Hcb.
  rewrite Hf, Hq, app_nil_r in Hcb |- *.
  destruct (worker_inv_cases _ _ Hw) as (_ & _ & _ & Hj).
  destruct (Hj Hcb) as (fin & inflight & -> & Ha & _ & Hi). by rewrite (Hi Hx), app_nil_r.
Qed.

(** A closed pool stays closed: under every further schedule of calls and
    thread steps no submission is accepted. *)
Theorem pool_closed_forever cfg y tr ls y' tr'
    (Hdepth : in_int (max_queue_depth_ cfg)) (Hreach : reach cfg y tr)
    (Hclosed : accepting_ (shared y) = false)
    (Hrun : run_schedule cfg ls y = Some (y', tr')) :
  accepting_ (shared y') = false /\ accepted tr' = [].
Proof.
  revert y tr tr' Hreach Hclosed Hrun. induction ls as [|l ls IH]; intros y tr tr' Hr Hc.
  - by intros [= <- <-].
  - cbn [run_schedule]. destruct (sys_step cfg l y) as [[y1 t1]|] eqn:Hstep; [|done]. cbn.
    destruct (run_schedule cfg ls y1) as [[y2 t2]|] eqn:Hrun; [|done]. cbn.
    intros [= <- <-].
    destruct (closed_step cfg l y tr y1 t1 (reach_inv cfg Hdepth _ _ Hr) Hc Hstep) as [Hc1 Ha1].
    destruct (IH y1 (tr ++ t1) t2) as [Hc2 Ha2]; [by eapply reach_step|done|done|].
    split; [done|]. by rewrite accepted_app, Ha1, Ha2.
Qed.

(** C29: deadline discipline: an iteration either takes no job or takes one and
    does exactly what the verdict on it says: a job whose deadline has passed
    is counted as expired, told "Request timed out in queue" and never
    synthesised; a failure is told "Inference failed: " and the cause; a result
    is delivered only when the deadline has not passed after synthesis.  The
    active counter is restored and no exception leaves the loop, even when
    the backend and the callbacks throw. *)
Theorem worker_iteration_verdict t r (Hrun : runs worker_iteration t r) :
  exists go, r = Ok go /\
    (foot t = foot_nil \/
     exists job now1 synth now2, go = true /\ foot t = job_foot job now1 synth now2).
Proof.
  apply iteration_post in Hrun as [[-> Hf]|[-> [Hf|(job & now1 & synth & now2 & Hf)]]].
  - exists false. auto.
  - exists true. auto.
  - exists true. split; [done|]. right. by exists job, now1, synth, now2.
Qed.

(** Submit() answers true exactly when it queued the job, with the caller's
    deadline or, when that is the epoch, the clock plus the default timeout; it
    throws nothing, and notifies after every push. *)
Theorem submit_correct cfg job tr r (Hrun : runs (submit cfg job) tr r) :
  exists ok, r = Ok ok /\
    observe (@accepted_of) tr =
      (if ok then
         [with_deadline job
            (if deadline job =? 0
             then zsum (readings tr) + request_timeout_seconds_ cfg * SEC else deadline job)]
       else []) /\
    readings tr = (if deadline job =? 0 then [zsum (readings tr)] else []) /\
    (ok = true -> exists tr', tr = tr' ++ [Ev Notify tt]).
Proof.
  unfold submit, plog in Hrun. destruct (deadline job =? 0) eqn:Hd.
  - runs_seq Hrun as now. runs_seq Hrun as pr. destruct pr.
    + destruct Hrun as [-> ->]. exists false. split_and!; try done. cbn. by rewrite Z.add_0_r.
    + runs_seq Hrun as u. destruct Hrun as [-> ->]. exists false. split_and!; try done.
      cbn. by rewrite Z.add_0_r.
    + runs_seq Hrun as u. destruct u, Hrun as [-> ->]. exists true. split; [done|].
      cbn. rewrite Z.add_0_r. split_and!; try done. intros _.
      eexists [_; _]. reflexivity.
  - runs_seq Hrun as pr. destruct pr.
    + destruct Hrun as [-> ->]. by exists false.
    + runs_seq Hrun as u. destruct Hrun as [-> ->]. by exists false.
    + runs_seq Hrun as u. destruct u, Hrun as [-> ->]. exists true. split; [done|].
      split_and!; [by destruct job|done|]. intros _. eexists [_]. reflexivity.
Qed.

(** ** Witnesses *)

Module PoolWitness.

Definition cfg : PoolConfig := mk_config 2 30.
Definition job (n : Z) : InferenceJob := mk_job request_init 0 (Some (2 * n)) (Some (2 * n + 1)).
(** The clock moves by 10; the backend succeeds and callbacks throw. *)
Definition o : oracle := mk_oracle 10 false (Ok result_init) (Exn (RuntimeError "callback")).
(** The backend fails. *)
Definition o_fail : oracle := mk_oracle 10 false (Exn (RuntimeError "boom")) (Ok tt).

Definition start : sys := sys_init (mk_pool [] true 0 0 false true 0).

Lemma start_reach : reach cfg start [].
Proof. constructor. reflexivity. Qed.

(** The worker waits; two jobs come in, the first is taken and is being
    synthesised, a third one fills the queue and a fourth is refused. *)
Definition busy_schedule : list label :=
  [LWorker o; LCall (CSubmit (job 1)); LClient 0 o; LClient 0 o; LClient 0 o; LWorker o;
   LWorker o; LWorker o; LWorker o] ++
  mjoin ((fun n => [LCall (CSubmit (job (Z.of_nat n))); LClient (n - 1) o; LClient (n - 1) o;
                    LClient (n - 1) o]) <$> [2; 3; 4]%nat).

Definition busy : sys * trace := default (start, []) (run_schedule cfg busy_schedule start).

Lemma busy_run : run_schedule cfg busy_schedule start = Some busy.
Proof. by vm_compute. Qed.

Lemma busy_reach : reach cfg busy.1 busy.2.
Proof.
  pose proof (run_schedule_reach_pair cfg busy_schedule start [] busy start_reach busy_run) as H.
  rewrite app_nil_l in H. exact H.
Qed.

Lemma cfg_depth : in_int (max_queue_depth_ cfg).
Proof. by split. Qed.

Lemma busy_callbacks : Forall has_callbacks (accepted busy.2).
Proof. vm_compute. repeat constructor; by eexists. Qed.

(** The same pool after shutdown() has closed it and notified. *)
Definition closed : sys * trace :=
  default busy (run_schedule cfg [LCall CShutdown; LClient 4 o; LClient 4 o] busy.1).

Lemma closed_run :
  run_schedule cfg [LCall CShutdown; LClient 4 o; LClient 4 o] busy.1 = Some closed.
Proof. by vm_compute. Qed.

Lemma closed_reach : reach cfg closed.1 (busy.2 ++ closed.2).
Proof. exact (run_schedule_reach_pair cfg _ busy.1 busy.2 closed busy_reach closed_run). Qed.

Lemma closed_settled : settled closed.1.
Proof. vm_compute. repeat constructor. Qed.

Lemma busy_settled : settled busy.1.
Proof. vm_compute. repeat constructor. Qed.

Lemma pool_fifo_exactly_once_witness :
  length (accepted busy.2) = 3%nat /\
  exists fin inflight,
    accepted busy.2 = fin ++ inflight ++ queue_ (shared busy.1) /\
    Forall2 answers fin (notices (worker_trace busy.2)) /\
    (length inflight <= 1)%nat /\ (worker busy.1 = Exited -> inflight = []).
Proof.
  split; [by vm_compute|].
  exact (pool_fifo_exactly_once cfg busy.1 busy.2 cfg_depth busy_reach busy_callbacks).
Defined.

Lemma pool_bounds_witness :
  active_ (shared busy.1) = 1 /\ 0 <= queue_size (shared busy.1) <= 2.
Proof.
  split; [by vm_compute|].
  exact (proj1 (pool_bounds cfg busy.1 busy.2 cfg_depth busy_reach)).
Defined.

Lemma pool_no_lost_wakeup_witness :
  (worker busy.1 = Exited /\ accepting_ (shared busy.1) = false /\ queue_ (shared busy.1) = []) \/
  exists y' tr', worker_step cfg o busy.1 = Some (y', tr').
Proof.
  refine (pool_no_lost_wakeup cfg busy.1 busy.2 o cfg_depth busy_reach busy_settled _).
  left. by vm_compute.
Defined.

Lemma pool_shutdown_drains_witness :
  let '(y', tr') := worker_alone cfg (replicate 30 o_fail) closed.1 in
  reach cfg y' ((busy.2 ++ closed.2) ++ tr') /\ worker y' = Exited /\ queue_ (shared y') = [] /\
  (Forall has_callbacks (accepted ((busy.2 ++ closed.2) ++ tr')) ->
   Forall2 answers (accepted ((busy.2 ++ closed.2) ++ tr'))
     (notices (worker_trace ((busy.2 ++ closed.2) ++ tr')))).
Proof.
  refine (pool_shutdown_drains cfg closed.1 (busy.2 ++ closed.2) (replicate 30 o_fail) cfg_depth
    closed_reach closed_settled _ _).
  - by vm_compute.
  - vm_compute. lia.
Defined.

(** A submission to the closed pool. *)
Definition late_schedule : list label := [LCall (CSubmit (job 9)); LClient 5 o; LClient 5 o].
Definition late : sys * trace := default busy (run_schedule cfg late_schedule closed.1).

Lemma late_run : run_schedule cfg late_schedule closed.1 = Some (late.1, late.2).
Proof. by vm_compute. Qed.

Lemma closed_accepting : accepting_ (shared closed.1) = false.
Proof. by vm_compute. Qed.

Lemma pool_closed_forever_witness :
  length late.2 = 2%nat /\ accepting_ (shared late.1) = false /\ accepted late.2 = [].
Proof.
  split; [by vm_compute|].
  exact (pool_closed_forever cfg closed.1 (busy.2 ++ closed.2) late_schedule late.1 late.2
    cfg_depth closed_reach closed_accepting late_run).
Defined.

(** A failing synthesis: the job is told why and the counter is restored. *)
Definition failing_iteration : list (event poolE) :=
  [Ev LockTake (Took (with_deadline (job 1) 100)); Ev Now 10; Ev (AddActive 1) tt;
   Ev (Synthesize request_init) (Exn (RuntimeError "boom"));
   Ev (PLog (mk_log err "InferencePool — inference failed: {}" [AStr "boom"])) tt;
   Ev (CallError 3 "Inference failed: boom") (Ok tt); Ev (AddActive (-1)) tt].

Lemma worker_iteration_verdict_witness :
  notices failing_iteration = [NError 3 "Inference failed: boom"] /\
  exists go, Ok true = Ok go /\
    (foot failing_iteration = foot_nil \/
     exists job now1 synth now2, go = true /\ foot failing_iteration = job_foot job now1 synth now2).
Proof.
  split; [reflexivity|].
  refine (worker_iteration_verdict failing_iteration (Ok true) _).
  answer (Took (with_deadline (job 1) 100)). answer 10. answer tt.
  answer (@Exn SynthesisResult (RuntimeError "boom")). answer tt. answer (Ok tt). answer tt.
  split; reflexivity.
Defined.

Lemma submit_correct_witness :
  let tr := [Ev Now 50; Ev (LockSubmit (with_deadline (job 1) (50 + 30 * SEC))) Pushed;
             Ev Notify tt] in
  exists ok, Ok true = Ok ok /\
    observe (@accepted_of) tr =
      (if ok then
         [with_deadline (job 1)
            (if deadline (job 1) =? 0
             then zsum (readings tr) + request_timeout_seconds_ cfg * SEC else deadline (job 1))]
       else []) /\
    readings tr = (if deadline (job 1) =? 0 then [zsum (readings tr)] else []) /\
    (ok = true -> exists tr', tr = tr' ++ [Ev Notify tt]).
Proof.
  intros tr. refine (submit_correct cfg (job 1) tr (Ok true) _).
  answer 50. answer Pushed. answer tt. split; reflexivity.
Defined.
End PoolWitness.
