(* ===== verification/PoolSpec.v ===== *)
(** * What the inference pool promises

    The contract of [InferencePool] as a small automaton: a bounded queue that
    is open or closed, and one job in the worker's hand, which is told its
    verdict once before the next job is taken.  [pool_refines_spec] shows that
    every execution of [Pool.reach] (methods and worker loop interleaved, one
    effect at a time) is an execution of the automaton; [Service] uses the
    automaton in the place of the pool. *)

From Stdlib Require Import ZArith Lia String SpecFloat.
From stdpp Require Import base tactics numbers list strings.
From S2P Require Import Prelude Effects Backend Pool.

#[local] Open Scope Z_scope.

(** ** The automaton *)

#[export] Instance spec_float_eq_dec : EqDecision spec_float.
Proof. solve_decision. Defined.
#[export] Instance request_eq_dec : EqDecision SynthesisRequest.
Proof. solve_decision. Defined.
#[export] Instance job_eq_dec : EqDecision InferenceJob.
Proof. solve_decision. Defined.

(** The hand holds the job and whether it has been answered. *)
Record pool_state := mk_pstate {
  ps_queue : list InferenceJob;
  ps_open : bool;
  ps_hand : option (InferenceJob * bool);
  ps_exited : bool;
}.

Definition pool_spec_init : pool_state := mk_pstate [] true None false.

Inductive pool_label :=
| PSubmit (job : InferenceJob) (r : push_result)
| PClose
| PTake (job : InferenceJob)
| PAnswer (n : notice)
| PExit.

(** An answer calls a callback of the job; an error has a message. *)
Definition may_answer (job : InferenceJob) (n : notice) : bool :=
  match n with
  | NError cb m => bool_decide (on_error job = Some cb) && negb (sempty m)
  | NSuccess cb _ => bool_decide (on_success job = Some cb)
  end.

Definition both_callbacks (job : InferenceJob) : bool :=
  match on_success job, on_error job with Some _, Some _ => true | _, _ => false end.

(** The job in hand is finished: answered, unless a callback is missing. *)
Definition hand_free (a : pool_state) : bool :=
  match ps_hand a with
  | None => true
  | Some (job, answered) => answered || negb (both_callbacks job)
  end.

Definition pool_spec_step (depth : Z) (l : pool_label) (a : pool_state) : option pool_state :=
  let size := Z.of_nat (length (ps_queue a)) in
  match l with
  | PSubmit job NotAccepting => if ps_open a then None else Some a
  | PSubmit job (Full n) =>
      if ps_open a && (depth <=? size) && (n =? size) then Some a else None
  | PSubmit job Pushed =>
      if ps_open a && (size <? depth) then
        Some (mk_pstate (ps_queue a ++ [job]) true (ps_hand a) (ps_exited a))
      else None
  | PClose => Some (mk_pstate (ps_queue a) false (ps_hand a) (ps_exited a))
  | PTake job =>
      match ps_queue a with
      | head :: rest =>
          if bool_decide (head = job) && hand_free a && negb (ps_exited a) then
            Some (mk_pstate rest (ps_open a) (Some (job, false)) (ps_exited a))
          else None
      | [] => None
      end
  | PAnswer n =>
      match ps_hand a with
      | Some (job, false) =>
          if may_answer job n && negb (ps_exited a) then
            Some (mk_pstate (ps_queue a) (ps_open a) (Some (job, true)) (ps_exited a))
          else None
      | _ => None
      end
  | PExit =>
      if negb (ps_open a) && bool_decide (ps_queue a = []) && hand_free a then
        Some (mk_pstate (ps_queue a) (ps_open a) (ps_hand a) true)
      else None
  end.

Fixpoint pool_spec_run (depth : Z) (ls : list pool_label) (a : pool_state) : option pool_state :=
  match ls with
  | [] => Some a
  | l :: ls' => a' ← pool_spec_step depth l a; pool_spec_run depth ls' a'
  end.

(** ** The labels of a trace *)

Definition pool_label_of {X} (e : poolE X) : X -> option pool_label :=
  match e in poolE X return X -> option pool_label with
  | LockSubmit job => fun r => Some (PSubmit job r)
  | LockClose => fun _ => Some PClose
  | LockTake => fun r =>
      match r with Took job => Some (PTake job) | Shutdown => Some PExit | Blocked => None end
  | CallError cb m => fun _ => Some (PAnswer (NError cb m))
  | CallSuccess cb r => fun _ => Some (PAnswer (NSuccess cb r))
  | _ => fun _ => None
  end.

Definition pool_labels (tr : trace) : list pool_label :=
  observe (@pool_label_of) (snd <$> tr).

(** ** Lemmas *)

Lemma pool_labels_app t1 t2 : pool_labels (t1 ++ t2) = pool_labels t1 ++ pool_labels t2.
Proof. unfold pool_labels. by rewrite fmap_app, observe_app. Qed.

Lemma pool_labels_one b X (e : poolE X) x :
  pool_labels [(b, Ev e x)] = option_list (pool_label_of e x).
Proof. cbn. by destruct (pool_label_of e x). Qed.

Lemma pool_spec_run_app depth l1 l2 a :
  pool_spec_run depth (l1 ++ l2) a = a' ← pool_spec_run depth l1 a; pool_spec_run depth l2 a'.
Proof.
  revert a. induction l1 as [|l l1 IH]; intros a; [done|]. cbn.
  destruct (pool_spec_step depth l a); [apply IH|done].
Qed.

Lemma pool_spec_run_label depth o a :
  pool_spec_run depth (option_list o) a =
  match o with Some l => pool_spec_step depth l a | None => Some a end.
Proof.
  destruct o as [l|]; [|done]. change (option_list (Some l)) with [l]. unfold pool_spec_run.
  by destruct (pool_spec_step depth l a).
Qed.

Lemma both_callbacks_spec job : both_callbacks job = true <-> has_callbacks job.
Proof.
  unfold both_callbacks, has_callbacks.
  destruct (on_success job), (on_error job); split; try done; by intros [[] []].
Qed.

Lemma verdict_may_answer job v n :
  verdict_notice job v = [n] -> v <> VError "" -> may_answer job n = true.
Proof.
  destruct v as [m|r]; cbn.
  - destruct (on_error job) as [cb|] eqn:He; [|done]. intros [= <-] Hm. cbn.
    rewrite bool_decide_true by done. by destruct m.
  - destruct (on_success job) as [cb|] eqn:Hs; [|done]. intros [= <-] _. cbn.
    by rewrite bool_decide_true.
Qed.

(** The hand of the automaton follows the current iteration of the worker. *)
Definition hand_rel (a : pool_state) (cur : list (event poolE)) : Prop :=
  match taken cur with
  | [] => hand_free a = true
  | job :: _ => ps_hand a = Some (job, negb (bool_decide (notices cur = [])))
  end.

Lemma hand_rel_ext a cur X (e : poolE X) x :
  hand_rel a cur -> taken_of e x = None -> notice_of e x = None -> hand_rel a (cur ++ [Ev e x]).
Proof.
  unfold hand_rel. rewrite taken_app, notices_app. unfold taken at 2, notices at 2. cbn.
  intros H -> ->. by rewrite !app_nil_r.
Qed.

(** A finished iteration leaves the hand free. *)
Lemma iteration_frees_hand a cur b :
  runs worker_iteration cur (Ok b) -> hand_rel a cur -> hand_free a = true.
Proof.
  intros H. unfold hand_rel, hand_free.
  apply iteration_post in H as [[_ Hf]|[_ [Hf|(job & n1 & sy & n2 & Hf)]]];
    [by injection Hf as -> _ _ _ _ _..|].
  assert (taken cur = [job] /\ notices cur = verdict_notice job (job_verdict job n1 sy n2)) as [-> ->].
  { unfold job_foot in Hf. by destruct (deadline job <=? n1); injection Hf as ? ? _ _ _ _. }
  intros ->. destruct (both_callbacks job) eqn:Hb; [|by rewrite orb_true_r].
  apply both_callbacks_spec, (has_callbacks_notice job (job_verdict job n1 sy n2)) in Hb as [n ->].
  done.
Qed.

(** An answer in an iteration is the first, and it is the job's own. *)
Lemma iteration_answer cur q X (e : poolE X) x n :
  steps worker_iteration (cur ++ [Ev e x]) q -> notice_of e x = Some n ->
  exists job, taken cur = [job] /\ notices cur = [] /\ may_answer job n = true.
Proof.
  intros H Hn. apply iteration_point in H as (_ & _ & _ & _ & H).
  rewrite taken_app, notices_app in H.
  assert (notices [Ev e x] = [n]) as Hn1 by (unfold notices; cbn; by rewrite Hn).
  assert (taken [Ev e x] = []) as Ht1 by (unfold taken; cbn; by destruct e).
  rewrite Hn1, Ht1, app_nil_r in H.
  destruct H as [[_ H]|(job & Ht & [H|(n' & v & H & Hv & Hne)])];
    [by apply app_nil in H as [_ ?]..|].
  exists job. split; [done|]. destruct (notices cur) as [|m l]; [|by destruct l].
  injection H as ->. split; [done|]. by eapply verdict_may_answer.
Qed.

Section Simulation.
Context (cfg : PoolConfig) (Hdepth : in_int (max_queue_depth_ cfg)).

Definition worker_at (w : worker_state) (cur : list (event poolE)) : Prop :=
  match w with
  | Running p =>
      steps worker_iteration cur p /\ match p with Vis _ _ => True | _ => False end
  | Exited => runs worker_iteration cur (Ok false)
  | Terminated => False
  end.

(** The simulation relation. *)
Record refines (y : sys) (a : pool_state) : Prop := mk_refines {
  ref_queue : ps_queue a = queue_ (shared y);
  ref_open : ps_open a = accepting_ (shared y);
  ref_exited : ps_exited a = has_exited (worker y);
  ref_hand : exists cur, worker_at (worker y) cur /\ hand_rel a cur;
}.

(** After the worker's call, in the middle or at the end of an iteration. *)
Lemma settle_hand a cur (q : prog poolE bool) :
  steps worker_iteration cur q -> hand_rel a cur ->
  exists cur', worker_at (settle q) cur' /\ hand_rel a cur'.
Proof.
  intros Hs Hh. pose proof (iteration_point _ _ Hs) as [Hq _].
  destruct q as [[|]|err|X e k]; cbn [settle]; [| |done|].
  - exists []. split; [split; [apply steps_refl|done]|].
    apply steps_ret in Hs. by eapply iteration_frees_hand.
  - exists cur. split; [by apply steps_ret|done].
  - exists cur. by split.
Qed.

Lemma submit_refines job s r s' a :
  Z.of_nat (length (queue_ s)) <= max_queue_depth_ cfg ->
  ps_queue a = queue_ s -> ps_open a = accepting_ s ->
  submit_locked cfg job s = (r, s') ->
  exists a', pool_spec_step (max_queue_depth_ cfg) (PSubmit job r) a = Some a' /\
    ps_queue a' = queue_ s' /\ ps_open a' = accepting_ s' /\ ps_hand a' = ps_hand a /\
    ps_exited a' = ps_exited a.
Proof.
  intros Hd Hq Ho. unfold submit_locked. rewrite (queue_size_exact cfg Hdepth) by done.
  destruct (accepting_ s) eqn:Ha; cbn [negb].
  - zcase; intros [= <- <-]; cbn; rewrite Ho, Hq.
    + exists a. rewrite (proj2 (Z.leb_le _ _)), Z.eqb_refl by lia. cbn. by rewrite Ho.
    + rewrite (proj2 (Z.ltb_lt _ _)) by lia. cbn. by eexists.
  - intros [= <- <-]. cbn. rewrite Ho. exists a. by rewrite Ho.
Qed.

Lemma client_refines i o y y' tr tr' a :
  Inv cfg y tr -> refines y a -> client_step cfg i o y = Some (y', tr') ->
  exists a', pool_spec_run (max_queue_depth_ cfg) (pool_labels tr') a = Some a' /\ refines y' a'.
Proof.
  intros HI [Hq Ho Hx Hh] Hstep. unfold client_step in Hstep.
  destruct (clients y !! i) as [[u|err|X e k]|] eqn:Hi; try done.
  destruct (perform cfg (has_exited (worker y)) o e (shared y)) as [[x s']|] eqn:Hp; [|done].
  injection Hstep as <- <-.
  destruct (Forall_lookup_1 _ _ _ _ (inv_clients _ _ _ HI) Hi) as (Heff & _).
  pose proof (inv_depth _ _ _ HI) as Hd.
  rewrite pool_labels_one.
  assert (Hsame : pool_label_of e x = None -> queue_ s' = queue_ (shared y) ->
    accepting_ s' = accepting_ (shared y) ->
    exists a', pool_spec_run (max_queue_depth_ cfg) (option_list (pool_label_of e x)) a = Some a' /\
      refines (mk_sys s' (worker y) (<[i:=k x]> (clients y))) a').
  { intros -> H1 H2. exists a. split; [done|]. by split; cbn [shared worker]; rewrite ?H1, ?H2. }
  destruct e; try discriminate Heff; cbn in Hp.
  2: { injection Hp as Hp.
       destruct (submit_refines _ _ _ _ _ Hd Hq Ho Hp) as (a' & Hs & Hq' & Ho' & Hh' & Hx').
       exists a'. split; [by rewrite pool_spec_run_label|].
       split; cbn [shared worker]; [done|done|by rewrite Hx'|].
       destruct Hh as (cur & Hw & Hr). exists cur. split; [done|].
       unfold hand_rel, hand_free in *. by rewrite Hh'. }
  2: { injection Hp as <- <-. eexists. split; [reflexivity|].
       split; cbn [shared worker ps_queue ps_open ps_exited]; [done|done|done|].
       destruct Hh as (cur & Hw & Hr). by exists cur. }
  5: { destruct (negb (has_exited (worker y))), (joinable (shared y)); try done; injection Hp as <- <-; by apply Hsame. }
  all: injection Hp as <- <-; by apply Hsame.
Qed.

(** The worker looks at the queue. *)
Lemma take_refines s x s' a :
  ps_queue a = queue_ s -> ps_open a = accepting_ s -> ps_exited a = false ->
  hand_free a = true -> take_locked s = (x, s') ->
  exists a', pool_spec_run (max_queue_depth_ cfg) (option_list (pool_label_of LockTake x)) a = Some a' /\
    ps_queue a' = queue_ s' /\ ps_open a' = accepting_ s' /\
    ps_exited a' = (match x with Shutdown => true | _ => false end) /\
    hand_rel a' [Ev LockTake x].
Proof.
  intros Hq Ho Hx Hh. unfold take_locked.
  destruct (accepting_ s) eqn:Ha, (queue_ s) as [|job q] eqn:Hqs; cbn; intros [= <- <-];
    rewrite pool_spec_run_label; cbn [pool_label_of pool_spec_step]; rewrite ?Ho, ?Hq, ?Hh, ?Hx;
    rewrite ?bool_decide_true by done; eexists; (split; [reflexivity|]); cbn;
    by rewrite ?Hq, ?Ho, ?Hx.
Qed.

(** The worker leaves only when it was told to. *)
Lemma settle_exited cur X (e : poolE X) k x :
  steps worker_iteration cur (Vis e k) -> last_take [Ev e x] <> Some Shutdown ->
  has_exited (settle (k x)) = false.
Proof.
  intros Hs Hne. apply (steps_snoc _ _ _ _ _ x) in Hs.
  destruct (k x) as [[|]|err|Y e' k']; try done.
  apply steps_ret, iteration_exit in Hs. by rewrite last_take_snoc in Hs.
Qed.

Lemma worker_refines o y y' tr tr' a :
  Inv cfg y tr -> refines y a -> worker_step cfg o y = Some (y', tr') ->
  exists a', pool_spec_run (max_queue_depth_ cfg) (pool_labels tr') a = Some a' /\ refines y' a'.
Proof.
  intros HI [Hq Ho Hx (cur & Hw & Hh)] Hstep.
  destruct (worker y) as [p| |] eqn:Hwy; [|by unfold worker_step in Hstep; rewrite Hwy in Hstep..].
  destruct Hw as [Hs Hvis]. pose proof (iteration_point _ _ Hs) as [Heff _].
  unfold worker_step in Hstep. rewrite Hwy in Hstep. cbn in Hx.
  destruct (iteration_tail _ _ Hs) as [[-> ->]|[_ Hnt]].
  - destruct worker_iteration_eq as (k & Heq & Hk & Hk2).
    assert (Hs1 : forall x, steps worker_iteration [Ev LockTake x] (k x)).
    { intros x. apply (steps_snoc worker_iteration [] _ LockTake k x). rewrite <- Heq.
      apply steps_refl. }
    rewrite Heq in Hstep. cbn [perform] in Hstep.
    destruct (take_locked (shared y)) as [x s'] eqn:Ht. injection Hstep as <- <-.
    destruct (take_refines _ _ _ a Hq Ho Hx Hh Ht) as (a' & Hrun & Hq' & Ho' & Hx' & Hh').
    exists a'. rewrite pool_labels_one. split; [exact Hrun|].
    split; cbn [shared worker]; [done|done| |by apply (settle_hand _ [Ev LockTake x])].
    rewrite Hx'. destruct x; [|by rewrite Hk|]; symmetry;
      (apply (settle_exited [] _ LockTake); [rewrite <- Heq; apply steps_refl|done]).
  - destruct p as [b|err|X e k]; [done..|].
    destruct (perform cfg false o e (shared y)) as [[x s']|] eqn:Hp; [|done].
    injection Hstep as <- <-. rewrite pool_labels_one.
    destruct Hnt as [Hnt _]. 
    assert (Hexit : has_exited (settle (k x)) = false).
    { eapply settle_exited; [exact Hs|]. by destruct e. }
    apply (steps_snoc _ _ _ _ _ x) in Hs.
    destruct (perform_worker _ _ _ _ _ _ _ _ Heff Hp) as (Hq' & Ho' & _).
    rewrite (no_take_taken e x Hnt) in Hq'. cbn in Hq'.
    destruct (notice_of e x) as [n|] eqn:Hn.
    + destruct (iteration_answer _ _ _ _ _ _ Hs Hn) as (job & Htk & Hnil & Hmay).
      assert (pool_label_of e x = Some (PAnswer n)) as ->
        by (destruct e; try discriminate Hn; by injection Hn as <-).
      unfold hand_rel in Hh. rewrite Htk, Hnil, bool_decide_true in Hh by done. cbn in Hh.
      rewrite pool_spec_run_label. cbn [pool_spec_step]. rewrite Hh, Hmay, Hx. cbn [negb andb].
      eexists. split; [reflexivity|].
      split; cbn [shared worker ps_queue ps_open ps_exited];
        [congruence|congruence|by rewrite Hexit|].
      eapply settle_hand; [exact Hs|]. unfold hand_rel. rewrite taken_app, notices_app, Htk, Hnil.
      cbn [app ps_hand]. unfold notices. cbn. by rewrite Hn.
    + assert (pool_label_of e x = None) as ->
        by (destruct e; try done; discriminate Heff).
      exists a. rewrite pool_spec_run_label. split; [done|].
      split; cbn [shared worker]; [congruence|congruence|by rewrite Hexit|].
      eapply settle_hand; [exact Hs|]. by apply hand_rel_ext; [|apply no_take_taken|].
Qed.

Lemma reach_refines y tr :
  reach cfg y tr ->
  exists a, pool_spec_run (max_queue_depth_ cfg) (pool_labels tr) pool_spec_init = Some a /\ refines y a.
Proof.
  induction 1 as [s Hs|y tr l y' tr' Hr (a & Hrun & Href) Hstep].
  - exists pool_spec_init. split; [done|]. unfold pool_create in Hs. cbn [negb] in Hs.
    repeat (zcase_in Hs; [done|]). injection Hs as _ <-.
    split; [done..|]. exists []. split; [|done]. split; [apply steps_refl|done].
  - rewrite pool_labels_app, pool_spec_run_app, Hrun. cbn [mbind option_bind].
    apply (reach_inv cfg Hdepth) in Hr.
    destruct l as [c|o|i o]; cbn in Hstep.
    + injection Hstep as <- <-. exists a. split; [done|]. by destruct Href.
    + by eapply worker_refines.
    + by eapply client_refines.
Qed.
End Simulation.

(** ** Property *)

(** C10: refinement: every interleaving of the pool's methods, called by any
    number of threads, with its worker loop is an execution of the automaton:
    submissions are accepted exactly while it is open and has room, jobs are
    taken in order, each job in hand is told one verdict through its own
    callback before the next job is taken, and the worker leaves only when the
    pool is closed and empty.  Queue, open flag and exit agree. *)
Theorem pool_refines_spec cfg y tr
    (Hdepth : in_int (max_queue_depth_ cfg)) (Hreach : reach cfg y tr) :
  exists a, pool_spec_run (max_queue_depth_ cfg) (pool_labels tr) pool_spec_init = Some a /\
    ps_queue a = queue_ (shared y) /\ ps_open a = accepting_ (shared y) /\
    ps_exited a = has_exited (worker y).
Proof.
  destruct (reach_refines cfg Hdepth y tr Hreach) as (a & Hrun & []). by exists a.
Qed.

(** ** Witness *)

Module PoolSpecWitness.
Import PoolWitness.

Lemma pool_refines_spec_witness :
  length (pool_labels busy.2) = 5%nat /\
  exists a, pool_spec_run 2 (pool_labels busy.2) pool_spec_init = Some a /\
    ps_queue a = queue_ (shared busy.1) /\ ps_open a = accepting_ (shared busy.1) /\
    ps_exited a = has_exited (worker busy.1).
Proof.
  split; [by vm_compute|].
  exact (pool_refines_spec cfg busy.1 busy.2 cfg_depth busy_reach).
Defined.
End PoolSpecWitness.
