(* ===== verification/PoolServe.v ===== *)
(** * The worker serves the queue

    [Pool.pool_shutdown_drains] is about a closed pool; here the pool may be
    open.  Once every notification is out, the worker alone answers every
    accepted job within nine steps per queued job and nine more, and then stays
    at rest: spurious wake-ups change nothing. *)

From Stdlib Require Import ZArith Lia String SpecFloat.
From stdpp Require Import base tactics numbers list strings.
From S2P Require Import Prelude Effects Backend Pool.

#[local] Open Scope Z_scope.

(** ** Rest *)

(** The worker looks at the queue, or waits for a job, or has left. *)
Definition at_rest (w : worker_state) : Prop :=
  match w with
  | Running p => p = worker_iteration \/ at_block p = true
  | Exited => True
  | Terminated => False
  end.

Definition all_served (y : sys) : Prop := queue_ (shared y) = [] /\ at_rest (worker y).

(** Steps left: nine for each queued job, and what is left of the current
    iteration. *)
Definition serve_potential (w : worker_state) (len m : nat) : Prop :=
  match w with
  | Exited => True
  | Terminated => False
  | Running p =>
      (p = worker_iteration /\ (9 * len <= m)%nat) \/
      (exists n, within n p /\ no_take p /\ (n + 9 * len <= m)%nat)
  end.

(** ** Lemmas *)

Lemma waiting_no_job t q :
  steps worker_iteration t q -> at_block q = true -> taken t = [] /\ notices t = [].
Proof.
  intros H Hb. unfold worker_iteration, run_inference, try_synthesize, report_error,
    report_success, call, plog in H.
  steps_inv H.
  all: try discriminate Hb; done.
Qed.

(** A wait that ends starts a new iteration. *)
Lemma waiting_wakes t q :
  steps worker_iteration t q -> at_block q = true -> exists k, q = Vis CvBlock k /\ k tt = Ret true.
Proof.
  intros H Hb. unfold worker_iteration, run_inference, try_synthesize, report_error,
    report_success, call, plog in H.
  steps_inv H.
  all: try discriminate Hb. eexists. split; reflexivity.
Qed.

Lemma worker_iteration_takes : no_take worker_iteration -> False.
Proof. intros [H _]. discriminate H. Qed.

Lemma rest_no_job p cur :
  steps worker_iteration cur p -> p = worker_iteration \/ at_block p = true ->
  taken cur = [] /\ notices cur = [].
Proof.
  intros Hs [->|Hb]; [|by eapply waiting_no_job].
  apply iteration_tail in Hs as [[-> _]|[_ []%worker_iteration_takes]]. done.
Qed.

Lemma settle_running t X (e : poolE X) k x :
  steps worker_iteration t (Vis e k) -> settle (k x) <> Terminated.
Proof.
  intros H. apply (steps_snoc _ _ _ _ _ x), iteration_point in H as [Hv _].
  by destruct (k x) as [[]|err|Y e' k'].
Qed.

Lemma settle_serve p n len m :
  within n p -> no_take p -> settle p <> Terminated -> (n + 9 * len <= m)%nat ->
  serve_potential (settle p) len m.
Proof.
  intros Hw Hn Ht Hm. destruct p as [[|]|err|X e k]; cbn; [left; split; [done|lia]|done|done|].
  right. by exists n.
Qed.

Section Serve.
Context (cfg : PoolConfig) (Hdepth : in_int (max_queue_depth_ cfg)).

(** At rest with an empty queue, a step of the worker leaves it so. *)
Lemma served_step o y tr y' tr' :
  Inv cfg y tr -> all_served y -> worker_step cfg o y = Some (y', tr') -> all_served y'.
Proof.
  intros HI [Hq Hr] Hstep. unfold worker_step in Hstep.
  destruct (inv_worker _ _ _ HI) as (its & cur & _ & _ & Hcur).
  destruct (worker y) as [p| |] eqn:Hwy; [|done|done]. destruct Hcur as [Hcur _].
  destruct Hr as [->|Hb].
  - cbn in Hstep. unfold take_locked in Hstep. rewrite Hq in Hstep.
    destruct (accepting_ (shared y)); cbn in Hstep; injection Hstep as <- _;
      (split; [done|]); [by right|done].
  - destruct (waiting_wakes _ _ Hcur Hb) as (k & -> & Hk). cbn in Hstep.
    destruct (waiting (shared y) && negb (o_spurious o)); [done|]. injection Hstep as <- _.
    split; [done|]. cbn [worker]. rewrite Hk. by left.
Qed.

(** Otherwise it can move, and gets closer to it. *)
Lemma serve_step o y tr m :
  Inv cfg y tr -> settled y -> serve_potential (worker y) (length (queue_ (shared y))) m ->
  all_served y \/
  exists y' tr' m', worker_step cfg o y = Some (y', tr') /\ m = S m' /\ settled y' /\
    serve_potential (worker y') (length (queue_ (shared y'))) m'.
Proof.
  intros HI Hset Hpot. unfold worker_step.
  destruct (worker y) as [p| |] eqn:Hwy; [| |done].
  2: { left. split; [by apply (inv_exit _ _ _ HI)|]. by rewrite Hwy. }
  destruct (inv_worker _ _ _ HI) as (its & cur & _ & _ & Hcur). rewrite Hwy in Hcur.
  destruct Hcur as [Hcur Hvis]. destruct Hpot as [[-> Hm]|(n & Hn & Hnt & Hm)].
  - destruct (queue_ (shared y)) as [|job q] eqn:Hq.
    { left. split; [done|]. rewrite Hwy. by left. }
    right. destruct worker_iteration_eq as (k & Heq & _ & Hk). rewrite Heq.
    destruct (Hk (Took job)) as [Hkw Hkn]. cbn [perform]. unfold take_locked. rewrite Hq.
    destruct m as [|m]; [cbn in Hm; lia|]. rewrite andb_false_r.
    rewrite orb_true_r. cbn [negb mbind option_bind].
    eexists _, _, m. split; [reflexivity|]. split; [done|]. split; [exact Hset|].
    cbn [worker shared queue_]. apply (settle_serve _ 8); [done|done| |cbn in Hm; lia].
    apply (settle_running [] _ LockTake). rewrite <- Heq. apply steps_refl.
  - destruct p as [b|err|X e k]; [done|done|].
    destruct (iteration_point _ _ Hcur) as [Heff _].
    destruct (decide (queue_ (shared y) = [] /\ at_block (Vis e k) = true)) as [[Hq Hb]|Hbusy].
    { left. split; [done|]. rewrite Hwy. by right. }
    right. destruct (perform_progress cfg o X e (shared y) Heff) as (x & s' & Hp).
    { destruct (waiting (shared y)) eqn:Hwait; [|by right]. left.
      destruct (inv_wake _ _ _ HI Hwait) as [(p & Hwp & Hpb) [[_ Hq]|Hex]].
      - exfalso. apply Hbusy. split; [done|]. rewrite Hwy in Hwp. by injection Hwp as ->.
      - apply Exists_exists in Hex as (q & Hq & Hnot).
        apply (proj1 (Forall_forall _ _) Hset) in Hq. congruence. }
    rewrite Hp. destruct n as [|n]; [done|]. destruct m as [|m]; [lia|].
    exists (mk_sys s' (settle (k x)) (clients y)). eexists _, m. split; [reflexivity|].
    split; [done|]. split; [exact Hset|]. cbn [worker shared].
    destruct (perform_worker _ _ _ _ _ _ _ _ Heff Hp) as (Hq & _).
    destruct Hnt as [Hnt Hk]. rewrite (no_take_taken e x Hnt) in Hq. cbn in Hq. rewrite <- Hq.
    apply (settle_serve _ n); [apply Hn|apply Hk| |lia]. by eapply settle_running.
Qed.

Lemma serve os y tr m :
  reach cfg y tr -> settled y -> serve_potential (worker y) (length (queue_ (shared y))) m ->
  (m <= length os)%nat ->
  reach cfg (worker_alone cfg os y).1 (tr ++ (worker_alone cfg os y).2) /\
  all_served (worker_alone cfg os y).1.
Proof.
  assert (Hkeep : forall os y tr, reach cfg y tr -> all_served y ->
    reach cfg (worker_alone cfg os y).1 (tr ++ (worker_alone cfg os y).2) /\
    all_served (worker_alone cfg os y).1).
  { clear -Hdepth. induction os as [|o os IH]; intros y tr Hr Hs; cbn [worker_alone];
      [by rewrite app_nil_r|].
    destruct (worker_step cfg o y) as [[y1 t1]|] eqn:Hstep; [|by rewrite app_nil_r].
    assert (reach cfg y1 (tr ++ t1)) as Hr1 by by apply (reach_step cfg y tr (LWorker o)).
    destruct (IH y1 (tr ++ t1) Hr1) as [IHr IHs].
    { by apply (served_step o y tr y1 t1); [apply reach_inv|..]. }
    destruct (worker_alone cfg os y1) as [y2 t2]. cbn [fst snd] in *. by rewrite app_assoc. }
  revert y tr m. induction os as [|o os IH]; intros y tr m Hr Hset Hpot Hm.
  - destruct (serve_step (mk_oracle 0 false (Ok result_init) (Ok tt)) y tr m) as
      [Hs|(y1 & t1 & m1 & _ & -> & _)]; [by apply reach_inv|done|done| |cbn in Hm; lia].
    by apply Hkeep.
  - destruct (serve_step o y tr m) as [Hs|(y1 & t1 & m1 & Hstep & -> & Hset1 & Hpot1)];
      [by apply reach_inv|done|done|by apply Hkeep|].
    destruct (IH y1 (tr ++ t1) m1) as [IHr IHs]; [|done|done|cbn in Hm; lia|].
    { by apply (reach_step cfg y tr (LWorker o)). }
    cbn [worker_alone]. rewrite Hstep. destruct (worker_alone cfg os y1) as [y2 t2].
    cbn [fst snd] in *. by rewrite app_assoc.
Qed.

Lemma drain_bound_serve y tr :
  reach cfg y tr -> serve_potential (worker y) (length (queue_ (shared y))) (drain_bound y).
Proof.
  intros Hr%reach_inv; [|done]. destruct (inv_worker _ _ _ Hr) as (its & cur & _ & _ & Hcur).
  destruct (worker y) as [p| |]; [|done|done]. destruct Hcur as [Hcur _]. unfold drain_bound.
  apply iteration_tail in Hcur as [[_ ->]|[Hw Hn]]; cbn [serve_potential].
  - left. split; [done|lia].
  - right. exists 8%nat. split_and!; [done|done|lia].
Qed.

(** At rest with an empty queue, every accepted job has been answered. *)
Lemma served_answered y tr :
  reach cfg y tr -> all_served y -> Forall has_callbacks (accepted tr) ->
  Forall2 answers (accepted tr) (notices (worker_trace tr)).
Proof.
  intros Hr%reach_inv [Hq Hrest] Hcb; [|done].
  rewrite (inv_fifo _ _ _ Hr), Hq, app_nil_r in Hcb |- *.
  destruct (inv_worker _ _ _ Hr) as (its & cur & Htr & Hits & Hcur). rewrite Htr in Hcb |- *.
  destruct (iterations_done _ Hits) as [_ Hans].
  assert (taken cur = [] /\ notices cur = []) as [Ht Hn].
  { destruct (worker y) as [p| |]; [|clear Hq|done].
    - eapply rest_no_job; [apply Hcur|done].
    - apply iteration_post in Hcur as [[_ Hf]|[[=] _]]. by injection Hf as -> -> _ _ _ _. }
  rewrite taken_app, Ht, app_nil_r in Hcb. rewrite taken_app, notices_app, Ht, Hn, !app_nil_r.
  by apply Hans.
Qed.
End Serve.

(** ** Property *)

(** The worker serves the queue: from any state in which every notification
    is out, whether the pool is open or closed, the worker alone answers every
    accepted job within nine steps per queued job and nine more, whatever the
    backend, the callbacks and the clock do and however often it wakes up
    spuriously; then the queue is empty and it is at rest. *)
Theorem pool_serves_queue cfg y tr os
    (Hdepth : in_int (max_queue_depth_ cfg)) (Hreach : reach cfg y tr) (Hsettled : settled y)
    (Hfuel : (drain_bound y <= length os)%nat) :
  let '(y', tr') := worker_alone cfg os y in
  reach cfg y' (tr ++ tr') /\ all_served y' /\
  (Forall has_callbacks (accepted (tr ++ tr')) ->
   Forall2 answers (accepted (tr ++ tr')) (notices (worker_trace (tr ++ tr')))).
Proof.
  destruct (serve cfg Hdepth os y tr _ Hreach Hsettled (drain_bound_serve cfg Hdepth y tr Hreach)
    Hfuel) as [Hr Hs].
  destruct (worker_alone cfg os y) as [y' tr']. split; [done|]. split; [done|].
  by eapply served_answered.
Qed.

Module PoolServeWitness.
Import PoolWitness.

(** An open pool with queued jobs, and a worker that also wakes up
    spuriously. *)
Definition restless : oracle := mk_oracle 10 true (Ok result_init) (Ok tt).
Definition patience : list oracle := List.repeat restless (drain_bound busy.1).

Lemma pool_serves_queue_witness :
  accepting_ (shared busy.1) = true /\
  let '(y', tr') := worker_alone cfg patience busy.1 in
  reach cfg y' (busy.2 ++ tr') /\ all_served y' /\
  (Forall has_callbacks (accepted (busy.2 ++ tr')) ->
   Forall2 answers (accepted (busy.2 ++ tr')) (notices (worker_trace (busy.2 ++ tr')))).
Proof.
  split; [by vm_compute|].
  refine (pool_serves_queue cfg busy.1 busy.2 patience cfg_depth busy_reach busy_settled _).
  by vm_compute.
Defined.
End PoolServeWitness.
