(* ===== verification/Config.v ===== *)
(** * Configuration

    [ServerConfig] of [src/config/config.hpp] and [src/config/config.cpp]:
    defaults, then the TOML file, then the environment, then [validate()].

    The environment is a function from names to values.  The TOML library is
    outside the repository: a parsed table is the record [TomlTable] of the
    typed look-ups the code makes, and the parser an effect.  Log lines are
    returned beside the values ([logged]). *)

From Stdlib Require Import ZArith Lia Ascii String.
From stdpp Require Import base tactics numbers list strings pretty.
From S2P Require Import Prelude Effects.

#[local] Open Scope Z_scope.

(** ** Values with log lines *)

Definition logged (A : Type) : Type := A * list log_record.

#[export] Instance logged_ret : MRet logged := fun A a => (a, []).
#[export] Instance logged_bind : MBind logged :=
  fun A B f m => let r := f m.1 in (r.1, m.2 ++ r.2).

(** ** Integer parsing *)

(** [std::stoi] of the C++ library, base 10: white space, a sign, digits; the
    value and the number of characters used. *)
Definition is_digit (c : ascii) : bool := (48 <=? byte_of c) && (byte_of c <=? 57).

Fixpoint skip_space (s : string) : nat * string :=
  match s with
  | String c s' => if isspace c then let '(n, r) := skip_space s' in (S n, r) else (0%nat, s)
  | EmptyString => (0%nat, EmptyString)
  end.

Fixpoint digits (acc : Z) (s : string) : Z * nat :=
  match s with
  | String c s' =>
      if is_digit c then let '(v, n) := digits (10 * acc + (byte_of c - 48)) s' in (v, S n)
      else (acc, 0%nat)
  | EmptyString => (acc, 0%nat)
  end.

Definition stoi_sign (s : string) : bool * nat * string :=
  match s with
  | String c s' =>
      if Ascii.eqb c "-" then (true, 1%nat, s')
      else if Ascii.eqb c "+" then (false, 1%nat, s')
      else (false, 0%nat, s)
  | EmptyString => (false, 0%nat, s)
  end.

Definition stoi (s : string) : res (Z * nat) :=
  let '(sp, s1) := skip_space s in
  let '(neg, sg, s2) := stoi_sign s1 in
  let '(v, n) := digits 0 s2 in
  if (n =? 0)%nat then Exn (InvalidArgument "stoi")
  else
    let value := if neg then - v else v in
    if (INT_MIN <=? value) && (value <=? INT_MAX) then Ok (value, (sp + sg + n)%nat)
    else Exn (OutOfRange "stoi").

Definition bad_integer (str : string) (default_val : Z) : logged Z :=
  (default_val,
   [mk_log warn "Invalid integer value '{}', using default {}" [AStr str; AInt default_val]]).

(** [None] is a null pointer. *)
Definition safe_atoi (str : option string) (default_val : Z) : logged Z :=
  match str with
  | None | Some EmptyString => (default_val, [])
  | Some s =>
      match stoi s with
      | Ok (result, pos) =>
          if negb (pos =? String.length s)%nat then bad_integer s default_val else (result, [])
      | Exn _ => bad_integer s default_val
      end
  end.

Definition safe_narrow (val : Z) (name : string) (default_val : Z) : logged Z :=
  if (val <? INT_MIN) || (INT_MAX <? val) then
    (default_val,
     [mk_log warn "TOML value for '{}' ({}) overflows int range, using default {}"
        [AStr name; AInt val; AInt default_val]])
  else (val, []).

Definition parse_bool (str : option string) : bool :=
  match str with
  | None => false
  | Some s => String.eqb s "true" || String.eqb s "1"
  end.

(** ** The configuration *)

Record ServerConfig := mk_server_config {
  host : string;
  port : Z;
  max_connections : Z;
  model_path : string;
  default_voice : string;
  max_queue_depth : Z;
  workers : Z;
  max_input_chars : Z;
  request_timeout_seconds : Z;
  api_key : string;
  require_auth : bool;
  auth_rate_limit_max : Z;
  auth_rate_limit_window : Z;
  request_rate_limit_rpm : Z;
  trust_proxy : bool;
  trusted_proxy_hops : Z;
  cfg_log_level : string;
  cfg_log_format : string;
  config_path : string;
}.

Definition config_init : ServerConfig :=
  mk_server_config "0.0.0.0" 9090 100 "" "neutral_female" 10 1 4096 300 "" false 10 60 10 false 1
    "info" "text" "config/server.toml".

(** ** Environment *)

Definition environment := string -> option string.

(** The three forms of [if (auto* v = std::getenv(name)) field = ...]. *)
Definition env_string (env : environment) (name : string) (cur : string) : logged string :=
  (default cur (env name), []).
Definition env_int (env : environment) (name : string) (cur : Z) : logged Z :=
  match env name with Some v => safe_atoi (Some v) cur | None => mret cur end.
Definition env_bool (env : environment) (name : string) (cur : bool) : logged bool :=
  match env name with Some v => mret (parse_bool (Some v)) | None => mret cur end.

Definition apply_env_overrides (env : environment) (cfg : ServerConfig) : logged ServerConfig :=
  host' ← env_string env "TTS_HOST" (host cfg);
  port' ← env_int env "TTS_PORT" (port cfg);
  max_connections' ← env_int env "TTS_MAX_CONNECTIONS" (max_connections cfg);
  model_path' ← env_string env "TTS_MODEL_PATH" (model_path cfg);
  default_voice' ← env_string env "TTS_DEFAULT_VOICE" (default_voice cfg);
  max_queue_depth' ← env_int env "TTS_MAX_QUEUE_DEPTH" (max_queue_depth cfg);
  workers' ← env_int env "TTS_WORKERS" (workers cfg);
  max_input_chars' ← env_int env "TTS_MAX_INPUT_CHARS" (max_input_chars cfg);
  timeout' ← env_int env "TTS_REQUEST_TIMEOUT" (request_timeout_seconds cfg);
  api_key' ← env_string env "TTS_API_KEY" (api_key cfg);
  require_auth' ← env_bool env "TTS_REQUIRE_AUTH" (require_auth cfg);
  auth_max' ← env_int env "TTS_AUTH_RATE_LIMIT_MAX" (auth_rate_limit_max cfg);
  auth_window' ← env_int env "TTS_AUTH_RATE_LIMIT_WINDOW" (auth_rate_limit_window cfg);
  rpm' ← env_int env "TTS_RATE_LIMIT_RPM" (request_rate_limit_rpm cfg);
  trust_proxy' ← env_bool env "TTS_TRUST_PROXY" (trust_proxy cfg);
  hops' ← env_int env "TTS_TRUSTED_PROXY_HOPS" (trusted_proxy_hops cfg);
  log_level' ← env_string env "TTS_LOG_LEVEL" (cfg_log_level cfg);
  log_format' ← env_string env "TTS_LOG_FORMAT" (cfg_log_format cfg);
  config_path' ← env_string env "TTS_CONFIG_PATH" (config_path cfg);
  mret (mk_server_config host' port' max_connections' model_path' default_voice' max_queue_depth'
          workers' max_input_chars' timeout' api_key' require_auth' auth_max' auth_window' rpm'
          trust_proxy' hops' log_level' log_format' config_path').

Definition from_env (env : environment) : logged ServerConfig :=
  apply_env_overrides env config_init.

(** ** TOML file *)

(** [tbl[section][key].value<T>()] for the three types used. *)
Record TomlTable := mk_toml {
  toml_string : string -> string -> option string;
  toml_int : string -> string -> option Z;
  toml_bool : string -> string -> option bool;
}.

Definition file_string (tbl : TomlTable) (section key : string) (cur : string) : logged string :=
  mret (default cur (toml_string tbl section key)).
Definition file_bool (tbl : TomlTable) (section key : string) (cur : bool) : logged bool :=
  mret (default cur (toml_bool tbl section key)).
Definition file_int (tbl : TomlTable) (section key : string) (cur : Z) : logged Z :=
  match toml_int tbl section key with
  | Some v => safe_narrow v (section +:+ "." +:+ key) cur
  | None => mret cur
  end.

(** The body of the [try] block. *)
Definition apply_table (tbl : TomlTable) (cfg : ServerConfig) : logged ServerConfig :=
  host' ← file_string tbl "server" "host" (host cfg);
  port' ← file_int tbl "server" "port" (port cfg);
  max_connections' ← file_int tbl "server" "max_connections" (max_connections cfg);
  model_path' ← file_string tbl "model" "path" (model_path cfg);
  default_voice' ← file_string tbl "model" "default_voice" (default_voice cfg);
  max_queue_depth' ← file_int tbl "inference" "max_queue_depth" (max_queue_depth cfg);
  workers' ← file_int tbl "inference" "workers" (workers cfg);
  max_input_chars' ← file_int tbl "inference" "max_input_chars" (max_input_chars cfg);
  timeout' ← file_int tbl "inference" "request_timeout_seconds" (request_timeout_seconds cfg);
  require_auth' ← file_bool tbl "auth" "require_auth" (require_auth cfg);
  auth_max' ← file_int tbl "auth" "rate_limit_max" (auth_rate_limit_max cfg);
  auth_window' ← file_int tbl "auth" "rate_limit_window" (auth_rate_limit_window cfg);
  rpm' ← file_int tbl "auth" "request_rate_limit_rpm" (request_rate_limit_rpm cfg);
  trust_proxy' ← file_bool tbl "auth" "trust_proxy" (trust_proxy cfg);
  hops' ← file_int tbl "auth" "trusted_proxy_hops" (trusted_proxy_hops cfg);
  log_level' ← file_string tbl "logging" "level" (cfg_log_level cfg);
  log_format' ← file_string tbl "logging" "format" (cfg_log_format cfg);
  mret (mk_server_config host' port' max_connections' model_path' default_voice' max_queue_depth'
          workers' max_input_chars' timeout' (api_key cfg) require_auth' auth_max' auth_window'
          rpm' trust_proxy' hops' log_level' log_format' (config_path cfg)).

(** [std::filesystem::exists] may throw; [toml::parse_file] answers a table or
    the description of a parse error. *)
Variant configE : Type -> Type :=
| Exists (path : string) : configE (res bool)
| ParseFile (path : string) : configE (string + TomlTable)
| CLog (l : log_record) : configE unit.

Definition emit (logs : list log_record) : prog configE unit :=
  fold_right (fun l p => _ ← trigger (CLog l); p) (mret tt) logs.
Definition clog (lvl : log_level) (fmt : string) (args : list log_arg) : prog configE unit :=
  trigger (CLog (mk_log lvl fmt args)).

(** The defaults with the table of the file, when there is one. *)
Definition load_file (path : string) (cfg : ServerConfig) : prog configE ServerConfig :=
  ex ← trigger (Exists path);
  ex ← of_res ex;
  if ex : bool then
    t ← trigger (ParseFile path);
    match t with
    | inr tbl =>
        _ ← clog info "Loaded config from {}" [AStr path];
        let r := apply_table tbl cfg in
        _ ← emit r.2;
        mret r.1
    | inl description =>
        _ ← clog err "Failed to parse {}: {}" [AStr path; AStr description];
        _ ← clog warn "Falling back to defaults + env vars" [];
        mret cfg
    end
  else
    _ ← clog warn "Config file {} not found, using defaults + env vars" [AStr path];
    mret cfg.

Definition with_config_path (path : string) (cfg : ServerConfig) : ServerConfig :=
  mk_server_config (host cfg) (port cfg) (max_connections cfg) (model_path cfg)
    (default_voice cfg) (max_queue_depth cfg) (workers cfg) (max_input_chars cfg)
    (request_timeout_seconds cfg) (api_key cfg) (require_auth cfg) (auth_rate_limit_max cfg)
    (auth_rate_limit_window cfg) (request_rate_limit_rpm cfg) (trust_proxy cfg)
    (trusted_proxy_hops cfg) (cfg_log_level cfg) (cfg_log_format cfg) path.

Definition from_file_and_env (env : environment) (path : string) : prog configE ServerConfig :=
  cfg ← load_file path (with_config_path path config_init);
  let r := apply_env_overrides env cfg in
  _ ← emit r.2;
  mret r.1.

(** ** Validation *)

Definition log_levels : list string := ["trace"; "debug"; "info"; "warn"; "error"; "critical"].
Definition log_formats : list string := ["text"; "json"].

Definition validate (cfg : ServerConfig) : res unit :=
  if (port cfg <? 1) || (65535 <? port cfg) then
    Exn (InvalidArgument ("Invalid port: must be 1-65535, got " +:+ to_string (port cfg)))
  else if max_connections cfg <? 1 then
    Exn (InvalidArgument "max_connections must be >= 1")
  else if sempty (model_path cfg) then
    Exn (InvalidArgument
      "model_path must not be empty — set [model].path in config or TTS_MODEL_PATH env var")
  else if max_input_chars cfg <? 1 then Exn (InvalidArgument "max_input_chars must be > 0")
  else if workers cfg <? 1 then Exn (InvalidArgument "workers must be >= 1")
  else if max_queue_depth cfg <? 1 then Exn (InvalidArgument "max_queue_depth must be >= 1")
  else if request_timeout_seconds cfg <? 1 then
    Exn (InvalidArgument "request_timeout_seconds must be >= 1")
  else if auth_rate_limit_max cfg <? 1 then
    Exn (InvalidArgument "auth_rate_limit_max must be >= 1")
  else if auth_rate_limit_window cfg <? 1 then
    Exn (InvalidArgument "auth_rate_limit_window must be >= 1")
  else if request_rate_limit_rpm cfg <? 1 then
    Exn (InvalidArgument "request_rate_limit_rpm must be >= 1")
  else if trusted_proxy_hops cfg <? 1 then
    Exn (InvalidArgument "trusted_proxy_hops must be >= 1")
  else if require_auth cfg && sempty (api_key cfg) then
    Exn (InvalidArgument
      "TTS_REQUIRE_AUTH=true but TTS_API_KEY is empty — set TTS_API_KEY or disable auth with TTS_REQUIRE_AUTH=false")
  else if negb (existsb (String.eqb (cfg_log_level cfg)) log_levels) then
    Exn (InvalidArgument ("Invalid log_level '" +:+ cfg_log_level cfg +:+
      "' — must be one of: trace, debug, info, warn, error, critical"))
  else if negb (existsb (String.eqb (cfg_log_format cfg)) log_formats) then
    Exn (InvalidArgument ("Invalid log_format '" +:+ cfg_log_format cfg +:+
      "' — must be 'text' or 'json'"))
  else Ok tt.

(** ** Specification: layers

    Each setting is looked up in the environment, then in the file, then in
    the defaults; a value that does not parse or does not fit an [int] counts
    as absent. *)

(** A complete decimal numeral that fits an [int]. *)
Definition parse_int (s : string) : option Z :=
  match stoi s with
  | Ok (n, pos) => if (pos =? String.length s)%nat then Some n else None
  | Exn _ => None
  end.

Record setting (A : Type) := mk_setting {
  s_env : string;
  s_section : string;
  s_key : string;
  s_get : ServerConfig -> A;
}.
Arguments mk_setting {A}.
Arguments s_env {A}.
Arguments s_section {A}.
Arguments s_key {A}.
Arguments s_get {A}.

Definition int_settings : list (setting Z) := [
  mk_setting "TTS_PORT" "server" "port" port;
  mk_setting "TTS_MAX_CONNECTIONS" "server" "max_connections" max_connections;
  mk_setting "TTS_MAX_QUEUE_DEPTH" "inference" "max_queue_depth" max_queue_depth;
  mk_setting "TTS_WORKERS" "inference" "workers" workers;
  mk_setting "TTS_MAX_INPUT_CHARS" "inference" "max_input_chars" max_input_chars;
  mk_setting "TTS_REQUEST_TIMEOUT" "inference" "request_timeout_seconds" request_timeout_seconds;
  mk_setting "TTS_AUTH_RATE_LIMIT_MAX" "auth" "rate_limit_max" auth_rate_limit_max;
  mk_setting "TTS_AUTH_RATE_LIMIT_WINDOW" "auth" "rate_limit_window" auth_rate_limit_window;
  mk_setting "TTS_RATE_LIMIT_RPM" "auth" "request_rate_limit_rpm" request_rate_limit_rpm;
  mk_setting "TTS_TRUSTED_PROXY_HOPS" "auth" "trusted_proxy_hops" trusted_proxy_hops].

Definition string_settings : list (setting string) := [
  mk_setting "TTS_HOST" "server" "host" host;
  mk_setting "TTS_MODEL_PATH" "model" "path" model_path;
  mk_setting "TTS_DEFAULT_VOICE" "model" "default_voice" default_voice;
  mk_setting "TTS_LOG_LEVEL" "logging" "level" cfg_log_level;
  mk_setting "TTS_LOG_FORMAT" "logging" "format" cfg_log_format].

Definition bool_settings : list (setting bool) := [
  mk_setting "TTS_REQUIRE_AUTH" "auth" "require_auth" require_auth;
  mk_setting "TTS_TRUST_PROXY" "auth" "trust_proxy" trust_proxy].

(** The first layer that has a value. *)
Definition layered {A} (env file : option A) (dflt : A) : A := default (default dflt file) env.

(** What the file says of a setting. *)
Definition in_file {A} (get : TomlTable -> string -> string -> option A)
    (tbl : option TomlTable) (s : setting A) : option A :=
  t ← tbl; get t (s_section s) (s_key s).

Definition int_in_range (n : Z) : option Z :=
  if (INT_MIN <=? n) && (n <=? INT_MAX) then Some n else None.

Definition resolve_int (env : environment) (tbl : option TomlTable) (s : setting Z) : Z :=
  layered (env (s_env s) ≫= parse_int)
    (in_file toml_int tbl s ≫= int_in_range)
    (s_get s config_init).
Definition resolve_string (env : environment) (tbl : option TomlTable) (s : setting string) : string :=
  layered (env (s_env s)) (in_file toml_string tbl s)
    (s_get s config_init).
Definition resolve_bool (env : environment) (tbl : option TomlTable) (s : setting bool) : bool :=
  layered ((fun v => String.eqb v "true" || String.eqb v "1") <$> env (s_env s))
    (in_file toml_bool tbl s)
    (s_get s config_init).

(** *** Lemmas *)

Lemma safe_atoi_value s d : (safe_atoi (Some s) d).1 = default d (parse_int s).
Proof.
  unfold safe_atoi, parse_int, bad_integer. destruct s as [|c s]; [done|].
  destruct (stoi (String c s)) as [[n pos]|e]; [|done].
  by destruct (pos =? String.length (String c s))%nat.
Qed.

Lemma env_int_value env name cur :
  (env_int env name cur).1 = default cur (env name ≫= parse_int).
Proof. unfold env_int. destruct (env name) as [v|]; [|done]. apply safe_atoi_value. Qed.

Lemma safe_narrow_value n name d : (safe_narrow n name d).1 = default d (int_in_range n).
Proof. unfold safe_narrow, int_in_range. by repeat zcase; cbn; try lia. Qed.

Lemma file_int_value tbl section key cur :
  (file_int tbl section key cur).1 = default cur (toml_int tbl section key ≫= int_in_range).
Proof. unfold file_int. destruct (toml_int tbl section key); [|done]. apply safe_narrow_value. Qed.

Lemma env_bool_value env name cur :
  (env_bool env name cur).1 =
  default cur ((fun v => String.eqb v "true" || String.eqb v "1") <$> env name).
Proof. unfold env_bool. by destruct (env name). Qed.

(** The tables the parser answered. *)
Definition tables (tr : list (event configE)) : list TomlTable :=
  observe (fun X e => match e in configE X return X -> option TomlTable with
                      | ParseFile _ => fun a => match a with inr t => Some t | inl _ => None end
                      | _ => fun _ => None
                      end) tr.

Lemma emit_post logs : has_post (emit logs) (fun tr r => r = Ok tt /\ tables tr = []).
Proof.
  induction logs as [|l logs IH]; intros tr r H; [by destruct H as [-> ->]|].
  cbn [emit fold_right] in H. runs_seq H as u. by apply IH in H as [-> ?].
Qed.

Definition with_table (tbl : option TomlTable) (cfg : ServerConfig) : ServerConfig :=
  match tbl with Some t => (apply_table t cfg).1 | None => cfg end.

Lemma load_file_post path cfg :
  has_post (load_file path cfg) (fun tr r =>
    (exists tbl, tables tr = option_list tbl /\ r = Ok (with_table tbl cfg)) \/
    exists e, r = Exn e).
Proof.
  intros tr r H. unfold load_file, clog in H. runs_seq H as ex.
  destruct ex as [[|]|e]; cbn [of_res mbind prog_bind pbind] in H.
  - runs_seq H as t. destruct t as [d|tbl].
    + runs_seq H as u. runs_seq H as v. destruct H as [-> ->]. left. by exists None.
    + runs_seq H as u.
      apply runs_bind in H as [(t1 & t2 & v & -> & [_ Ht]%emit_post & -> & ->)
                              |(e & -> & [[=] _]%emit_post)].
      left. exists (Some tbl). split; [|done]. rewrite app_nil_r. exact (f_equal (cons tbl) Ht).
  - runs_seq H as u. destruct H as [-> ->]. left. by exists None.
  - destruct H as [-> ->]. right. by exists e.
Qed.

Lemma from_file_and_env_post env path :
  has_post (from_file_and_env env path) (fun tr r =>
    (exists tbl, tables tr = option_list tbl /\
       r = Ok (apply_env_overrides env (with_table tbl (with_config_path path config_init))).1) \/
    exists e, r = Exn e).
Proof.
  intros tr r H. unfold from_file_and_env in H.
  apply runs_bind in H as [(t1 & t2 & cfg & -> & [(tbl & Ht & Hr)|[e He]]%load_file_post & H)
                          |(e & -> & _)]; [|done|right; by exists e].
  injection Hr as ->. left. exists tbl.
  apply runs_bind in H as [(t3 & t4 & v & -> & [_ Ht3]%emit_post & -> & ->)
                          |(e & -> & [[=] _]%emit_post)].
  split; [|done]. unfold tables in *. rewrite app_nil_r, observe_app, Ht, Ht3. apply app_nil_r.
Qed.

(** What the layers make of a configuration, setting by setting. *)
Definition follows_layers (env : environment) (tbl : option TomlTable) (cfg : ServerConfig) : Prop :=
  Forall (fun s => s_get s cfg = resolve_int env tbl s) int_settings /\
  Forall (fun s => s_get s cfg = resolve_string env tbl s) string_settings /\
  Forall (fun s => s_get s cfg = resolve_bool env tbl s) bool_settings.

(** Each override reads the variable of its setting, each file look-up its
    section and key. *)
Lemma env_settings env cfg :
  Forall (fun s => s_get s (apply_env_overrides env cfg).1 =
                   (env_int env (s_env s) (s_get s cfg)).1) int_settings /\
  Forall (fun s => s_get s (apply_env_overrides env cfg).1 =
                   (env_string env (s_env s) (s_get s cfg)).1) string_settings /\
  Forall (fun s => s_get s (apply_env_overrides env cfg).1 =
                   (env_bool env (s_env s) (s_get s cfg)).1) bool_settings.
Proof. split_and!; repeat (constructor; [reflexivity|]); constructor. Qed.

Lemma file_settings t cfg :
  Forall (fun s => s_get s (apply_table t cfg).1 =
                   (file_int t (s_section s) (s_key s) (s_get s cfg)).1) int_settings /\
  Forall (fun s => s_get s (apply_table t cfg).1 =
                   (file_string t (s_section s) (s_key s) (s_get s cfg)).1) string_settings /\
  Forall (fun s => s_get s (apply_table t cfg).1 =
                   (file_bool t (s_section s) (s_key s) (s_get s cfg)).1) bool_settings.
Proof. split_and!; repeat (constructor; [reflexivity|]); constructor. Qed.

Lemma start_settings path :
  Forall (fun s => s_get s (with_config_path path config_init) = s_get s config_init) int_settings /\
  Forall (fun s => s_get s (with_config_path path config_init) = s_get s config_init)
    string_settings /\
  Forall (fun s => s_get s (with_config_path path config_init) = s_get s config_init) bool_settings.
Proof. split_and!; repeat (constructor; [reflexivity|]); constructor. Qed.

Lemma with_table_settings tbl path :
  let cfg := with_table tbl (with_config_path path config_init) in
  Forall (fun s => s_get s cfg = default (s_get s config_init)
                                   (in_file toml_int tbl s ≫= int_in_range)) int_settings /\
  Forall (fun s => s_get s cfg = default (s_get s config_init) (in_file toml_string tbl s))
    string_settings /\
  Forall (fun s => s_get s cfg = default (s_get s config_init) (in_file toml_bool tbl s))
    bool_settings.
Proof.
  intros cfg. destruct (start_settings path) as (Hi & Hs & Hb). subst cfg.
  destruct tbl as [t|]; [|done].
  destruct (file_settings t (with_config_path path config_init)) as (Fi & Fs & Fb).
  cbn [with_table in_file mbind option_bind]. split_and!; apply Forall_forall.
  - intros s Hin. rewrite (proj1 (Forall_forall _ _) Fi s Hin), file_int_value.
    by rewrite (proj1 (Forall_forall _ _) Hi s Hin).
  - intros s Hin. rewrite (proj1 (Forall_forall _ _) Fs s Hin). cbn.
    by rewrite (proj1 (Forall_forall _ _) Hs s Hin).
  - intros s Hin. rewrite (proj1 (Forall_forall _ _) Fb s Hin). cbn.
    by rewrite (proj1 (Forall_forall _ _) Hb s Hin).
Qed.

Lemma layers_correct env tbl path :
  follows_layers env tbl
    (apply_env_overrides env (with_table tbl (with_config_path path config_init))).1.
Proof.
  destruct (with_table_settings tbl path) as (Hi & Hs & Hb).
  destruct (env_settings env (with_table tbl (with_config_path path config_init)))
    as (Ei & Es & Eb).
  split_and!; apply Forall_forall; intros s Hin.
  - rewrite (proj1 (Forall_forall _ _) Ei s Hin), env_int_value.
    by rewrite (proj1 (Forall_forall _ _) Hi s Hin).
  - rewrite (proj1 (Forall_forall _ _) Es s Hin). cbn.
    by rewrite (proj1 (Forall_forall _ _) Hs s Hin).
  - rewrite (proj1 (Forall_forall _ _) Eb s Hin), env_bool_value.
    by rewrite (proj1 (Forall_forall _ _) Hb s Hin).
Qed.

Lemma stoi_bound s n pos : stoi s = Ok (n, pos) -> in_int n.
Proof.
  unfold stoi. destruct (skip_space s) as [sp s1], (stoi_sign s1) as [[neg sg] s2],
    (digits 0 s2) as [v k].
  destruct (k =? 0)%nat; [done|]. set (value := if neg then - v else v).
  repeat zcase; cbn; intros [= <- _] || intros [=]. done.
Qed.

Lemma resolve_int_bound env tbl s :
  in_int (s_get s config_init) -> in_int (resolve_int env tbl s).
Proof.
  intros Hd. unfold resolve_int, layered.
  assert (in_int (default (s_get s config_init)
    (in_file toml_int tbl s ≫= int_in_range))) as Hfile.
  { unfold in_file. destruct tbl as [t|]; [|done]. cbn. destruct (toml_int t _ _) as [n|]; [|done]. cbn.
    unfold int_in_range. repeat zcase; cbn; try done. }
  destruct (env (s_env s)) as [v|]; [|done]. cbn. unfold parse_int.
  destruct (stoi v) as [[n pos]|e] eqn:Hs; [|done].
  destruct (pos =? String.length v)%nat; [|done]. by eapply stoi_bound.
Qed.

(** *** Printing and parsing integers *)

Fixpoint dec_value (acc : Z) (s : string) : Z :=
  match s with
  | String c s' => dec_value (10 * acc + (byte_of c - 48)) s'
  | EmptyString => acc
  end.

Lemma digits_all acc s :
  sall is_digit s = true -> digits acc s = (dec_value acc s, String.length s).
Proof.
  revert acc. induction s as [|c s IH]; intros acc; [done|].
  cbn. intros [Hc Hs]%andb_true_iff. by rewrite Hc, IH.
Qed.

Lemma digit_char x : (x < 10)%N ->
  is_digit (pretty_N_char x) = true /\ byte_of (pretty_N_char x) - 48 = Z.of_N x.
Proof.
  intros H. destruct x as [|p]; [done|].
  do 4 (destruct p as [p|p|]; try done; try lia).
Qed.

Lemma pretty_go_digits x s :
  sall is_digit (pretty_N_go x s) = sall is_digit s /\
  dec_value 0 (pretty_N_go x s) = dec_value (Z.of_N x) s.
Proof.
  revert s. induction (N.lt_wf_0 x) as [x _ IH]; intros s.
  destruct (decide (x = 0%N)) as [->|Hx]; [by rewrite pretty_N_go_0|].
  rewrite pretty_N_go_step by lia.
  destruct (IH (x / 10)%N) with (s := String (pretty_N_char (x mod 10)) s) as [H1 H2];
    [apply N.div_lt; lia|].
  destruct (digit_char (x mod 10)) as [Hd Hv]; [by apply N.mod_lt|].
  rewrite H1, H2. cbn. rewrite Hd, Hv. split; [done|]. f_equal.
  rewrite N2Z.inj_div, N2Z.inj_mod. pose proof (Z.div_mod (Z.of_N x) 10). lia.
Qed.

Lemma pretty_N_digits (x : N) :
  digits 0 (pretty x) = (Z.of_N x, String.length (pretty x)) /\
  exists c s, pretty x = String c s /\ is_digit c = true.
Proof.
  unfold pretty, pretty_N. case_decide as Hx; [subst; split; [done|by eexists _, _]|].
  destruct (pretty_go_digits x "") as [H1 H2]. rewrite digits_all, H2 by done. split; [done|].
  destruct (pretty_N_go x "") as [|c s] eqn:Heq.
  - exfalso. cbn in H2. lia.
  - exists c, s. split; [done|]. cbn in H1. by apply andb_true_iff in H1 as [? _].
Qed.

Lemma digit_not_space c : is_digit c = true -> isspace c = false /\ c <> "-"%char /\ c <> "+"%char.
Proof. destruct c as [[] [] [] [] [] [] [] []]; vm_compute; intros [=]; done. Qed.

(** [std::to_string] is parsed back. *)
Lemma stoi_to_string z : in_int z -> stoi (to_string z) = Ok (z, String.length (to_string z)).
Proof.
  intros [Hmin Hmax].
  assert (forall (x : N), digits 0 (pretty x) = (Z.of_N x, String.length (pretty x)) /\
    skip_space (pretty x) = (0%nat, pretty x) /\
    stoi_sign (pretty x) = (false, 0%nat, pretty x) /\ String.length (pretty x) <> 0%nat) as HN.
  { intros x. destruct (pretty_N_digits x) as [Hd (c & s & Heq & Hc)].
    destruct (digit_not_space c Hc) as (H1 & H2 & H3). split; [done|]. rewrite Heq. cbn.
    rewrite H1. apply Ascii.eqb_neq in H2, H3. by rewrite H2, H3. }
  assert (forall x : N, stoi_sign (String "-" (pretty x)) = (true, 1%nat, pretty x)) as Hneg by done.
  destruct z as [|p|p].
  - done.
  - destruct (HN (Npos p)) as (H1 & H2 & H3 & H4).
    change (to_string (Z.pos p)) with (pretty (Npos p)). unfold stoi.
    rewrite H2, H3, H1. apply Nat.eqb_neq in H4. rewrite H4. cbn [Z.of_N].
    by rewrite (proj2 (Z.leb_le _ _) Hmin), (proj2 (Z.leb_le _ _) Hmax).
  - destruct (HN (Npos p)) as (H1 & _ & _ & H4).
    change (to_string (Z.neg p)) with (String "-" (pretty (Npos p))). unfold stoi.
    change (skip_space (String "-" (pretty (Npos p))))
      with (0%nat, String "-" (pretty (Npos p))). cbv beta iota.
    rewrite Hneg, H1. apply Nat.eqb_neq in H4. rewrite H4.
    change (- Z.of_N (N.pos p)) with (Z.neg p).
    by rewrite (proj2 (Z.leb_le _ _) Hmin), (proj2 (Z.leb_le _ _) Hmax).
Qed.

(** *** Valid configurations *)

Definition valid_config (cfg : ServerConfig) : Prop :=
  1 <= port cfg <= 65535 /\ 1 <= max_connections cfg /\ model_path cfg <> ""%string /\
  1 <= max_input_chars cfg /\ 1 <= workers cfg /\ 1 <= max_queue_depth cfg /\
  1 <= request_timeout_seconds cfg /\ 1 <= auth_rate_limit_max cfg /\
  1 <= auth_rate_limit_window cfg /\ 1 <= request_rate_limit_rpm cfg /\
  1 <= trusted_proxy_hops cfg /\ (require_auth cfg = true -> api_key cfg <> ""%string) /\
  cfg_log_level cfg ∈ log_levels /\ cfg_log_format cfg ∈ log_formats.

Lemma existsb_eqb s l : existsb (String.eqb s) l = true <-> s ∈ l.
Proof.
  rewrite existsb_exists, list_elem_of_In. split.
  - by intros (x & Hx & ->%String.eqb_eq).
  - intros H. exists s. split; [done|apply String.eqb_refl].
Qed.

Lemma sempty_false s : sempty s = false <-> s <> ""%string.
Proof. by destruct s. Qed.

(** One test of [validate()] in front of the others. *)
Lemma guard_ok (b : bool) e (r : res unit) :
  (if b then Exn e else r) = Ok tt <-> b = false /\ r = Ok tt.
Proof. by destruct b; split; [|intros [? _]|intros|intros [_ ?]]. Qed.

Definition clean_error (r : res unit) : Prop :=
  r = Ok tt \/ exists m, r = Exn (InvalidArgument m) /\ m <> ""%string.

Lemma guard_clean (b : bool) m (r : res unit) :
  m <> ""%string -> clean_error r -> clean_error (if b then Exn (InvalidArgument m) else r).
Proof. destruct b; [|done]. intros Hm _. right. by exists m. Qed.

Lemma validate_ok_iff cfg : validate cfg = Ok tt <-> valid_config cfg.
Proof.
  unfold validate, valid_config.
  rewrite !guard_ok, orb_false_iff, andb_false_iff, !negb_false_iff, !existsb_eqb,
    !sempty_false, !Z.ltb_ge.
  destruct (require_auth cfg); naive_solver.
Qed.

Lemma validate_clean cfg : clean_error (validate cfg).
Proof. unfold validate. repeat (apply guard_clean; [done|]). by left. Qed.

(** ** Properties *)

(** C30: layering, under the variable and key names that the code reads:
    whatever the file system and the parser answer, a load that returns gives
    every integer setting the value of its variable when that is a decimal
    [int], else of the TOML file when it has one in int range, else the
    default; every string setting its variable, else the file's value, else
    the default; and every boolean setting, once its variable is set at all,
    true for "true" and "1" and false for every other string, whatever the file
    says, and without the variable the file's value, else the default.  The API
    key comes from the environment alone. *)
Theorem config_layers env path tr cfg
    (Hrun : runs (from_file_and_env env path) tr (Ok cfg)) :
  (exists tbl, tables tr = option_list tbl /\ follows_layers env tbl cfg) /\
  (forall s v, s ∈ bool_settings -> env (s_env s) = Some v ->
     (s_get s cfg = true <-> v = "true"%string \/ v = "1"%string)) /\
  api_key cfg = default ""%string (env "TTS_API_KEY") /\
  config_path cfg = default path (env "TTS_CONFIG_PATH").
Proof.
  apply from_file_and_env_post in Hrun as [(tbl & Ht & Hr)|(e & [=])].
  injection Hr as Hr.
  assert (Hl : follows_layers env tbl cfg) by (rewrite Hr; apply layers_correct).
  split; [by exists tbl|]. split; [|by destruct tbl; rewrite Hr].
  intros s v Hin Hv. pose proof (proj1 (Forall_forall _ _) (proj2 (proj2 Hl)) s Hin) as Hs.
  rewrite Hs. unfold resolve_bool, layered. rewrite Hv. cbn [fmap option_fmap option_map from_option id].
  rewrite orb_true_iff, !String.eqb_eq. done.
Qed.

(** Every integer of a loaded configuration is an int: no value of the
    environment or of the file is truncated. *)
Theorem config_ints_in_range env path tr cfg
    (Hrun : runs (from_file_and_env env path) tr (Ok cfg)) :
  Forall (fun s => in_int (s_get s cfg)) int_settings.
Proof.
  apply from_file_and_env_post in Hrun as [(tbl & _ & Hr)|(e & [=])].
  pose proof (layers_correct env tbl path) as [Hi _].
  set (loaded := (apply_env_overrides _ _).1) in *. injection Hr as ->.
  assert (Forall (fun s => in_int (s_get s config_init)) int_settings) as Hd
    by (repeat (constructor; [by split|]); constructor).
  apply Forall_forall. intros s Hin. rewrite (proj1 (Forall_forall _ _) Hi s Hin).
  apply resolve_int_bound. by apply (proj1 (Forall_forall _ _) Hd).
Qed.

(** C31: validate() accepts exactly the valid configurations and otherwise
    throws invalid_argument with a message. *)
Theorem validate_correct cfg :
  (validate cfg = Ok tt <-> valid_config cfg) /\
  clean_error (validate cfg).
Proof.
  split; [apply validate_ok_iff|apply validate_clean].
Qed.

(** Round trip: an int printed by std::to_string is read back by safe_atoi
    unchanged, without a warning; anything else falls back to the default. *)
Theorem safe_atoi_roundtrip z d (Hz : in_int z) :
  safe_atoi (Some (to_string z)) d = (z, []).
Proof.
  unfold safe_atoi. rewrite stoi_to_string by done. rewrite Nat.eqb_refl. cbn.
  by destruct (to_string z) eqn:Hs; [apply stoi_to_string in Hz; rewrite Hs in Hz|].
Qed.

(** ** Witnesses *)

Definition demo_env : environment := fun name =>
  if String.eqb name "TTS_PORT" then Some "8080"
  else if String.eqb name "TTS_WORKERS" then Some "4x"
  else if String.eqb name "TTS_API_KEY" then Some "secret" else None.

Definition demo_table : TomlTable :=
  mk_toml (fun _ _ => None)
    (fun s k => if String.eqb k "port" then Some 7000
                else if String.eqb k "workers" then Some 2
                else if String.eqb k "max_queue_depth" then Some (2 ^ 40) else None)
    (fun _ _ => None).

Definition demo_config : ServerConfig :=
  (apply_env_overrides demo_env (with_table (Some demo_table)
     (with_config_path "server.toml" config_init))).1.

Definition demo_trace : list (event configE) :=
  [Ev (Exists "server.toml") (Ok true); Ev (ParseFile "server.toml") (inr demo_table);
   Ev (CLog (mk_log info "Loaded config from {}" [AStr "server.toml"])) tt;
   Ev (CLog (mk_log warn "TOML value for '{}' ({}) overflows int range, using default {}"
               [AStr "inference.max_queue_depth"; AInt (2 ^ 40); AInt 10])) tt;
   Ev (CLog (mk_log warn "Invalid integer value '{}', using default {}"
               [AStr "4x"; AInt 2])) tt].

Lemma demo_load_run : runs (from_file_and_env demo_env "server.toml") demo_trace (Ok demo_config).
Proof.
  answer (@Ok bool true). answer (inr demo_table : string + TomlTable). answer tt. answer tt.
  answer tt. split; reflexivity.
Qed.

Lemma config_layers_witness :
  port demo_config = 8080 /\ workers demo_config = 2 /\ max_queue_depth demo_config = 10 /\
  (exists tbl, tables demo_trace = option_list tbl /\ follows_layers demo_env tbl demo_config) /\
  (forall s v, s ∈ bool_settings -> demo_env (s_env s) = Some v ->
     (s_get s demo_config = true <-> v = "true"%string \/ v = "1"%string)) /\
    api_key demo_config = default ""%string (demo_env "TTS_API_KEY") /\
    config_path demo_config = default "server.toml"%string (demo_env "TTS_CONFIG_PATH").
Proof.
  split; [reflexivity|]. split; [reflexivity|]. split; [reflexivity|].
  exact (config_layers demo_env "server.toml" demo_trace demo_config demo_load_run).
Defined.

Lemma config_ints_in_range_witness :
  Forall (fun s => in_int (s_get s demo_config)) int_settings.
Proof. exact (config_ints_in_range demo_env "server.toml" demo_trace demo_config demo_load_run). Defined.

Lemma safe_atoi_roundtrip_witness :
  to_string (-42) = "-42"%string /\ safe_atoi (Some (to_string (-42))) 7 = (-42, []).
Proof. split; [reflexivity|]. apply (safe_atoi_roundtrip (-42) 7). by split. Defined.

Example atoi_trailing : (safe_atoi (Some "42abc") 7).1 = 7 /\ (safe_atoi (Some " +42") 7).1 = 42.
Proof. split; reflexivity. Qed.

(** The names of the README that the code does not read. *)
Example readme_names_ignored name :
  name ∈ ["TTS_REQUEST_TIMEOUT_SECONDS"; "TTS_RATE_LIMIT_MAX"; "TTS_RATE_LIMIT_WINDOW";
          "TTS_REQUEST_RATE_LIMIT_RPM"]%string ->
  from_env (fun n => if String.eqb n name then Some "1"%string else None) = (config_init, []).
Proof.
  intros H. repeat (apply elem_of_cons in H as [->|H]; [by vm_compute|]).
  by apply elem_of_nil in H.
Qed.
