(* ===== verification/Metrics.v ===== *)
(** * Metrics

    The Prometheus families of [include/tts/metrics.hpp] and
    [src/server/metrics.cpp], and the updates the handlers make.  The
    prometheus-cpp library is outside the repository: an update is recorded as
    a [metric_op]; serialisation is an effect of the handlers. *)

From Stdlib Require Import ZArith Lia String QArith SpecFloat.
From stdpp Require Import base tactics numbers list strings pretty.
From S2P Require Import Prelude Floats.

#[local] Open Scope Z_scope.

(** ** Families *)

(** The members of [Metrics]; the two labelled families carry their label. *)
Inductive metric :=
| requests_total (status_code : Z)
| voice_requests_total (voice : string)
| requests_rejected_auth
| requests_rejected_rate_limit
| input_characters_total
| audio_bytes_generated_total
| errors_total
| active_jobs
| queue_depth
| synthesis_duration_seconds
| inference_duration_seconds
| audio_duration_seconds
| input_characters.

#[export] Instance metric_eq_dec : EqDecision metric.
Proof. solve_decision. Defined.

Inductive metric_kind := Counter | Gauge | Histogram (buckets : list Q).

Definition duration_buckets : list Q :=
  [1#1; 5#2; 5#1; 10#1; 30#1; 60#1; 120#1; 300#1; 600#1]%Q.
Definition character_buckets : list Q := [50#1; 100#1; 250#1; 500#1; 1000#1; 2000#1; 4096#1]%Q.

Record family := mk_family {
  f_name : string;
  f_help : string;
  f_kind : metric_kind;
}.

(** The constructor's registrations. *)
Definition family_of (m : metric) : family :=
  match m with
  | requests_total _ =>
      mk_family "opentts_requests_total" "Total requests by HTTP status code" Counter
  | voice_requests_total _ =>
      mk_family "opentts_voice_requests_total" "Per-voice request count" Counter
  | requests_rejected_auth =>
      mk_family "opentts_requests_rejected_auth_total" "Auth failures" Counter
  | requests_rejected_rate_limit =>
      mk_family "opentts_requests_rejected_rate_limit_total" "Rate limit hits" Counter
  | input_characters_total =>
      mk_family "opentts_input_characters_total" "Total input characters processed" Counter
  | audio_bytes_generated_total =>
      mk_family "opentts_audio_bytes_generated_total" "Total audio bytes generated" Counter
  | errors_total => mk_family "opentts_errors_total" "Inference errors" Counter
  | active_jobs => mk_family "opentts_active_jobs" "Currently processing jobs" Gauge
  | queue_depth => mk_family "opentts_queue_depth" "Jobs waiting in queue" Gauge
  | synthesis_duration_seconds =>
      mk_family "opentts_synthesis_duration_seconds" "End-to-end synthesis duration in seconds"
        (Histogram duration_buckets)
  | inference_duration_seconds =>
      mk_family "opentts_inference_duration_seconds" "Inference-only duration in seconds"
        (Histogram duration_buckets)
  | audio_duration_seconds =>
      mk_family "opentts_audio_duration_seconds" "Generated audio duration in seconds"
        (Histogram duration_buckets)
  | input_characters =>
      mk_family "opentts_input_characters" "Input text length distribution"
        (Histogram character_buckets)
  end.

(** The labels of the counter [Add] returns. *)
Definition labels_of (m : metric) : list (string * string) :=
  match m with
  | requests_total status_code => [("status", to_string status_code)]
  | voice_requests_total voice => [("voice", voice)]
  | _ => []
  end.

(** ** Updates *)

Inductive metric_op :=
| Increment (m : metric) (by_ : spec_float)
| Decrement (m : metric)
| Set_ (m : metric) (value : spec_float)
| Observe (m : metric) (value : spec_float).

(** [Increment()] adds one. *)
Definition inc (m : metric) : metric_op := Increment m f64_1.

(** ** The catalogue is well formed *)

Definition all_metrics : list metric :=
  [requests_total 200; voice_requests_total ""; requests_rejected_auth;
   requests_rejected_rate_limit; input_characters_total; audio_bytes_generated_total;
   errors_total; active_jobs; queue_depth; synthesis_duration_seconds;
   inference_duration_seconds; audio_duration_seconds; input_characters].

Fixpoint increasing (l : list Q) : bool :=
  match l with
  | a :: ((b :: _) as l') => negb (Qle_bool b a) && increasing l'
  | _ => true
  end.

Definition kind_ok (k : metric_kind) : bool :=
  match k with Histogram b => increasing b | _ => true end.

Lemma metric_names_distinct : NoDup ((fun m => f_name (family_of m)) <$> all_metrics).
Proof. by apply (bool_decide_unpack _). Qed.

Lemma metric_family_ok m :
  String.prefix "opentts_" (f_name (family_of m)) = true /\ f_help (family_of m) <> ""%string /\
  kind_ok (f_kind (family_of m)) = true.
Proof. by destruct m. Qed.

(** Two time series have the same name and labels only if they are the same. *)
Lemma metric_series_inj m1 m2 :
  f_name (family_of m1) = f_name (family_of m2) -> labels_of m1 = labels_of m2 -> m1 = m2.
Proof.
  destruct m1, m2; cbn; intros Hn Hl; try discriminate Hn; try done.
  - injection Hl as Hl. f_equal. by apply (inj pretty) in Hl.
  - by injection Hl as ->.
Qed.
