(* ===== verification/Http.v ===== *)
(** * HTTP types, the JSON library and the effects of the server

    The abstract request and response of [src/server/request_handler.hpp],
    the interface to the JSON library, and the signature [sysE] of the
    effects of handlers and routes: clocks, the random generator, logging,
    metrics, and the calls on the shared objects (pool, backend, rate
    limiters), whose own models are in [Pool], [Backend] and [RateLimit]. *)

From Stdlib Require Import ZArith Lia Ascii String SpecFloat.
From stdpp Require Import base tactics numbers list strings gmap.
From S2P Require Import Prelude Effects Floats Metrics Backend Pool.

#[local] Open Scope Z_scope.

(** ** Requests and responses *)

Record HttpRequest := mk_http_request {
  method : string;
  path : string;
  body : string;
  headers : gmap string string;
  remote_addr : string;
}.

Definition header (req : HttpRequest) (name : string) : string :=
  default "" (headers req !! name).

Record HttpResponse := mk_response {
  status : Z;
  resp_headers : gmap string string;
  resp_body : string;
  binary_body : list Z;
}.

Definition response_init : HttpResponse := mk_response 200 ∅ "" [].

Definition is_binary (r : HttpResponse) : bool := negb (bool_decide (binary_body r = [])).

Definition set_header (name value : string) (r : HttpResponse) : HttpResponse :=
  mk_response (status r) (<[name := value]> (resp_headers r)) (resp_body r) (binary_body r).

(** ** The JSON library

    nlohmann::json is outside the repository.  [parse] throws
    [parse_error] on a text that is not JSON and [out_of_range] on a number
    that no double holds; the typed look-ups throw [type_error] on a value that is
    not an object or a field of another type; [dump] throws [type_error] on a
    string that is not UTF-8. *)
Class JsonLib := {
  json : Type;
  jnull : json;
  jbool : bool -> json;
  jint : Z -> json;
  jstr : string -> json;
  jarray : list json -> json;
  jobject : list (string * json) -> json;
  parse : string -> res json;
  value_string : json -> string -> string -> res string;
  value_float : json -> string -> spec_float -> res spec_float;
  dump : json -> res string;
}.

(** Its documented behaviour, as far as the handlers rely on it: which
    of its exceptions each function throws. *)
Class JsonLaws (L : JsonLib) : Prop := {
  parse_exn : forall text e, parse text = Exn e ->
    (exists m, e = JsonParseError m) \/ exists m, e = JsonOutOfRange m;
  value_string_exn : forall j k d e, value_string j k d = Exn e -> exists m, e = JsonTypeError m;
  value_float_exn : forall j k d e, value_float j k d = Exn e -> exists m, e = JsonTypeError m;
  dump_exn : forall j e, dump j = Exn e -> exists m, e = JsonTypeError m;
}.

(** The exceptions of the library that the speech handler lets through. *)
Definition json_exception (e : exn) : Prop :=
  (exists m, e = JsonTypeError m) \/ exists m, e = JsonOutOfRange m.

Lemma json_type_exception m : json_exception (JsonTypeError m).
Proof. left. by exists m. Qed.
#[export] Hint Resolve json_type_exception : http.

(** ** Effects *)

(** Which callback of a submitted job was called. *)
Inductive outcome :=
| OSuccess (r : SynthesisResult)
| OError (e : string).

Variant sysE : Type -> Type :=
| SNow : sysE Z
| Rand32 : sysE Z
| SLog (l : log_record) : sysE unit
| Metric (op : metric_op) : sysE unit
| MetricsSerialize : sysE string
| SetRequestId (id : string) : sysE unit
| BackendIsReady : sysE bool
| PoolIsAccepting : sysE bool
| PoolQueueDepth : sysE Z
| PoolSubmit (job : InferenceJob) : sysE bool
| AwaitResult : sysE outcome
| AuthIsBlocked (ip : string) : sysE bool
| AuthRecordFailure (ip : string) : sysE bool
| CheckRequest (ip : string) : sysE Z
| PoolShutdown : sysE unit
| HttpNew : sysE unit
| HttpConfigure (read_timeout write_timeout payload_max : Z) : sysE unit
| SetRunning (on : bool) : sysE unit
| HttpListen (host : string) (port : Z) : sysE bool
| HttpStop : sysE unit
| HttpDelete : sysE unit.

Definition slog (lvl : log_level) (fmt : string) (args : list log_arg) : prog sysE unit :=
  trigger (SLog (mk_log lvl fmt args)).
Definition metric (op : metric_op) : prog sysE unit := trigger (Metric op).

(** ** Observations *)

Definition metric_of {X} (e : sysE X) (_ : X) : option metric_op :=
  match e with Metric op => Some op | _ => None end.
Definition submission_of {X} (e : sysE X) : X -> option (InferenceJob * bool) :=
  match e in sysE X return X -> option (InferenceJob * bool) with
  | PoolSubmit job => fun ok => Some (job, ok)
  | _ => fun _ => None
  end.
Definition request_id_of {X} (e : sysE X) (_ : X) : option string :=
  match e with SetRequestId id => Some id | _ => None end.

Definition metric_ops (tr : list (event sysE)) : list metric_op := observe (@metric_of) tr.
Definition submissions (tr : list (event sysE)) : list (InferenceJob * bool) :=
  observe (@submission_of) tr.
Definition request_ids (tr : list (event sysE)) : list string := observe (@request_id_of) tr.

(** What the backend and the pool answered to the probe. *)
Definition probe_of {X} (e : sysE X) : X -> option bool :=
  match e in sysE X return X -> option bool with
  | BackendIsReady | PoolIsAccepting => Some
  | _ => fun _ => None
  end.
Definition probes (tr : list (event sysE)) : list bool := observe (@probe_of) tr.

(** The statuses [requests_total] was incremented for. *)
Definition counted_status (op : metric_op) : option Z :=
  match op with Increment (requests_total s) _ => Some s | _ => None end.
Definition counted (tr : list (event sysE)) : list Z := omap counted_status (metric_ops tr).

(** Net change of the gauge of active jobs. *)
Definition gauge_delta (op : metric_op) : Z :=
  match op with
  | Increment Metrics.active_jobs _ => 1
  | Decrement Metrics.active_jobs => -1
  | _ => 0
  end.
Definition active_gauge (tr : list (event sysE)) : Z := zsum (gauge_delta <$> metric_ops tr).

Lemma metric_ops_app t1 t2 : metric_ops (t1 ++ t2) = metric_ops t1 ++ metric_ops t2.
Proof. apply observe_app. Qed.
Lemma submissions_app t1 t2 : submissions (t1 ++ t2) = submissions t1 ++ submissions t2.
Proof. apply observe_app. Qed.
Lemma request_ids_app t1 t2 : request_ids (t1 ++ t2) = request_ids t1 ++ request_ids t2.
Proof. apply observe_app. Qed.
Lemma counted_app t1 t2 : counted (t1 ++ t2) = counted t1 ++ counted t2.
Proof. unfold counted. by rewrite metric_ops_app, omap_app. Qed.
Lemma active_gauge_app t1 t2 : active_gauge (t1 ++ t2) = active_gauge t1 + active_gauge t2.
Proof. unfold active_gauge. by rewrite metric_ops_app, fmap_app, zsum_app. Qed.

Create HintDb http.
#[export] Hint Rewrite metric_ops_app submissions_app request_ids_app counted_app active_gauge_app
  : http.
