(* ===== verification/RequestHandler.v ===== *)
(** * Route handlers

    [src/server/request_handler.cpp]: request ids, security headers, error
    responses, and the handlers of the five endpoints, as programs over
    [sysE].  A JSON [type_error] or [out_of_range] that the source does not catch leaves the
    handler as an exception. *)

From Stdlib Require Import ZArith Lia Ascii String SpecFloat.
From stdpp Require Import base tactics numbers list strings gmap.
From S2P Require Import Prelude Effects Floats Voices Validation Metrics Backend Pool Config Http.

#[local] Open Scope Z_scope.

(** ** Request ids *)

(** [%x] and its zero-padded form. *)
Definition hex_digit (v : Z) : ascii :=
  ascii_of_N (Z.to_N (if v <? 10 then 48 + v else 87 + v)).

Fixpoint hex_go (fuel : nat) (v : Z) (acc : string) : string :=
  match fuel with
  | O => acc
  | S fuel' =>
      if v <? 16 then String (hex_digit v) acc
      else hex_go fuel' (v / 16) (String (hex_digit (v mod 16)) acc)
  end.

(** A [uint32_t] has at most eight hexadecimal digits. *)
Definition hex32 (v : Z) : string := hex_go 8 v "".

Fixpoint zeros (n : nat) : string :=
  match n with O => "" | S n' => String "0" (zeros n') end.

Definition printf_0x (width : nat) (v : Z) : string :=
  zeros (width - String.length (hex32 v)) +:+ hex32 v.

Definition set_version (b : Z) : Z := Z.lor (Z.land b 0xFFFF0FFF) 0x00004000.
Definition set_variant (c : Z) : Z := Z.lor (Z.land c 0x3FFFFFFF) 0x80000000.

(** The [snprintf] call, cut to the buffer of 37 bytes. *)
Definition format_uuid (a b c d : Z) : string :=
  stake 36
    (printf_0x 8 a +:+ "-" +:+ printf_0x 4 (Z.land (Z.shiftr b 16) 0xFFFF) +:+ "-" +:+
     printf_0x 4 (Z.land b 0xFFFF) +:+ "-" +:+ printf_0x 4 (Z.land (Z.shiftr c 16) 0xFFFF) +:+
     "-" +:+ printf_0x 4 (Z.land c 0xFFFF) +:+ printf_0x 8 d).

Definition rand32 : prog sysE Z := r ← trigger Rand32; mret (u32 r).

Definition generate_request_id : prog sysE string :=
  a ← rand32;
  b ← rand32;
  c ← rand32;
  d ← rand32;
  mret (format_uuid a (set_version b) (set_variant c) d).

Definition apply_security_headers (request_id : string) (resp : HttpResponse) : HttpResponse :=
  set_header "X-Request-Id" request_id
    (set_header "Cache-Control" "no-store"
      (set_header "X-Content-Type-Options" "nosniff" resp)).

(** ** Dependencies *)

(** Pointers that may be null: [backend], [pool] and [config]. *)
Record HandlerDeps := mk_deps {
  d_backend : bool;
  d_voice_catalog : option VoiceCatalog;
  d_pool : bool;
  d_config : option ServerConfig;
  d_start_time : Z;
}.

Section Handlers.
Context {L : JsonLib} (VERSION : string).

(** ** Error responses *)

(** A response whose body is the serialised [j]. *)
Definition json_response (status : Z) (j : json) : res HttpResponse :=
  text ← dump j;
  Ok (mk_response status {["Content-Type" := "application/json"]} text []).

Definition error_json (error_type error_code message param : string) : json :=
  jobject [("error", jobject
    [("message", jstr message); ("type", jstr error_type);
     ("param", if sempty param then jnull else jstr param); ("code", jstr error_code)])].

Definition make_error_response (status : Z) (error_type error_code message param : string)
    : res HttpResponse :=
  json_response status (error_json error_type error_code message param).

Definition make_error_from_validation (v : ValidationResult) : res HttpResponse :=
  make_error_response (http_status v) (error_type v) (Validation.error_code v)
    (Validation.error_message v) (error_param v).

(** ** Probes and catalogue *)

Definition handle_health (deps : HandlerDeps) : prog sysE HttpResponse :=
  now ← trigger SNow;
  let uptime := Z.quot (now - d_start_time deps) SEC in
  of_res (json_response 200
    (jobject [("status", jstr "ok"); ("version", jstr VERSION); ("uptime_seconds", jint uptime)])).

Definition handle_ready (deps : HandlerDeps) : prog sysE HttpResponse :=
  model_loaded ← (if d_backend deps then trigger BackendIsReady else mret false);
  pool_accepting ← (if d_pool deps then trigger PoolIsAccepting else mret false);
  let ready := model_loaded && pool_accepting in
  q_depth ← (if d_pool deps then trigger PoolQueueDepth else mret 0);
  let q_capacity := match d_config deps with Some cfg => max_queue_depth cfg | None => 0 end in
  of_res (json_response (if ready then 200 else 503)
    (jobject [("ready", jbool ready); ("model_loaded", jbool model_loaded);
              ("queue_depth", jint q_depth); ("queue_capacity", jint q_capacity)])).

Definition voice_json (v : Voice) : json :=
  jobject [("id", jstr (Voices.id v)); ("name", jstr (name v)); ("language", jstr (language v))].

Definition handle_voices (deps : HandlerDeps) : prog sysE HttpResponse :=
  let voices_array :=
    match d_voice_catalog deps with
    | Some catalog => voice_json <$> Voices.all catalog
    | None => []
    end in
  of_res (json_response 200 (jobject [("voices", jarray voices_array)])).

Definition handle_metrics : prog sysE HttpResponse :=
  text ← trigger MetricsSerialize;
  mret (mk_response 200 {["Content-Type" := "text/plain; version=0.0.4; charset=utf-8"]} text []).

(** ** POST /v1/audio/speech *)

(** Counts the status and answers the error. *)
Definition reject (counted_as : Z) (v : ValidationResult) : prog sysE HttpResponse :=
  _ ← metric (inc (requests_total counted_as));
  of_res (make_error_from_validation v).

Definition server_error (status : Z) (code message : string) : prog sysE HttpResponse :=
  _ ← metric (inc (requests_total status));
  of_res (make_error_response status "server_error" code message "").

(** What the two callbacks store in [synth_result] and [synth_error]. *)
Definition callback_cell (o : outcome) : SynthesisResult * string :=
  match o with
  | OSuccess r => (r, "")
  | OError e => (result_init, e)
  end.

(** The callbacks are the two closures of the handler. *)
Definition success_callback : Z := 0.
Definition error_callback : Z := 1.

Definition set_queue_gauge : prog sysE unit :=
  depth ← trigger PoolQueueDepth;
  metric (Set_ Metrics.queue_depth (f64_of_Z depth)).

Definition audio_response (r : SynthesisResult) : HttpResponse :=
  mk_response 200
    (<["Content-Length" := to_string (Z.of_nat (length (audio_data r)))]>
       {["Content-Type" := "audio/wav"]})
    "" (audio_data r).

(** Steps 9 to 11, once the result is there. *)
Definition finish_speech (synthesis_start : Z) (cell : SynthesisResult * string)
    : prog sysE HttpResponse :=
  if negb (sempty cell.2) then
    _ ← metric (inc errors_total);
    server_error 500 "inference_failed" "An error occurred during speech synthesis."
  else
    synthesis_end ← trigger SNow;
    _ ← metric (Observe synthesis_duration_seconds (seconds_between synthesis_start synthesis_end));
    _ ← metric (Observe inference_duration_seconds (inference_time_seconds cell.1));
    _ ← metric (Observe audio_duration_seconds (duration_seconds cell.1));
    _ ← metric (Increment audio_bytes_generated_total
                  (f64_of_Z (Z.of_nat (length (audio_data cell.1)))));
    _ ← metric (inc (requests_total 200));
    mret (audio_response cell.1).

(** Steps 6 to 8: metrics, submission and the wait. *)
Definition submit_speech (synthesis_start : Z) (synth_req : SynthesisRequest)
    : prog sysE HttpResponse :=
  let input_size := f64_of_Z (slen (text synth_req)) in
  _ ← metric (Increment input_characters_total input_size);
  _ ← metric (Observe input_characters input_size);
  _ ← metric (inc (voice_requests_total (voice synth_req)));
  let job := mk_job synth_req 0 (Some success_callback) (Some error_callback) in
  _ ← metric (inc Metrics.active_jobs);
  _ ← set_queue_gauge;
  submitted ← trigger (PoolSubmit job);
  if negb submitted then
    _ ← metric (Decrement Metrics.active_jobs);
    server_error 503 "queue_full" "Server is at capacity. Please try again later."
  else
    _ ← set_queue_gauge;
    o ← trigger AwaitResult;
    _ ← metric (Decrement Metrics.active_jobs);
    _ ← set_queue_gauge;
    finish_speech synthesis_start (callback_cell o).

(** Step 5: pool readiness; then the rest. *)
Definition run_speech (synthesis_start : Z) (deps : HandlerDeps) (synth_req : SynthesisRequest)
    : prog sysE HttpResponse :=
  accepting ← (if d_pool deps then trigger PoolIsAccepting else mret false);
  if negb accepting then
    server_error 503 "model_not_ready"
      "The model is not ready to accept requests. Try again later."
  else submit_speech synthesis_start synth_req.

(** The first failing check answers. *)
Definition check (v : ValidationResult) (k : prog sysE HttpResponse) : prog sysE HttpResponse :=
  if negb (valid v) then reject 400 v else k.

(** Step 4: the fields, in the order of the source. *)
Definition speech_fields (synthesis_start : Z) (parsed : json) (deps : HandlerDeps)
    : prog sysE HttpResponse :=
  model_ ← of_res (value_string parsed "model" "");
  check (validate_model model_) (
    input ← of_res (value_string parsed "input" "");
    let max_chars := match d_config deps with Some cfg => max_input_chars cfg | None => 4096 end in
    check (validate_input input max_chars) (
      voice_ ← of_res (value_string parsed "voice" "");
      check (match d_voice_catalog deps with
             | Some catalog => validate_voice voice_ catalog
             | None => validation_ok
             end) (
        format ← of_res (value_string parsed "response_format" "wav");
        check (validate_response_format format) (
          speed_ ← of_res (value_float parsed "speed" f32_1);
          check (validate_speed speed_)
            (run_speech synthesis_start deps (mk_request input voice_ model_ format speed_)))))).

Definition handle_speech (req : HttpRequest) (deps : HandlerDeps) : prog sysE HttpResponse :=
  synthesis_start ← trigger SNow;
  check (validate_content_type (header req "content-type")) (
    let sz := validate_body_size (slen (body req)) MAX_BODY_BYTES in
    if negb (valid sz) then reject (http_status sz) sz
    else
      match parse (body req) with
      | Ok parsed => speech_fields synthesis_start parsed deps
      | Exn (JsonParseError _) =>
          _ ← metric (inc (requests_total 400));
          of_res (make_error_response 400 "invalid_request_error" "invalid_content_type"
                    "Invalid JSON in request body." "")
      | Exn e => Throw e
      end).
End Handlers.

(** ** Lemmas: what a run of the speech handler shows *)

Definition outcome_of {X} (e : sysE X) : X -> option outcome :=
  match e in sysE X return X -> option outcome with
  | AwaitResult => Some
  | _ => fun _ => None
  end.
Definition outcomes (tr : list (event sysE)) : list outcome := observe (@outcome_of) tr.

(** Submissions, counted statuses, net change of the active gauge, results
    waited for, request ids set. *)
Record sfoot := mk_sfoot {
  sf_subs : list (InferenceJob * bool);
  sf_counted : list Z;
  sf_gauge : Z;
  sf_outs : list outcome;
  sf_ids : list string;
}.

Definition sfoot_of (tr : list (event sysE)) : sfoot :=
  mk_sfoot (submissions tr) (counted tr) (active_gauge tr) (outcomes tr) (request_ids tr).
Definition sfoot_add (f g : sfoot) : sfoot :=
  mk_sfoot (sf_subs f ++ sf_subs g) (sf_counted f ++ sf_counted g) (sf_gauge f + sf_gauge g)
    (sf_outs f ++ sf_outs g) (sf_ids f ++ sf_ids g).

Lemma sfoot_app t1 t2 : sfoot_of (t1 ++ t2) = sfoot_add (sfoot_of t1) (sfoot_of t2).
Proof.
  unfold sfoot_of, sfoot_add, outcomes. cbn [sf_subs sf_counted sf_gauge sf_outs sf_ids].
  autorewrite with http. by rewrite observe_app.
Qed.

Create HintDb sfoot.

(** An event that shows nothing. *)
Definition sfoot_nil : sfoot := mk_sfoot [] [] 0 [] [].
Definition sfoot_status (s : Z) : sfoot := mk_sfoot [] [s] 0 [] [].

Lemma sfoot_add_nil f : sfoot_add sfoot_nil f = f.
Proof. by destruct f. Qed.

(** The footprint of one event. *)
Lemma sfoot_metric op u :
  sfoot_of [Ev (Metric op) u] =
  mk_sfoot [] (option_list (counted_status op)) (gauge_delta op) [] [].
Proof.
  unfold sfoot_of, counted, active_gauge. change (metric_ops [Ev (Metric op) u]) with [op].
  change (zsum (gauge_delta <$> [op])) with (gauge_delta op + 0). rewrite Z.add_0_r.
  by f_equal.
Qed.
Lemma sfoot_now t : sfoot_of [Ev SNow t] = sfoot_nil.
Proof. done. Qed.
Lemma sfoot_accepting b : sfoot_of [Ev PoolIsAccepting b] = sfoot_nil.
Proof. done. Qed.
Lemma sfoot_depth d : sfoot_of [Ev PoolQueueDepth d] = sfoot_nil.
Proof. done. Qed.
Lemma sfoot_submit job ok : sfoot_of [Ev (PoolSubmit job) ok] = mk_sfoot [(job, ok)] [] 0 [] [].
Proof. done. Qed.
Lemma sfoot_await o : sfoot_of [Ev AwaitResult o] = mk_sfoot [] [] 0 [o] [].
Proof. done. Qed.

#[export] Hint Rewrite sfoot_app sfoot_metric sfoot_now sfoot_accepting sfoot_depth sfoot_submit
  sfoot_await sfoot_add_nil : sfoot.

Ltac sfoot_solve :=
  autorewrite with sfoot;
  repeat match goal with Hf : sfoot_of _ = _ |- _ => rewrite Hf; clear Hf end;
  unfold inc; cbn [counted_status gauge_delta option_list];
  unfold sfoot_add, sfoot_nil, sfoot_status; cbn [sf_subs sf_counted sf_gauge sf_outs sf_ids app];
  rewrite ?app_nil_r; reflexivity.

Section HandlerLemmas.
Context {L : JsonLib} {HL : JsonLaws L}.

Lemma server_error_post s code message :
  has_post (server_error s code message) (fun tr r =>
    sfoot_of tr = sfoot_status s /\ r = make_error_response s "server_error" code message "").
Proof.
  intros tr r H. unfold server_error, metric in H. runs_seq H as u.
  apply runs_of_res in H as [-> ->]. split; [|reflexivity]. sfoot_solve.
Qed.

Lemma reject_post s v :
  has_post (reject s v) (fun tr r =>
    sfoot_of tr = sfoot_status s /\ r = make_error_from_validation v).
Proof.
  intros tr r H. unfold reject, metric in H. runs_seq H as u.
  apply runs_of_res in H as [-> ->]. split; [|reflexivity]. sfoot_solve.
Qed.

Lemma set_queue_gauge_post :
  has_post set_queue_gauge (fun tr r => r = Ok tt /\ sfoot_of tr = sfoot_nil).
Proof.
  intros tr r H. unfold set_queue_gauge, metric in H. runs_seq H as d.
  apply runs_trigger in H as ([] & -> & ->). split; [reflexivity|]. sfoot_solve.
Qed.

Lemma finish_speech_post t0 cell :
  has_post (finish_speech t0 cell) (fun tr r =>
    if sempty cell.2 then
      sfoot_of tr = sfoot_status 200 /\ r = Ok (audio_response cell.1)
    else
      sfoot_of tr = sfoot_status 500 /\
      r = make_error_response 500 "server_error" "inference_failed"
            "An error occurred during speech synthesis." "").
Proof.
  intros tr r H. unfold finish_speech, metric in H. destruct (sempty cell.2).
  - cbn [negb] in H. do 6 (runs_skip H). destruct H as [-> ->]. split; [|reflexivity]. sfoot_solve.
  - cbn [negb] in H. runs_seq H as u. apply server_error_post in H as [Hf ->].
    split; [|reflexivity]. sfoot_solve.
Qed.

(** How a request that passed validation ends. *)
Definition speech_job (rq : SynthesisRequest) : InferenceJob :=
  mk_job rq 0 (Some success_callback) (Some error_callback).

Definition speech_end (rq : SynthesisRequest) (f : sfoot) (r : res HttpResponse) : Prop :=
  (f = mk_sfoot [] [503] 0 [] [] /\
   r = make_error_response 503 "server_error" "model_not_ready"
         "The model is not ready to accept requests. Try again later." "") \/
  (f = mk_sfoot [(speech_job rq, false)] [503] 0 [] [] /\
   r = make_error_response 503 "server_error" "queue_full"
         "Server is at capacity. Please try again later." "") \/
  (exists o,
     if sempty (callback_cell o).2 then
       f = mk_sfoot [(speech_job rq, true)] [200] 0 [o] [] /\
       r = Ok (audio_response (callback_cell o).1)
     else
       f = mk_sfoot [(speech_job rq, true)] [500] 0 [o] [] /\
       r = make_error_response 500 "server_error" "inference_failed"
             "An error occurred during speech synthesis." "").

Lemma submit_speech_post t0 rq :
  has_post (submit_speech t0 rq) (fun tr r => speech_end rq (sfoot_of tr) r).
Proof.
  intros tr r H. unfold submit_speech, metric in H. do 4 (runs_skip H).
  apply (runs_after _ _ tt _ _ _ set_queue_gauge_post) in H as (t3 & t4 & -> & Hq1 & H).
  runs_seq H as submitted. destruct submitted; cbn [negb] in H.
  - apply (runs_after _ _ tt _ _ _ set_queue_gauge_post) in H as (t5 & t6 & -> & Hq2 & H).
    runs_seq H as o. runs_skip H.
    apply (runs_after _ _ tt _ _ _ set_queue_gauge_post) in H as (t7 & t8 & -> & Hq3 & H).
    apply finish_speech_post in H. right. right. exists o.
    destruct (sempty (callback_cell o).2); destruct H as [Hf ->]; (split; [|reflexivity]); sfoot_solve.
  - runs_skip H. apply server_error_post in H as [Hf ->]. right. left. split; [|reflexivity]. sfoot_solve.
Qed.

Lemma run_speech_post t0 deps rq :
  has_post (run_speech t0 deps rq) (fun tr r => speech_end rq (sfoot_of tr) r).
Proof.
  intros tr r H. unfold run_speech in H. destruct (d_pool deps).
  - runs_seq H as acc. destruct acc; cbn [negb] in H.
    + apply submit_speech_post in H. by rewrite sfoot_app, sfoot_add_nil.
    + apply server_error_post in H as [Hf ->]. left. split; [|reflexivity]. sfoot_solve.
  - cbn [mbind prog_bind pbind mret prog_ret negb] in H.
    apply server_error_post in H as [Hf ->]. by left.
Qed.

(** Every way a run of the handler can end: a rejection, an uncaught JSON
    error before anything was counted, or a synthesis of a valid request. *)
Definition valid_request (deps : HandlerDeps) (rq : SynthesisRequest) : Prop :=
  valid (validate_model (model rq)) = true /\
  valid (validate_input (text rq)
    match d_config deps with Some cfg => max_input_chars cfg | None => 4096 end) = true /\
  valid (match d_voice_catalog deps with
         | Some catalog => validate_voice (voice rq) catalog
         | None => validation_ok
         end) = true /\
  valid (validate_response_format (response_format rq)) = true /\
  valid (validate_speed (speed rq)) = true.

Definition rejected (f : sfoot) (r : res HttpResponse) : Prop :=
  exists s code message param, (s = 400 \/ s = 413) /\ f = sfoot_status s /\
    r = make_error_response s "invalid_request_error" code message param.

Definition json_thrown (f : sfoot) (r : res HttpResponse) : Prop :=
  f = sfoot_nil /\ exists e, r = Exn e /\ json_exception e.

Definition speech_post (deps : HandlerDeps) (f : sfoot) (r : res HttpResponse) : Prop :=
  rejected f r \/ json_thrown f r \/ exists rq, valid_request deps rq /\ speech_end rq f r.

Lemma check_post v k (Q : sfoot -> res HttpResponse -> Prop) :
  well_formed v -> (valid v = false -> http_status v = 400) ->
  (forall f r, rejected f r -> Q f r) ->
  (valid v = true -> has_post k (fun tr r => Q (sfoot_of tr) r)) ->
  has_post (check v k) (fun tr r => Q (sfoot_of tr) r).
Proof.
  intros Hwf Hs HQ Hk tr r H. unfold check in H. destruct (valid v) eqn:Hv; cbn [negb] in H.
  - by apply Hk.
  - apply reject_post in H as [-> ->]. apply HQ. specialize (Hs eq_refl).
    destruct Hwf as [->|(_ & _ & Ht & _ & _)]; [done|].
    exists 400, (Validation.error_code v), (Validation.error_message v), (error_param v).
    split; [by left|]. split; [done|]. unfold make_error_from_validation. by rewrite Hs, Ht.
Qed.

Lemma of_res_post {A} (x : res A) (k : A -> prog sysE HttpResponse)
    (Q : sfoot -> res HttpResponse -> Prop) :
  (forall e, x = Exn e -> exists m, e = JsonTypeError m) ->
  (forall f r, json_thrown f r -> Q f r) ->
  (forall a, has_post (k a) (fun tr r => Q (sfoot_of tr) r)) ->
  has_post (of_res x ≫= k) (fun tr r => Q (sfoot_of tr) r).
Proof.
  intros Hx HQ Hk tr r H. destruct x as [a|e].
  - by apply (Hk a).
  - destruct H as [-> ->]. apply HQ. split; [done|]. destruct (Hx e eq_refl) as [m ->]. eauto with http.
Qed.

(** All checks but the body size answer 400. *)
Lemma checks_400 :
  (forall s, valid (validate_content_type s) = false -> http_status (validate_content_type s) = 400) /\
  (forall s, valid (validate_model s) = false -> http_status (validate_model s) = 400) /\
  (forall s m, valid (validate_input s m) = false -> http_status (validate_input s m) = 400) /\
  (forall s c, valid (validate_voice s c) = false -> http_status (validate_voice s c) = 400) /\
  (forall s, valid (validate_response_format s) = false ->
     http_status (validate_response_format s) = 400) /\
  (forall x, valid (validate_speed x) = false -> http_status (validate_speed x) = 400).
Proof.
  unfold validate_content_type, validate_model, validate_input, validate_voice,
    validate_response_format, validate_speed.
  split_and!; intros; repeat case_match; done.
Qed.

Lemma speech_fields_post t0 parsed deps :
  has_post (speech_fields t0 parsed deps) (fun tr r => speech_post deps (sfoot_of tr) r).
Proof.
  destruct checks_400 as (_ & Hm & Hi & Hv & Hf & Hs).
  assert (forall f r, rejected f r -> speech_post deps f r) as Hrej by (intros; by left).
  assert (forall f r, json_thrown f r -> speech_post deps f r) as Hexn by (intros; right; by left).
  unfold speech_fields.
  apply of_res_post; [apply value_string_exn|done|]. intros model_.
  apply check_post; [auto with tts|apply Hm|done|]. intros Vm.
  apply of_res_post; [apply value_string_exn|done|]. intros input.
  apply check_post; [auto with tts|apply Hi|done|]. intros Vi.
  apply of_res_post; [apply value_string_exn|done|]. intros voice_.
  apply check_post; [destruct (d_voice_catalog deps); auto with tts| |done|].
  { destruct (d_voice_catalog deps); [apply Hv|done]. }
  intros Vv. apply of_res_post; [apply value_string_exn|done|]. intros format.
  apply check_post; [auto with tts|apply Hf|done|]. intros Vf.
  apply of_res_post; [apply value_float_exn|done|]. intros speed_.
  apply check_post; [auto with tts|apply Hs|done|]. intros Vs.
  eapply has_post_weaken; [apply run_speech_post|]. intros tr r H. right. right.
  eexists. split; [|exact H]. by repeat split.
Qed.

Lemma handle_speech_post req deps :
  has_post (handle_speech req deps) (fun tr r => speech_post deps (sfoot_of tr) r).
Proof.
  destruct checks_400 as (Hc & _).
  assert (forall f r, rejected f r -> speech_post deps f r) as Hrej by (intros; by left).
  intros tr r H. unfold handle_speech in H. runs_seq H as t0.
  rewrite sfoot_app, sfoot_now, sfoot_add_nil. revert H.
  apply (check_post _ _ (speech_post deps)); [auto with tts|apply Hc|done|].
  clear x r. intros _ tr r H.
  destruct (valid (validate_body_size (slen (body req)) MAX_BODY_BYTES)) eqn:Hsz; cbn [negb] in H.
  - destruct (parse (body req)) as [j|e] eqn:Hparse; [by apply speech_fields_post in H|].
    destruct (parse_exn _ _ Hparse) as [[m ->]|[m ->]].
    2: { destruct H as [-> ->]. right. left. split; [done|]. eexists. split; [done|]. right. by exists m. }
    unfold metric in H. runs_skip H. apply runs_of_res in H as [-> ->]. apply Hrej.
    eexists 400, _, _, _. split; [by left|]. split; [sfoot_solve|reflexivity].
  - apply reject_post in H as [-> ->]. apply Hrej. unfold validate_body_size in *.
    case_match; [|done]. eexists 413, _, _, _. split; [by right|]. split; reflexivity.
Qed.

(** Responses built from JSON carry the requested status. *)
Lemma json_response_status s j :
  (exists resp, json_response s j = Ok resp /\ status resp = s /\ binary_body resp = []) \/
  exists m, json_response s j = Exn (JsonTypeError m).
Proof.
  unfold json_response. destruct (dump j) as [text|e] eqn:Hd.
  - left. by eexists.
  - right. apply dump_exn in Hd as [m ->]. by exists m.
Qed.

Lemma make_error_status s ty code message param :
  (exists resp, make_error_response s ty code message param = Ok resp /\ status resp = s /\
     binary_body resp = []) \/
  exists m, make_error_response s ty code message param = Exn (JsonTypeError m).
Proof. apply json_response_status. Qed.
End HandlerLemmas.

(** ** Properties *)

Section HandlerProperties.
Context {L : JsonLib} {HL : JsonLaws L}.

(** An outcome the pool can produce: the verdict on some job. *)
Definition pool_outcome (o : outcome) : Prop :=
  exists job now1 synth now2,
    o = match job_verdict job now1 synth now2 with VError m => OError m | VSuccess r => OSuccess r end.

(** The pool's error messages are never empty, so the handler's test
    [!synth_error.empty()] tells errors from results. *)
Lemma pool_outcome_error m : pool_outcome (OError m) -> sempty m = false.
Proof.
  intros (job & now1 & synth & now2 & Heq). unfold job_verdict in Heq.
  destruct (deadline job <=? now1); [by injection Heq as ->|].
  destruct synth as [r|e]; [destruct (deadline job <=? now2); [by injection Heq as ->|done]|].
  by injection Heq as ->.
Qed.

(** Whatever the JSON library answers, the speech handler submits at most
    one job, and only one whose model, voice, format, text and speed passed
    validation; the job has both callbacks and leaves its deadline to the
    pool. *)
Theorem speech_submits_validated req deps tr r job ok
    (Hrun : runs (handle_speech req deps) tr r) (Hsub : (job, ok) ∈ submissions tr) :
  submissions tr = [(job, ok)] /\ has_callbacks job /\ deadline job = 0 /\
  model (request job) = "voxtral-4b"%string /\
  (forall catalog, d_voice_catalog deps = Some catalog ->
     voice (request job) ∈ (Voices.id <$> catalog)) /\
  (response_format (request job) = ""%string \/ response_format (request job) = "wav"%string) /\
  valid (validate_input (text (request job))
    match d_config deps with Some cfg => max_input_chars cfg | None => 4096 end) = true /\
  valid (validate_speed (speed (request job))) = true.
Proof.
  apply handle_speech_post in Hrun. change (submissions tr) with (sf_subs (sfoot_of tr)) in *.
  assert (exists rq, valid_request deps rq /\
    sf_subs (sfoot_of tr) = [(speech_job rq, ok)] /\ job = speech_job rq)
    as (rq & (Hm & Hi & Hv & Hf & Hs) & Heq & ->).
  { destruct Hrun as [(s & c & m & p & _ & Hf & _)|[[Hf _]|(rq & Hrq & Hend)]];
      [by rewrite Hf in Hsub; apply elem_of_nil in Hsub..|]. exists rq. split; [done|].
    destruct Hend as [[Hf _]|[[Hf _]|[o Ho]]].
    - rewrite Hf in Hsub. by apply elem_of_nil in Hsub.
    - rewrite Hf in Hsub |- *. by apply list_elem_of_singleton in Hsub as [= -> ->].
    - destruct (sempty (callback_cell o).2); destruct Ho as [Hf _]; rewrite Hf in Hsub |- *;
        by apply list_elem_of_singleton in Hsub as [= -> ->]. }
  split; [done|]. cbn [speech_job request deadline]. split; [by split; eexists|]. split; [done|].
  split; [by apply validate_model_valid|]. split.
  - intros catalog Hc. rewrite Hc in Hv. by apply validate_voice_valid in Hv as [_ ?].
  - split; [by apply validate_response_format_valid|]. done.
Qed.

(** Accounting: a run that answers counts exactly one request, under the
    status it answers, one of 200, 400, 413, 500 and 503; the gauge of active
    jobs is back where it was on every run; only a JSON type error or out-of-range
    number can leave the handler. *)
Theorem speech_accounting req deps tr r (Hrun : runs (handle_speech req deps) tr r) :
  active_gauge tr = 0 /\
  match r with
  | Ok resp => counted tr = [status resp] /\ status resp ∈ [200; 400; 413; 500; 503]
  | Exn e => json_exception e
  end.
Proof.
  apply handle_speech_post in Hrun.
  change (active_gauge tr) with (sf_gauge (sfoot_of tr)).
  change (counted tr) with (sf_counted (sfoot_of tr)).
  assert (forall s subs outs ids ty code message param,
    s ∈ [200; 400; 413; 500; 503] ->
    sfoot_of tr = mk_sfoot subs [s] 0 outs ids ->
    r = make_error_response s ty code message param ->
    sf_gauge (sfoot_of tr) = 0 /\
    match r with
    | Ok resp => sf_counted (sfoot_of tr) = [status resp] /\ status resp ∈ [200; 400; 413; 500; 503]
    | Exn e => json_exception e
    end) as Herr.
  { intros s subs outs ids ty code message param Hs -> ->. split; [done|].
    destruct (make_error_status s ty code message param) as [(resp & -> & Hst & _)|[m ->]].
    - by rewrite Hst.
    - apply json_type_exception. }
  destruct Hrun as [(s & c & m & p & Hs & Hf & Hr)|[[Hf (e & -> & He)]|(rq & _ & Hend)]].
  - eapply Herr; [|exact Hf|exact Hr]. destruct Hs as [->| ->]; set_solver.
  - by rewrite Hf.
  - destruct Hend as [[Hf Hr]|[[Hf Hr]|[o Ho]]]; [eapply Herr; [|done..]; set_solver..|].
    destruct (sempty (callback_cell o).2); destruct Ho as [Hf Hr].
    + rewrite Hf, Hr. split; [done|]. split; [done|]. set_solver.
    + eapply Herr; [|done..]. set_solver.
Qed.

(** With a pool that answers verdicts, a response with status 200 carries
    exactly the audio the backend produced, a verdict with an error gives 500,
    and a request that was never handed to the pool gives neither. *)
Theorem speech_outcome req deps tr resp
    (Hrun : runs (handle_speech req deps) tr (Ok resp))
    (Hpool : Forall pool_outcome (outcomes tr)) :
  (outcomes tr = [] /\ status resp ∈ [400; 413; 503] /\ binary_body resp = []) \/
  (exists result, outcomes tr = [OSuccess result] /\ resp = audio_response result) \/
  (exists m, outcomes tr = [OError m] /\ status resp = 500 /\ binary_body resp = []).
Proof.
  apply handle_speech_post in Hrun. change (outcomes tr) with (sf_outs (sfoot_of tr)) in *.
  assert (forall s ty code message param, Ok resp = make_error_response s ty code message param ->
    status resp = s /\ binary_body resp = []) as Herr.
  { intros s ty code message param Hr.
    destruct (make_error_status s ty code message param) as [(resp' & Hr' & ? & ?)|[m Hr']];
      rewrite Hr' in Hr; [|done]. by injection Hr as ->. }
  destruct Hrun as [(s & c & m & p & Hs & Hf & Hr)|[[_ (e & Hr & _)]|(rq & _ & Hend)]]; [|done|].
  - left. rewrite Hf. apply Herr in Hr as [-> ->]. split; [done|]. split; [|done].
    destruct Hs as [->| ->]; set_solver.
  - destruct Hend as [[Hf Hr]|[[Hf Hr]|[o Ho]]].
    1, 2: left; rewrite Hf; apply Herr in Hr as [-> ->]; (split; [done|]); (split; [set_solver|done]).
    right. destruct o as [result|m]; cbn [callback_cell fst snd sempty] in Ho.
    + left. destruct Ho as [Hf Hr]. injection Hr as ->. exists result. by rewrite Hf.
    + right. exists m. destruct (sempty m) eqn:Hm.
      * destruct Ho as [Hf _]. rewrite Hf in Hpool. cbn in Hpool.
        apply (Forall_singleton pool_outcome), pool_outcome_error in Hpool. congruence.
      * destruct Ho as [Hf Hr]. rewrite Hf. by apply Herr in Hr.
Qed.

(** A body that parses to a JSON value whose "model" look-up throws: the
    exception leaves the handler uncounted. *)
Lemma speech_type_error_escapes req deps j m :
  valid (validate_content_type (header req "content-type")) = true ->
  valid (validate_body_size (slen (body req)) MAX_BODY_BYTES) = true ->
  parse (body req) = Ok j -> value_string j "model" "" = Exn (JsonTypeError m) ->
  runs (handle_speech req deps) [Ev SNow 0] (Exn (JsonTypeError m)).
Proof.
  intros Hc Hb Hp Hv. exists 0, []. split; [done|]. unfold check. rewrite Hc. cbn [negb].
  rewrite Hb. cbn [negb]. rewrite Hp. unfold speech_fields. rewrite Hv. done.
Qed.

(** A number that no double holds: the same. *)
Lemma speech_out_of_range_escapes req deps m :
  valid (validate_content_type (header req "content-type")) = true ->
  valid (validate_body_size (slen (body req)) MAX_BODY_BYTES) = true ->
  parse (body req) = Exn (JsonOutOfRange m) ->
  runs (handle_speech req deps) [Ev SNow 0] (Exn (JsonOutOfRange m)).
Proof.
  intros Hc Hb Hp. exists 0, []. split; [done|]. unfold check. rewrite Hc. cbn [negb].
  rewrite Hb. cbn [negb]. by rewrite Hp.
Qed.

(** Readiness: GET /ready answers 200 exactly when a backend is there and
    ready and the pool accepts, and 503 otherwise. *)
Theorem ready_correct deps tr resp (Hrun : runs (handle_ready deps) tr (Ok resp)) :
  (status resp = 200 \/ status resp = 503) /\
  (status resp = 200 <->
   d_backend deps = true /\ d_pool deps = true /\ probes tr = [true; true]).
Proof.
  assert (Hstatus : forall (b : bool) j, json_response (if b then 200 else 503) j = Ok resp ->
    status resp = if b then 200 else 503).
  { intros b j Hr. destruct (json_response_status (if b then 200 else 503) j)
      as [(resp' & Hr' & Hs & _)|[m Hr']]; rewrite Hr' in Hr; [|done]. by injection Hr as <-. }
  unfold handle_ready in Hrun.
  destruct (d_backend deps), (d_pool deps);
    repeat (cbn [mbind prog_bind pbind mret prog_ret trigger] in Hrun;
            lazymatch type of Hrun with runs (Vis _ _) _ _ => runs_skip Hrun end);
    cbn [mbind prog_bind pbind mret prog_ret trigger] in Hrun;
    apply runs_of_res in Hrun as [-> Hr]; symmetry in Hr; apply Hstatus in Hr as ->.
  all: repeat match goal with b : bool |- _ => destruct b end; cbn [andb app].
  all: split; [by auto|]; split; [intros [=]|]; try by intros (? & ? & [=]).
  all: done.
Qed.
End HandlerProperties.

(** ** Witnesses

    A small JSON library: values, typed look-ups with the exceptions of the
    documentation, and a parser that knows a few documents. *)
Module HandlerWitness.

Inductive toy :=
| TNull
| TBool (b : bool)
| TNum (x : spec_float)
| TStr (s : string)
| TArr (l : list toy)
| TObj (fields : list (string * toy)).

Fixpoint lookup (fields : list (string * toy)) (key : string) : option toy :=
  match fields with
  | [] => None
  | (k, v) :: rest => if String.eqb k key then Some v else lookup rest key
  end.

Definition toy_value {A} (get : toy -> option A) (j : toy) (key : string) (dflt : A) : res A :=
  match j with
  | TObj fields =>
      match lookup fields key with
      | None => Ok dflt
      | Some v => match get v with Some a => Ok a | None => Exn (JsonTypeError "302") end
      end
  | _ => Exn (JsonTypeError "306")
  end.

Definition speech_document : toy :=
  TObj [("model", TStr "voxtral-4b"); ("input", TStr "Hello"); ("voice", TStr "neutral_female")].

Definition toy_parse (s : string) : res toy :=
  if String.eqb s "SPEECH" then Ok speech_document
  else if String.eqb s "[]" then Ok (TArr [])
  else if String.eqb s "1e999" then Exn (JsonOutOfRange "406")
  else Exn (JsonParseError "101").

#[export] Instance toy_json : JsonLib := {
  json := toy;
  jnull := TNull;
  jbool := TBool;
  jint := fun z => TNum (f64_of_Z z);
  jstr := TStr;
  jarray := TArr;
  jobject := TObj;
  parse := toy_parse;
  value_string := toy_value (fun v => match v with TStr s => Some s | _ => None end);
  value_float := toy_value (fun v => match v with TNum x => Some x | _ => None end);
  dump := fun j => match j with TObj _ => Ok "{...}"%string | _ => Ok "[...]"%string end;
}.

#[export] Instance toy_laws : JsonLaws toy_json.
Proof.
  split; cbn.
  - unfold toy_parse. intros text e H. repeat case_match; try done; injection H as <-; eauto.
  - unfold toy_value. intros j k d e H. repeat case_match; try done; injection H as <-; by eexists.
  - unfold toy_value. intros j k d e H. repeat case_match; try done; injection H as <-; by eexists.
  - by intros [] e.
Qed.

(** The environment answers in order: clocks 5, a ready pool with one queued
    job, an accepted job and its result. *)
Definition demo_result : SynthesisResult := mk_result [1; 2; 3] 24000 f64_1 f64_1.

Definition demo_handler : handler sysE unit := fun X e s =>
  match e in sysE X return option (X * unit) with
  | SNow => Some (5, s)
  | Rand32 => Some (7, s)
  | SLog _ => Some (tt, s)
  | Metric _ => Some (tt, s)
  | MetricsSerialize => Some (""%string, s)
  | SetRequestId _ => Some (tt, s)
  | BackendIsReady => Some (true, s)
  | PoolIsAccepting => Some (true, s)
  | PoolQueueDepth => Some (1, s)
  | PoolSubmit _ => Some (true, s)
  | AwaitResult => Some (OSuccess demo_result, s)
  | AuthIsBlocked _ => Some (false, s)
  | AuthRecordFailure _ => Some (false, s)
  | CheckRequest _ => Some (0, s)
  | PoolShutdown => Some (tt, s)
  | HttpNew => Some (tt, s)
  | HttpConfigure _ _ _ => Some (tt, s)
  | SetRunning _ => Some (tt, s)
  | HttpListen _ _ => Some (true, s)
  | HttpStop => Some (tt, s)
  | HttpDelete => Some (tt, s)
  end.

Definition demo_deps : HandlerDeps := mk_deps true (Some voice_catalog) true (Some config_init) 0.

Definition demo_request : HttpRequest :=
  mk_http_request "POST" "/v1/audio/speech" "SPEECH"
    {["content-type" := "application/json"%string]} "10.0.0.1".

Definition demo_speech : list (event sysE) * res HttpResponse :=
  match exec demo_handler (handle_speech demo_request demo_deps) tt with
  | Some (tr, r, _) => (tr, r)
  | None => ([], Exn (RuntimeError ""))
  end.

Lemma demo_speech_run : runs (handle_speech demo_request demo_deps) demo_speech.1 demo_speech.2.
Proof. apply (exec_runs demo_handler _ tt _ _ tt). by vm_compute. Qed.

Lemma demo_speech_ok : demo_speech.2 = Ok (audio_response demo_result).
Proof. by vm_compute. Qed.

Lemma demo_speech_run_ok :
  runs (handle_speech demo_request demo_deps) demo_speech.1 (Ok (audio_response demo_result)).
Proof. rewrite <- demo_speech_ok. exact demo_speech_run. Qed.

Definition demo_job : InferenceJob :=
  speech_job (mk_request "Hello" "neutral_female" "voxtral-4b" "wav" f32_1).

Lemma demo_submission : (demo_job, true) ∈ submissions demo_speech.1.
Proof. vm_compute. by left. Qed.

Lemma speech_submits_validated_witness :
  submissions demo_speech.1 = [(demo_job, true)] /\ has_callbacks demo_job /\
  deadline demo_job = 0.
Proof.
  destruct (speech_submits_validated demo_request demo_deps demo_speech.1 demo_speech.2 demo_job
    true demo_speech_run demo_submission) as (H1 & H2 & H3 & _).
  split; [exact H1|]. split; [exact H2|exact H3].
Defined.

Lemma speech_accounting_witness :
  active_gauge demo_speech.1 = 0 /\
  match demo_speech.2 with
  | Ok resp => counted demo_speech.1 = [status resp] /\ status resp ∈ [200; 400; 413; 500; 503]
  | Exn e => json_exception e
  end.
Proof.
  exact (speech_accounting demo_request demo_deps demo_speech.1 demo_speech.2 demo_speech_run).
Defined.

Lemma demo_pool : Forall pool_outcome (outcomes demo_speech.1).
Proof.
  vm_compute. constructor; [|constructor].
  exists (with_deadline demo_job 10), 0, (Ok demo_result), 5. by vm_compute.
Qed.

Lemma speech_outcome_witness :
  let resp := audio_response demo_result in
  (outcomes demo_speech.1 = [] /\ status resp ∈ [400; 413; 503] /\ binary_body resp = []) \/
  (exists result, outcomes demo_speech.1 = [OSuccess result] /\ resp = audio_response result) \/
  (exists m, outcomes demo_speech.1 = [OError m] /\ status resp = 500 /\ binary_body resp = []).
Proof.
  exact (speech_outcome demo_request demo_deps demo_speech.1 (audio_response demo_result)
    demo_speech_run_ok demo_pool).
Defined.

Definition demo_ready : HttpResponse :=
  mk_response 200 {["Content-Type" := "application/json"%string]} "{...}" [].

Lemma ready_correct_witness :
  status demo_ready = 200 /\
  (200 = 200 <->
   d_backend demo_deps = true /\ d_pool demo_deps = true /\
   probes [Ev BackendIsReady true; Ev PoolIsAccepting true; Ev PoolQueueDepth 1] = [true; true]).
Proof.
  split; [reflexivity|].
  refine (proj2 (ready_correct demo_deps
    [Ev BackendIsReady true; Ev PoolIsAccepting true; Ev PoolQueueDepth 1] demo_ready _)).
  answer true. answer true. answer 1. split; reflexivity.
Defined.

(** A JSON array as body: the exception escapes. *)
Example array_body_escapes :
  runs (handle_speech (mk_http_request "POST" "/v1/audio/speech" "[]"
          {["content-type" := "application/json"%string]} "10.0.0.1") demo_deps)
    [Ev SNow 0] (Exn (JsonTypeError "306")).
Proof. by apply (@speech_type_error_escapes toy_json _ _ (TArr [])). Qed.

(** A number out of range as body: so does this one. *)
Example out_of_range_body_escapes :
  runs (handle_speech (mk_http_request "POST" "/v1/audio/speech" "1e999"
          {["content-type" := "application/json"%string]} "10.0.0.1") demo_deps)
    [Ev SNow 0] (Exn (JsonOutOfRange "406")).
Proof. by apply (@speech_out_of_range_escapes toy_json). Qed.
End HandlerWitness.
