(* ===== verification/Uuid.v ===== *)
(** * Shape of request ids

    [generate_request_id()] of [src/server/request_handler.cpp] always answers
    a version-4 UUID: lemmas on hexadecimal printing and the bit masks. *)

From Stdlib Require Import ZArith Lia Ascii String.
From stdpp Require Import base tactics numbers list strings.
From S2P Require Import Prelude Effects Http RequestHandler.

#[local] Open Scope Z_scope.

(** ** Fixed-width hexadecimal *)

Fixpoint hex_fixed (n : nat) (v : Z) : string :=
  match n with
  | O => ""
  | S n' => hex_fixed n' (v / 16) +:+ String (hex_digit (v mod 16)) ""
  end.

Lemma hex_go_acc fuel v acc : hex_go fuel v acc = hex_go fuel v "" +:+ acc.
Proof.
  revert v acc. induction fuel as [|fuel IH]; intros v acc; [done|]. cbn [hex_go].
  destruct (v <? 16); [done|].
  rewrite IH, (IH _ (String _ "")), sapp_assoc. done.
Qed.

Lemma hex_fixed_zero n : hex_fixed n 0 = zeros n.
Proof.
  induction n as [|n IH]; [done|]. cbn [hex_fixed zeros].
  change (0 / 16) with 0. rewrite IH. change (hex_digit (0 mod 16)) with "0"%char.
  clear IH. induction n as [|n IH]; [done|]. cbn [zeros]. by rewrite sapp_cons, IH.
Qed.

Lemma hex_go_fixed n fuel v :
  (S n <= fuel)%nat -> 0 <= v < 16 ^ Z.of_nat (S n) ->
  zeros (S n - String.length (hex_go fuel v "")) +:+ hex_go fuel v "" = hex_fixed (S n) v.
Proof.
  revert fuel v. induction n as [|n IH]; intros fuel v Hf Hv; (destruct fuel as [|fuel]; [lia|]).
  - cbn [hex_go]. destruct (Z.ltb_spec v 16); [|change (16 ^ Z.of_nat 1) with 16 in Hv; lia].
    cbn. by rewrite Z.mod_small by lia.
  - cbn [hex_go]. destruct (Z.ltb_spec v 16).
    + change (hex_fixed (S (S n)) v)
        with (hex_fixed (S n) (v / 16) +:+ String (hex_digit (v mod 16)) "").
      by rewrite Z.div_small, Z.mod_small, hex_fixed_zero by lia.
    + rewrite hex_go_acc. rewrite slength_app.
      change (hex_fixed (S (S n)) v)
        with (hex_fixed (S n) (v / 16) +:+ String (hex_digit (v mod 16)) "").
      rewrite <- (IH fuel (v / 16)), <- sapp_assoc.
      * do 3 f_equal. cbn. lia.
      * lia.
      * split; [apply Z.div_pos; lia|]. apply Z.div_lt_upper_bound; [lia|].
        replace (Z.of_nat (S (S n))) with (1 + Z.of_nat (S n)) in Hv by lia.
        rewrite Z.pow_add_r in Hv by lia. lia.
Qed.

Lemma printf_fixed n v :
  (n < 8)%nat -> 0 <= v < 16 ^ Z.of_nat (S n) -> printf_0x (S n) v = hex_fixed (S n) v.
Proof. intros Hn Hv. by apply hex_go_fixed. Qed.

(** ** Masks *)

Lemma land_range x n : 0 <= n -> 0 <= Z.land x (2 ^ n - 1) < 2 ^ n.
Proof.
  intros Hn. replace (2 ^ n - 1) with (Z.ones n) by (rewrite Z.ones_equiv; lia).
  rewrite Z.land_ones by done. apply Z.mod_pos_bound. lia.
Qed.

Lemma land16_range x : 0 <= Z.land x 0xFFFF < 16 ^ 4.
Proof. apply (land_range x 16). lia. Qed.

(** The top digit of a group of four. *)
Definition top_nibble (x : Z) : Z := x / 16 / 16 / 16 mod 16.

Lemma top_nibble_bits x : top_nibble x = Z.land (Z.shiftr x 12) (Z.ones 4).
Proof.
  unfold top_nibble. rewrite Z.land_ones, Z.shiftr_div_pow2 by lia.
  rewrite !Z.div_div by lia. done.
Qed.

(** Bits 0 to 3 decide a number below 16. *)
Lemma nibble_ext x y :
  (forall i, 0 <= i < 4 -> Z.testbit x i = Z.testbit y i) -> Z.land x (Z.ones 4) = Z.land y (Z.ones 4).
Proof.
  intros H. apply Z.bits_inj'. intros i Hi. rewrite !Z.land_spec.
  destruct (Z.lt_ge_cases i 4).
  - by rewrite H.
  - rewrite Z.ones_spec_high by lia. by rewrite !andb_false_r.
Qed.

Lemma version_nibble b : top_nibble (Z.land (set_version b) 0xFFFF) = 4.
Proof.
  rewrite top_nibble_bits. change 4 with (Z.land 4 (Z.ones 4)) at 2. apply nibble_ext.
  intros i Hi. unfold set_version. rewrite Z.shiftr_spec, !Z.land_spec, Z.lor_spec, Z.land_spec by lia.
  assert (i = 0 \/ i = 1 \/ i = 2 \/ i = 3) as [->|[->|[->| ->]]] by lia; cbn;
    by rewrite ?andb_false_r, ?andb_true_r, ?orb_true_r.
Qed.

Lemma variant_nibble c :
  exists k, 0 <= k < 4 /\ top_nibble (Z.land (Z.shiftr (set_variant c) 16) 0xFFFF) = 8 + k.
Proof.
  exists (Z.land (Z.shiftr c 28) (Z.ones 2)). split.
  { rewrite Z.land_ones by lia. apply Z.mod_pos_bound. lia. }
  rewrite top_nibble_bits.
  assert (8 + Z.land (Z.shiftr c 28) (Z.ones 2) = Z.lor 8 (Z.land (Z.shiftr c 28) (Z.ones 2))) as ->.
  { rewrite Z.land_ones by lia. pose proof (Z.mod_pos_bound (Z.shiftr c 28) (2 ^ 2)).
    assert (Z.shiftr c 28 mod 2 ^ 2 = 0 \/ Z.shiftr c 28 mod 2 ^ 2 = 1 \/
            Z.shiftr c 28 mod 2 ^ 2 = 2 \/ Z.shiftr c 28 mod 2 ^ 2 = 3)
      as [->|[->|[->| ->]]] by lia; done. }
  transitivity (Z.land (Z.lor 8 (Z.land (Z.shiftr c 28) (Z.ones 2))) (Z.ones 4)).
  - apply nibble_ext. intros i Hi. unfold set_variant.
    rewrite Z.shiftr_spec, Z.land_spec, Z.shiftr_spec, !Z.lor_spec, !Z.land_spec, Z.shiftr_spec by lia.
    assert (i = 0 \/ i = 1 \/ i = 2 \/ i = 3) as [->|[->|[->| ->]]] by lia; cbn;
      rewrite ?andb_false_r, ?andb_true_r, ?orb_true_r, ?orb_false_r; done.
  - rewrite Z.land_lor_distr_l. f_equal. rewrite <- Z.land_assoc. done.
Qed.

(** ** The shape of an id *)

Definition is_hex (c : ascii) : bool :=
  ((48 <=? byte_of c) && (byte_of c <=? 57)) || ((97 <=? byte_of c) && (byte_of c <=? 102)).

Definition is_char (c : ascii) : ascii -> bool := Ascii.eqb c.
Definition is_variant (c : ascii) : bool :=
  is_char "8" c || is_char "9" c || is_char "a" c || is_char "b" c.

(** xxxxxxxx-xxxx-4xxx-yxxx-xxxxxxxxxxxx, y in 8, 9, a, b. *)
Definition uuid_pattern : list (ascii -> bool) :=
  replicate 8 is_hex ++ [is_char "-"] ++ replicate 4 is_hex ++ [is_char "-"] ++
  [is_char "4"] ++ replicate 3 is_hex ++ [is_char "-"] ++
  [is_variant] ++ replicate 3 is_hex ++ [is_char "-"] ++ replicate 12 is_hex.

Definition uuid_shape (s : string) : Prop :=
  Forall2 (fun p c => p c = true) uuid_pattern (schars s).

Lemma hex_digit_ok v : is_hex (hex_digit (v mod 16)) = true.
Proof.
  pose proof (Z.mod_pos_bound v 16) as H. set (d := v mod 16) in *. clearbody d.
  assert (d ∈ seqZ 0 16) as Hin by (apply elem_of_seqZ; lia).
  revert d Hin H. apply (Forall_forall (fun d => _ -> _)). repeat (constructor; [done|]). constructor.
Qed.

Lemma u32_range x : 0 <= u32 x < 16 ^ 8.
Proof. apply (u32_bound x). Qed.

Lemma format_uuid_shape a b c d :
  0 <= a < 16 ^ 8 -> 0 <= d < 16 ^ 8 ->
  uuid_shape (format_uuid a (set_version b) (set_variant c) d).
Proof.
  intros Ha Hd. unfold format_uuid.
  rewrite !printf_fixed by (lia || done || apply land16_range).
  pose proof (version_nibble b) as Hv. destruct (variant_nibble c) as (k & Hk & Hc).
  unfold top_nibble in Hv, Hc.
  set (b2 := Z.land (set_version b) 0xFFFF) in *.
  set (c1 := Z.land (Z.shiftr (set_variant c) 16) 0xFFFF) in *.
  unfold uuid_shape. cbn -[Z.div Z.modulo hex_digit]. rewrite Hv, Hc.
  repeat first [apply Forall2_cons; split; [first [apply hex_digit_ok | reflexivity | idtac]|]
               | apply Forall2_nil].
  - by assert (k = 0 \/ k = 1 \/ k = 2 \/ k = 3) as [->|[->|[->| ->]]] by lia.
  - done.
Qed.

Lemma schars_length s : length (schars s) = String.length s.
Proof. unfold schars. induction s as [|c s IH]; [done|]. simpl. by f_equal. Qed.

(** The runs of [generate_request_id]: four draws and an id of that shape. *)
Lemma generate_request_id_post :
  has_post generate_request_id (fun tr r =>
    sfoot_of tr = sfoot_nil /\ exists id, r = Ok id /\ uuid_shape id).
Proof.
  intros tr r H. unfold generate_request_id, rand32 in H.
  runs_seq H as a. runs_seq H as b. runs_seq H as c. runs_seq H as d.
  destruct H as [-> ->]. split; [done|]. eexists. split; [done|].
  apply format_uuid_shape; apply u32_range.
Qed.

(** Every request id is a version-4 UUID: 36 characters, hyphens at the
    right places, version digit 4, variant digit 8, 9, a or b, and lowercase
    hexadecimal digits elsewhere, whatever the random generator answers. *)
Theorem request_id_is_uuid tr r (Hrun : runs generate_request_id tr r) :
  exists id, r = Ok id /\ uuid_shape id /\ String.length id = 36%nat.
Proof.
  apply generate_request_id_post in Hrun as (_ & id & -> & Hs). exists id.
  split; [done|]. split; [done|]. apply Forall2_length in Hs. rewrite schars_length in Hs.
  by rewrite <- Hs.
Qed.

Lemma request_id_is_uuid_witness :
  exists id, Ok "ffffffff-0000-4000-bfff-ffff00000001"%string = Ok id /\ uuid_shape id /\
    String.length id = 36%nat.
Proof.
  refine (request_id_is_uuid
    [Ev Rand32 (-1); Ev Rand32 0; Ev Rand32 (2 ^ 32 - 1); Ev Rand32 (2 ^ 32 + 1)] _ _).
  answer (-1). answer 0. answer (2 ^ 32 - 1). answer (2 ^ 32 + 1). split; reflexivity.
Defined.
