(* ===== verification/Handoff.v ===== *)
(** * The result of a job, handed from the worker to the handler

    [handle_speech] ([src/server/request_handler.cpp]) keeps [result_mutex],
    [result_cv], [result_ready], [synth_result] and [synth_error] on its stack;
    the closures of its job refer to them and run on the worker thread, while
    the handler waits on the condition variable and then returns, which destroys
    them.  Here both threads run statement by statement, with spurious and
    early notifications.  [Service] and [System] hand the result over in one step
    and wait with [AwaitResult]; the properties here are why that is a faithful
    view. *)

From Stdlib Require Import ZArith Lia Ascii String SpecFloat.
From stdpp Require Import base tactics numbers list strings.
From S2P Require Import Prelude Effects Backend Http RequestHandler.

#[local] Open Scope Z_scope.

(** ** The variables of the handler *)

(** [result_mutex] is held by no one, the handler ([true]) or the worker;
    [result_cv] has the handler in its wait set or not; [frame_alive] until the
    handler returns. *)
Record frame := mk_frame {
  result_mutex : option bool;
  result_cv : bool;
  result_ready : bool;
  synth_result : SynthesisResult;
  synth_error : string;
  frame_alive : bool;
}.

Definition frame_init : frame := mk_frame None false false result_init "" true.

Definition set_mutex (m : option bool) (f : frame) : frame :=
  mk_frame m (result_cv f) (result_ready f) (synth_result f) (synth_error f) (frame_alive f).
Definition set_cv (w : bool) (f : frame) : frame :=
  mk_frame (result_mutex f) w (result_ready f) (synth_result f) (synth_error f) (frame_alive f).
Definition set_ready (f : frame) : frame :=
  mk_frame (result_mutex f) (result_cv f) true (synth_result f) (synth_error f) (frame_alive f).
Definition set_result (r : SynthesisResult) (f : frame) : frame :=
  mk_frame (result_mutex f) (result_cv f) (result_ready f) r (synth_error f) (frame_alive f).
Definition set_error (m : string) (f : frame) : frame :=
  mk_frame (result_mutex f) (result_cv f) (result_ready f) (synth_result f) m (frame_alive f).
Definition destroy (f : frame) : frame :=
  mk_frame (result_mutex f) (result_cv f) (result_ready f) (synth_result f) (synth_error f) false.

(** ** Statements *)

(** [FCvWait] enters the wait set and releases the mutex; [FCvWake] returns
    once notified, or for no reason. *)
Inductive frameE : Type -> Type :=
| FLock : frameE unit
| FUnlock : frameE unit
| FStoreResult (r : SynthesisResult) : frameE unit
| FStoreError (m : string) : frameE unit
| FSetReady : frameE unit
| FNotify : frameE unit
| FLoadReady : frameE bool
| FCvWait : frameE unit
| FCvWake : frameE unit
| FLoadError : frameE string
| FLoadResult : frameE SynthesisResult
| FDestroy : frameE unit.

(** [None]: the call blocks. *)
Definition frame_perform (me spurious : bool) {X} (e : frameE X) (f : frame) : option (X * frame) :=
  match e in frameE X return option (X * frame) with
  | FLock =>
      match result_mutex f with
      | None => Some (tt, set_mutex (Some me) f)
      | Some _ => None
      end
  | FUnlock => Some (tt, set_mutex None f)
  | FStoreResult r => Some (tt, set_result r f)
  | FStoreError m => Some (tt, set_error m f)
  | FSetReady => Some (tt, set_ready f)
  | FNotify => Some (tt, set_cv false f)
  | FLoadReady => Some (result_ready f, f)
  | FCvWait => Some (tt, set_mutex None (set_cv true f))
  | FCvWake => if result_cv f && negb spurious then None else Some (tt, set_cv false f)
  | FLoadError => Some (synth_error f, f)
  | FLoadResult => Some (synth_result f, f)
  | FDestroy => Some (tt, destroy f)
  end.

(** ** The closures *)

Definition store_outcome (o : outcome) : prog frameE unit :=
  match o with
  | OSuccess r => trigger (FStoreResult r)
  | OError m => trigger (FStoreError m)
  end.

(** [on_success] and [on_error], up to the end of the [lock_guard]. *)
Definition closure (o : outcome) : prog frameE unit :=
  _ ← trigger FLock;
  _ ← store_outcome o;
  _ ← trigger FSetReady;
  _ ← trigger FNotify;
  trigger FUnlock.

(** ** The handler *)

Definition take_lock : prog frameE bool := _ ← trigger FLock; mret false.

(** One round of [result_cv.wait(lock, pred)]; [true]: the wait is over. *)
Definition wait_round : prog frameE bool :=
  ready ← trigger FLoadReady;
  if ready : bool then mret true
  else
    _ ← trigger FCvWait;
    _ ← trigger FCvWake;
    take_lock.

(** The end of the block, the two variables read, and the return. *)
Definition leave : prog frameE (SynthesisResult * string) :=
  _ ← trigger FUnlock;
  m ← trigger FLoadError;
  r ← trigger FLoadResult;
  _ ← trigger FDestroy;
  mret (r, m).

(** ** The two threads *)

Inductive handler_state :=
| Awaiting (p : prog frameE bool)
| Leaving (p : prog frameE (SynthesisResult * string)).

Inductive closure_state :=
| NotCalled
| Called (o : outcome) (p : prog frameE unit).

Definition settle_wait (p : prog frameE bool) : handler_state :=
  match p with
  | Ret true => Leaving leave
  | Ret false => Awaiting wait_round
  | _ => Awaiting p
  end.

Record handoff := mk_handoff {
  the_frame : frame;
  the_handler : handler_state;
  the_closure : closure_state;
}.

Definition handoff_init : handoff := mk_handoff frame_init (Awaiting take_lock) NotCalled.

(** The next statement of the worker, and of the handler. *)
Definition closure_turn (spurious : bool) (y : handoff) : option handoff :=
  match the_closure y with
  | Called o (Vis e k) =>
      '(x, f) ← frame_perform false spurious e (the_frame y);
      Some (mk_handoff f (the_handler y) (Called o (k x)))
  | _ => None
  end.

Definition handler_turn (spurious : bool) (y : handoff) : option handoff :=
  match the_handler y with
  | Awaiting (Vis e k) =>
      '(x, f) ← frame_perform true spurious e (the_frame y);
      Some (mk_handoff f (settle_wait (k x)) (the_closure y))
  | Leaving (Vis e k) =>
      '(x, f) ← frame_perform true spurious e (the_frame y);
      Some (mk_handoff f (Leaving (k x)) (the_closure y))
  | _ => None
  end.

(** The worker calls one closure, once; each thread makes a step. *)
Inductive handoff_step (spurious : bool) : handoff -> handoff -> Prop :=
| ho_call y o :
    the_closure y = NotCalled ->
    handoff_step spurious y (mk_handoff (the_frame y) (the_handler y) (Called o (closure o)))
| ho_closure y y' : closure_turn spurious y = Some y' -> handoff_step spurious y y'
| ho_handler y y' : handler_turn spurious y = Some y' -> handoff_step spurious y y'.

Inductive handed : handoff -> Prop :=
| handed_init : handed handoff_init
| handed_step sp y y' : handed y -> handoff_step sp y y' -> handed y'.

(** Steps without spurious wake-ups, once a closure is called. *)
Inductive quiet_steps : nat -> handoff -> handoff -> Prop :=
| quiet_none y : quiet_steps 0 y y
| quiet_one n y y1 y2 :
    the_closure y <> NotCalled -> handoff_step false y y1 -> quiet_steps n y1 y2 ->
    quiet_steps (S n) y y2.

(** ** Races *)

(** The variable a statement accesses outside the mutex and the condition
    variable, and whether it writes. *)
Inductive variable := VReady | VResult | VError.

#[export] Instance variable_eq_dec : EqDecision variable.
Proof. solve_decision. Defined.

Definition access {X} (e : frameE X) : option (variable * bool) :=
  match e with
  | FStoreResult _ => Some (VResult, true)
  | FStoreError _ => Some (VError, true)
  | FSetReady => Some (VReady, true)
  | FLoadReady => Some (VReady, false)
  | FLoadError => Some (VError, false)
  | FLoadResult => Some (VResult, false)
  | _ => None
  end.

Definition next_access {A} (p : prog frameE A) : option (variable * bool) :=
  match p with Vis e _ => access e | _ => None end.

Definition handler_access (h : handler_state) : option (variable * bool) :=
  match h with Awaiting p => next_access p | Leaving p => next_access p end.

Definition closure_access (c : closure_state) : option (variable * bool) :=
  match c with NotCalled => None | Called _ p => next_access p end.

(** Both threads are about to access the same variable, one of them to write
    it. *)
Definition race (y : handoff) : bool :=
  match handler_access (the_handler y), closure_access (the_closure y) with
  | Some (v1, w1), Some (v2, w2) => bool_decide (v1 = v2) && (w1 || w2)
  | _, _ => false
  end.

(** The closure has statements left. *)
Definition closure_active (c : closure_state) : bool :=
  match c with Called _ (Vis _ _) => true | _ => false end.

(** ** Lemmas: where the two threads can be *)

(** The worker before the call, at each statement of the closure, and after. *)
Inductive cstage := CNot | CLock | CStore | CReady | CNotify | CUnlock | CDone.
(** The handler at each statement from the wait to its return. *)
Inductive hstage := HLock | HCheck | HWait | HWake | HUnlock | HError | HResult | HDestroy | HGone.

Definition closure_at (o : outcome) (c : cstage) : closure_state :=
  match c with
  | CNot => NotCalled
  | CLock => Called o (closure o)
  | CStore => Called o (_ ← store_outcome o; _ ← trigger FSetReady; _ ← trigger FNotify; trigger FUnlock)
  | CReady => Called o (_ ← trigger FSetReady; _ ← trigger FNotify; trigger FUnlock)
  | CNotify => Called o (_ ← trigger FNotify; trigger FUnlock)
  | CUnlock => Called o (trigger FUnlock)
  | CDone => Called o (Ret tt)
  end.

Definition handler_at (cell : SynthesisResult * string) (h : hstage) : handler_state :=
  match h with
  | HLock => Awaiting take_lock
  | HCheck => Awaiting wait_round
  | HWait => Awaiting (_ ← trigger FCvWait; _ ← trigger FCvWake; take_lock)
  | HWake => Awaiting (_ ← trigger FCvWake; take_lock)
  | HUnlock => Leaving leave
  | HError => Leaving (m ← trigger FLoadError; r ← trigger FLoadResult; _ ← trigger FDestroy; mret (r, m))
  | HResult => Leaving (r ← trigger FLoadResult; _ ← trigger FDestroy; mret (r, cell.2))
  | HDestroy => Leaving (_ ← trigger FDestroy; mret cell)
  | HGone => Leaving (Ret cell)
  end.

Definition worker_holds (c : cstage) : bool :=
  match c with CStore | CReady | CNotify | CUnlock => true | _ => false end.
Definition handler_holds (h : hstage) : bool :=
  match h with HCheck | HWait | HUnlock => true | _ => false end.
Definition is_ready (c : cstage) : bool :=
  match c with CNotify | CUnlock | CDone => true | _ => false end.
Definition is_stored (c : cstage) : bool :=
  match c with CReady | CNotify | CUnlock | CDone => true | _ => false end.
Definition is_notified (c : cstage) : bool :=
  match c with CUnlock | CDone => true | _ => false end.
Definition is_done (c : cstage) : bool := match c with CDone => true | _ => false end.
Definition has_left (h : hstage) : bool :=
  match h with HUnlock | HError | HResult | HDestroy | HGone => true | _ => false end.

(** The pairs of places that exclude each other. *)
Definition compatible (h : hstage) (c : cstage) : bool :=
  negb (handler_holds h && worker_holds c) &&
  implb (has_left h) (is_done c) &&
  implb (match h with HWait => true | _ => false end) (negb (is_ready c)).

Definition frame_at (o : outcome) (h : hstage) (c : cstage) (w : bool) : frame :=
  mk_frame (if handler_holds h then Some true else if worker_holds c then Some false else None)
    w (is_ready c)
    (if is_stored c then (callback_cell o).1 else result_init)
    (if is_stored c then (callback_cell o).2 else "")
    (match h with HGone => false | _ => true end).

(** In the wait set: while waiting, until the notification. *)
Definition waits_ok (h : hstage) (c : cstage) (w : bool) : bool :=
  Bool.eqb w (match h with HWake => negb (is_notified c) | _ => false end).

Definition state_at (o : outcome) (h : hstage) (c : cstage) (w : bool) : handoff :=
  mk_handoff (frame_at o h c w) (handler_at (callback_cell o) h) (closure_at o c).

(** The reachable states. *)
Inductive known : handoff -> Prop :=
| known_at o h c w :
    compatible h c = true -> waits_ok h c w = true ->
    known (state_at o h c w).

Lemma known_init : known handoff_init.
Proof. by apply (known_at (OError "") HLock CNot false). Qed.

Ltac known_as o h c w := change (known (state_at o h c w)); by constructor.

Lemma known_call y o :
  known y -> the_closure y = NotCalled ->
  known (mk_handoff (the_frame y) (the_handler y) (Called o (closure o))).
Proof.
  intros [o' h c w Hc Hw] Hn. destruct c; try discriminate Hn.
  destruct h; try discriminate Hc; destruct w; try discriminate Hw;
    first [ known_as o HLock CLock false | known_as o HCheck CLock false
          | known_as o HWait CLock false
          | known_as o HWake CLock true ].
Qed.

Definition cnext (c : cstage) : cstage :=
  match c with
  | CNot => CNot | CLock => CStore | CStore => CReady | CReady => CNotify | CNotify => CUnlock
  | CUnlock | CDone => CDone
  end.

Lemma known_closure sp o h c w y' :
  compatible h c = true -> waits_ok h c w = true -> closure_turn sp (state_at o h c w) = Some y' ->
  exists w', y' = state_at o h (cnext c) w' /\ compatible h (cnext c) = true /\
    waits_ok h (cnext c) w' = true /\ c <> CNot /\ c <> CDone.
Proof.
  intros Hc Hw H. destruct c, h; try discriminate Hc; try discriminate H; destruct w;
    try discriminate Hw; destruct o; cbn in H; try discriminate H; injection H as <-;
    first [ by exists false | by exists true ].
Qed.

(** Statements left, without spurious wake-ups. *)
Definition hrank (h : hstage) (c : cstage) : nat :=
  match h with
  | HLock => if is_ready c then 6 else 10
  | HCheck => if is_ready c then 5 else 9
  | HWait => 8 | HWake => 7 | HUnlock => 4 | HError => 3 | HResult => 2 | HDestroy => 1 | HGone => 0
  end.

Definition crank (c : cstage) : nat :=
  match c with
  | CNot => 6 | CLock => 5 | CStore => 4 | CReady => 3 | CNotify => 2 | CUnlock => 1 | CDone => 0
  end.

Lemma known_handler sp o h c w y' :
  compatible h c = true -> waits_ok h c w = true -> handler_turn sp (state_at o h c w) = Some y' ->
  exists h' w', y' = state_at o h' c w' /\ compatible h' c = true /\ waits_ok h' c w' = true /\
    (sp = false -> (hrank h' c < hrank h c)%nat).
Proof.
  intros Hc Hw H. destruct c, h; try discriminate Hc; try discriminate H; destruct w;
    try discriminate Hw; destruct sp; cbn in H; try discriminate H; injection H as <-.
  all: try (exists HCheck, false; split_and!; [done..|intros ?; cbn; (done || lia)]).
  all: try (exists HWait, false; split_and!; [done..|intros ?; cbn; (done || lia)]).
  all: try (exists HWake, true; split_and!; [done..|intros ?; cbn; (done || lia)]).
  all: try (exists HLock, false; split_and!; [done..|intros ?; cbn; (done || lia)]).
  all: try (exists HUnlock, false; split_and!; [done..|intros ?; cbn; (done || lia)]).
  all: try (exists HError, false; split_and!; [done..|intros ?; cbn; (done || lia)]).
  all: try (exists HResult, false; split_and!; [done..|intros ?; cbn; (done || lia)]).
  all: try (exists HDestroy, false; split_and!; [by destruct o|done..|intros ?; cbn; (done || lia)]).
  all: try (exists HGone, false; split_and!; [done..|intros ?; cbn; (done || lia)]).
Qed.

Lemma known_step sp y y' : known y -> handoff_step sp y y' -> known y'.
Proof.
  intros Hk Hs. destruct Hs as [y o Hn|y y' H|y y' H]; [by apply known_call|..];
    destruct Hk as [o h c w Hc Hw].
  - destruct (known_closure _ _ _ _ _ _ Hc Hw H) as (w' & -> & ? & ? & _). by constructor.
  - destruct (known_handler _ _ _ _ _ _ Hc Hw H) as (h' & w' & -> & ? & ? & _). by constructor.
Qed.

Lemma handed_known y : handed y -> known y.
Proof. induction 1 as [|sp y y' _ IH Hs]; [apply known_init|by eapply known_step]. Qed.

(** A step after the call comes closer to the end. *)
Lemma quiet_rank o h c w y' :
  compatible h c = true -> waits_ok h c w = true -> c <> CNot ->
  handoff_step false (state_at o h c w) y' ->
  exists h' c' w', y' = state_at o h' c' w' /\ compatible h' c' = true /\ waits_ok h' c' w' = true /\
    c' <> CNot /\ (hrank h' c' + crank c' < hrank h c + crank c)%nat.
Proof.
  intros Hc Hw Hne Hs. remember (state_at o h c w) as y eqn:Hy.
  destruct Hs as [y o' Hn|y y' H|y y' H]; subst y.
  - by destruct c.
  - destruct (known_closure _ _ _ _ _ _ Hc Hw H) as (w' & -> & Hc' & Hw' & _ & Hd).
    exists h, (cnext c), w'. split_and!; [done..|by destruct c|].
    clear -Hne Hd. destruct h, c; try done; cbn; lia.
  - destruct (known_handler _ _ _ _ _ _ Hc Hw H) as (h' & w' & -> & Hc' & Hw' & Hr).
    exists h', c, w'. split_and!; [done..|]. specialize (Hr eq_refl). lia.
Qed.

Lemma quiet_bound n y y2 :
  quiet_steps n y y2 -> forall o h c w, y = state_at o h c w -> compatible h c = true ->
  waits_ok h c w = true -> c <> CNot ->
  exists h' c' w', y2 = state_at o h' c' w' /\ compatible h' c' = true /\ waits_ok h' c' w' = true /\
    c' <> CNot /\ (n + (hrank h' c' + crank c') <= hrank h c + crank c)%nat.
Proof.
  induction 1 as [y|n y y1 y2 _ Hs _ IH]; intros o h c w -> Hc Hw Hne.
  - exists h, c, w. split_and!; [done..|lia].
  - destruct (quiet_rank _ _ _ _ _ Hc Hw Hne Hs) as (h1 & c1 & w1 & -> & Hc1 & Hw1 & Hn1 & Hlt).
    destruct (IH _ _ _ _ eq_refl Hc1 Hw1 Hn1) as (h2 & c2 & w2 & -> & ? & ? & ? & Hle).
    exists h2, c2, w2. split_and!; [done..|lia].
Qed.

(** One of the two threads can move until both are done. *)
Lemma known_moves o h c w :
  compatible h c = true -> waits_ok h c w = true -> c <> CNot ->
  (h = HGone /\ c = CDone) \/ exists y', handoff_step false (state_at o h c w) y'.
Proof.
  intros Hc Hw Hne. destruct (closure_turn false (state_at o h c w)) as [y'|] eqn:H1.
  { right. exists y'. by apply ho_closure. }
  destruct (handler_turn false (state_at o h c w)) as [y'|] eqn:H2.
  { right. exists y'. by apply ho_handler. }
  left. destruct h, c; try discriminate Hc; try done; destruct w; try discriminate Hw;
    destruct o; try discriminate H1; try discriminate H2; done.
Qed.

(** ** Properties *)

(** C14: the hand-over is safe: whatever the interleaving and however often the
    handler wakes for no reason, the closure never runs a statement once the
    handler's variables are destroyed, for the handler leaves the wait only
    after the closure has released the mutex; the mutex is free and the wait
    set empty when they are destroyed; the two threads never stand at
    conflicting accesses of one variable; and the handler goes on with exactly
    what the closure stored. *)
Theorem handoff_safe y (Hy : handed y) :
  (closure_active (the_closure y) = true -> frame_alive (the_frame y) = true) /\
  (frame_alive (the_frame y) = false ->
     result_mutex (the_frame y) = None /\ result_cv (the_frame y) = false) /\
  race y = false /\
  (forall cell, the_handler y = Leaving (Ret cell) ->
     exists o, the_closure y = Called o (Ret tt) /\ cell = callback_cell o).
Proof.
  apply handed_known in Hy as [o h c w Hc Hw]. split_and!.
  - by destruct h, c.
  - by destruct h, c, w.
  - by destruct h, c, o.
  - intros cell Hcell. destruct h; try discriminate Hcell. injection Hcell as <-.
    exists o. by destruct c.
Qed.

(** C15: the hand-over ends: once a closure has been called, wherever the
    handler is then, at most 15 statements of the two threads (spurious
    wake-ups apart) are left, one of them can be run as long as the handler
    has not returned or the closure has not ended, and the handler returns with
    what the closure stored: no wake-up is lost. *)
Theorem handoff_ends y n y' (Hy : handed y) (Hcalled : the_closure y <> NotCalled)
    (Hsteps : quiet_steps n y y') :
  (n <= 15)%nat /\
  ((exists y'', handoff_step false y' y'') \/
   exists o, the_handler y' = Leaving (Ret (callback_cell o)) /\ the_closure y' = Called o (Ret tt)).
Proof.
  revert Hcalled Hsteps. apply handed_known in Hy as [o h c w Hc Hw]. intros Hcalled Hsteps.
  assert (c <> CNot) as Hne by (intros ->; by apply Hcalled).
  destruct (quiet_bound _ _ _ Hsteps o h c w eq_refl Hc Hw Hne)
    as (h' & c' & w' & -> & Hc' & Hw' & Hne' & Hle).
  split; [clear -Hle Hne; destruct h, c; cbn in *; (done || lia)|].
  destruct (known_moves o h' c' w' Hc' Hw' Hne') as [[-> ->]|Hm]; [right; by exists o|by left].
Qed.

(** ** Witnesses *)

Module HandoffWitness.

Definition answer : outcome := OError "engine failed".

(** The handler waits, wakes for no reason, waits again; the closure runs; the
    handler returns. *)
Definition after (f : handoff -> option handoff) (y : handoff) : handoff := default y (f y).
Definition sleeping : handoff :=
  after (handler_turn false) (after (handler_turn false) (after (handler_turn false)
    (after (handler_turn true) (after (handler_turn false) (after (handler_turn false)
    (after (handler_turn false) handoff_init)))))).
Definition called : handoff := mk_handoff (the_frame sleeping) (the_handler sleeping) (Called answer (closure answer)).

Lemma after_handler sp y : handed y -> handed (after (handler_turn sp) y).
Proof.
  intros Hy. unfold after. destruct (handler_turn sp y) as [y'|] eqn:H; [|done].
  by eapply handed_step, ho_handler.
Qed.

Lemma called_handed : handed called.
Proof.
  apply (handed_step false sleeping); [|by apply ho_call].
  do 7 apply after_handler. apply handed_init.
Qed.

Lemma asleep : result_cv (the_frame called) = true.
Proof. by vm_compute. Qed.

Lemma handoff_safe_witness :
  closure_active (the_closure called) = true /\ frame_alive (the_frame called) = true.
Proof. split; [done|]. by apply (handoff_safe called called_handed). Defined.

Lemma handoff_ends_witness :
  result_cv (the_frame called) = true /\ quiet_steps 0 called called /\
  ((exists y'', handoff_step false called y'') \/
   exists o, the_handler called = Leaving (Ret (callback_cell o)) /\
     the_closure called = Called o (Ret tt)).
Proof.
  split; [exact asleep|]. split; [constructor|].
  apply (handoff_ends called 0 called); [apply called_handed|done|constructor].
Defined.
End HandoffWitness.
