(* ===== verification/Server.v ===== *)
(** * The server facade

    [TtsServer] of [include/tts/server.hpp] and [src/server/server.cpp]: it
    owns the rate limiters and the inference pool, and takes the process from
    construction through [initialize()] to [shutdown()].

    The pool object is shared with its worker; here it is known by its
    constants ([Pool.PoolConfig]), and [InferencePool::shutdown()] is the
    effect [PoolShutdown] ([Pool.shutdown] is its model). *)

From Stdlib Require Import ZArith Lia String SpecFloat.
From stdpp Require Import base tactics numbers list strings gmap.
From S2P Require Import Prelude Effects RateLimit Voices Backend Pool Config Metrics Http.

#[local] Open Scope Z_scope.

(** [backend_] is a pointer that may be null; [pool_] is a [unique_ptr]. *)
Record TtsServer := mk_server {
  config_ : ServerConfig;
  backend_ : bool;
  voice_catalog_ : option VoiceCatalog;
  pool_ : option PoolConfig;
  auth_limiter_ : AuthLimiter.AuthRateLimiter;
  request_limiter_ : RequestLimiter.RequestRateLimiter;
  start_time_ : Z;
  initialized_ : bool;
}.

(** The constructor: the limiters are configured from the config. *)
Definition server_auth_limiter (cfg : ServerConfig) : AuthLimiter.AuthRateLimiter :=
  AuthLimiter.mk_limiter (u64 (auth_rate_limit_max cfg)) (auth_rate_limit_window cfg) 10000 ∅.
Definition server_request_limiter (cfg : ServerConfig) : RequestLimiter.RequestRateLimiter :=
  RequestLimiter.mk_limiter (u64 (request_rate_limit_rpm cfg)) 10000 ∅.

Definition server_new (cfg : ServerConfig) (backend : bool) (catalog : option VoiceCatalog)
    : prog sysE TtsServer :=
  now ← trigger SNow;
  mret (mk_server cfg backend catalog None (server_auth_limiter cfg) (server_request_limiter cfg)
          now false).

Definition with_pool (pool : option PoolConfig) (initialized : bool) (s : TtsServer) : TtsServer :=
  mk_server (config_ s) (backend_ s) (voice_catalog_ s) pool (auth_limiter_ s) (request_limiter_ s)
    (start_time_ s) initialized.

(** Assigning to [pool_] destroys the pool it held, which shuts it down. *)
Definition replace_pool (s : TtsServer) : prog sysE unit :=
  match pool_ s with Some _ => trigger PoolShutdown | None => mret tt end.

Definition server_initialize (s : TtsServer) : prog sysE (bool * TtsServer) :=
  if initialized_ s then
    _ ← slog warn "TtsServer::initialize() called more than once" [];
    mret (true, s)
  else if negb (backend_ s) then
    _ ← slog err "TtsServer::initialize() — backend is null" [];
    mret (false, s)
  else
    ready ← trigger BackendIsReady;
    if negb ready then
      _ ← slog err "TtsServer::initialize() — backend is not ready" [];
      mret (false, s)
    else
      match pool_create true (max_queue_depth (config_ s)) (request_timeout_seconds (config_ s)) with
      | Exn e =>
          _ ← slog err "TtsServer::initialize() — failed to create pool: {}" [AStr (what e)];
          mret (false, s)
      | Ok (pool, _) =>
          _ ← replace_pool s;
          _ ← slog info "TtsServer initialized — queue_depth={} timeout={}s"
                [AInt (max_queue_depth (config_ s)); AInt (request_timeout_seconds (config_ s))];
          mret (true, with_pool (Some pool) true s)
      end.

Definition server_shutdown (s : TtsServer) : prog sysE TtsServer :=
  if negb (initialized_ s) then mret s
  else
    _ ← slog info "TtsServer shutting down..." [];
    _ ← match pool_ s with Some _ => trigger PoolShutdown | None => mret tt end;
    _ ← slog info "TtsServer shutdown complete" [];
    mret (with_pool (pool_ s) false s).

(** The destructor, then the members: [pool_]'s destructor shuts the pool
    down again, which does nothing to a pool already joined. *)
Definition server_destroy (s : TtsServer) : prog sysE unit :=
  s ← (if initialized_ s then server_shutdown s else mret s);
  replace_pool s.

(** Short-circuit conjunction of the source. *)
Definition server_is_ready (s : TtsServer) : prog sysE bool :=
  if negb (initialized_ s) || negb (backend_ s) then mret false
  else
    b ← trigger BackendIsReady;
    if negb b then mret false
    else
      match pool_ s with
      | None => mret false
      | Some _ => trigger PoolIsAccepting
      end.

(** ** Lemmas *)

(** The server's invariant: an initialised server has a backend and a pool
    with the constants of its configuration. *)
Definition server_inv (s : TtsServer) : Prop :=
  initialized_ s = true ->
  backend_ s = true /\ exists p, pool_ s = Some p /\
    max_queue_depth_ p = max_queue_depth (config_ s) /\
    request_timeout_seconds_ p = request_timeout_seconds (config_ s) /\
    1 <= max_queue_depth_ p /\ 1 <= request_timeout_seconds_ p.

Lemma pool_create_ok depth timeout p s :
  pool_create true depth timeout = Ok (p, s) ->
  p = mk_config depth timeout /\ 1 <= depth /\ 1 <= timeout.
Proof.
  unfold pool_create. cbn [negb].
  destruct (Z.ltb_spec depth 1); [done|]. destruct (Z.ltb_spec timeout 1); [done|].
  by intros [= <- _].
Qed.

Lemma pool_create_total depth timeout :
  1 <= depth -> 1 <= timeout ->
  exists s, pool_create true depth timeout = Ok (mk_config depth timeout, s).
Proof.
  intros H1 H2. unfold pool_create. cbn [negb].
  destruct (Z.ltb_spec depth 1); [lia|]. destruct (Z.ltb_spec timeout 1); [lia|]. by eexists.
Qed.

(** How initialize() ends. *)
Lemma server_initialize_post s :
  has_post (server_initialize s) (fun tr r =>
    exists ok s', r = Ok (ok, s') /\ config_ s' = config_ s /\
      if ok then initialized_ s' = true /\ (server_inv s -> server_inv s')
      else s' = s /\ initialized_ s = false).
Proof.
  intros tr r H. unfold server_initialize, slog, replace_pool in H.
  destruct (initialized_ s) eqn:Hi.
  { runs_skip H. destruct H as [-> ->]. by exists true, s. }
  destruct (backend_ s) eqn:Hb; cbn [negb] in H.
  2: { runs_skip H. destruct H as [-> ->]. by exists false, s. }
  runs_seq H as ready. destruct ready; cbn [negb] in H.
  2: { runs_skip H. destruct H as [-> ->]. by exists false, s. }
  destruct (pool_create true _ _) as [[p q]|e] eqn:Hp.
  2: { runs_skip H. destruct H as [-> ->]. by exists false, s. }
  apply pool_create_ok in Hp as (-> & H1 & H2).
  assert (r = Ok (true, with_pool (Some (mk_config (max_queue_depth (config_ s))
    (request_timeout_seconds (config_ s)))) true s)) as ->.
  { destruct (pool_ s); [runs_skip H|]; runs_skip H; by destruct H as [_ ->]. }
  exists true. eexists. split; [done|]. split; [done|]. split; [done|].
  intros _ _. split; [done|]. eexists. by split_and!.
Qed.

Lemma server_shutdown_post s :
  has_post (server_shutdown s) (fun tr r =>
    exists s', r = Ok s' /\ initialized_ s' = false /\ pool_ s' = pool_ s /\ config_ s' = config_ s /\
      observe (fun X (e : sysE X) _ => match e with PoolShutdown => Some tt | _ => None end) tr =
        (if initialized_ s then match pool_ s with Some _ => [tt] | None => [] end else [])).
Proof.
  intros tr r H. unfold server_shutdown, slog in H. destruct (initialized_ s) eqn:Hi; cbn [negb] in H.
  - runs_skip H. destruct (pool_ s) eqn:Hp; [runs_skip H|]; runs_skip H; destruct H as [-> ->];
      by eexists; split_and!.
  - destruct H as [-> ->]. by exists s.
Qed.

(** ** Properties *)

(** The calls a TtsServer sees. *)
Inductive server_call := CInitialize | CShutdown_.

Definition server_do (c : server_call) (s : TtsServer) : prog sysE TtsServer :=
  match c with
  | CInitialize => r ← server_initialize s; mret r.2
  | CShutdown_ => server_shutdown s
  end.

Fixpoint server_calls (cs : list server_call) (s : TtsServer) : prog sysE TtsServer :=
  match cs with
  | [] => mret s
  | c :: cs' => s' ← server_do c s; server_calls cs' s'
  end.

Lemma server_shutdown_inv s : initialized_ s = false -> server_inv s.
Proof. intros H1 H2. congruence. Qed.

Lemma server_do_post c s :
  server_inv s ->
  has_post (server_do c s) (fun _ r => exists s', r = Ok s' /\ server_inv s' /\ config_ s' = config_ s).
Proof.
  intros Hs tr r H. destruct c; cbn [server_do] in H.
  - apply runs_bind in H as [(t1 & t2 & x & -> & (ok & s' & Hx & Hc & Hok)%server_initialize_post & H)
                            |(e & -> & (ok & s' & [=] & _)%server_initialize_post)].
    injection Hx as ->. destruct H as [_ ->]. exists s'. split; [done|]. split; [|done].
    destruct ok; [by apply Hok|]. by destruct Hok as [-> _].
  - apply server_shutdown_post in H as (s' & -> & Hi & _ & Hc & _). exists s'.
    split; [done|]. split; [|done]. by eapply server_shutdown_inv.
Qed.

Definition server_life (cs : list server_call) (cfg : ServerConfig) (backend : bool)
    (catalog : option VoiceCatalog) : prog sysE TtsServer :=
  s ← server_new cfg backend catalog; server_calls cs s.

Definition server_start (cfg : ServerConfig) (catalog : option VoiceCatalog)
    : prog sysE (bool * TtsServer) :=
  s ← server_new cfg true catalog; server_initialize s.

(** Lifecycle: after any sequence of initialize() and shutdown() calls, no
    exception has left the server, and an initialised server has a ready-made
    pool with the queue depth and timeout of its configuration, both at least
    one. *)
Theorem server_lifecycle cs cfg backend catalog tr r
    (Hrun : runs (server_life cs cfg backend catalog) tr r) :
  exists s, r = Ok s /\ config_ s = cfg /\ server_inv s.
Proof.
  unfold server_life, server_new in Hrun. runs_seq Hrun as now.
  set (s0 := mk_server _ _ _ _ _ _ _ _) in Hrun.
  assert (server_inv s0 /\ config_ s0 = cfg) as [Hs Hc] by by split.
  clearbody s0. revert s0 x Hs Hc Hrun.
  induction cs as [|c cs IH]; intros s t Hs Hc Hrun; cbn [server_calls] in Hrun.
  - destruct Hrun as [_ ->]. by exists s.
  - apply runs_bind in Hrun as [(t1 & t2 & s1 & -> & (s' & Hx & Hi & Hc1)%server_do_post & Hrun)
                               |(e & -> & (s' & [=] & _)%server_do_post)]; [|done|done].
    injection Hx as ->. eapply IH; [exact Hi| |exact Hrun]. by rewrite Hc1.
Qed.

(** Startup: with a validated configuration, initialize() of a fresh server
    succeeds exactly when the backend says it is ready, and then creates the
    pool of the configuration. *)
Theorem server_starts cfg catalog tr r
    (Hvalid : validate cfg = Ok tt) (Hrun : runs (server_start cfg catalog) tr r) :
  exists ok s, r = Ok (ok, s) /\ probes tr = [ok] /\ initialized_ s = ok /\
    pool_ s = (if ok then Some (mk_config (max_queue_depth cfg) (request_timeout_seconds cfg))
               else None).
Proof.
  apply validate_ok_iff in Hvalid as (_ & _ & _ & _ & _ & Hd & Ht & _).
  unfold server_start, server_new, server_initialize, slog in Hrun. runs_seq Hrun as now.
  cbn [initialized_ backend_ negb config_] in Hrun. runs_seq Hrun as ready.
  destruct (pool_create_total (max_queue_depth cfg) (request_timeout_seconds cfg) Hd Ht) as [q Hq].
  rewrite Hq in Hrun. destruct ready; cbn [negb replace_pool pool_] in Hrun; runs_skip Hrun;
    destruct Hrun as [-> ->]; by eexists _, _.
Qed.

(** ** Witnesses *)

Module ServerWitness.

Definition cfg : ServerConfig :=
  (apply_env_overrides
     (fun n => if String.eqb n "TTS_MODEL_PATH" then Some "/models/voxtral"%string else None)
     config_init).1.

Lemma cfg_valid : validate cfg = Ok tt.
Proof. by vm_compute. Qed.

Definition start_trace : list (event sysE) :=
  [Ev SNow 100; Ev BackendIsReady true;
   Ev (SLog (mk_log info "TtsServer initialized — queue_depth={} timeout={}s" [AInt 10; AInt 300]))
     tt].

Definition started : TtsServer :=
  mk_server cfg true (Some voice_catalog) (Some (mk_config 10 300)) (server_auth_limiter cfg)
    (server_request_limiter cfg) 100 true.

Lemma start_run : runs (server_start cfg (Some voice_catalog)) start_trace (Ok (true, started)).
Proof. answer 100. answer true. answer tt. split; reflexivity. Qed.

Lemma server_starts_witness :
  exists ok s, Ok (true, started) = Ok (ok, s) /\ probes start_trace = [ok] /\ initialized_ s = ok /\
    pool_ s = (if ok then Some (mk_config (max_queue_depth cfg) (request_timeout_seconds cfg))
               else None).
Proof.
  exact (server_starts cfg (Some voice_catalog) start_trace (Ok (true, started)) cfg_valid start_run).
Defined.

Lemma server_lifecycle_witness :
  exists s, Ok started = Ok s /\ config_ s = cfg /\ server_inv s.
Proof.
  refine (server_lifecycle [CInitialize] cfg true (Some voice_catalog) start_trace (Ok started) _).
  answer 100. answer true. answer tt. split; reflexivity.
Defined.
End ServerWitness.
