(* ===== verification/Boot.v ===== *)
(** * The server as the process builds it

    From the environment and the configuration file to the initialised
    [TtsServer]: the steps of [main()] in [src/main.cpp] that lead to the
    object the requests share ([Config], then [Server]).  The theorems on
    [Service] that depend on the configuration are about such a server. *)

From Stdlib Require Import ZArith Lia Ascii String SpecFloat.
From stdpp Require Import base tactics numbers list strings gmap.
From S2P Require Import Prelude Effects Floats Auth RateLimit Voices Validation Metrics.
From S2P Require Import Backend Pool Config Http RequestHandler Server.

#[local] Open Scope Z_scope.

(** [s] comes from a run of the loader, a configuration that [validate()]
    accepts, the constructor and a successful [initialize()]. *)
Definition booted (env : environment) (path : string) (s : TtsServer) : Prop :=
  exists cfg t0 t1,
    runs (from_file_and_env env path) t0 (Ok cfg) /\ validate cfg = Ok tt /\
    runs (server_start cfg (Some voice_catalog)) t1 (Ok (true, s)).

Definition booted_server (cfg : ServerConfig) (now : Z) : TtsServer :=
  mk_server cfg true (Some voice_catalog)
    (Some (mk_config (max_queue_depth cfg) (request_timeout_seconds cfg)))
    (server_auth_limiter cfg) (server_request_limiter cfg) now true.

(** Such a server is determined by its configuration and its start time. *)
Lemma server_start_booted cfg t1 s :
  valid_config cfg -> runs (server_start cfg (Some voice_catalog)) t1 (Ok (true, s)) ->
  exists now, s = booted_server cfg now.
Proof.
  intros (_ & _ & _ & _ & _ & Hd & Ht & _) Hrun.
  unfold server_start, server_new, server_initialize, slog in Hrun. runs_seq Hrun as now.
  cbn [initialized_ backend_ negb config_] in Hrun. runs_seq Hrun as ready.
  destruct (pool_create_total (max_queue_depth cfg) (request_timeout_seconds cfg) Hd Ht) as [q Hq].
  rewrite Hq in Hrun. destruct ready; cbn [negb replace_pool pool_] in Hrun; runs_skip Hrun;
    destruct Hrun as [_ [= ->]]. by exists now.
Qed.

Section Booted.
Context (env : environment) (path : string) (s : TtsServer) (Hboot : booted env path s).

Lemma booted_shape : exists now, s = booted_server (config_ s) now /\ valid_config (config_ s).
Proof.
  destruct Hboot as (cfg & t0 & t1 & _ & Hv%validate_ok_iff & Hrun).
  destruct (server_start_booted cfg t1 s Hv Hrun) as [now ->]. by exists now.
Qed.

(** Every integer of the configuration is an int. *)
Lemma booted_ints : Forall (fun x => in_int (s_get x (config_ s))) int_settings.
Proof.
  destruct Hboot as (cfg & t0 & t1 & Hload & Hv%validate_ok_iff & Hrun).
  destruct (server_start_booted cfg t1 s Hv Hrun) as [now ->].
  exact (config_ints_in_range env path t0 cfg Hload).
Qed.

Lemma booted_rpm : 0 < request_rate_limit_rpm (config_ s) <= INT_MAX.
Proof.
  destruct booted_shape as (now & _ & Hv). pose proof booted_ints as Hi.
  unfold int_settings in Hi. cbn in Hi. unfold valid_config in Hv.
  repeat match goal with H : Forall _ (_ :: _) |- _ => apply Forall_cons in H as [? H] end.
  unfold in_int in *. cbn in *. lia.
Qed.

Lemma booted_auth_max : 0 < auth_rate_limit_max (config_ s) <= INT_MAX.
Proof.
  destruct booted_shape as (now & _ & Hv). pose proof booted_ints as Hi.
  unfold int_settings in Hi. cbn in Hi. unfold valid_config in Hv.
  repeat match goal with H : Forall _ (_ :: _) |- _ => apply Forall_cons in H as [? H] end.
  unfold in_int in *. cbn in *. lia.
Qed.

Lemma booted_window : 0 < auth_rate_limit_window (config_ s).
Proof. destruct booted_shape as (now & _ & Hv). unfold valid_config in Hv. lia. Qed.

Lemma booted_limiters :
  auth_limiter_ s = server_auth_limiter (config_ s) /\
  request_limiter_ s = server_request_limiter (config_ s).
Proof. by destruct booted_shape as (now & -> & _). Qed.
End Booted.

(** A server configured by the environment alone: there is no file. *)
Lemma booted_from_env env now :
  validate (from_env env).1 = Ok tt -> (from_env env).2 = [] ->
  booted env "config/server.toml" (booted_server (from_env env).1 now).
Proof.
  intros Hv Hlogs. pose proof Hv as (_ & _ & _ & _ & _ & Hd & Ht & _)%validate_ok_iff.
  set (cfg := (from_env env).1) in *.
  exists cfg, [Ev (Exists "config/server.toml") (Ok false);
    Ev (CLog (mk_log warn "Config file {} not found, using defaults + env vars"
                [AStr "config/server.toml"])) tt],
    [Ev SNow now; Ev BackendIsReady true;
     Ev (SLog (mk_log info "TtsServer initialized — queue_depth={} timeout={}s"
                 [AInt (max_queue_depth cfg); AInt (request_timeout_seconds cfg)])) tt].
  split; [|split; [exact Hv|]].
  - unfold from_file_and_env. change (with_config_path "config/server.toml" config_init) with config_init.
    answer (@Ok bool false). answer tt.
    change (runs (_ ← emit (from_env env).2; mret (from_env env).1) [] (Ok cfg)).
    rewrite Hlogs. by split.
  - unfold server_start, server_new, server_initialize, slog. answer now. answer true.
    cbn [negb config_]. destruct (pool_create_total _ _ Hd Ht) as [q ->]. answer tt. by split.
Qed.
