(* ===== verification/HttpAdapter.v ===== *)
(** * HTTP adapter

    [src/server/http_adapter.cpp]: the conversion between cpp-httplib's types
    and the abstract ones, the middleware (rate limits and authentication),
    the registered routes and the 404 handler.

    cpp-httplib is outside the repository: its request is the record of the
    fields that are read, its response the list of calls made on it. *)

From Stdlib Require Import ZArith Lia Ascii String SpecFloat.
From stdpp Require Import base tactics numbers list strings gmap fin_maps.
From S2P Require Import Prelude Effects Floats Auth RateLimit Voices Validation Metrics.
From S2P Require Import Backend Config Http RequestHandler Uuid Server.

#[local] Open Scope Z_scope.

(** ** cpp-httplib *)

(** The headers are a multimap, listed in its iteration order. *)
Record HttplibRequest := mk_httplib {
  q_method : string;
  q_path : string;
  q_body : string;
  q_remote_addr : string;
  q_headers : list (string * string);
}.

Inductive response_op :=
| SetStatus (s : Z)
| SetHeader (name value : string)
| SetContent (content content_type : string).

#[export] Instance response_op_eq_dec : EqDecision response_op.
Proof. solve_decision. Defined.

(** ** Adaptation *)

Definition adapt_header (m : gmap string string) (kv : string * string) : gmap string string :=
  <[smap tolower kv.1 := kv.2]> m.

Definition adapt_request (req : HttplibRequest) : HttpRequest :=
  mk_http_request (q_method req) (q_path req) (q_body req)
    (fold_left adapt_header (q_headers req) ∅) (q_remote_addr req).

(** [std::string(data, size)] of the bytes. *)
Fixpoint bytes_string (v : list Z) : string :=
  match v with
  | [] => ""
  | b :: v' => String (ascii_of_N (Z.to_N b)) (bytes_string v')
  end.

(** [std::map] iterates over distinct names; the calls are listed in some
    order of the names. *)
Definition header_ops (m : gmap string string) : list response_op :=
  (fun kv => SetHeader kv.1 kv.2) <$> map_to_list m.

Definition adapt_response (from : HttpResponse) : list response_op :=
  [SetStatus (status from)] ++ header_ops (resp_headers from) ++
  [if is_binary from then
     SetContent (bytes_string (binary_body from))
       (default "application/octet-stream" (resp_headers from !! "Content-Type"))
   else
     SetContent (resp_body from) (default "text/plain" (resp_headers from !! "Content-Type"))].

Section Adapter.
Context {L : JsonLib} (VERSION : string).

Definition make_deps (s : TtsServer) : HandlerDeps :=
  mk_deps (backend_ s) (voice_catalog_ s) (match pool_ s with Some _ => true | None => false end)
    (Some (config_ s)) (start_time_ s).

(** ** Middleware *)

Definition with_header (name value : string) (r : res HttpResponse) : res HttpResponse :=
  resp ← r; Ok (set_header name value resp).

Definition client_ip (cfg : ServerConfig) (req : HttpRequest) : string :=
  extract_client_ip (header req "x-forwarded-for") (remote_addr req) (trust_proxy cfg)
    (trusted_proxy_hops cfg).

(** Bearer authentication; a failure is recorded for the client. *)
Definition authenticate (cfg : ServerConfig) (req : HttpRequest) (ip : string)
    : prog sysE (option HttpResponse) :=
  if require_auth cfg then
    let auth_result := check_bearer_auth (header req "authorization") (api_key cfg) in
    if negb (authenticated auth_result) then
      _ ← trigger (AuthRecordFailure ip);
      _ ← metric (inc requests_rejected_auth);
      resp ← of_res (make_error_response 401 "authentication_error" (Auth.error_code auth_result)
                       (Auth.error_message auth_result) "");
      mret (Some resp)
    else mret None
  else mret None.

Definition run_middleware (s : TtsServer) (req : HttpRequest) : prog sysE (option HttpResponse) :=
  let cfg := config_ s in
  if is_internal_endpoint (path req) then mret None
  else
    let ip := client_ip cfg req in
    blocked ← (if require_auth cfg then trigger (AuthIsBlocked ip) else mret false);
    if blocked : bool then
      _ ← metric (inc requests_rejected_auth);
      resp ← of_res (with_header "Retry-After" "60"
        (make_error_response 429 "rate_limit_error" "auth_rate_limited"
           "Too many authentication failures. Try again later." ""));
      mret (Some resp)
    else
      retry_after ← trigger (CheckRequest ip);
      if 0 <? retry_after then
        _ ← metric (inc requests_rejected_rate_limit);
        resp ← of_res (with_header "Retry-After" (to_string retry_after)
          (make_error_response 429 "rate_limit_error" "rate_limited"
             "Rate limit exceeded. Please slow down." ""));
        mret (Some resp)
      else authenticate cfg req ip.

(** ** Routes *)

(** Sends [response] with the security headers and clears the request id. *)
Definition respond (request_id : string) (response : HttpResponse)
    : prog sysE (list response_op) :=
  _ ← trigger (SetRequestId "");
  mret (adapt_response (apply_security_headers request_id response)).

Definition begin_request : prog sysE string :=
  request_id ← generate_request_id;
  _ ← trigger (SetRequestId request_id);
  mret request_id.

(** GET /health and GET /ready. *)
Definition probe_route (handler : prog sysE HttpResponse) : prog sysE (list response_op) :=
  request_id ← begin_request;
  response ← handler;
  respond request_id response.

Definition route_health (s : TtsServer) (_ : HttplibRequest) : prog sysE (list response_op) :=
  probe_route (handle_health VERSION (make_deps s)).

Definition route_ready (s : TtsServer) (_ : HttplibRequest) : prog sysE (list response_op) :=
  probe_route (handle_ready (make_deps s)).

Definition route_metrics (_ : HttplibRequest) : prog sysE (list response_op) :=
  response ← handle_metrics;
  mret (adapt_response response).

Definition route_voices (s : TtsServer) (req : HttplibRequest) : prog sysE (list response_op) :=
  let abstract_req := adapt_request req in
  request_id ← begin_request;
  middleware_err ← run_middleware s abstract_req;
  match middleware_err with
  | Some rejection => respond request_id rejection
  | None =>
      response ← handle_voices (make_deps s);
      respond request_id response
  end.

Definition response_size (r : HttpResponse) : Z :=
  if is_binary r then Z.of_nat (length (binary_body r)) else slen (resp_body r).

(** The speech route after its request id. *)
Definition speech_body (s : TtsServer) (req : HttplibRequest) (id : string)
    : prog sysE (list response_op) :=
  let abstract_req := adapt_request req in
  _ ← slog info "POST /v1/audio/speech from {} ({} bytes)"
        [AStr (remote_addr abstract_req); AInt (slen (body abstract_req))];
  middleware_err ← run_middleware s abstract_req;
  match middleware_err with
  | Some rejection => respond id rejection
  | None =>
      response ← handle_speech abstract_req (make_deps s);
      _ ← slog info "POST /v1/audio/speech → {} ({} bytes)"
            [AInt (status response); AInt (response_size response)];
      respond id response
  end.

Definition route_speech (s : TtsServer) (req : HttplibRequest) : prog sysE (list response_op) :=
  request_id ← begin_request;
  speech_body s req request_id.

(** The error handler: only a 404 gets a body. *)
Definition error_handler (res_status : Z) : prog sysE (list response_op) :=
  if res_status =? 404 then
    response ← of_res (make_error_response 404 "invalid_request_error" "not_found"
                         "The requested endpoint does not exist." "");
    request_id ← generate_request_id;
    let response := apply_security_headers request_id response in
    mret (header_ops (resp_headers response) ++
          [SetContent (resp_body response) "application/json"])
  else mret [].

(** The routing table of [register_routes()]. *)
Definition route (s : TtsServer) (req : HttplibRequest) : option (prog sysE (list response_op)) :=
  if String.eqb (q_method req) "GET" then
    if String.eqb (q_path req) "/health" then Some (route_health s req)
    else if String.eqb (q_path req) "/ready" then Some (route_ready s req)
    else if String.eqb (q_path req) "/metrics" then Some (route_metrics req)
    else if String.eqb (q_path req) "/v1/voices" then Some (route_voices s req)
    else None
  else if String.eqb (q_method req) "POST" then
    if String.eqb (q_path req) "/v1/audio/speech" then Some (route_speech s req) else None
  else None.

(** ** Listener *)

(** [start()] answers whether it could bind; [running] is [running_] while it
    listens. *)
(** The constructor makes the [httplib::Server] and registers the routes. *)
Definition adapter_new : prog sysE unit := trigger HttpNew.

Definition adapter_start (s : TtsServer) : prog sysE bool :=
  let cfg := config_ s in
  _ ← trigger (HttpConfigure (request_timeout_seconds cfg) (request_timeout_seconds cfg) 1048576);
  _ ← trigger (SetRunning true);
  _ ← slog info "HTTP listener starting on {}:{}" [AStr (host cfg); AInt (port cfg)];
  ok ← trigger (HttpListen (host cfg) (port cfg));
  _ ← trigger (SetRunning false);
  _ ← (if ok : bool then mret tt
       else slog err "HTTP listener failed to bind {}:{}" [AStr (host cfg); AInt (port cfg)]);
  mret ok.

Definition adapter_stop (running : bool) : prog sysE unit :=
  if running then
    _ ← slog info "HTTP listener stopping..." [];
    trigger HttpStop
  else mret tt.

(** The destructor. *)
Definition adapter_destroy (running : bool) : prog sysE unit :=
  _ ← adapter_stop running;
  trigger HttpDelete.
End Adapter.

(** ** Observations *)

Definition blocked_of {X} (e : sysE X) : X -> option (string * bool) :=
  match e in sysE X return X -> option (string * bool) with
  | AuthIsBlocked ip => fun b => Some (ip, b)
  | _ => fun _ => None
  end.
Definition checked_of {X} (e : sysE X) : X -> option (string * Z) :=
  match e in sysE X return X -> option (string * Z) with
  | CheckRequest ip => fun n => Some (ip, n)
  | _ => fun _ => None
  end.
Definition recorded_of {X} (e : sysE X) (_ : X) : option string :=
  match e with AuthRecordFailure ip => Some ip | _ => None end.

(** Answers of the two rate limiters, and the failures recorded. *)
Definition blocks (tr : list (event sysE)) : list (string * bool) := observe (@blocked_of) tr.
Definition checks (tr : list (event sysE)) : list (string * Z) := observe (@checked_of) tr.
Definition recorded (tr : list (event sysE)) : list string := observe (@recorded_of) tr.

Section AdapterLemmas.
Context {L : JsonLib} {HL : JsonLaws L} (VERSION : string).

(** A request passed the middleware. *)
Definition passed (s : TtsServer) (req : HttpRequest) (tr : list (event sysE)) : Prop :=
  let cfg := config_ s in
  let ip := client_ip cfg req in
  (exists n, n <= 0 /\ checks tr = [(ip, n)]) /\ recorded tr = [] /\
  (require_auth cfg = true ->
   blocks tr = [(ip, false)] /\
   authenticated (check_bearer_auth (header req "authorization") (api_key cfg)) = true).

(** The middleware answered [resp]: locked out, too many requests, or not
    authenticated. *)
Definition refused (s : TtsServer) (req : HttpRequest) (tr : list (event sysE))
    (resp : HttpResponse) : Prop :=
  let cfg := config_ s in
  let ip := client_ip cfg req in
  (status resp = 429 /\ resp_headers resp !! "Retry-After" = Some "60"%string /\
   require_auth cfg = true /\ blocks tr = [(ip, true)] /\ checks tr = [] /\ recorded tr = []) \/
  (exists n, 0 < n /\ status resp = 429 /\
   resp_headers resp !! "Retry-After" = Some (to_string n) /\ checks tr = [(ip, n)] /\
   recorded tr = []) \/
  (status resp = 401 /\ require_auth cfg = true /\ recorded tr = [ip] /\
   authenticated (check_bearer_auth (header req "authorization") (api_key cfg)) = false).

Lemma with_header_status s name value ty code message param r :
  with_header name value (make_error_response s ty code message param) = r ->
  (exists resp, r = Ok resp /\ status resp = s /\ resp_headers resp !! name = Some value) \/
  exists m, r = Exn (JsonTypeError m).
Proof.
  intros <-. destruct (make_error_status s ty code message param) as [(resp & -> & Hs & _)|[m ->]].
  - left. eexists. split; [done|]. cbn. by rewrite lookup_insert_eq.
  - right. by exists m.
Qed.

Definition middleware_post (s : TtsServer) (req : HttpRequest) (tr : list (event sysE))
    (r : res (option HttpResponse)) : Prop :=
  match r with
  | Ok None => is_internal_endpoint (path req) = true \/ passed s req tr
  | Ok (Some resp) => is_internal_endpoint (path req) = false /\ refused s req tr resp
  | Exn e => exists m, e = JsonTypeError m
  end.

(** A response that may fail to serialise, sent as the middleware's answer. *)
Lemma runs_answer (x : res HttpResponse) tr (r : res (option HttpResponse)) :
  runs (resp ← of_res x; mret (Some resp) : prog sysE (option HttpResponse)) tr r ->
  tr = [] /\ r = match x with Ok resp => Ok (Some resp) | Exn e => Exn e end.
Proof. destruct x; cbn; by intros [-> ->]. Qed.

Lemma authenticate_post s req n tr0 :
  n <= 0 ->
  checks tr0 = [(client_ip (config_ s) req, n)] -> recorded tr0 = [] ->
  is_internal_endpoint (path req) = false ->
  (require_auth (config_ s) = true -> blocks tr0 = [(client_ip (config_ s) req, false)]) ->
  has_post (authenticate (config_ s) req (client_ip (config_ s) req)) (fun tr r =>
    sfoot_of tr = sfoot_nil /\ middleware_post s req (tr0 ++ tr) r).
Proof.
  intros Hn Hc Hr Hint Hb tr r H. unfold authenticate, metric in H.
  assert (Hpass : (require_auth (config_ s) = true ->
      authenticated (check_bearer_auth (header req "authorization") (api_key (config_ s))) = true) ->
    passed s req (tr0 ++ [])).
  { rewrite app_nil_r. intros Ha. split; [by exists n|]. split; [done|]. intros Hq. auto. }
  destruct (require_auth (config_ s)) eqn:Hreq.
  - destruct (authenticated _) eqn:Hauth; cbn [negb] in H.
    + destruct H as [-> ->]. split; [done|]. right. by apply Hpass.
    + runs_skip H. runs_skip H. apply runs_answer in H as [-> ->].
      split; [reflexivity|].
      match goal with |- context [make_error_response ?a ?b ?c ?d ?e] =>
        destruct (make_error_status a b c d e) as [(resp & -> & Hs & _)|[m ->]] end.
      * split; [done|]. right. right. split; [done|]. split; [done|]. split; [|done].
        unfold recorded in *. by rewrite observe_app, Hr.
      * by exists m.
  - destruct H as [-> ->]. split; [done|]. right. by apply Hpass.
Qed.

(** The part after the lock-out test. *)
Lemma rate_limit_post s req tr0 :
  checks tr0 = [] -> recorded tr0 = [] -> sfoot_of tr0 = sfoot_nil ->
  is_internal_endpoint (path req) = false ->
  (require_auth (config_ s) = true -> blocks tr0 = [(client_ip (config_ s) req, false)]) ->
  has_post (
      retry_after ← trigger (CheckRequest (client_ip (config_ s) req));
      if 0 <? retry_after then
        _ ← metric (inc requests_rejected_rate_limit);
        resp ← of_res (with_header "Retry-After" (to_string retry_after)
          (make_error_response 429 "rate_limit_error" "rate_limited"
             "Rate limit exceeded. Please slow down." ""));
        mret (Some resp)
      else authenticate (config_ s) req (client_ip (config_ s) req)
      : prog sysE (option HttpResponse))
    (fun tr r => sfoot_of (tr0 ++ tr) = sfoot_nil /\ middleware_post s req (tr0 ++ tr) r).
Proof.
  intros Hc Hr Hf Hint Hb tr r H. unfold metric in H. runs_seq H as n.
  destruct (Z.ltb_spec 0 n) as [Hn|Hn].
  - runs_skip H. apply runs_answer in H as [-> ->]. split; [by rewrite sfoot_app, Hf|].
    match goal with |- context [with_header ?a ?b (make_error_response ?c ?d ?e ?f ?g)] =>
      destruct (with_header_status c a b d e f g _ eq_refl) as [(resp & -> & Hs & Hh)|[m ->]] end.
    + split; [done|]. right. left. exists n. unfold checks, recorded in *.
      rewrite !observe_app, Hc, Hr. by split_and!.
    + by exists m.
  - apply (authenticate_post s req n (tr0 ++ [Ev (CheckRequest (client_ip (config_ s) req)) n])) in H
      as [Hs HP]; [|done| | |done|].
    + rewrite app_assoc. split; [|done]. by rewrite !sfoot_app, Hf, Hs.
    + unfold checks in *. by rewrite observe_app, Hc.
    + unfold recorded in *. by rewrite observe_app, Hr.
    + intros Hq. unfold blocks in *. by rewrite observe_app, Hb.
Qed.

Lemma run_middleware_post s req :
  has_post (run_middleware s req) (fun tr r =>
    sfoot_of tr = sfoot_nil /\ middleware_post s req tr r).
Proof.
  intros tr r H. unfold run_middleware in H.
  destruct (is_internal_endpoint (path req)) eqn:Hint.
  { destruct H as [-> ->]. split; [done|]. by left. }
  destruct (require_auth (config_ s)) eqn:Hreq.
  - runs_seq H as blocked. destruct blocked.
    + unfold metric in H. runs_skip H. apply runs_answer in H as [-> ->]. split; [reflexivity|].
      match goal with |- context [with_header ?a ?b (make_error_response ?c ?d ?e ?f ?g)] =>
        destruct (with_header_status c a b d e f g _ eq_refl) as [(resp & -> & Hs & Hh)|[m ->]] end.
      * split; [done|]. by left.
      * by exists m.
    + by apply (rate_limit_post s req [Ev (AuthIsBlocked (client_ip (config_ s) req)) false]) in H.
  - apply (rate_limit_post s req []) in H; [done..|by rewrite Hreq].
Qed.

(** *** Routes *)

Lemma respond_post id resp :
  has_post (respond id resp) (fun tr r =>
    sfoot_of tr = mk_sfoot [] [] 0 [] [""%string] /\
    r = Ok (adapt_response (apply_security_headers id resp))).
Proof. intros tr r H. unfold respond in H. runs_skip H. by destruct H as [-> ->]. Qed.

Lemma begin_request_post :
  has_post begin_request (fun tr r => exists id, uuid_shape id /\ r = Ok id /\
    sfoot_of tr = mk_sfoot [] [] 0 [] [id]).
Proof.
  intros tr r H. unfold begin_request in H.
  apply runs_bind in H as [(t1 & t2 & id & -> & [Hf (id' & Hid & Hu)]%generate_request_id_post & H)
                          |(e & -> & [_ (id' & [=] & _)]%generate_request_id_post)].
  injection Hid as <-. runs_skip H. destruct H as [-> ->]. exists id. split; [done|].
  split; [done|]. by rewrite sfoot_app, Hf.
Qed.

(** How a route ends behind its request id: with a response made of the
    security headers of that id, which is cleared by the last step and nowhere
    before, or with a JSON error and the id still set. *)
Definition answers_cleared (id : string) (tr : list (event sysE)) (r : res (list response_op)) : Prop :=
  match r with
  | Ok ops => exists mid, tr = mid ++ [Ev (SetRequestId "") tt] /\ request_ids mid = [] /\
      exists resp, ops = adapt_response (apply_security_headers id resp)
  | Exn e => request_ids tr = [] /\ json_exception e
  end.

(** An event that draws a random number, as the generation of the id does. *)
Definition draws (ev : event sysE) : Prop :=
  match ev with Ev Rand32 _ => True | _ => False end.

(** A route draws its id, sets it, works, and clears it. *)
Definition routed (tr : list (event sysE)) (r : res (list response_op)) : Prop :=
  exists id pre tr', uuid_shape id /\ Forall draws pre /\
    tr = pre ++ Ev (SetRequestId id) tt :: tr' /\ answers_cleared id tr' r.

(** A handler as a route runs it: it sets no request id and throws only JSON
    errors. *)
Definition handles (p : prog sysE HttpResponse) : Prop :=
  has_post p (fun tr r => request_ids tr = [] /\
    match r with Ok _ => True | Exn e => json_exception e end).

Lemma json_handles s j : handles (of_res (json_response s j)).
Proof.
  intros tr r [-> ->]%runs_of_res. split; [done|].
  destruct (json_response_status s j) as [(resp & -> & _)|[m ->]]; [done|apply json_type_exception].
Qed.

Lemma handle_health_handles deps : handles (handle_health VERSION deps).
Proof.
  intros tr r H. unfold handle_health in H. runs_seq H as now. apply json_handles in H as [Hi Hr].
  split; [|done]. by rewrite request_ids_app, Hi.
Qed.

Lemma handle_ready_handles deps : handles (handle_ready deps).
Proof.
  intros tr r H. unfold handle_ready in H. destruct (d_backend deps), (d_pool deps);
    repeat (cbn [mbind prog_bind pbind mret prog_ret trigger] in H;
            lazymatch type of H with runs (Vis _ _) _ _ => runs_skip H end);
    cbn [mbind prog_bind pbind mret prog_ret trigger] in H;
    apply json_handles in H as [Hi Hr]; (split; [|done]);
    rewrite ?request_ids_app, Hi; done.
Qed.

Lemma handle_voices_handles deps : handles (handle_voices deps).
Proof. apply json_handles. Qed.

Lemma handle_speech_handles req deps : handles (handle_speech req deps).
Proof.
  intros tr r H%handle_speech_post. change (request_ids tr) with (sf_ids (sfoot_of tr)).
  assert (forall s ty code message param, r = make_error_response s ty code message param ->
    match r with Ok _ => True | Exn e => json_exception e end) as Herr.
  { intros s ty code message param ->.
    destruct (make_error_status s ty code message param) as [(resp & -> & _)|[m ->]];
      [done|apply json_type_exception]. }
  destruct H as [(s & c & m & p & _ & Hf & Hr)|[[Hf (e & -> & He)]|(rq & _ & Hend)]].
  - rewrite Hf. split; [done|]. by eapply Herr.
  - by rewrite Hf.
  - destruct Hend as [[Hf Hr]|[[Hf Hr]|[o Ho]]].
    + rewrite Hf. split; [done|]. by eapply Herr.
    + rewrite Hf. split; [done|]. by eapply Herr.
    + destruct (sempty (callback_cell o).2); destruct Ho as [Hf Hr]; rewrite Hf; (split; [done|]).
      * by rewrite Hr.
      * by eapply Herr.
Qed.

Lemma respond_cleared id resp : has_post (respond id resp) (answers_cleared id).
Proof.
  intros tr r H. unfold respond in H. cbn in H. destruct H as ([] & t & -> & -> & ->).
  exists []. split; [done|]. split; [done|]. by exists resp.
Qed.

(** A part that sets no request id, before one that ends as a route does. *)
Lemma answers_cleared_after id t1 t2 r :
  request_ids t1 = [] -> answers_cleared id t2 r -> answers_cleared id (t1 ++ t2) r.
Proof.
  intros H1 H2. destruct r as [ops|e]; cbn in *.
  - destruct H2 as (mid & -> & Hm & Hr). exists (t1 ++ mid). rewrite app_assoc, request_ids_app, H1.
    by split_and!.
  - by rewrite request_ids_app, H1.
Qed.

(** [response ← p; respond id response], possibly with a log line between. *)
Lemma handled_post id p (between : HttpResponse -> prog sysE unit) :
  handles p ->
  (forall resp, has_post (between resp) (fun tr r => r = Ok tt /\ request_ids tr = [])) ->
  has_post (response ← p; _ ← between response; respond id response) (answers_cleared id).
Proof.
  intros Hp Hb tr r H.
  apply runs_bind in H as [(t1 & t2 & resp & -> & [Hi _]%Hp & H)|(e & -> & [Hi He]%Hp)]; [|done].
  apply (runs_after _ _ tt _ _ _ (Hb resp)) in H as (t3 & t4 & -> & Hi3 & H%respond_cleared).
  by apply answers_cleared_after, answers_cleared_after.
Qed.

Lemma handled_plain_post id p :
  handles p -> has_post (response ← p; respond id response) (answers_cleared id).
Proof.
  intros Hp tr r H. refine (handled_post id p (fun _ => mret tt) Hp _ tr r H).
  by intros resp tr' r' [-> ->].
Qed.

(** The id is drawn and set before anything else. *)
Lemma begin_request_sets tr r :
  runs begin_request tr r ->
  exists id pre, uuid_shape id /\ r = Ok id /\ Forall draws pre /\
    tr = pre ++ [Ev (SetRequestId id) tt].
Proof.
  intros H. unfold begin_request in H.
  apply runs_bind in H as [(t1 & t2 & id & -> & H1 & H)
                          |(e & -> & [_ (id' & [=] & _)]%generate_request_id_post)].
  destruct (generate_request_id_post _ _ H1) as [_ (id' & [= <-] & Hu)].
  cbn in H. destruct H as ([] & t & -> & -> & ->). exists id, t1. split; [done|].
  split; [done|]. split; [|done].
  unfold generate_request_id, rand32 in H1.
  runs_seq H1 as a. runs_seq H1 as b. runs_seq H1 as c. runs_seq H1 as d.
  destruct H1 as [-> _]. by repeat constructor.
Qed.

(** A route: an id, then a body that ends in a response or a JSON error. *)
Lemma routed_intro (body : string -> prog sysE (list response_op)) tr r :
  (forall id, has_post (body id) (answers_cleared id)) ->
  runs (id ← begin_request; body id) tr r -> routed tr r.
Proof.
  intros Hb H.
  apply runs_bind in H as [(t1 & t2 & id & -> & (id' & pre & Hu & Hid & Hpre & ->)%begin_request_sets & H)
                          |(e & -> & (id' & _ & _ & [=] & _)%begin_request_sets)].
  injection Hid as <-. apply Hb in H. exists id, pre, t2. by rewrite <- app_assoc.
Qed.

(** Behind the middleware. *)
Lemma guarded_post s req id (rest : prog sysE (list response_op)) :
  has_post rest (answers_cleared id) ->
  has_post (middleware_err ← run_middleware s req;
            match middleware_err with Some rejection => respond id rejection | None => rest end)
    (answers_cleared id).
Proof.
  intros Hrest tr r H.
  apply runs_bind in H as [(t1 & t2 & o & -> & [Hf _]%run_middleware_post & H)
                          |(e & -> & [Hf [m ->]]%run_middleware_post)];
    apply (f_equal sf_ids) in Hf; cbn in Hf.
  - apply answers_cleared_after; [done|].
    destruct o as [resp|]; [by eapply respond_cleared|by apply Hrest].
  - split; [done|apply json_type_exception].
Qed.

(** The routing table: the five routes, and nothing else. *)
Lemma route_cases s q p :
  route VERSION s q = Some p ->
  (q_path q = "/health"%string /\ p = route_health VERSION s q) \/
  (q_path q = "/ready"%string /\ p = route_ready s q) \/
  (q_path q = "/metrics"%string /\ p = route_metrics q) \/
  (q_path q = "/v1/voices"%string /\ p = route_voices s q) \/
  (q_path q = "/v1/audio/speech"%string /\ p = route_speech s q).
Proof.
  unfold route.
  destruct (String.eqb (q_method q) "GET").
  - destruct (String.eqb_spec (q_path q) "/health"); [intros [= <-]; auto|].
    destruct (String.eqb_spec (q_path q) "/ready"); [intros [= <-]; auto|].
    destruct (String.eqb_spec (q_path q) "/metrics"); [intros [= <-]; auto|].
    destruct (String.eqb_spec (q_path q) "/v1/voices"); [intros [= <-]; auto 10|done].
  - destruct (String.eqb (q_method q) "POST"); [|done].
    destruct (String.eqb_spec (q_path q) "/v1/audio/speech"); [intros [= <-]; auto 10|done].
Qed.

Lemma route_routed s q p tr r :
  route VERSION s q = Some p -> q_path q <> "/metrics"%string -> runs p tr r -> routed tr r.
Proof.
  intros Hroute Hm Hrun.
  destruct (route_cases s q p Hroute) as [[_ ->]|[[_ ->]|[[? ->]|[[_ ->]|[_ ->]]]]]; [| |done| |].
  - apply (routed_intro (fun id => response ← handle_health VERSION (make_deps s);
                                   respond id response)); [|exact Hrun].
    intros id. apply handled_plain_post, handle_health_handles.
  - apply (routed_intro (fun id => response ← handle_ready (make_deps s);
                                   respond id response)); [|exact Hrun].
    intros id. apply handled_plain_post, handle_ready_handles.
  - apply (routed_intro (fun id =>
      middleware_err ← run_middleware s (adapt_request q);
      match middleware_err with
      | Some rejection => respond id rejection
      | None => response ← handle_voices (make_deps s); respond id response
      end)); [|exact Hrun].
    intros id. apply guarded_post, handled_plain_post, handle_voices_handles.
  - apply (routed_intro (fun id => speech_body s q id)); [|exact Hrun].
    intros id tr1 r1 H. unfold speech_body, slog in H. runs_skip H.
    apply (answers_cleared_after id [_]); [done|]. revert H.
    apply guarded_post. apply (handled_post id _ (fun resp => slog _ _ _));
      [apply handle_speech_handles|]. by intros resp tr2 r2 ([] & -> & ->)%runs_trigger.
Qed.

(** No response of a route hands a job to the pool but the speech route's, and
    that one only behind the middleware. *)
Definition no_submission {A} (p : prog sysE A) : Prop := has_post p (fun tr _ => submissions tr = []).

Lemma no_submission_bind {A B} (p : prog sysE A) (k : A -> prog sysE B) :
  no_submission p -> (forall a, no_submission (k a)) -> no_submission (p ≫= k).
Proof.
  intros Hp Hk tr r [(t1 & t2 & a & -> & H1 & H2)|(e & -> & H)]%runs_bind; [|by eapply Hp].
  apply Hp in H1. apply Hk in H2. by rewrite submissions_app, H1, H2.
Qed.

Lemma no_submission_foot {A} (p : prog sysE A) (P : sfoot -> res A -> Prop) :
  has_post p (fun tr r => P (sfoot_of tr) r) -> (forall f r, P f r -> sf_subs f = []) ->
  no_submission p.
Proof. intros Hp HP tr r H%Hp. exact (HP _ _ H). Qed.

Lemma no_submission_event {X} (e : sysE X) :
  (forall x, submission_of e x = None) -> no_submission (trigger e).
Proof.
  intros He tr r (x & -> & ->)%runs_trigger. unfold submissions. cbn. by rewrite He.
Qed.

Lemma no_submission_ret {A} (a : A) : no_submission (mret a).
Proof. by intros tr r [-> ->]. Qed.

Lemma no_submission_res {A} (x : res A) : no_submission (of_res x).
Proof. by intros tr r [-> _]%runs_of_res. Qed.

Lemma respond_no_submission id resp : no_submission (respond id resp).
Proof. intros tr r [Hf _]%respond_post. exact (f_equal sf_subs Hf). Qed.

Lemma begin_request_no_submission : no_submission begin_request.
Proof. intros tr r (id & _ & _ & Hf)%begin_request_post. exact (f_equal sf_subs Hf). Qed.

Lemma middleware_no_submission s req : no_submission (run_middleware s req).
Proof. intros tr r [Hf _]%run_middleware_post. exact (f_equal sf_subs Hf). Qed.

(** Submissions of the speech route: only after the middleware let the request
    pass. *)
Lemma speech_body_guarded s q id tr r :
  runs (speech_body s q id) tr r -> is_internal_endpoint (q_path q) = false ->
  submissions tr <> [] ->
  exists t1 t2 t3, tr = t1 ++ t2 ++ t3 /\ passed s (adapt_request q) t2 /\
    submissions t1 = [] /\ submissions t2 = [].
Proof.
  intros H Hint Hsub. unfold speech_body, slog in H. runs_seq H as u.
  apply runs_bind in H as [(t2 & t3 & o & -> & [Hf Hm]%run_middleware_post & H)
                          |(e & -> & [Hf _]%run_middleware_post)].
  2: { exfalso. apply Hsub. rewrite submissions_app. exact (f_equal sf_subs Hf). }
  apply (f_equal sf_subs) in Hf. cbn in Hf. destruct o as [resp|].
  - exfalso. apply Hsub. rewrite !submissions_app, Hf. by apply respond_no_submission in H as ->.
  - eexists _, t2, t3. split; [done|]. split; [|split; [done|exact Hf]].
    destruct Hm as [Hm|Hm]; [|exact Hm]. cbn in Hm. congruence.
Qed.

Lemma route_other_no_submission s q p :
  route VERSION s q = Some p -> q_path q <> "/v1/audio/speech"%string -> no_submission p.
Proof.
  assert (forall j st, no_submission (of_res (json_response st j))) as Hjson
    by (intros; apply no_submission_res).
  assert (forall h, no_submission h -> no_submission (probe_route h)) as Hprobe.
  { intros h Hh. apply no_submission_bind; [apply begin_request_no_submission|]. intros id.
    apply no_submission_bind; [exact Hh|]. intros resp. apply respond_no_submission. }
  intros Hroute Hne.
  destruct (route_cases s q p Hroute) as [[_ ->]|[[_ ->]|[[_ ->]|[[_ ->]|[? ->]]]]]; [..|done].
  - apply Hprobe. unfold handle_health. apply no_submission_bind; [by apply no_submission_event|].
    intros now. apply Hjson.
  - apply Hprobe. unfold handle_ready.
    repeat (apply no_submission_bind; [|intros ?]); try apply Hjson.
    + destruct (d_backend _); [by apply no_submission_event|apply no_submission_ret].
    + destruct (d_pool _); [by apply no_submission_event|apply no_submission_ret].
    + destruct (d_pool _); [by apply no_submission_event|apply no_submission_ret].
  - unfold route_metrics, handle_metrics.
    repeat (apply no_submission_bind; [|intros ?]); try apply no_submission_ret.
    by apply no_submission_event.
  - unfold route_voices. apply no_submission_bind; [apply begin_request_no_submission|]. intros id.
    apply no_submission_bind; [apply middleware_no_submission|]. intros [resp|];
      [apply respond_no_submission|].
    apply no_submission_bind; [apply Hjson|]. intros resp. apply respond_no_submission.
Qed.
End AdapterLemmas.

(** ** Properties *)

Section AdapterProperties.
Context {L : JsonLib} {HL : JsonLaws L} (VERSION : string).

(** C26: the middleware: an internal endpoint passes without any check; another
    request passes exactly when its client is not locked out, is within its
    request quota and presents the key; a refusal is a 429 with Retry-After
    or a 401, and exactly the 401s are recorded as failures of the client. *)
Theorem middleware_correct s req tr r (Hrun : runs (run_middleware s req) tr r) :
  submissions tr = [] /\
  match r with
  | Ok None => is_internal_endpoint (path req) = true \/ passed s req tr
  | Ok (Some resp) => is_internal_endpoint (path req) = false /\ refused s req tr resp
  | Exn e => exists m, e = JsonTypeError m
  end.
Proof.
  apply run_middleware_post in Hrun as [Hf Hp]. split; [exact (f_equal sf_subs Hf)|exact Hp].
Qed.

(** Inference is guarded: whichever route a request takes, a job reaches
    the pool only from POST /v1/audio/speech and only after the middleware let
    the request pass: the client is not locked out, within its quota and, when
    authentication is on, presented the key. *)
Theorem inference_guarded s q p tr r
    (Hroute : route VERSION s q = Some p) (Hrun : runs p tr r) (Hsub : submissions tr <> []) :
  q_path q = "/v1/audio/speech"%string /\
  exists t1 t2 t3, tr = t1 ++ t2 ++ t3 /\ passed s (adapt_request q) t2 /\
    submissions t1 = [] /\ submissions t2 = [].
Proof.
  destruct (String.eqb_spec (q_path q) "/v1/audio/speech") as [Hpath|Hpath].
  2: { exfalso. apply Hsub. by eapply route_other_no_submission. }
  split; [done|].
  destruct (route_cases VERSION s q p Hroute) as [[Hp _]|[[Hp _]|[[Hp _]|[[Hp _]|[_ ->]]]]];
    try congruence.
  unfold route_speech in Hrun.
  apply runs_bind in Hrun as [(t1 & t2 & id & -> & H1 & H2)|(e & -> & H1)];
    apply begin_request_no_submission in H1; [|done].
  destruct (speech_body_guarded s q id t2 r) as (a & b & c & -> & Hp & Ha & Hb);
    [exact H2|by rewrite Hpath|by rewrite submissions_app, H1 in Hsub|].
  exists (t1 ++ a), b, c. rewrite <- app_assoc. split; [done|]. split; [done|].
  split; [|done]. by rewrite submissions_app, H1, Ha.
Qed.

(** C39: every answered request of a route other than /metrics carries the
    security headers and a fresh version-4 request id.  The id is drawn and
    set for the logs before the route does anything else, it stays set during
    all of the middleware, the handler and their log lines, and clearing it is
    the last step; a JSON exception leaves it set. *)
Theorem responses_secured s q p tr r
    (Hroute : route VERSION s q = Some p) (Hpath : q_path q <> "/metrics"%string)
    (Hrun : runs p tr r) :
  exists id pre tr', uuid_shape id /\ Forall draws pre /\
    tr = pre ++ Ev (SetRequestId id) tt :: tr' /\
    match r with
    | Ok ops =>
        (exists mid, tr' = mid ++ [Ev (SetRequestId "") tt] /\ request_ids mid = []) /\
        SetHeader "X-Request-Id" id ∈ ops /\
        SetHeader "X-Content-Type-Options" "nosniff" ∈ ops /\
        SetHeader "Cache-Control" "no-store" ∈ ops
    | Exn e => request_ids tr' = [] /\ json_exception e
    end.
Proof.
  destruct (route_routed VERSION s q p tr r Hroute Hpath Hrun) as (id & pre & tr' & Hu & Hpre & -> & H).
  exists id, pre, tr'. split; [done|]. split; [done|]. split; [done|].
  destruct r as [ops|e]; [|done]. destruct H as (mid & -> & Hm & resp & ->).
  split; [by exists mid|].
  assert (forall k v, resp_headers (apply_security_headers id resp) !! k = Some v ->
    SetHeader k v ∈ adapt_response (apply_security_headers id resp)) as Hhdr.
  { intros k v Hk. unfold adapt_response. apply elem_of_app. right. apply elem_of_app. left.
    apply list_elem_of_fmap. exists (k, v). split; [done|]. by apply elem_of_map_to_list. }
  split_and!; apply Hhdr; cbn; by simplify_map_eq.
Qed.

(** Header names are case-insensitive: a look-up by lower-case name gives
    the last value sent under any spelling of the name. *)
Theorem adapt_request_headers q name :
  header (adapt_request q) (smap tolower name) =
  default ""%string (last ((filter (fun kv => smap tolower kv.1 = smap tolower name) (q_headers q)).*2)).
Proof.
  unfold header. cbn [adapt_request headers]. f_equal.
  induction (q_headers q) as [|[k v] l IH] using rev_ind; [done|].
  rewrite fold_left_app, filter_app, fmap_app. cbn [fold_left]. unfold adapt_header at 1. cbn [fst snd].
  destruct (decide (smap tolower k = smap tolower name)) as [Heq|Hne].
  - rewrite Heq, lookup_insert_eq, filter_cons_True, filter_nil by done. cbn. by rewrite last_snoc.
  - rewrite lookup_insert_ne, filter_cons_False, filter_nil by done. cbn. by rewrite app_nil_r.
Qed.
End AdapterProperties.

(** ** Witnesses *)

Module AdapterWitness.
Import HandlerWitness.

Definition cfg : ServerConfig :=
  (apply_env_overrides
     (fun n => if String.eqb n "TTS_REQUIRE_AUTH" then Some "true"%string
               else if String.eqb n "TTS_API_KEY" then Some "secret"%string
               else if String.eqb n "TTS_MODEL_PATH" then Some "/m"%string else None)
     config_init).1.

Definition server : TtsServer :=
  mk_server cfg true (Some voice_catalog) (Some (Pool.mk_config 10 300)) (server_auth_limiter cfg)
    (server_request_limiter cfg) 0 true.

Definition post (key : string) : HttplibRequest :=
  mk_httplib "POST" "/v1/audio/speech" "SPEECH" "10.0.0.1"
    [("Content-Type", "application/json"); ("AUTHORIZATION", "Bearer " +:+ key)]%string.

(** The speech route run by the witness environment of the handlers. *)
Definition run_route (key : string) : list (event sysE) * res (list response_op) :=
  match exec demo_handler (route_speech server (post key)) tt with
  | Some (tr, r, _) => (tr, r)
  | None => ([], Exn (RuntimeError ""))
  end.

Lemma run_route_runs : runs (route_speech server (post "secret")) (run_route "secret").1
  (run_route "secret").2.
Proof. apply (exec_runs demo_handler _ tt _ _ tt). by vm_compute. Qed.

Lemma run_route_submits : submissions (run_route "secret").1 <> [].
Proof. by vm_compute. Qed.

Lemma inference_guarded_witness :
  q_path (post "secret") = "/v1/audio/speech"%string /\
  exists t1 t2 t3, (run_route "secret").1 = t1 ++ t2 ++ t3 /\
    passed server (adapt_request (post "secret")) t2 /\ submissions t1 = [] /\ submissions t2 = [].
Proof.
  refine (inference_guarded "1.0" server (post "secret") _ (run_route "secret").1
    (run_route "secret").2 _ run_route_runs run_route_submits).
  reflexivity.
Defined.

Lemma responses_secured_witness :
  exists id pre tr', uuid_shape id /\ Forall draws pre /\
    (run_route "secret").1 = pre ++ Ev (SetRequestId id) tt :: tr' /\
    match (run_route "secret").2 with
    | Ok ops =>
        (exists mid, tr' = mid ++ [Ev (SetRequestId "") tt] /\ request_ids mid = []) /\
        SetHeader "X-Request-Id" id ∈ ops /\
        SetHeader "X-Content-Type-Options" "nosniff" ∈ ops /\
        SetHeader "Cache-Control" "no-store" ∈ ops
    | Exn e => request_ids tr' = [] /\ json_exception e
    end.
Proof.
  refine (responses_secured "1.0" server (post "secret") (route_speech server (post "secret"))
    (run_route "secret").1 (run_route "secret").2 _ _ run_route_runs).
  - reflexivity.
  - discriminate.
Defined.

(** A wrong key: 401, and the failure is recorded. *)
Definition run_wrong : list (event sysE) * res (option HttpResponse) :=
  match exec demo_handler (run_middleware server (adapt_request (post "guess"))) tt with
  | Some (tr, r, _) => (tr, r)
  | None => ([], Exn (RuntimeError ""))
  end.

Lemma run_wrong_runs :
  runs (run_middleware server (adapt_request (post "guess"))) run_wrong.1 run_wrong.2.
Proof. apply (exec_runs demo_handler _ tt _ _ tt). by vm_compute. Qed.

Lemma middleware_correct_witness :
  recorded run_wrong.1 = ["10.0.0.1"%string] /\ submissions run_wrong.1 = [] /\
  match run_wrong.2 with
  | Ok None => is_internal_endpoint (path (adapt_request (post "guess"))) = true \/
      passed server (adapt_request (post "guess")) run_wrong.1
  | Ok (Some resp) => is_internal_endpoint (path (adapt_request (post "guess"))) = false /\
      refused server (adapt_request (post "guess")) run_wrong.1 resp
  | Exn e => exists m, e = JsonTypeError m
  end.
Proof.
  split; [by vm_compute|].
  exact (middleware_correct server (adapt_request (post "guess")) run_wrong.1 run_wrong.2
    run_wrong_runs).
Defined.
End AdapterWitness.
