(* ===== verification/Session.v ===== *)
(** * The protocol between a request and the pool

    The speech handler lends the pool closures over its own stack frame
    ([result_mutex], [result_cv], [synth_result], ... of [handle_speech] in
    [src/server/request_handler.cpp]), so it must wait for the callback of a
    job it submitted, and only for that.  [session] types a program against
    this protocol and bounds the number of its calls; every route of
    [HttpAdapter] is well typed. *)

From Stdlib Require Import ZArith Lia Ascii String SpecFloat.
From stdpp Require Import base tactics numbers list strings gmap.
From S2P Require Import Prelude Effects Floats Auth RateLimit Voices Validation Metrics.
From S2P Require Import Backend Pool PoolSpec Config Http RequestHandler Server HttpAdapter.

#[local] Open Scope Z_scope.

(** ** The protocol *)

(** Nothing submitted; a callback is owed; the callback has been received. *)
Inductive phase := Fresh | Waiting | Received.

#[export] Instance phase_eq_dec : EqDecision phase.
Proof. solve_decision. Defined.

(** The phase after a call, [None] when the call is out of turn.  A request
    neither shuts the pool down nor touches the listener. *)
Definition session_step {X} (ph : phase) (e : sysE X) : X -> option phase :=
  match e in sysE X return X -> option phase with
  | PoolSubmit job => fun ok =>
      match ph with
      | Fresh => if both_callbacks job then Some (if ok then Waiting else Fresh) else None
      | _ => None
      end
  | AwaitResult => fun _ => match ph with Waiting => Some Received | _ => None end
  | PoolShutdown => fun _ => None
  | HttpNew => fun _ => None
  | HttpConfigure _ _ _ => fun _ => None
  | SetRunning _ => fun _ => None
  | HttpListen _ _ => fun _ => None
  | HttpStop => fun _ => None
  | HttpDelete => fun _ => None
  | _ => fun _ => Some ph
  end.

(** From [ph] on, [p] makes at most [n] calls, each in turn; it returns in a
    phase that satisfies [Q], and no exception leaves it while a callback is
    owed. *)
Fixpoint session (n : nat) (ph : phase) {A} (p : prog sysE A) (Q : phase -> A -> Prop)
    {struct p} : Prop :=
  match p with
  | Ret a => Q ph a
  | Throw _ => ph <> Waiting
  | Vis e k =>
      match n with
      | O => False
      | S n' => forall x,
          match session_step ph e x with
          | Some ph' => session n' ph' (k x) Q
          | None => False
          end
      end
  end.

(** ** Rules *)

Lemma session_mono n m ph {A} (p : prog sysE A) (Q R : phase -> A -> Prop) :
  (n <= m)%nat -> (forall ph a, Q ph a -> R ph a) -> session n ph p Q -> session m ph p R.
Proof.
  intros Hle HQR. revert n m Hle ph. induction p as [a|e|X e k IH]; intros n m Hle ph; cbn [session].
  - apply HQR.
  - done.
  - destruct n as [|n]; [done|]. destruct m as [|m]; [lia|]. intros H x. specialize (H x).
    destruct (session_step ph e x); [|done]. apply (IH x n m); [lia|done].
Qed.

Lemma session_bind n m ph {A B} (p : prog sysE A) (k : A -> prog sysE B) Q R :
  session n ph p Q -> (forall ph' a, Q ph' a -> session m ph' (k a) R) ->
  session (n + m) ph (p ≫= k) R.
Proof.
  intros Hp Hk. unfold mbind, prog_bind.
  revert n ph Hp. induction p as [a|e|X e f IH]; intros n ph Hp; cbn [session pbind] in *.
  - apply (session_mono m (n + m) ph (k a) R R); [lia|done|by apply Hk].
  - done.
  - destruct n as [|n]; [done|]. intros x. specialize (Hp x).
    destruct (session_step ph e x); [|done]. by apply IH.
Qed.

(** A part that leaves the phase as it is. *)
Definition quiet (n : nat) (ph : phase) {A} (p : prog sysE A) : Prop :=
  session n ph p (fun ph' _ => ph' = ph).

Lemma quiet_bind n m ph {A B} (p : prog sysE A) (k : A -> prog sysE B) R :
  quiet n ph p -> (forall a, session m ph (k a) R) -> session (n + m) ph (p ≫= k) R.
Proof. intros Hp Hk. eapply session_bind; [exact Hp|]. by intros ph' a ->. Qed.

Lemma quiet_trigger ph X (e : sysE X) : (forall x, session_step ph e x = Some ph) -> quiet 1 ph (trigger e).
Proof. intros He x. by rewrite He. Qed.

Lemma quiet_ret n ph {A} (a : A) : quiet n ph (mret a).
Proof. done. Qed.

Lemma quiet_res n ph {A} (r : res A) : ph <> Waiting -> quiet n ph (of_res r).
Proof. by destruct r. Qed.

Lemma quiet_mono n m ph {A} (p : prog sysE A) : (n <= m)%nat -> quiet n ph p -> quiet m ph p.
Proof. intros Hle. by apply session_mono. Qed.

Lemma session_within n ph {A} (p : prog sysE A) Q : session n ph p Q -> within n p.
Proof.
  revert n ph. induction p as [a|e|X e k IH]; intros n ph; cbn [session within]; [done..|].
  destruct n as [|n]; [done|]. intros H x. specialize (H x).
  destruct (session_step ph e x); [|done]. by eapply IH.
Qed.

(** ** The handlers *)

(** Closes a session of calls that do not concern the pool, by looking at
    every control path. *)
Ltac session_solve :=
  repeat (first
    [ progress cbn [session quiet mbind prog_bind pbind trigger mret prog_ret of_res session_step slog
                    metric]
    | match goal with |- forall _, _ => intros ? end
    | match goal with |- context [of_res ?r] => destruct r end
    | match goal with |- context [if ?b then _ else _] => destruct b end
    | done ]).

Section Routes.
Context {L : JsonLib} (VERSION : string).

Definition ended : phase -> HttpResponse -> Prop := fun ph _ => ph <> Waiting.

Lemma set_queue_gauge_quiet ph : quiet 2 ph set_queue_gauge.
Proof. unfold quiet, set_queue_gauge, metric. session_solve. Qed.

Lemma reject_session n v : session 1 Fresh (reject n v) ended.
Proof. unfold reject, metric, ended. session_solve. Qed.

Lemma server_error_session ph s c m : ph <> Waiting -> session 1 ph (server_error s c m) ended.
Proof. intros Hph. unfold server_error, metric, ended. session_solve. Qed.

Lemma finish_speech_session t0 cell : session 6 Received (finish_speech t0 cell) ended.
Proof. unfold finish_speech, server_error, metric, ended. session_solve. Qed.

Lemma submit_speech_session t0 rq : session 20 Fresh (submit_speech t0 rq) ended.
Proof.
  unfold submit_speech, metric.
  do 4 (apply (quiet_bind 1 _ Fresh); [by apply quiet_trigger|intros _]).
  apply (quiet_bind 2 14 Fresh); [apply set_queue_gauge_quiet|intros _].
  intros ok. cbn [session_step both_callbacks on_success on_error].
  destruct ok; cbn [negb].
  - apply (quiet_bind 2 11 Waiting); [apply set_queue_gauge_quiet|intros _]. intros o.
    cbn [session_step]. apply (quiet_bind 1 9 Received); [by apply quiet_trigger|intros _].
    apply (quiet_bind 2 7 Received); [apply set_queue_gauge_quiet|intros _].
    eapply session_mono; [|done|apply finish_speech_session]. lia.
  - apply (quiet_bind 1 12 Fresh); [by apply quiet_trigger|intros _].
    eapply session_mono; [|done|by apply server_error_session]. lia.
Qed.

Lemma run_speech_session t0 deps rq : session 21 Fresh (run_speech t0 deps rq) ended.
Proof.
  unfold run_speech. apply (quiet_bind 1 20 Fresh).
  - destruct (d_pool deps); [by apply quiet_trigger|apply quiet_ret].
  - intros b. destruct b; cbn [negb]; [apply submit_speech_session|].
    eapply session_mono; [|done|by apply server_error_session]. lia.
Qed.

Lemma check_session n v k : session (S n) Fresh k ended -> session (S n) Fresh (check v k) ended.
Proof.
  intros Hk. unfold check. destruct (valid v); cbn [negb]; [done|].
  eapply session_mono; [|done|apply reject_session]. lia.
Qed.

Lemma speech_fields_session t0 parsed deps : session 21 Fresh (speech_fields t0 parsed deps) ended.
Proof.
  unfold speech_fields.
  repeat (first [apply (quiet_bind 0 21 Fresh); [by apply quiet_res|intros ?]
                |apply check_session]).
  apply run_speech_session.
Qed.

Lemma handle_speech_session req deps : session 22 Fresh (handle_speech req deps) ended.
Proof.
  unfold handle_speech. apply (quiet_bind 1 21 Fresh); [by apply quiet_trigger|intros t0].
  apply check_session. destruct (valid _); cbn [negb].
  - destruct (parse (body req)) as [parsed|[]]; [apply speech_fields_session|..];
      unfold metric, ended; session_solve.
  - eapply session_mono; [|done|apply reject_session]. lia.
Qed.

Lemma generate_request_id_quiet ph : quiet 4 ph generate_request_id.
Proof. unfold quiet, generate_request_id, rand32. session_solve. Qed.

Lemma begin_request_quiet ph : quiet 5 ph begin_request.
Proof.
  unfold begin_request. apply (quiet_bind 4 1); [apply generate_request_id_quiet|].
  intros id. by apply (quiet_bind 1 0); [apply quiet_trigger|].
Qed.

Lemma middleware_quiet s req : quiet 4 Fresh (run_middleware s req).
Proof. unfold quiet, run_middleware, authenticate, metric. session_solve. Qed.

Definition finished : phase -> list response_op -> Prop := fun ph _ => ph <> Waiting.

Lemma respond_session id ph resp : ph <> Waiting -> session 1 ph (respond id resp) finished.
Proof. intros Hph. unfold respond, finished. session_solve. Qed.

Lemma handled_session n id (p : prog sysE HttpResponse) (log : HttpResponse -> prog sysE unit) :
  session n Fresh p ended -> (forall ph resp, quiet 1 ph (log resp)) ->
  session (n + 2) Fresh (response ← p; _ ← log response; respond id response) finished.
Proof.
  intros Hp Hlog. eapply session_bind; [exact Hp|]. intros ph resp Hph.
  apply (quiet_bind 1 1); [apply Hlog|intros _]. by apply respond_session.
Qed.

Lemma guarded_session n s req id (rest : prog sysE (list response_op)) :
  session (S n) Fresh rest finished ->
  session (5 + n) Fresh
    (middleware_err ← run_middleware s req;
     match middleware_err with Some rejection => respond id rejection | None => rest end) finished.
Proof.
  intros Hrest. apply (quiet_bind 4 (S n)); [apply middleware_quiet|]. intros [resp|]; [|done].
  eapply session_mono; [|done|by apply respond_session]. lia.
Qed.

(** A handler without any call on the pool but its state. *)
Lemma probe_session p : session 3 Fresh p ended -> session 40 Fresh (probe_route p) finished.
Proof.
  intros Hp. unfold probe_route. apply (quiet_bind 5 35); [apply begin_request_quiet|]. intros id.
  apply (session_bind 3 32 _ _ _ ended); [done|]. intros ph resp Hph.
  eapply session_mono; [|done|by apply respond_session]. lia.
Qed.

Lemma route_session s q p :
  route VERSION s q = Some p -> session 40 Fresh p finished.
Proof.
  intros Hroute.
  destruct (route_cases VERSION s q p Hroute) as [[_ ->]|[[_ ->]|[[_ ->]|[[_ ->]|[_ ->]]]]].
  - apply probe_session. unfold handle_health, ended. session_solve.
  - apply probe_session. unfold handle_ready, ended. session_solve.
  - unfold route_metrics, handle_metrics, finished. session_solve.
  - unfold route_voices. apply (quiet_bind 5 35); [apply begin_request_quiet|]. intros id.
    apply (guarded_session 30). unfold handle_voices.
    apply (quiet_bind 0 31); [by apply quiet_res|]. intros resp.
    eapply session_mono; [|done|by apply respond_session]. lia.
  - unfold route_speech. apply (quiet_bind 5 35); [apply begin_request_quiet|]. intros id.
    unfold speech_body. apply (quiet_bind 1 34); [by apply quiet_trigger|intros _].
    apply (guarded_session 29).
    apply (session_mono 24 30 _ _ finished finished); [lia|done|].
    apply (handled_session 22); [apply handle_speech_session|]. intros ph resp. by apply quiet_trigger.
Qed.
End Routes.

(** ** Property *)

(** C23: typing: every route follows the protocol of the pool and ends after at
    most 40 calls: it submits at most one job, with both callbacks, waits
    exactly once and only for a job the pool accepted, and neither a response
    nor an exception leaves it between submission and callback, while the pool
    holds references to its stack frame. *)
Theorem routes_well_typed {L : JsonLib} VERSION s q p
    (Hroute : route VERSION s q = Some p) :
  session 40 Fresh p (fun ph _ => ph = Fresh \/ ph = Received) /\ within 40 p.
Proof.
  pose proof (route_session VERSION s q p Hroute) as H.
  split; [|by eapply session_within].
  eapply session_mono; [done| |exact H]. intros [] ops Hph; [by left|done|by right].
Qed.

Module SessionWitness.
Import HandlerWitness AdapterWitness.

Lemma routes_well_typed_witness :
  session 40 Fresh (route_speech server (post "secret"))
    (fun ph _ => ph = Fresh \/ ph = Received) /\
  within 40 (route_speech server (post "secret")).
Proof.
  exact (routes_well_typed "1.0" server (post "secret") _ eq_refl).
Defined.
End SessionWitness.
