(* ===== verification/Service.v ===== *)
(** * The service: concurrent requests over the shared objects

    Any number of requests run concurrently ([route] of [HttpAdapter], one
    thread each, as cpp-httplib runs them), interleaved call by call, against
    the two rate limiters ([RateLimit]), the inference pool ([PoolSpec], which
    [Pool] refines) and the cells their callbacks fill ([result_mutex],
    [result_cv] and [result_ready] of [handle_speech] in
    [src/server/request_handler.cpp]).  What the other libraries answer is
    arbitrary. *)

From Stdlib Require Import ZArith Lia Ascii String SpecFloat.
From stdpp Require Import base tactics numbers list strings gmap.
From S2P Require Import Prelude Effects Floats Auth RateLimit Voices Validation Metrics.
From S2P Require Import Backend Pool PoolSpec Config Http RequestHandler Server HttpAdapter Session.

#[local] Open Scope Z_scope.

(** ** State *)

Definition thread : Type := HttplibRequest * prog sysE (list response_op).

(** The cell of a request is empty ([result_ready] is false) when it has no
    entry in [sv_cells]. *)
Record service := mk_service {
  sv_auth : AuthLimiter.AuthRateLimiter;
  sv_requests : RequestLimiter.RequestRateLimiter;
  sv_time : Z;
  sv_pool : pool_state;
  sv_cells : gmap nat outcome;
  sv_threads : list thread;
}.

Definition with_limiters A R (v : service) : service :=
  mk_service A R (sv_time v) (sv_pool v) (sv_cells v) (sv_threads v).
Definition with_service_pool a (v : service) : service :=
  mk_service (sv_auth v) (sv_requests v) (sv_time v) a (sv_cells v) (sv_threads v).
Definition with_cells c (v : service) : service :=
  mk_service (sv_auth v) (sv_requests v) (sv_time v) (sv_pool v) c (sv_threads v).
Definition with_threads ts (v : service) : service :=
  mk_service (sv_auth v) (sv_requests v) (sv_time v) (sv_pool v) (sv_cells v) ts.
Definition with_time t (v : service) : service :=
  mk_service (sv_auth v) (sv_requests v) t (sv_pool v) (sv_cells v) (sv_threads v).

(** ** Callbacks *)

(** The handles of the two closures of request [i]. *)
Definition success_handle (i : nat) : Z := 2 * Z.of_nat i.
Definition error_handle (i : nat) : Z := 2 * Z.of_nat i + 1.

(** A job as the pool holds it: the closures of its request, the deadline set
    by [submit()]. *)
Definition own_job (i : nat) (timeout now : Z) (job : InferenceJob) : InferenceJob :=
  mk_job (request job) (if deadline job =? 0 then now + timeout * SEC else deadline job)
    ((fun _ => success_handle i) <$> on_success job) ((fun _ => error_handle i) <$> on_error job).

(** The cell a notice fills, and with what. *)
Definition notice_cell (n : notice) : nat * outcome :=
  match n with
  | NSuccess cb r => (Z.to_nat (cb / 2), OSuccess r)
  | NError cb m => (Z.to_nat (cb / 2), OError m)
  end.

Section Service.
Context {L : JsonLib} (VERSION : string).
Context (it : gmap string AuthLimiter.IpState -> list (string * AuthLimiter.IpState)).
(** The initialised server. *)
Context (s : TtsServer).

Definition depth : Z := max_queue_depth (config_ s).
Definition timeout : Z := request_timeout_seconds (config_ s).

(** ** Calls on shared objects *)

(** The locked part of [InferencePool::submit()] on the state of the contract:
    refused when the pool is closed or its queue full.  The conversion of the
    size of the queue to [int] is not needed here, where the queue holds at most
    [depth] jobs; [System] shows [submit()] itself, with it, to do the same. *)
Definition submit_queue (job : InferenceJob) (a : pool_state) : option pool_state :=
  if negb (ps_open a) then None
  else if depth <=? Z.of_nat (length (ps_queue a)) then None
  else Some (mk_pstate (ps_queue a ++ [job]) true (ps_hand a) (ps_exited a)).

Lemma submit_queue_spec job a : submit_queue job a = pool_spec_step depth (PSubmit job Pushed) a.
Proof.
  unfold submit_queue. cbn [pool_spec_step].
  destruct (ps_open a); [|done]. cbn [negb andb].
  destruct (Z.leb_spec depth (Z.of_nat (length (ps_queue a)))).
  - by rewrite (proj2 (Z.ltb_ge _ _)) by lia.
  - by rewrite (proj2 (Z.ltb_lt _ _)) by lia.
Qed.

(** [None]: not a shared object, any answer; [Some None]: the call blocks. *)
Definition shared_call (i : nat) (now ins : Z) {X} (e : sysE X) (v : service)
    : option (option (X * service)) :=
  match e in sysE X return option (option (X * service)) with
  | AuthIsBlocked ip =>
      let '(b, A) := AuthLimiter.is_blocked (sv_auth v) now ip in
      Some (Some (b, with_limiters A (sv_requests v) v))
  | AuthRecordFailure ip =>
      let '(b, A) := AuthLimiter.check_and_record_failure it (sv_auth v) now ins ip in
      Some (Some (b, with_limiters A (sv_requests v) v))
  | CheckRequest ip =>
      let '(n, R) := RequestLimiter.check_request (sv_requests v) now ins ip in
      Some (Some (n, with_limiters (sv_auth v) R v))
  | PoolIsAccepting => Some (Some (ps_open (sv_pool v), v))
  | PoolQueueDepth => Some (Some (i32 (Z.of_nat (length (ps_queue (sv_pool v)))), v))
  | PoolSubmit job =>
      match submit_queue (own_job i timeout now job) (sv_pool v) with
      | Some a => Some (Some (true, with_service_pool a v))
      | None => Some (Some (false, v))
      end
  | AwaitResult =>
      match sv_cells v !! i with
      | Some o => Some (Some (o, with_cells (delete i (sv_cells v)) v))
      | None => Some None
      end
  | _ => None
  end.

Definition call_answers (i : nat) (now ins : Z) {X} (e : sysE X) (v : service) (x : X)
    (v' : service) : Prop :=
  match shared_call i now ins e v with Some r => r = Some (x, v') | None => v' = v end.

(** ** Steps *)

(** What a history records. *)
Inductive entry :=
| ECall (i : nat) (now ins : Z) (ev : event sysE)
| ETake (job : InferenceJob)
| EAnswer (job : InferenceJob) (n : notice).

Definition resume (i : nat) (q : HttplibRequest) (p : prog sysE (list response_op)) (t : Z)
    (v : service) : service :=
  with_time t (with_threads (<[i := (q, p)]> (sv_threads v)) v).

Definition fill_cell (n : notice) (v : service) : service :=
  with_cells (<[(notice_cell n).1 := (notice_cell n).2]> (sv_cells v)) v.

(** The clock readings of a call.  The limiters read the clock under their
    mutex; [submit()] reads it before locking the queue, so its reading may be
    older than the calls that other requests made meanwhile. *)
Definition clock_reads {X} (e : sysE X) (time now ins : Z) : Prop :=
  now <= ins /\ time <= ins /\
  match e with PoolSubmit _ => True | _ => time <= now end.

(** A request arrives; a request makes a call; the worker takes a job or
    answers the one in hand; [shutdown()] closes the pool; the worker leaves. *)
Inductive svc_step : service -> option entry -> service -> Prop :=
| step_arrive v q p :
    route VERSION s q = Some p ->
    svc_step v None (with_threads (sv_threads v ++ [(q, p)]) v)
| step_call v i q X (e : sysE X) k x now ins v' :
    sv_threads v !! i = Some (q, Vis e k) ->
    clock_reads e (sv_time v) now ins ->
    call_answers i now ins e v x v' ->
    svc_step v (Some (ECall i now ins (Ev e x))) (resume i q (k x) ins v')
| step_take v job a :
    pool_spec_step depth (PTake job) (sv_pool v) = Some a ->
    svc_step v (Some (ETake job)) (with_service_pool a v)
| step_answer v job n a :
    ps_hand (sv_pool v) = Some (job, false) ->
    pool_spec_step depth (PAnswer n) (sv_pool v) = Some a ->
    svc_step v (Some (EAnswer job n)) (fill_cell n (with_service_pool a v))
| step_close v a :
    pool_spec_step depth PClose (sv_pool v) = Some a ->
    svc_step v None (with_service_pool a v)
| step_exit v a :
    pool_spec_step depth PExit (sv_pool v) = Some a ->
    svc_step v None (with_service_pool a v).

Definition service_init (t : Z) : service :=
  mk_service (auth_limiter_ s) (request_limiter_ s) t pool_spec_init ∅ [].

(** Histories of the service. *)
Inductive served : list entry -> service -> Prop :=
| served_init t : served [] (service_init t)
| served_step hist v o v' :
    served hist v -> svc_step v o v' -> served (hist ++ option_list o) v'.

(** The service's own steps: requests and the worker, nothing from outside. *)
Inductive internal_steps : nat -> service -> service -> Prop :=
| internal_refl v : internal_steps 0 v v
| internal_step n v e v1 v2 :
    svc_step v (Some e) v1 -> internal_steps n v1 v2 -> internal_steps (S n) v v2.
End Service.

(** The calls of request [i] in a history. *)
Definition calls_of (i : nat) (hist : list entry) : list (event sysE) :=
  omap (fun en => match en with
                  | ECall j _ _ ev => if decide (j = i) then Some ev else None
                  | _ => None
                  end) hist.

(** ** Invariant: every request is typed, every owed callback will come *)

Definition owned (i : nat) (job : InferenceJob) : Prop :=
  on_success job = Some (success_handle i) /\ on_error job = Some (error_handle i).

#[export] Instance owned_dec i job : Decision (owned i job).
Proof. unfold owned. apply _. Defined.

(** Jobs that are still to be answered. *)
Definition pending (a : pool_state) : list InferenceJob :=
  match ps_hand a with Some (job, false) => [job] | _ => [] end ++ ps_queue a.

(** Callbacks and results that request [i] still has coming. *)
Definition owed (v : service) (i : nat) : nat :=
  length (filter (owned i) (pending (sv_pool v))) +
  (if decide (is_Some (sv_cells v !! i)) then 1 else 0).

Definition due (ph : phase) : nat := if decide (ph = Waiting) then 1 else 0.

Definition typed (th : thread) (t : nat * phase) : Prop := session t.1 t.2 th.2 finished.

Record svc_inv (v : service) (ts : list (nat * phase)) : Prop := mk_svc_inv {
  inv_typed : Forall2 typed (sv_threads v) ts;
  inv_owed : forall i, owed v i = match ts !! i with Some t => due t.2 | None => 0%nat end;
  inv_owned : Forall (fun job => exists i, owned i job) (pending (sv_pool v));
  inv_bound : Forall (fun t => (t.1 <= 40)%nat) ts;
}.

(** Steps left: a call of a request weighs three, for it may queue a job that
    is then taken and answered. *)
Definition weight (v : service) (ts : list (nat * phase)) : nat :=
  3 * sum_list (fst <$> ts) + length (ps_queue (sv_pool v)) + length (pending (sv_pool v)).

Lemma clock_reads_now {X} (e : sysE X) t : clock_reads e t t t.
Proof. unfold clock_reads. destruct e; repeat split; lia. Qed.

Lemma handle_inj i j : success_handle i = success_handle j -> i = j.
Proof. unfold success_handle. lia. Qed.

Lemma owned_inj i j job : owned i job -> owned j job -> i = j.
Proof. intros [H _] [H' _]. apply handle_inj. congruence. Qed.

Lemma owned_both i job : owned i job -> both_callbacks job = true.
Proof. unfold both_callbacks. by intros [-> ->]. Qed.

Lemma own_job_owned i timeout now job :
  both_callbacks job = true -> owned i (own_job i timeout now job).
Proof.
  unfold both_callbacks, own_job, owned. cbn. by destruct (on_success job), (on_error job).
Qed.

(** A notice for a job fills the cell of the request that owns it. *)
Lemma notice_owner i job n : owned i job -> may_answer job n = true -> (notice_cell n).1 = i.
Proof.
  intros [Hs He]. unfold may_answer, notice_cell, success_handle, error_handle in *.
  destruct n as [cb m|cb r].
  - intros [H%bool_decide_eq_true _]%andb_true_iff. cbn. rewrite He in H. injection H as <-.
    Z.div_mod_to_equations. lia.
  - intros H%bool_decide_eq_true. cbn. rewrite Hs in H. injection H as <-.
    Z.div_mod_to_equations. lia.
Qed.

(** *** The pool *)

Section PoolSteps.
Context (depth : Z).

Lemma take_pending job a a' :
  Forall (fun job => exists i, owned i job) (pending a) ->
  pool_spec_step depth (PTake job) a = Some a' ->
  pending a' = pending a /\ pending a = ps_queue a /\ ps_queue a = job :: ps_queue a' /\
  ps_open a' = ps_open a.
Proof.
  intros Hown. cbn. destruct (ps_queue a) as [|head rest] eqn:Hq; [done|].
  destruct (bool_decide (head = job)) eqn:Hj; [|done]. apply bool_decide_eq_true in Hj as ->.
  destruct (hand_free a) eqn:Hf, (ps_exited a); try done. intros [= <-].
  unfold pending in *. cbn. rewrite Hq. unfold hand_free in Hf.
  destruct (ps_hand a) as [[j []]|]; [done| |done]. cbn in *. exfalso.
  apply Forall_cons in Hown as [[i Hi] _]. by rewrite (owned_both i j Hi) in Hf.
Qed.

Lemma answer_pending job n a a' :
  ps_hand a = Some (job, false) -> pool_spec_step depth (PAnswer n) a = Some a' ->
  pending a = job :: pending a' /\ pending a' = ps_queue a /\ ps_queue a' = ps_queue a /\
  may_answer job n = true.
Proof.
  intros Hh. cbn. rewrite Hh. destruct (may_answer job n) eqn:Hm; [|done].
  destruct (ps_exited a); [done|]. intros [= <-]. unfold pending. by rewrite Hh.
Qed.

Lemma pushed_pending job a a' :
  pool_spec_step depth (PSubmit job Pushed) a = Some a' ->
  pending a' = pending a ++ [job] /\ ps_queue a' = ps_queue a ++ [job].
Proof.
  cbn. destruct (ps_open a && _); [|done]. intros [= <-]. unfold pending. cbn.
  by rewrite app_assoc.
Qed.

Lemma close_pending a a' :
  pool_spec_step depth PClose a = Some a' -> pending a' = pending a /\ ps_queue a' = ps_queue a.
Proof. by intros [= <-]. Qed.

Lemma exit_pending a a' :
  pool_spec_step depth PExit a = Some a' -> pending a' = pending a /\ ps_queue a' = ps_queue a.
Proof. cbn. destruct (_ && _); [|done]. by intros [= <-]. Qed.
End PoolSteps.

Lemma count_owned_snoc i l job :
  length (filter (owned i) (l ++ [job])) =
  (length (filter (owned i) l) + if decide (owned i job) then 1 else 0)%nat.
Proof.
  rewrite filter_app, length_app, filter_cons, filter_nil.
  by destruct (decide (owned i job)).
Qed.

Lemma owed_ext v v' i :
  pending (sv_pool v') = pending (sv_pool v) -> sv_cells v' !! i = sv_cells v !! i ->
  owed v' i = owed v i.
Proof. unfold owed. by intros -> ->. Qed.

Section Invariant.
Context {L : JsonLib} (VERSION : string).
Context (it : gmap string AuthLimiter.IpState -> list (string * AuthLimiter.IpState)).
Context (s : TtsServer).

#[local] Notation svc_step := (svc_step VERSION it s).
#[local] Notation served := (served VERSION it s).

(** How a call may change the service: the debt of the caller follows its
    phase, and only its own does. *)
Definition debt_step (i : nat) (ph' : phase) (v v' : service) : Prop :=
  sv_threads v' = sv_threads v /\
  Forall (fun job => exists i, owned i job) (pending (sv_pool v')) /\
  owed v' i = due ph' /\ (forall j, j <> i -> owed v' j = owed v j) /\
  (length (ps_queue (sv_pool v')) + length (pending (sv_pool v')) <=
   length (ps_queue (sv_pool v)) + length (pending (sv_pool v)) + 2)%nat.

Section Debt.
Context (i : nat) (v : service).
Context (Hown : Forall (fun job => exists i, owned i job) (pending (sv_pool v))).

Lemma debt_same ph : owed v i = due ph -> debt_step i ph v v.
Proof. intros H. split_and!; [done|done|exact H|done|lia]. Qed.

Lemma debt_limiters ph A R : owed v i = due ph -> debt_step i ph v (with_limiters A R v).
Proof. intros H. split_and!; [done|done|exact H|done|cbn; lia]. Qed.

Lemma debt_submit job now a :
  owed v i = due Fresh -> both_callbacks job = true ->
  pool_spec_step (depth s) (PSubmit (own_job i (timeout s) now job) Pushed) (sv_pool v) = Some a ->
  debt_step i Waiting v (with_service_pool a v).
Proof.
  intros Hdue Hb Ha. apply (own_job_owned i (timeout s) now) in Hb.
  destruct (pushed_pending _ _ _ _ Ha) as [Hp Hq].
  unfold debt_step, owed in *. cbn [sv_pool sv_cells sv_threads with_service_pool].
  rewrite Hp, Hq, !length_app. split_and!; [done| | | |simpl; lia].
  - apply Forall_app. split; [done|]. apply Forall_singleton. by exists i.
  - rewrite count_owned_snoc, decide_True by done. change (due Fresh) with 0%nat in Hdue.
    change (due Waiting) with 1%nat. lia.
  - intros j Hne. rewrite count_owned_snoc, decide_False; [lia|]. intros Hj.
    by apply Hne, (owned_inj _ _ _ Hj Hb).
Qed.

Lemma debt_await o :
  owed v i = due Waiting -> sv_cells v !! i = Some o ->
  debt_step i Received v (with_cells (delete i (sv_cells v)) v).
Proof.
  intros Hdue Ho. unfold debt_step, owed in *. cbn [sv_pool sv_cells sv_threads with_cells].
  split_and!; [done|done| | |lia].
  - rewrite lookup_delete_eq, decide_False by (by intros [? [=]]).
    rewrite decide_True in Hdue by by eexists.
    change (due Waiting) with 1%nat in Hdue. change (due Received) with 0%nat. lia.
  - intros j Hne. by rewrite lookup_delete_ne by done.
Qed.

Lemma call_debt now ins X (e : sysE X) x v' ph ph' :
  call_answers it s i now ins e v x v' -> session_step ph e x = Some ph' ->
  owed v i = due ph -> debt_step i ph' v v'.
Proof.
  intros Hc Hph Hdue. unfold call_answers in Hc.
  destruct e; cbn [shared_call] in Hc; cbn [session_step] in Hph; try discriminate Hph;
    try (injection Hph as <-; subst v'; by apply debt_same).
  - injection Hph as <-. injection Hc as _ <-. by apply debt_same.
  - injection Hph as <-. injection Hc as _ <-. by apply debt_same.
  - destruct ph; try discriminate Hph. destruct (both_callbacks job) eqn:Hb; [|done].
    rewrite submit_queue_spec in Hc; destruct (pool_spec_step _ _ _) as [a|] eqn:Ha; injection Hc as <- <-; injection Hph as <-.
    + by eapply debt_submit.
    + by apply debt_same.
  - destruct ph; try discriminate Hph. injection Hph as <-.
    destruct (sv_cells v !! i) as [o|] eqn:Ho; [|done]. injection Hc as _ <-.
    by eapply debt_await.
  - destruct (AuthLimiter.is_blocked _ _ _) as [b A]. injection Hc as _ <-. injection Hph as <-.
    by apply debt_limiters.
  - destruct (AuthLimiter.check_and_record_failure _ _ _ _ _) as [b A]. injection Hc as _ <-.
    injection Hph as <-. by apply debt_limiters.
  - destruct (RequestLimiter.check_request _ _ _ _) as [b A]. injection Hc as _ <-.
    injection Hph as <-. by apply debt_limiters.
Qed.
End Debt.

Lemma svc_inv_init t : svc_inv (service_init s t) [].
Proof. split; [constructor|done|constructor|constructor]. Qed.

(** A change of the pool alone. *)
Lemma inv_pool v ts a :
  svc_inv v ts -> pending a = pending (sv_pool v) -> svc_inv (with_service_pool a v) ts.
Proof.
  intros [Ht Ho Hw Hb] Hp. split; cbn [sv_threads sv_pool with_service_pool]; [done| |by rewrite Hp|done].
  intros i. rewrite <- Ho. by apply owed_ext.
Qed.

Lemma sum_list_insert (l : list nat) i x y :
  l !! i = Some x -> (sum_list (<[i := y]> l) + x = sum_list l + y)%nat.
Proof.
  revert i. induction l as [|z l IH]; intros [|i]; try done.
  - intros [= ->]. simpl. lia.
  - intros H. specialize (IH i H).
    change (z + sum_list (<[i:=y]> l) + x = z + sum_list l + y)%nat. lia.
Qed.

Lemma inv_call v ts i q X (e : sysE X) k x now ins v' :
  svc_inv v ts -> sv_threads v !! i = Some (q, Vis e k) ->
  call_answers it s i now ins e v x v' ->
  exists ts', svc_inv (resume i q (k x) ins v') ts' /\
    (weight (resume i q (k x) ins v') ts' < weight v ts)%nat.
Proof.
  intros [Ht Ho Hw Hb] Hi Hc.
  destruct (Forall2_lookup_l _ _ _ _ _ Ht Hi) as ([n ph] & Hti & Hty).
  unfold typed in Hty. cbn [fst snd session] in Hty. destruct n as [|n]; [done|].
  specialize (Hty x). destruct (session_step ph e x) as [ph'|] eqn:Hph; [|done].
  pose proof (Ho i) as Hdue. rewrite Hti in Hdue. cbn in Hdue.
  destruct (call_debt i v Hw now ins X e x v' ph ph' Hc Hph Hdue) as (Hth & Hw' & Hd & Hoth & Hlen).
  exists (<[i := (n, ph')]> ts). split.
  - split; cbn [sv_threads sv_pool resume with_time with_threads]; [| |done|].
    + rewrite Hth. by apply Forall2_insert.
    + intros j. change (owed (resume i q (k x) ins v') j) with (owed v' j).
      destruct (decide (j = i)) as [->|Hne].
      * by rewrite list_lookup_insert_eq by by eapply lookup_lt_Some.
      * by rewrite list_lookup_insert_ne, Hoth by done.
    + apply Forall_insert; [done|]. apply (Forall_lookup_1 _ _ _ _ Hb) in Hti. simpl in *. lia.
  - unfold weight. cbn [sv_pool resume with_time with_threads].
    rewrite list_fmap_insert. cbn [fst].
    assert ((fst <$> ts) !! i = Some (S n)) as Hn by by rewrite list_lookup_fmap, Hti.
    pose proof (sum_list_insert _ i (S n) n Hn). lia.
Qed.

Lemma inv_answer v ts job n a :
  svc_inv v ts -> ps_hand (sv_pool v) = Some (job, false) ->
  pool_spec_step (depth s) (PAnswer n) (sv_pool v) = Some a ->
  svc_inv (fill_cell n (with_service_pool a v)) ts /\
  (weight (fill_cell n (with_service_pool a v)) ts < weight v ts)%nat /\
  exists i, owned i job /\ notice_cell n = (i, (notice_cell n).2) /\
    sv_cells v !! i = None /\ exists m, ts !! i = Some (m, Waiting).
Proof.
  intros [Ht Ho Hw Hb] Hh Hs. destruct (answer_pending _ _ _ _ _ Hh Hs) as (Hp & Hp' & Hq & Hm).
  rewrite Hp in Hw. apply Forall_cons in Hw as [[i Hi] Hw].
  pose proof (notice_owner i job n Hi Hm) as Hn.
  pose proof (Ho i) as Hdue. unfold owed in Hdue. rewrite Hp, filter_cons_True in Hdue by done.
  cbn [length] in Hdue.
  destruct (ts !! i) as [[m ph]|] eqn:Hti; [|lia]. unfold due in Hdue. cbn [snd] in Hdue.
  destruct (decide (ph = Waiting)) as [->|]; [|lia].
  destruct (decide (is_Some (sv_cells v !! i))) as [|Hc]; [lia|].
  apply eq_None_not_Some in Hc.
  split; [|split].
  - split; cbn [sv_threads sv_pool sv_cells fill_cell with_cells with_service_pool];
      [done| |done|done].
    intros j. rewrite <- Ho. unfold owed. cbn [sv_pool sv_cells fill_cell with_cells with_service_pool].
    rewrite Hp, Hn. destruct (decide (j = i)) as [->|Hne].
    + rewrite lookup_insert_eq, Hc, filter_cons_True by done. cbn [length].
      rewrite decide_True by by eexists. rewrite decide_False by (by intros [? [=]]). lia.
    + rewrite lookup_insert_ne by done. rewrite filter_cons_False; [done|].
      intros Hj. by apply Hne, (owned_inj _ _ _ Hj Hi).
  - unfold weight. cbn [sv_pool fill_cell with_cells with_service_pool]. rewrite Hp, Hq. cbn. lia.
  - exists i. split; [done|]. split; [rewrite <- Hn; by destruct (notice_cell n)|]. split; [done|].
    by exists m.
Qed.

Lemma inv_step v ts o v' :
  svc_inv v ts -> svc_step v o v' ->
  exists ts', svc_inv v' ts' /\ (is_Some o -> (weight v' ts' < weight v ts)%nat).
Proof.
  intros HI Hstep. destruct Hstep as [v q p Hr|v i q X e k x now ins v' Hi _ Hc|v job a Hs
    |v job n a Hh Hs|v a Hs|v a Hs].
  - exists (ts ++ [(40%nat, Fresh)]). split; [|by intros [? [=]]]. destruct HI as [Ht Ho Hw Hb].
    split; cbn [sv_threads sv_pool with_threads]; [| |done|].
    3: { apply Forall_app. split; [done|]. constructor; [simpl; lia|constructor]. }
    + apply Forall2_app; [done|]. constructor; [|constructor]. by eapply route_session.
    + intros i. change (owed (with_threads _ v) i) with (owed v i). rewrite Ho.
      destruct (ts !! i) as [t|] eqn:Hti; [by rewrite (lookup_app_l_Some _ _ _ _ Hti)|].
      rewrite lookup_app_r by by apply lookup_ge_None. apply lookup_ge_None in Hti.
      destruct (i - length ts)%nat as [|n]; [done|]. by destruct n.
  - destruct (inv_call _ _ _ _ _ _ _ _ _ _ _ HI Hi Hc) as (ts' & HI' & Hlt). by exists ts'.
  - exists ts. destruct (take_pending _ _ _ _ (inv_owned _ _ HI) Hs) as (Hp & _ & Hq & _).
    split; [by apply inv_pool|]. intros _. unfold weight. cbn [sv_pool with_service_pool].
    rewrite Hp, Hq. cbn. lia.
  - exists ts. by destruct (inv_answer _ _ _ _ _ HI Hh Hs) as (? & ? & _).
  - exists ts. destruct (close_pending _ _ _ Hs) as [Hp _].
    split; [by apply inv_pool|by intros [? [=]]].
  - exists ts. destruct (exit_pending _ _ _ Hs) as [Hp _].
    split; [by apply inv_pool|by intros [? [=]]].
Qed.

Lemma served_inv hist v : served hist v -> exists ts, svc_inv v ts.
Proof.
  induction 1 as [t|hist v o v' _ [ts IH] Hstep]; [exists []; apply svc_inv_init|].
  destruct (inv_step _ _ _ _ IH Hstep) as (ts' & H & _). by exists ts'.
Qed.
End Invariant.
