(* ===== verification/Liveness.v ===== *)
(** * Every request is answered, with its own result

    Properties of the histories of [Service]: callbacks reach a frame that is
    still there, nothing deadlocks, every request ends, and the result a
    request gets is the one of the job it submitted. *)

From Stdlib Require Import ZArith Lia Ascii String SpecFloat.
From stdpp Require Import base tactics numbers list strings gmap.
From S2P Require Import Prelude Effects Floats Auth RateLimit Voices Validation Metrics.
From S2P Require Import Backend Pool PoolSpec Config Http RequestHandler Server HttpAdapter Session.
From S2P Require Import Service.

#[local] Open Scope Z_scope.

(** A request that has not returned. *)
Definition unfinished (th : thread) : Prop :=
  match th.2 with Vis _ _ => True | _ => False end.

#[export] Instance unfinished_dec th : Decision (unfinished th).
Proof. unfold unfinished. destruct th.2; apply _. Defined.

(** Every call can be answered somehow. *)
Definition some_answer {X} (e : sysE X) : X :=
  match e in sysE X return X with
  | SNow => 0
  | Rand32 => 0
  | SLog _ => tt
  | Metric _ => tt
  | MetricsSerialize => ""%string
  | SetRequestId _ => tt
  | BackendIsReady => true
  | PoolIsAccepting => true
  | PoolQueueDepth => 0
  | PoolSubmit _ => true
  | AwaitResult => OError ""
  | AuthIsBlocked _ => true
  | AuthRecordFailure _ => true
  | CheckRequest _ => 0
  | PoolShutdown => tt
  | HttpNew => tt
  | HttpConfigure _ _ _ => tt
  | SetRunning _ => tt
  | HttpListen _ _ => true
  | HttpStop => tt
  | HttpDelete => tt
  end.

Section Liveness.
Context {L : JsonLib} (VERSION : string).
Context (it : gmap string AuthLimiter.IpState -> list (string * AuthLimiter.IpState)).
Context (s : TtsServer).

#[local] Notation svc_step := (svc_step VERSION it s).
#[local] Notation served := (served VERSION it s).
#[local] Notation internal_steps := (internal_steps VERSION it s).

(** ** Lemmas: progress *)

(** The worker has left only a closed, empty pool. *)
Definition exit_ok (a : pool_state) : Prop :=
  ps_exited a = true -> ps_open a = false /\ pending a = [].

Lemma spec_step_exit_ok depth l a a' :
  Forall (fun job => exists i, owned i job) (pending a) ->
  exit_ok a -> pool_spec_step depth l a = Some a' -> exit_ok a'.
Proof.
  intros Hown Ha Hs. unfold exit_ok in *. destruct l as [job r| |job|n|]; cbn in Hs.
  - destruct r as [|m|].
    + destruct (ps_open a) eqn:Ho; [done|]. injection Hs as <-. intros Hx. by destruct (Ha Hx).
    + case_match; [|done]. injection Hs as <-. exact Ha.
    + destruct (ps_open a) eqn:Ho; [|done]. destruct (_ <? _); [|done]. injection Hs as <-.
      cbn. intros Hx. by destruct (Ha Hx).
  - injection Hs as <-. cbn. intros Hx. split; [done|]. by destruct (Ha Hx).
  - destruct (ps_queue a); [done|]. destruct (_ && _) eqn:Hc; [|done]. injection Hs as <-. cbn.
    apply andb_true_iff in Hc as [_ Hc]. intros Hx. by rewrite Hx in Hc.
  - destruct (ps_hand a) as [[j []]|]; [done| |done]. destruct (_ && _) eqn:Hc; [|done].
    injection Hs as <-. cbn. apply andb_true_iff in Hc as [_ Hc]. intros Hx. by rewrite Hx in Hc.
  - destruct (ps_open a) eqn:Ho; [done|]. destruct (ps_queue a) as [|j q] eqn:Hq; [|done].
    cbn in Hs. destruct (hand_free a) eqn:Hh; [|done]. injection Hs as <-. cbn.
    intros _. split; [done|]. unfold pending in *. cbn. rewrite Hq in *. rewrite app_nil_r in *.
    unfold hand_free in Hh. destruct (ps_hand a) as [[j []]|]; [done| |done]. cbn in *.
    apply Forall_cons in Hown as [[i Hi] _]. by rewrite (owned_both i j Hi) in Hh.
Qed.

Lemma call_exit_ok i now ins X (e : sysE X) v x v' ph ph' :
  call_answers it s i now ins e v x v' -> session_step ph e x = Some ph' ->
  Forall (fun job => exists i, owned i job) (pending (sv_pool v)) ->
  exit_ok (sv_pool v) -> exit_ok (sv_pool v').
Proof.
  intros Hc Hph Hown Hx. unfold call_answers in Hc.
  destruct e; cbn [shared_call] in Hc; cbn [session_step] in Hph; try discriminate Hph;
    try by subst v'.
  - by injection Hc as _ <-.
  - by injection Hc as _ <-.
  - rewrite submit_queue_spec in Hc; destruct (pool_spec_step _ _ _) as [a|] eqn:Ha; injection Hc as <- <-; [|done].
    by eapply spec_step_exit_ok.
  - destruct (sv_cells v !! i); [|done]. by injection Hc as _ <-.
  - destruct (AuthLimiter.is_blocked _ _ _). by injection Hc as _ <-.
  - destruct (AuthLimiter.check_and_record_failure _ _ _ _ _). by injection Hc as _ <-.
  - destruct (RequestLimiter.check_request _ _ _ _). by injection Hc as _ <-.
Qed.

Lemma served_exit_ok hist v : served hist v -> exit_ok (sv_pool v).
Proof.
  induction 1 as [t|hist v o v' Hserved IH Hstep]; [done|].
  destruct (served_inv VERSION it s hist v Hserved) as (ts & HI).
  pose proof (inv_owned _ _ HI) as Hown.
  destruct Hstep as [v q p Hr|v i q X e k x now ins v' Hi _ Hc|v job a Hs
    |v job n a Hh Hs|v a Hs|v a Hs]; [done| |by eapply spec_step_exit_ok..].
  destruct (Forall2_lookup_l _ _ _ _ _ (inv_typed _ _ HI) Hi) as ([n ph] & Hti & Hty).
  unfold typed in Hty. cbn [fst snd session] in Hty. destruct n as [|n]; [done|].
  specialize (Hty x). destruct (session_step ph e x) as [ph'|] eqn:Hph; [|done].
  change (exit_ok (sv_pool v')). by eapply call_exit_ok.
Qed.

(** The worker can move while a job is pending. *)
Lemma worker_can_move v :
  Forall (fun job => exists i, owned i job) (pending (sv_pool v)) ->
  exit_ok (sv_pool v) -> pending (sv_pool v) <> [] ->
  exists e v', svc_step v (Some e) v'.
Proof.
  intros Hown Hx Hne.
  assert (ps_exited (sv_pool v) = false) as Hrun.
  { destruct (ps_exited (sv_pool v)) eqn:Hex; [|done]. by destruct (Hx Hex). }
  destruct (ps_hand (sv_pool v)) as [[job [|]]|] eqn:Hh.
  2: { assert (pending (sv_pool v) = job :: ps_queue (sv_pool v)) as Hp
         by (unfold pending; by rewrite Hh).
       rewrite Hp in Hown. apply Forall_cons in Hown as [[i Hi] _].
       eexists _, _. apply (step_answer VERSION it s v job
         (NError (error_handle i) "Request timed out in queue")); [done|].
       cbn. rewrite Hh, Hrun. destruct Hi as [_ ->]. by rewrite bool_decide_true. }
  all: assert (hand_free (sv_pool v) = true) as Hfree by (unfold hand_free; by rewrite Hh).
  all: destruct (ps_queue (sv_pool v)) as [|next rest] eqn:Hq;
    [exfalso; apply Hne; unfold pending; by rewrite Hh, Hq|].
  all: eexists _, _; apply (step_take VERSION it s v next); cbn;
    by rewrite Hq, Hfree, Hrun, bool_decide_true.
Qed.

(** A call blocks only while a job of its request is pending. *)
Lemma blocked_pending hist v i q X (e : sysE X) k now ins :
  served hist v -> sv_threads v !! i = Some (q, Vis e k) -> shared_call it s i now ins e v = Some None ->
  pending (sv_pool v) <> [].
Proof.
  intros Hserved Hi Hsh Hp. destruct (served_inv VERSION it s hist v Hserved) as (ts & HI).
  destruct (Forall2_lookup_l _ _ _ _ _ (inv_typed _ _ HI) Hi) as ([n ph] & Hti & Hty).
  unfold typed in Hty. cbn [fst snd session] in Hty. destruct n as [|n]; [done|].
  specialize (Hty (some_answer e)). pose proof (inv_owed _ _ HI i) as Ho. rewrite Hti in Ho.
  unfold owed in Ho. rewrite Hp in Ho. cbn in Ho.
  destruct e; cbn [shared_call] in Hsh; try discriminate Hsh; try (by repeat case_match).
  destruct (sv_cells v !! i) as [o|] eqn:Hc; [done|].
  rewrite decide_False in Ho by (by intros [? [=]]). cbn in Hty. by destruct ph.
Qed.

Lemma request_can_move hist v i q p :
  served hist v -> sv_threads v !! i = Some (q, p) -> unfinished (q, p) ->
  exists e v', svc_step v (Some e) v'.
Proof.
  intros Hserved Hi Hu. destruct p as [a|err|X e k]; [done..|].
  assert (Hcall : forall x v', call_answers it s i (sv_time v) (sv_time v) e v x v' ->
    exists e v', svc_step v (Some e) v').
  { intros x v' Hc. eexists _, _. apply (step_call VERSION it s v i q X e k x (sv_time v) (sv_time v) v'); [done|by apply clock_reads_now|done]. }
  unfold call_answers in Hcall.
  destruct (shared_call it s i (sv_time v) (sv_time v) e v) as [[[x v']|]|] eqn:Hsh.
  - by eapply Hcall.
  - destruct (served_inv VERSION it s hist v Hserved) as (ts & HI).
    apply worker_can_move; [by apply HI|by eapply served_exit_ok|by eapply blocked_pending].
  - by apply (Hcall (some_answer e) v).
Qed.

(** ** Lemmas: termination *)

Lemma internal_weight n v v' ts :
  svc_inv v ts -> internal_steps n v v' ->
  exists ts', svc_inv v' ts' /\ (n + weight v' ts' <= weight v ts)%nat.
Proof.
  intros HI Hn. revert ts HI. induction Hn as [v|n v e v1 v2 Hs _ IH]; intros ts HI.
  - exists ts. split; [done|lia].
  - destruct (inv_step VERSION it s v ts (Some e) v1 HI Hs) as (ts1 & HI1 & Hlt).
    specialize (Hlt (mk_is_Some _ _ eq_refl)).
    destruct (IH ts1 HI1) as (ts2 & HI2 & Hle). exists ts2. split; [done|lia].
Qed.

Lemma served_internal hist v n v' :
  served hist v -> internal_steps n v v' -> exists hist', served hist' v'.
Proof.
  intros Hs Hn. revert hist Hs. induction Hn as [v|n v e v1 v2 Hstep _ IH]; intros hist Hs.
  - by exists hist.
  - eapply IH. eapply served_step; [exact Hs|exact Hstep].
Qed.

(** The steps the service can make on its own. *)
Definition work_left (v : service) : nat :=
  120 * length (sv_threads v) + 2 * length (ps_queue (sv_pool v)) + 1.

Lemma weight_work_left v ts : svc_inv v ts -> (weight v ts <= work_left v)%nat.
Proof.
  intros [Ht _ _ Hb]. unfold weight, work_left. apply Forall2_length in Ht. rewrite Ht.
  assert (sum_list (fst <$> ts) <= 40 * length ts)%nat as Hsum.
  { clear Ht. induction Hb as [|t ts Hle _ IH]; [done|]. rewrite fmap_cons. cbn in *. lia. }
  assert (length (pending (sv_pool v)) <= length (ps_queue (sv_pool v)) + 1)%nat.
  { unfold pending. rewrite length_app. destruct (ps_hand (sv_pool v)) as [[j []]|]; simpl; lia. }
  lia.
Qed.

(** ** Lemmas: whose result it is *)

Lemma calls_of_app i h1 h2 : calls_of i (h1 ++ h2) = calls_of i h1 ++ calls_of i h2.
Proof. apply omap_app. Qed.

Lemma calls_of_call i j now ins ev :
  calls_of i [ECall j now ins ev] = if decide (j = i) then [ev] else [].
Proof. unfold calls_of. cbn. by destruct (decide (j = i)). Qed.

(** Request [i] handed [job] to the pool. *)
Definition submitted (i : nat) (job : InferenceJob) (hist : list entry) : Prop :=
  exists j0, (j0, true) ∈ submissions (calls_of i hist) /\ request job = request j0.

(** The worker answered with [o] the job of request [i]. *)
Definition answered (i : nat) (o : outcome) (hist : list entry) : Prop :=
  exists job n, EAnswer job n ∈ hist /\ owned i job /\ notice_cell n = (i, o) /\
    submitted i job hist.

Lemma submitted_app i job h1 h2 : submitted i job h1 -> submitted i job (h1 ++ h2).
Proof.
  intros (j0 & Hj & Hr). exists j0. split; [|done].
  rewrite calls_of_app, submissions_app. apply elem_of_app. by left.
Qed.

Lemma answered_app i o h1 h2 : answered i o h1 -> answered i o (h1 ++ h2).
Proof.
  intros (job & n & Hn & Hi & Hc & Hs). exists job, n. split; [apply elem_of_app; by left|].
  split; [done|]. split; [done|]. by apply submitted_app.
Qed.

(** The invariant: pending jobs come from their owners, cells hold answers,
    and results handed out were in cells. *)
Record origin (hist : list entry) (v : service) : Prop := mk_origin {
  org_pending : forall i job, job ∈ pending (sv_pool v) -> owned i job -> submitted i job hist;
  org_cells : forall i o, sv_cells v !! i = Some o -> answered i o hist;
  org_results : forall i o, o ∈ outcomes (calls_of i hist) -> answered i o hist;
}.

Lemma origin_ext hist v v' e :
  origin hist v ->
  (forall job, job ∈ pending (sv_pool v') -> job ∈ pending (sv_pool v)) ->
  sv_cells v' = sv_cells v ->
  (forall i o, o ∈ outcomes (calls_of i e) -> answered i o hist) ->
  origin (hist ++ e) v'.
Proof.
  intros [Hp Hc Hr] Hpend Hcells Hres. split.
  - intros i job Hj Hi. apply submitted_app. apply Hp; [by apply Hpend|done].
  - intros i o Ho. rewrite Hcells in Ho. by apply answered_app, Hc.
  - intros i o. unfold outcomes. rewrite calls_of_app, observe_app.
    intros [Ho|Ho]%elem_of_app; apply answered_app; [by apply Hr|by apply Hres].
Qed.

Lemma origin_call hist v ts i q X (e : sysE X) k x now ins v' :
  svc_inv v ts -> sv_threads v !! i = Some (q, Vis e k) ->
  call_answers it s i now ins e v x v' -> origin hist v ->
  origin (hist ++ [ECall i now ins (Ev e x)]) (resume i q (k x) ins v').
Proof.
  intros HI Hi Hc Horg.
  assert (Hsame : pending (sv_pool v') = pending (sv_pool v) -> sv_cells v' = sv_cells v ->
    outcome_of e x = None ->
    origin (hist ++ [ECall i now ins (Ev e x)]) (resume i q (k x) ins v')).
  { intros Hp Hcl Ho. apply (origin_ext hist v); [done| |done|].
    - intros job. change (sv_pool (resume i q (k x) ins v')) with (sv_pool v'). by rewrite Hp.
    - intros j o. rewrite calls_of_call. destruct (decide (i = j)); [|by intros ?%elem_of_nil].
      unfold outcomes. cbn. rewrite Ho. by intros ?%elem_of_nil. }
  unfold call_answers in Hc.
  destruct e; cbn [shared_call] in Hc; try (subst v'; by apply Hsame).
  - injection Hc as _ <-. by apply Hsame.
  - injection Hc as _ <-. by apply Hsame.
  - rewrite submit_queue_spec in Hc; destruct (pool_spec_step _ _ _) as [a|] eqn:Ha; injection Hc as <- <-; [|by apply Hsame].
    destruct (pushed_pending _ _ _ _ Ha) as [Hp _]. destruct Horg as [Hop Hoc Hor]. split.
    + intros j jb. cbn [resume with_time with_threads sv_pool with_service_pool]. rewrite Hp.
      intros [Hj|Hj]%elem_of_app Hown; [apply submitted_app; by apply Hop|].
      apply list_elem_of_singleton in Hj as ->. exists job. split; [|done].
      assert (j = i) as ->.
      { destruct Hown as [Hs _]. unfold own_job in Hs. cbn in Hs. destruct (on_success job); [|done].
        injection Hs as Hs. by apply handle_inj. }
      rewrite calls_of_app, submissions_app, calls_of_call, decide_True by done.
      apply elem_of_app. right. by apply list_elem_of_singleton.
    + intros j o Hj. by apply answered_app, Hoc.
    + intros j o. rewrite calls_of_app, calls_of_call. unfold outcomes. rewrite observe_app.
      intros [Ho|Ho]%elem_of_app; [by apply answered_app, Hor|].
      by destruct (decide (i = j)); apply elem_of_nil in Ho.
  - destruct (sv_cells v !! i) as [o|] eqn:Hcell; [|done]. injection Hc as -> <-.
    destruct Horg as [Hop Hoc Hor]. split.
    + intros j jb Hj Hown. apply submitted_app. by apply Hop.
    + intros j o' Hj. cbn [resume with_time with_threads sv_cells with_cells] in Hj.
      apply lookup_delete_Some in Hj as [_ Hj]. by apply answered_app, Hoc.
    + intros j o'. rewrite calls_of_app, calls_of_call. unfold outcomes. rewrite observe_app.
      intros [Ho|Ho]%elem_of_app; [by apply answered_app, Hor|].
      destruct (decide (i = j)) as [<-|]; [|by apply elem_of_nil in Ho].
      apply list_elem_of_singleton in Ho as ->. by apply answered_app, Hoc.
  - destruct (AuthLimiter.is_blocked _ _ _). injection Hc as _ <-. by apply Hsame.
  - destruct (AuthLimiter.check_and_record_failure _ _ _ _ _). injection Hc as _ <-. by apply Hsame.
  - destruct (RequestLimiter.check_request _ _ _ _). injection Hc as _ <-. by apply Hsame.
Qed.

Lemma origin_pool hist v a e :
  origin hist v -> pending a = pending (sv_pool v) ->
  (forall i, calls_of i e = []) -> origin (hist ++ e) (with_service_pool a v).
Proof.
  intros Horg Hp He. apply (origin_ext hist v); [done| |done|].
  - intros job. cbn [sv_pool with_service_pool]. by rewrite Hp.
  - intros i o. rewrite He. by intros ?%elem_of_nil.
Qed.

Lemma served_origin hist v : served hist v -> origin hist v.
Proof.
  induction 1 as [t|hist v o v' Hserved IH Hstep].
  { split; [by intros i job ?%elem_of_nil|done|by intros i o ?%elem_of_nil]. }
  destruct (served_inv VERSION it s hist v Hserved) as (ts & HI).
  destruct Hstep as [v q p Hr|v i q X e k x now ins v' Hi _ Hc|v job a Hs
    |v job n a Hh Hs|v a Hs|v a Hs]; cbn [option_list from_option].
  - apply (origin_ext hist v); [done|done|done|]. by intros i o ?%elem_of_nil.
  - by eapply origin_call.
  - apply origin_pool; [done| |done]. by destruct (take_pending _ _ _ _ (inv_owned _ _ HI) Hs).
  - destruct (inv_answer s _ _ _ _ _ HI Hh Hs) as (_ & _ & i & Hown & Hn & _).
    destruct (answer_pending _ _ _ _ _ Hh Hs) as (Hp & _).
    destruct IH as [Hop Hoc Hor].
    assert (Hnew : answered i (notice_cell n).2 (hist ++ [EAnswer job n])).
    { exists job, n. split; [apply elem_of_app; right; by apply list_elem_of_singleton|].
      split; [done|]. split; [done|]. apply submitted_app, Hop; [|done].
      rewrite Hp. by left. }
    split.
    + intros j jb Hj Hjo. apply submitted_app, Hop; [|done]. rewrite Hp. by right.
    + intros j o Hj. cbn [sv_cells fill_cell with_cells with_service_pool] in Hj.
      rewrite Hn in Hj. cbn [fst snd] in Hj.
      apply lookup_insert_Some in Hj as [[<- <-]|[_ Hj]]; [done|]. by apply answered_app, Hoc.
    + intros j o. rewrite calls_of_app, app_nil_r. intros Ho. by apply answered_app, Hor.
  - apply origin_pool; [done| |done]. by destruct (close_pending _ _ _ Hs).
  - apply origin_pool; [done| |done]. by destruct (exit_pending _ _ _ Hs).
Qed.

(** ** Properties *)

(** Every request ends: in every state of the service, however many
    requests run, the number of calls the requests and the worker can still
    make is bounded, and as long as a request has not returned one of them can
    move: no deadlock, no lost result, no endless wait. *)
Theorem every_request_ends hist v (Hserved : served hist v) :
  (forall n v', internal_steps n v v' -> (n <= work_left v)%nat) /\
  (forall n v', internal_steps n v v' ->
     (exists e v'', svc_step v' (Some e) v'') \/
     Forall (fun th => ~ unfinished th) (sv_threads v')).
Proof.
  destruct (served_inv VERSION it s hist v Hserved) as (ts & HI).
  split; intros n v' Hn.
  - destruct (internal_weight _ _ _ _ HI Hn) as (ts' & _ & Hle).
    pose proof (weight_work_left v ts HI). lia.
  - destruct (served_internal _ _ _ _ Hserved Hn) as (hist' & Hs').
    destruct (decide (Forall (fun th => ~ unfinished th) (sv_threads v'))) as [|Hex]; [by right|].
    left. apply not_Forall_Exists in Hex; [|apply _].
    apply Exists_exists in Hex as ([q p] & [i Hi]%list_elem_of_lookup & Hu).
    apply (request_can_move hist' v' i q p Hs' Hi). by apply dec_stable.
Qed.

(** Callbacks are safe: whenever the worker calls a callback, the request
    that owns it has not returned and is owed it, so the closure's references
    to the handler's stack frame are valid; the cell it fills is empty, so no
    result is overwritten. *)
Theorem callbacks_hit_live_frames hist v job n v'
    (Hserved : served hist v) (Hstep : svc_step v (Some (EAnswer job n)) v') :
  exists i th, owned i job /\ sv_threads v !! i = Some th /\ unfinished th /\
    sv_cells v !! i = None /\ sv_cells v' = <[i := (notice_cell n).2]> (sv_cells v).
Proof.
  destruct (served_inv VERSION it s hist v Hserved) as (ts & HI).
  inversion Hstep as [| | |v1 job1 n1 a Hh Hs| |]; subst.
  destruct (inv_answer s _ _ _ _ _ HI Hh Hs) as (_ & _ & i & Hown & Hn & Hcell & m & Hti).
  destruct (Forall2_lookup_r _ _ _ _ _ (inv_typed _ _ HI) Hti) as ([q p] & Hi & Hty).
  exists i, (q, p). split; [done|]. split; [done|]. split; [|split; [done|]].
  - unfold typed in Hty. cbn in Hty. by destruct p; cbn in Hty |- *.
  - cbn [sv_cells fill_cell with_cells with_service_pool]. by rewrite Hn.
Qed.

(** No mix-up: a result a request gets is one the worker delivered for a
    job with the very synthesis request that this request submitted, whatever
    other requests are in flight. *)
Theorem results_are_own hist v i o
    (Hserved : served hist v) (Hgot : o ∈ outcomes (calls_of i hist)) :
  exists j0 job n, (j0, true) ∈ submissions (calls_of i hist) /\
    EAnswer job n ∈ hist /\ owned i job /\ request job = request j0 /\ notice_cell n = (i, o).
Proof.
  destruct (org_results _ _ (served_origin hist v Hserved) i o Hgot)
    as (job & n & Hn & Hown & Hc & j0 & Hj & Hr).
  exists j0, job, n. by split_and!.
Qed.
End Liveness.

(** ** Witnesses *)

Module LivenessWitness.
Import HandlerWitness AdapterWitness.

Definition toy_it (m : gmap string AuthLimiter.IpState) : list (string * AuthLimiter.IpState) :=
  map_to_list m.

(** Runs request [i] until it blocks or returns, at most [n] calls; the
    foreign libraries answer with [some_answer]. *)
Fixpoint drive (srv : TtsServer) (n i : nat) (v : service) : list entry * service :=
  match n with
  | O => ([], v)
  | S n' =>
      match sv_threads v !! i with
      | Some (q, Vis e k) =>
          match (match shared_call toy_it srv i (sv_time v) (sv_time v) e v with
                 | Some r => r
                 | None => Some (some_answer e, v)
                 end) with
          | Some (x, v') =>
              let '(h, v2) := drive srv n' i (resume i q (k x) (sv_time v) v') in
              (ECall i (sv_time v) (sv_time v) (Ev e x) :: h, v2)
          | None => ([], v)
          end
      | _ => ([], v)
      end
  end.

Lemma drive_served srv n i hist v :
  served "1.0" toy_it srv hist v ->
  served "1.0" toy_it srv (hist ++ (drive srv n i v).1) (drive srv n i v).2.
Proof.
  revert hist v. induction n as [|n IH]; intros hist v Hs; [by rewrite app_nil_r|].
  cbn [drive]. destruct (sv_threads v !! i) as [[q p]|] eqn:Hi; [|by rewrite app_nil_r].
  destruct p as [a|err|X e k]; [by rewrite app_nil_r..|].
  assert (Hnext : forall x v', call_answers toy_it srv i (sv_time v) (sv_time v) e v x v' ->
    let '(h, v2) := drive srv n i (resume i q (k x) (sv_time v) v') in
    served "1.0" toy_it srv (hist ++ ECall i (sv_time v) (sv_time v) (Ev e x) :: h) v2).
  { intros x v' Hc.
    assert (served "1.0" toy_it srv (hist ++ [ECall i (sv_time v) (sv_time v) (Ev e x)])
              (resume i q (k x) (sv_time v) v')) as H1.
    { eapply (served_step "1.0" toy_it srv hist v (Some _)); [done|].
      apply (step_call "1.0" toy_it srv v i q X e k x); [done|by apply clock_reads_now|done]. }
    specialize (IH _ _ H1). destruct (drive srv n i _) as [h v2]. cbn [fst snd] in IH.
    by rewrite <- app_assoc in IH. }
  unfold call_answers in Hnext.
  destruct (shared_call toy_it srv i (sv_time v) (sv_time v) e v) as [[[x v']|]|].
  - specialize (Hnext x v' eq_refl). by destruct (drive srv n i _).
  - by rewrite app_nil_r.
  - specialize (Hnext (some_answer e) v eq_refl). by destruct (drive srv n i _).
Qed.

(** One request arrives and runs until it waits for its job. *)
Definition arrived : service :=
  with_threads [(post "secret", route_speech server (post "secret"))] (service_init server 7).

Lemma arrived_served : served "1.0" toy_it server [] arrived.
Proof.
  exact (served_step "1.0" toy_it server [] (service_init server 7) None arrived
    (served_init "1.0" toy_it server 7)
    (step_arrive "1.0" toy_it server (service_init server 7) (post "secret") _ eq_refl)).
Qed.

Definition waiting : list entry * service := drive server 40 0 arrived.

Lemma waiting_served : served "1.0" toy_it server waiting.1 waiting.2.
Proof.
  unfold waiting. rewrite <- (app_nil_l (drive server 40 0 arrived).1).
  apply drive_served, arrived_served.
Qed.

(** The worker takes the job and answers it; the request goes on. *)
Definition job0 : InferenceJob :=
  match ps_queue (sv_pool waiting.2) with j :: _ => j | [] => demo_job end.
Definition answer0 : notice := NSuccess (success_handle 0) demo_result.

Definition pool_after (l : pool_label) (v : service) : service :=
  match pool_spec_step (depth server) l (sv_pool v) with
  | Some a => with_service_pool a v
  | None => v
  end.
Definition taken : service := pool_after (PTake job0) waiting.2.
Definition answered0 : service := fill_cell answer0 (pool_after (PAnswer answer0) taken).

Lemma taken_served : served "1.0" toy_it server (waiting.1 ++ [ETake job0]) taken.
Proof.
  apply (served_step "1.0" toy_it server waiting.1 waiting.2 (Some (ETake job0)));
    [apply waiting_served|].
  unfold taken, pool_after.
  destruct (pool_spec_step (depth server) (PTake job0) (sv_pool waiting.2)) as [a|] eqn:Ha.
  - by apply step_take.
  - exfalso. by vm_compute in Ha.
Qed.

Lemma answer_step : svc_step "1.0" toy_it server taken (Some (EAnswer job0 answer0)) answered0.
Proof.
  unfold answered0, pool_after.
  destruct (pool_spec_step (depth server) (PAnswer answer0) (sv_pool taken)) as [a|] eqn:Ha.
  - apply step_answer; [by vm_compute|done].
  - exfalso. by vm_compute in Ha.
Qed.

Definition whole : list entry * service :=
  let '(h, v) := drive server 40 0 answered0 in
  ((waiting.1 ++ [ETake job0]) ++ [EAnswer job0 answer0] ++ h, v).

Lemma whole_served : served "1.0" toy_it server whole.1 whole.2.
Proof.
  unfold whole. destruct (drive server 40 0 answered0) as [h v] eqn:Hd. cbn [fst snd].
  rewrite app_assoc.
  change h with (h, v).1. change v with (h, v).2 at 2. rewrite <- Hd. apply drive_served.
  apply (served_step "1.0" toy_it server _ taken (Some (EAnswer job0 answer0)));
    [apply taken_served|apply answer_step].
Qed.

Lemma whole_outcome : OSuccess demo_result ∈ outcomes (calls_of 0 whole.1).
Proof. vm_compute. by left. Qed.

(** The request is answered with the WAV file of its result. *)
Example whole_response : exists q ops,
  sv_threads whole.2 = [(q, Ret ops)] /\ SetStatus 200 ∈ ops.
Proof. eexists _, _. split; [by vm_compute|]. by left. Qed.

Lemma every_request_ends_witness :
  (forall n v', internal_steps "1.0" toy_it server n waiting.2 v' ->
     (n <= work_left waiting.2)%nat) /\
  (forall n v', internal_steps "1.0" toy_it server n waiting.2 v' ->
     (exists e v'', svc_step "1.0" toy_it server v' (Some e) v'') \/
     Forall (fun th => ~ unfinished th) (sv_threads v')).
Proof.
  exact (every_request_ends "1.0" toy_it server waiting.1 waiting.2 waiting_served).
Defined.

Lemma callbacks_hit_live_frames_witness :
  exists i th, owned i job0 /\ sv_threads taken !! i = Some th /\ unfinished th /\
    sv_cells taken !! i = None /\
    sv_cells answered0 = <[i := (notice_cell answer0).2]> (sv_cells taken).
Proof.
  exact (callbacks_hit_live_frames "1.0" toy_it server _ taken job0 answer0 answered0
    taken_served answer_step).
Defined.

Lemma results_are_own_witness :
  exists j0 job n, (j0, true) ∈ submissions (calls_of 0 whole.1) /\
    EAnswer job n ∈ whole.1 /\ owned 0 job /\ request job = request j0 /\
    notice_cell n = (0%nat, OSuccess demo_result).
Proof.
  exact (results_are_own "1.0" toy_it server whole.1 whole.2 0 (OSuccess demo_result)
    whole_served whole_outcome).
Defined.
End LivenessWitness.
