(* ===== verification/Abuse.v ===== *)
(** * Abuse protection, end to end

    The middleware of [HttpAdapter] and the limiters of [RateLimit] together,
    over the histories of [Service]: which requests may use the inference
    pool.  The limiters of a history have seen the calls that the history
    records, in that order, and every request runs a route, so the properties
    of the limiters and of the routes meet. *)

From Stdlib Require Import ZArith Lia Ascii String SpecFloat.
From stdpp Require Import base tactics numbers list strings gmap.
From S2P Require Import Prelude Effects Floats Auth RateLimit Voices Validation Metrics.
From S2P Require Import Backend Pool PoolSpec Config Http RequestHandler Uuid Server Boot HttpAdapter.
From S2P Require Import Session Service Liveness.

#[local] Open Scope Z_scope.

(** ** Observations *)

(** The calls a request makes on the limiters to be let through. *)
Inductive gate :=
| GBlocked (ip : string) (b : bool)
| GChecked (ip : string) (n : Z).

Definition gate_of {X} (e : sysE X) : X -> option gate :=
  match e in sysE X return X -> option gate with
  | AuthIsBlocked ip => fun b => Some (GBlocked ip b)
  | CheckRequest ip => fun n => Some (GChecked ip n)
  | _ => fun _ => None
  end.
Definition gates (tr : list (event sysE)) : list gate := observe (@gate_of) tr.

(** The calls on each limiter in a history. *)
Definition auth_op_of {X} (now ins : Z) (e : sysE X) : X -> option (AuthLimiter.op * bool) :=
  match e in sysE X return X -> option (AuthLimiter.op * bool) with
  | AuthIsBlocked ip => fun b => Some (AuthLimiter.Query now ip, b)
  | AuthRecordFailure ip => fun b => Some (AuthLimiter.Record_ now ins ip, b)
  | _ => fun _ => None
  end.
Definition check_of {X} (now ins : Z) (e : sysE X) : X -> option (RequestLimiter.call * Z) :=
  match e in sysE X return X -> option (RequestLimiter.call * Z) with
  | CheckRequest ip => fun n => Some (RequestLimiter.mk_call now ins ip, n)
  | _ => fun _ => None
  end.

Definition auth_log (hist : list entry) : list (AuthLimiter.op * bool) :=
  omap (fun en => match en with ECall _ now ins (Ev e x) => auth_op_of now ins e x | _ => None end)
    hist.
Definition check_log (hist : list entry) : list (RequestLimiter.call * Z) :=
  omap (fun en => match en with ECall _ now ins (Ev e x) => check_of now ins e x | _ => None end)
    hist.
Definition auth_ops (hist : list entry) : list AuthLimiter.op := (auth_log hist).*1.
Definition check_calls (hist : list entry) : list RequestLimiter.call := (check_log hist).*1.

(** The clock readings of the failures recorded for an address. *)
Definition failures_of (ip : string) (hist : list entry) : list (Z * Z) :=
  AuthLimiter.failure_times (AuthLimiter.own ip (auth_ops hist)).

(** The requests of an address whose rate check succeeded. *)
Definition let_through (ip : string) (hist : list entry) : list nat :=
  omap (fun en => match en with
                  | ECall i now ins (Ev e x) =>
                      match check_of now ins e x with
                      | Some (c, n) =>
                          if decide (RequestLimiter.c_ip c = ip) then
                            if n =? 0 then Some i else None
                          else None
                      | None => None
                      end
                  | _ => None
                  end) hist.

(** The Authorization header is a bearer token that the comparison accepts:
    the key itself, or a token whose length differs from the key's by 256
    bytes or more (the comparison keeps the low byte of the difference). *)
Definition key_accepted (header key : string) : Prop :=
  exists token, header = bearer_prefix +:+ token /\ constant_time_equals token key = true /\
    (token = key \/ 256 <= Z.abs (slen token - slen key)).

(** Before it submitted anything the request asked the lock-out limiter once
    and the request limiter once, about its own address, and was told that it
    is not locked out and within its quota; it asked neither again; and it is a
    POST of the speech route whose bearer token was accepted. *)
Definition authorised (s : TtsServer) (q : HttplibRequest) (tr : list (event sysE)) : Prop :=
  let ip := client_ip (config_ s) (adapt_request q) in
  q_method q = "POST"%string /\ q_path q = "/v1/audio/speech"%string /\
  key_accepted (header (adapt_request q) "authorization") (api_key (config_ s)) /\
  exists t1 t2 n, tr = t1 ++ t2 /\ submissions t1 = [] /\
    blocks t1 = [(ip, false)] /\ checks t1 = [(ip, n)] /\ n <= 0 /\
    blocks t2 = [] /\ checks t2 = [].

Lemma key_accepted_intro header key :
  authenticated (check_bearer_auth header key) = true -> key_accepted header key.
Proof.
  intros (token & -> & _ & Hct)%check_bearer_auth_iff. exists token. split; [done|].
  split; [done|]. destruct (Z.lt_ge_cases (Z.abs (slen token - slen key)) 256) as [Hlt|]; [|by right].
  left. by apply (constant_time_equals_close token key Hlt).
Qed.

(** A Retry-After of the middleware reaches the client. *)
Lemma retry_after_sent id resp v :
  resp_headers resp !! "Retry-After" = Some v ->
  SetHeader "Retry-After" v ∈ adapt_response (apply_security_headers id resp).
Proof.
  intros Hv. apply elem_of_app. right. apply elem_of_app. left. apply list_elem_of_fmap.
  exists ("Retry-After"%string, v). split; [done|]. apply elem_of_map_to_list.
  cbn. by rewrite !lookup_insert_ne by done.
Qed.

Lemma gates_nil tr : gates tr = [] -> blocks tr = [] /\ checks tr = [].
Proof.
  unfold gates, blocks, checks, observe. induction tr as [|[X e x] tr IH]; [done|].
  destruct e; cbn; (done || exact IH).
Qed.

Lemma gates_app t1 t2 : gates (t1 ++ t2) = gates t1 ++ gates t2.
Proof. apply observe_app. Qed.

(** ** Lemmas: routes *)

Section Routes.
Context {L : JsonLib} {HL : JsonLaws L} (VERSION : string).

#[local] Notation silent p := (mute (@gate_of) p).

Lemma begin_request_silent : silent begin_request.
Proof. unfold begin_request, generate_request_id, rand32. mute_solve. Qed.

Lemma respond_silent id resp : silent (respond id resp).
Proof. unfold respond. mute_solve. Qed.

Lemma run_speech_silent t0 deps rq : silent (run_speech t0 deps rq).
Proof.
  unfold run_speech, submit_speech, set_queue_gauge, finish_speech, server_error, metric. mute_solve.
Qed.

Lemma check_silent v p : silent p -> silent (check v p).
Proof. intros Hp. unfold check, reject, metric. destruct (valid v); [exact Hp|]. mute_solve. Qed.

Lemma handle_speech_silent req deps : silent (handle_speech req deps).
Proof.
  unfold handle_speech. apply mute_bind; [by intros x|]. intros t0. apply check_silent.
  destruct (valid _); cbn [negb]; [|unfold reject, metric; mute_solve].
  destruct (parse (body req)) as [parsed|[]]; [|unfold metric; mute_solve..].
  unfold speech_fields.
  repeat (first [apply run_speech_silent|apply check_silent
                |apply mute_bind; [unfold of_res; by case_match|intros ?]]).
Qed.

(** Behind the lock-out test no call tells a client locked out. *)
Lemma middleware_blocked s req tr r ip :
  runs (run_middleware s req) tr r -> (ip, true) ∈ blocks tr ->
  match r with
  | Ok (Some resp) => status resp = 429 /\ resp_headers resp !! "Retry-After" = Some "60"%string
  | Ok None => False
  | Exn _ => True
  end.
Proof.
  intros Hrun Hb. unfold run_middleware, authenticate, metric in Hrun.
  destruct (is_internal_endpoint (path req)).
  { destruct Hrun as [-> ->]. by apply elem_of_nil in Hb. }
  destruct (require_auth (config_ s)) eqn:Hreq.
  - runs_seq Hrun as blocked. destruct blocked.
    + runs_skip Hrun. apply runs_answer in Hrun as [_ ->].
      match goal with |- context [with_header ?a ?b (make_error_response ?c ?d ?e ?f ?g)] =>
        by destruct (with_header_status c a b d e f g _ eq_refl) as [(resp & -> & Hs & Hh)|[m ->]] end.
    + exfalso. apply (mute_runs (@blocked_of)) in Hrun; [|mute_solve].
      unfold blocks in Hb. rewrite observe_app, Hrun in Hb. cbn in Hb.
      apply list_elem_of_singleton in Hb. congruence.
  - exfalso. apply (mute_runs (@blocked_of)) in Hrun; [|mute_solve].
    unfold blocks in Hb. rewrite Hrun in Hb. by apply elem_of_nil in Hb.
Qed.

(** A run whose calls on the limiters are those of the middleware, which
    answers, throws, or lets the speech route go on. *)
Definition gated_run (s : TtsServer) (q : HttplibRequest) (tr : list (event sysE))
    (r : res (list response_op)) : Prop :=
  exists t1 t2 t3 o, tr = t1 ++ t2 ++ t3 /\ gates t1 = [] /\ gates t3 = [] /\
    submissions t1 = [] /\ runs (run_middleware s (adapt_request q)) t2 o /\
    match o with
    | Ok (Some resp) => submissions t3 = [] /\
        exists id, r = Ok (adapt_response (apply_security_headers id resp))
    | Ok None => submissions t3 <> [] -> q_path q = "/v1/audio/speech"%string
    | Exn e => submissions t3 = [] /\ r = Exn e
    end.

Lemma guarded_gated s q id (rest : prog sysE (list response_op)) tr r :
  silent rest -> (q_path q <> "/v1/audio/speech"%string -> no_submission rest) ->
  runs (middleware_err ← run_middleware s (adapt_request q);
        match middleware_err with Some rejection => respond id rejection | None => rest end) tr r ->
  gated_run s q tr r.
Proof.
  intros Hsil Hsub [(t2 & t3 & o & -> & Hm & H)|(e & -> & Hm)]%runs_bind.
  - exists [], t2, t3, (Ok o). split; [done|]. split; [done|]. destruct o as [resp|].
    + split; [by eapply mute_runs; [apply respond_silent|]|]. split; [done|]. split; [done|].
      split; [by eapply respond_no_submission|]. apply respond_post in H as [_ ->]. by exists id.
    + split; [by eapply mute_runs|]. split; [done|]. split; [done|]. intros Hne.
      destruct (String.eqb_spec (q_path q) "/v1/audio/speech") as [|Hp]; [done|].
      exfalso. apply Hne. by eapply Hsub.
  - exists [], tr, [], (Exn e). by rewrite app_nil_r.
Qed.

Lemma gated_after s q t0 tr r :
  gates t0 = [] -> submissions t0 = [] -> gated_run s q tr r -> gated_run s q (t0 ++ tr) r.
Proof.
  intros Hg Hs (t1 & t2 & t3 & o & -> & Hg1 & Hg3 & Hs1 & H). exists (t0 ++ t1), t2, t3, o.
  split; [by rewrite <- app_assoc|]. rewrite gates_app, submissions_app, Hg, Hs, Hg1, Hs1. done.
Qed.

(** A route calls the limiters in its middleware, if at all. *)
Lemma route_gated s q p tr r :
  route VERSION s q = Some p -> runs p tr r ->
  (gates tr = [] /\ submissions tr = []) \/ gated_run s q tr r.
Proof.
  intros Hroute Hrun.
  assert (Hother : q_path q <> "/v1/audio/speech"%string -> submissions tr = []).
  { intros Hne. by eapply route_other_no_submission. }
  assert (Hbegin : forall (body : string -> prog sysE (list response_op)),
    (forall id t, runs (body id) t r -> gated_run s q t r) ->
    runs (id ← begin_request; body id) tr r -> gated_run s q tr r).
  { intros body Hbody [(t1 & t2 & id & -> & Hb & H)|(e & -> & Hb)]%runs_bind.
    - apply gated_after; [by eapply mute_runs; [apply begin_request_silent|]
                         |by eapply begin_request_no_submission|by eapply Hbody].
    - by apply begin_request_post in Hb as (id & _ & [=] & _). }
  destruct (route_cases VERSION s q p Hroute) as [[Hp ->]|[[Hp ->]|[[Hp ->]|[[Hp ->]|[Hp ->]]]]].
  1-3: left; split; [eapply mute_runs; [|exact Hrun]|apply Hother; congruence].
  - unfold route_health, probe_route. apply mute_bind; [apply begin_request_silent|]. intros id.
    apply mute_bind; [|intros; apply respond_silent]. unfold handle_health. mute_solve.
  - unfold route_ready, probe_route. apply mute_bind; [apply begin_request_silent|]. intros id.
    apply mute_bind; [|intros; apply respond_silent]. unfold handle_ready. mute_solve.
  - unfold route_metrics, handle_metrics. mute_solve.
  - right. revert Hrun. apply Hbegin. intros id t. apply guarded_gated.
    + unfold handle_voices. apply mute_bind; [|intros; apply respond_silent]. mute_solve.
    + intros _. apply no_submission_bind; [apply no_submission_res|].
      intros resp. apply respond_no_submission.
  - right. revert Hrun. apply Hbegin. intros id t Ht. unfold speech_body, slog in Ht.
    runs_skip Ht. apply (gated_after s q [_]); [done|done|]. eapply guarded_gated; [| |exact Ht].
    + apply mute_bind; [apply handle_speech_silent|]. intros resp y. split; [done|].
      apply respond_silent.
    + intros Hne. congruence.
Qed.

(** A client told that it is locked out: 429, and no job. *)
Lemma route_locked_out s q p tr r ip :
  route VERSION s q = Some p -> runs p tr r -> (ip, true) ∈ blocks tr ->
  submissions tr = [] /\
  match r with
  | Ok ops => SetStatus 429 ∈ ops /\ SetHeader "Retry-After" "60" ∈ ops
  | Exn _ => True
  end.
Proof.
  intros Hroute Hrun Hb.
  destruct (route_gated s q p tr r Hroute Hrun) as [[Hg _]|Hg].
  { apply gates_nil in Hg as [Hg _]. rewrite Hg in Hb. by apply elem_of_nil in Hb. }
  destruct Hg as (t1 & t2 & t3 & o & -> & [Hb1 _]%gates_nil & [Hb3 _]%gates_nil & Hs1 & Hm & Ho).
  unfold blocks in Hb, Hb1, Hb3. rewrite !observe_app, Hb1, Hb3, app_nil_r in Hb.
  pose proof (middleware_blocked s _ _ _ _ Hm Hb) as Hresp.
  pose proof (middleware_no_submission s _ _ _ Hm) as Hs2.
  rewrite !submissions_app, Hs1, Hs2.
  destruct o as [[resp|]|e]; [|done|by destruct Ho as [-> ->]].
  destruct Ho as [-> [id ->]]. split; [done|]. destruct Hresp as [Hst Hh].
  split; [|by apply retry_after_sent].
  apply elem_of_app. left. apply list_elem_of_singleton. cbn. by rewrite Hst.
Qed.

(** A request that submits a job passed the middleware before. *)
Definition passed_first (s : TtsServer) (q : HttplibRequest) (tr : list (event sysE)) : Prop :=
  q_method q = "POST"%string /\ q_path q = "/v1/audio/speech"%string /\
  exists t1 t2 t3, tr = t1 ++ t2 ++ t3 /\ gates t1 = [] /\ gates t3 = [] /\
    submissions t1 = [] /\ submissions t2 = [] /\ passed s (adapt_request q) t2.

Lemma route_speech_post s q p :
  route VERSION s q = Some p -> q_path q = "/v1/audio/speech"%string ->
  q_method q = "POST"%string.
Proof.
  unfold route. intros H Hp. rewrite Hp in H. cbn in H.
  destruct (String.eqb (q_method q) "GET"); [done|].
  by destruct (String.eqb_spec (q_method q) "POST").
Qed.

Lemma route_submitter s q p tr r :
  route VERSION s q = Some p -> runs p tr r -> submissions tr <> [] -> passed_first s q tr.
Proof.
  intros Hroute Hrun Hs.
  destruct (route_gated s q p tr r Hroute Hrun) as [[_ Hg]|Hg]; [done|].
  destruct Hg as (t1 & t2 & t3 & o & -> & Hg1 & Hg3 & Hs1 & Hm & Ho).
  pose proof (middleware_no_submission s _ _ _ Hm) as Hs2.
  rewrite !submissions_app, Hs1, Hs2 in Hs.
  apply run_middleware_post in Hm as [_ Hm].
  destruct o as [[resp|]|e]; [by destruct Ho| |by destruct Ho].
  specialize (Ho Hs). split; [by eapply route_speech_post|]. split; [done|].
  exists t1, t2, t3. destruct Hm as [Hm|Hm]; [|done]. cbn in Hm. by rewrite Ho in Hm.
Qed.

(** What holds of a whole run holds of a start of it that has submitted. *)
Lemma passed_first_prefix s q t u :
  passed_first s q (t ++ u) -> submissions t <> [] -> passed_first s q t.
Proof.
  intros (Hm & Hp & t1 & t2 & t3 & Heq & Hg1 & Hg3 & Hs1 & Hs2 & Hpass) Hs.
  split; [done|]. split; [done|]. rewrite app_assoc in Heq.
  apply app_eq_inv in Heq as [(k & -> & ->)|(k & Hk & _)].
  - exists t1, t2, k. rewrite <- app_assoc. rewrite gates_app in Hg3.
    apply app_nil in Hg3 as [? _]. done.
  - apply (f_equal submissions) in Hk. rewrite !submissions_app, Hs1, Hs2 in Hk.
    by destruct (submissions t).
Qed.

Lemma passed_first_authorised s q tr :
  passed_first s q tr -> require_auth (config_ s) = true -> authorised s q tr.
Proof.
  intros (Hm & Hp & t1 & t2 & t3 & -> & Hg1 & Hg3 & Hs1 & Hs2 & Hpass) Hreq.
  apply gates_nil in Hg1 as [Hb1 Hc1]. apply gates_nil in Hg3 as [Hb3 Hc3].
  destruct Hpass as ((n & Hn & Hck) & _ & Hauth). destruct (Hauth Hreq) as [Hbl Hok].
  split; [done|]. split; [done|]. split; [by apply key_accepted_intro|].
  exists (t1 ++ t2), t3, n. unfold blocks, checks in *.
  rewrite !submissions_app, Hs1, Hs2, !observe_app, Hb1, Hc1, <- app_assoc. done.
Qed.
End Routes.

(** ** Lemmas: histories *)

Lemma omap_one {A B} (f : A -> option B) l x : omap f (l ++ [x]) = omap f l ++ option_list (f x).
Proof. rewrite omap_app. cbn. by destruct (f x). Qed.

Section Histories.
Context {L : JsonLib} {HL : JsonLaws L} (VERSION : string).
Context (it : gmap string AuthLimiter.IpState -> list (string * AuthLimiter.IpState)).
Context (s : TtsServer).

#[local] Notation svc_step := (svc_step VERSION it s).
#[local] Notation served := (served VERSION it s).

(** What an entry of a history says of the state before it. *)
Lemma step_entry v o v' :
  svc_step v o v' ->
  match o with
  | Some (ECall i now ins (Ev e x)) =>
      clock_reads e (sv_time v) now ins /\ sv_time v' = ins /\
      exists v1, call_answers it s i now ins e v x v1 /\
        sv_auth v' = sv_auth v1 /\ sv_requests v' = sv_requests v1
  | _ => sv_time v' = sv_time v /\ sv_auth v' = sv_auth v /\ sv_requests v' = sv_requests v
  end.
Proof. intros []; try done. split_and!; try done. by eexists. Qed.

Lemma served_split h1 en h2 v :
  served (h1 ++ en :: h2) v ->
  exists v1 v2, served h1 v1 /\ svc_step v1 (Some en) v2.
Proof.
  intros H. remember (h1 ++ en :: h2) as hist eqn:Hh. revert h1 en h2 Hh.
  induction H as [t|hist v o v' Hs IH Hstep]; intros h1 en h2 Hh; [by destruct h1|].
  destruct o as [en'|]; [|rewrite app_nil_r in Hh; by eapply IH].
  change (option_list (Some en')) with [en'] in Hh.
  destruct h2 as [|en2 h2 _] using rev_ind.
  - apply app_inj_tail in Hh as [-> ->]. by exists v, v'.
  - rewrite app_comm_cons, app_assoc in Hh. apply app_inj_tail in Hh as [Hh _]. by eapply IH.
Qed.

(** A call changes the limiters only when it is made on them. *)
Lemma call_frame i now ins X (e : sysE X) v x v' :
  call_answers it s i now ins e v x v' ->
  sv_threads v' = sv_threads v /\
  match auth_op_of now ins e x with
  | Some (o, b) => AuthLimiter.do_op it (sv_auth v) o = (b, sv_auth v')
  | None => sv_auth v' = sv_auth v
  end /\
  match check_of now ins e x with
  | Some (c, n) =>
      RequestLimiter.check_request (sv_requests v) (RequestLimiter.c_now c) (RequestLimiter.c_ins c)
        (RequestLimiter.c_ip c) = (n, sv_requests v')
  | None => sv_requests v' = sv_requests v
  end.
Proof.
  intros Hc. unfold call_answers in Hc.
  destruct e; cbn [shared_call] in Hc; try (by subst v').
  - by injection Hc as _ <-.
  - by injection Hc as _ <-.
  - rewrite submit_queue_spec in Hc; destruct (pool_spec_step _ _ _); by injection Hc as _ <-.
  - destruct (sv_cells v !! i); [|done]. by injection Hc as _ <-.
  - cbn [auth_op_of check_of AuthLimiter.do_op].
    destruct (AuthLimiter.is_blocked _ _ _). by injection Hc as <- <-.
  - cbn [auth_op_of check_of AuthLimiter.do_op].
    destruct (AuthLimiter.check_and_record_failure _ _ _ _ _). by injection Hc as <- <-.
  - cbn [auth_op_of check_of RequestLimiter.c_now RequestLimiter.c_ins RequestLimiter.c_ip].
    destruct (RequestLimiter.check_request _ _ _ _). by injection Hc as <- <-.
Qed.

(** Every request runs its route, and the history holds its calls. *)
Lemma served_threads hist v i :
  served hist v ->
  match sv_threads v !! i with
  | Some (q, p) => exists p0, route VERSION s q = Some p0 /\ steps p0 (calls_of i hist) p
  | None => calls_of i hist = []
  end.
Proof.
  induction 1 as [t|hist v o v' Hs IH Hstep]; [done|].
  destruct Hstep as [v q p Hr|v j q X e k x now ins v' Hj _ Hc| | | |];
    cbn [option_list from_option];
    try (rewrite calls_of_app, app_nil_r); try exact IH.
  - cbn [sv_threads with_threads]. destruct (sv_threads v !! i) as [[q1 p1]|] eqn:Hi.
    + by rewrite (lookup_app_l_Some _ _ _ _ Hi).
    + rewrite lookup_app_r by by apply lookup_ge_None. rewrite IH.
      destruct (i - _)%nat as [|n]; [|by destruct n]. exists p. split; [done|]. apply steps_refl.
  - cbn [sv_threads resume with_time with_threads].
    change (option_list (Some ?en)) with [en]. rewrite calls_of_app, calls_of_call.
    pose proof (proj1 (call_frame _ _ _ _ _ _ _ _ Hc)) as Hth.
    rewrite Hth. destruct (decide (j = i)) as [->|Hne].
    + rewrite list_lookup_insert_eq by by eapply lookup_lt_Some. rewrite Hj in IH.
      destruct IH as (p0 & Hr & Hst). exists p0. split; [done|]. by apply steps_snoc.
    + rewrite list_lookup_insert_ne by done. by rewrite app_nil_r.
Qed.

(** The calls of a request are those of the start of a run of its route. *)
Lemma served_run hist v i :
  served hist v -> calls_of i hist <> [] ->
  exists q p p0 tr r, sv_threads v !! i = Some (q, p) /\ route VERSION s q = Some p0 /\
    runs p0 (calls_of i hist ++ tr) r /\ (forall a, p = Ret a -> tr = [] /\ r = Ok a).
Proof.
  intros Hs Hne. pose proof (served_threads hist v i Hs) as Hi.
  destruct (sv_threads v !! i) as [[q p]|] eqn:Ht; [|done]. destruct Hi as (p0 & Hr & Hst).
  destruct (some_run (@some_answer) p) as (tr & r & Hrun).
  exists q, p, p0, tr, r. split; [done|]. split; [done|].
  split; [by eapply steps_runs|]. intros a ->. exact Hrun.
Qed.

(** *** The limiters of a history *)

Lemma auth_log_snoc hist en :
  auth_log (hist ++ [en]) = auth_log hist ++
    option_list (match en with ECall _ now ins (Ev e x) => auth_op_of now ins e x | _ => None end).
Proof. apply omap_one. Qed.

Lemma check_log_snoc hist en :
  check_log (hist ++ [en]) = check_log hist ++
    option_list (match en with ECall _ now ins (Ev e x) => check_of now ins e x | _ => None end).
Proof. apply omap_one. Qed.

(** The limiters have made the calls of the history and no other. *)
Record limiters_agree (hist : list entry) (v : service) : Prop := mk_agree {
  agree_auth :
    AuthLimiter.run_ops it (auth_limiter_ s) (auth_ops hist) =
    ((fun ob => (AuthLimiter.op_ip ob.1, ob.2)) <$> auth_log hist, sv_auth v);
  agree_checks :
    RequestLimiter.run_calls (request_limiter_ s) (check_calls hist) =
    ((fun cn => (RequestLimiter.c_ip cn.1, cn.2)) <$> check_log hist, sv_requests v);
}.

Lemma served_agree hist v : served hist v -> limiters_agree hist v.
Proof.
  induction 1 as [t|hist v o v' Hs IH Hstep]; [done|].
  pose proof (step_entry v o v' Hstep) as Hen.
  assert (Hsame : sv_auth v' = sv_auth v -> sv_requests v' = sv_requests v ->
    auth_log (hist ++ option_list o) = auth_log hist ->
    check_log (hist ++ option_list o) = check_log hist ->
    limiters_agree (hist ++ option_list o) v').
  { intros Hva Hvc Hla Hlc. destruct IH as [Ha Hc].
    split; unfold auth_ops, check_calls in *; by rewrite ?Hla, ?Hlc, ?Hva, ?Hvc. }
  destruct o as [[i now ins [X e x]|job|job n]|].
  2-4: destruct Hen as (_ & Hva & Hvc);
    apply Hsame; [done|done|..]; unfold auth_log, check_log; rewrite omap_app; apply app_nil_r.
  destruct Hen as (_ & _ & v1 & Hc & Hva & Hvc).
  destruct (call_frame _ _ _ _ _ _ _ _ Hc) as (_ & Hfa & Hfc).
  change (option_list (Some ?en)) with [en]. destruct IH as [Ha Hr].
  split; unfold auth_ops, check_calls in *; rewrite Hva || rewrite Hvc;
    rewrite auth_log_snoc || rewrite check_log_snoc.
  - destruct (auth_op_of now ins e x) as [[op b]|]; change (option_list (Some ?p)) with [p];
      [|change (option_list None) with (@nil (AuthLimiter.op * bool)); by rewrite app_nil_r, Hfa].
    rewrite !fmap_app. cbn [fmap list_fmap fst snd]. by rewrite AuthLimiter.run_ops_snoc, Ha, Hfa.
  - destruct (check_of now ins e x) as [[c n]|]; change (option_list (Some ?p)) with [p];
      [|change (option_list None) with (@nil (RequestLimiter.call * Z)); by rewrite app_nil_r, Hfc].
    rewrite !fmap_app. cbn [fmap list_fmap fst snd].
    by rewrite RequestLimiter.run_calls_snoc, Hr, Hfc.
Qed.
(** *** The clock of a history *)

Record clock_inv (t0 : Z) (hist : list entry) (v : service) : Prop := mk_clock {
  clk_start : t0 <= sv_time v;
  clk_auth : AuthLimiter.in_order t0 (auth_ops hist);
  clk_auth_past : Forall (fun o => AuthLimiter.op_done o <= sv_time v) (auth_ops hist);
  clk_checks : RequestLimiter.clock_ok t0 (check_calls hist);
  clk_past : Forall (fun c => RequestLimiter.c_ins c <= sv_time v) (check_calls hist);
}.

Lemma clock_later t0 hist v v' :
  clock_inv t0 hist v -> sv_time v <= sv_time v' -> clock_inv t0 hist v'.
Proof.
  intros [Hs Ha Hd Hc Hp] Hle. split; [lia|done| |done|].
  - eapply Forall_impl; [exact Hd|]. cbn. lia.
  - eapply Forall_impl; [exact Hp|]. cbn. lia.
Qed.

Lemma served_clock hist v : served hist v -> exists t0, clock_inv t0 hist v.
Proof.
  induction 1 as [t|hist v o v' Hs [t0 IH] Hstep].
  { exists t. split; cbn; done || constructor. }
  exists t0. pose proof (step_entry v o v' Hstep) as Hen.
  assert (Hlog : auth_log (hist ++ option_list o) = auth_log hist /\
                 check_log (hist ++ option_list o) = check_log hist ->
    sv_time v <= sv_time v' -> clock_inv t0 (hist ++ option_list o) v').
  { intros [Hla Hlc] Hle. destruct (clock_later _ _ _ _ IH Hle).
    split; unfold auth_ops, check_calls in *; by rewrite ?Hla, ?Hlc. }
  destruct o as [[i now ins [X e x]|job|job n]|].
  2-4: destruct Hen as (Ht & _ & _); apply Hlog; [|lia]; unfold auth_log, check_log;
    rewrite !omap_app; split; apply app_nil_r.
  destruct Hen as ((H1 & H2 & H3) & Ht & _).
  change (option_list (Some ?en)) with [en] in *.
  destruct (clock_later _ _ _ v' IH ltac:(lia)) as [Hst Ha Hd Hc Hp].
  assert (t0 <= sv_time v) as Hst0 by apply IH.
  split; [done|unfold auth_ops; rewrite auth_log_snoc|unfold auth_ops; rewrite auth_log_snoc
         |unfold check_calls; rewrite check_log_snoc|unfold check_calls; rewrite check_log_snoc].
  - destruct (auth_op_of now ins e x) as [[op b]|] eqn:Hop.
    + change (option_list (Some ?p)) with [p]. rewrite fmap_app. cbn [fmap list_fmap fst].
      assert (AuthLimiter.op_now op = now /\ now <= AuthLimiter.op_done op /\ sv_time v <= now)
        as (Hn & Hi & Hle) by (destruct e; try discriminate Hop; by injection Hop as <- _).
      apply AuthLimiter.in_order_snoc; [exact Ha| |lia|lia].
      eapply Forall_impl; [apply IH|]. cbn. lia.
    + change (option_list None) with (@nil (AuthLimiter.op * bool)). by rewrite app_nil_r.
  - rewrite fmap_app. apply Forall_app. split; [exact Hd|].
    destruct e; cbn; try constructor; cbn; try lia; constructor.
  - destruct (check_of now ins e x) as [[c n]|] eqn:Hck.
    + change (option_list (Some ?p)) with [p]. rewrite fmap_app. cbn [fmap list_fmap fst].
      assert (RequestLimiter.c_now c = now /\ RequestLimiter.c_ins c = ins /\ sv_time v <= now)
        as (Hn & Hi & Hle).
      { destruct e; try discriminate Hck. by injection Hck as <- _. }
      apply RequestLimiter.clock_ok_snoc; [exact Hc| |lia|lia].
      eapply Forall_impl; [apply IH|]. cbn. lia.
    + change (option_list None) with (@nil (RequestLimiter.call * Z)). by rewrite app_nil_r.
  - rewrite fmap_app. apply Forall_app. split; [exact Hp|].
    destruct e; cbn; try constructor; cbn; try lia; constructor.
Qed.

(** *** Requests that get through *)

Lemma calls_of_elem i now ins ev hist : ECall i now ins ev ∈ hist -> ev ∈ calls_of i hist.
Proof.
  intros H. apply list_elem_of_omap. exists (ECall i now ins ev). split; [done|].
  by rewrite decide_True.
Qed.

(** The request that submitted a job passed the middleware. *)
Lemma served_submitter hist v i :
  served hist v -> submissions (calls_of i hist) <> [] ->
  exists q p, sv_threads v !! i = Some (q, p) /\ passed_first s q (calls_of i hist).
Proof.
  intros Hs Hsub.
  assert (calls_of i hist <> []) as Hne by (intros He; by rewrite He in Hsub).
  destruct (served_run hist v i Hs Hne) as (q & p & p0 & tr & r & Hi & Hr & Hrun & _).
  exists q, p. split; [done|]. eapply passed_first_prefix; [|done].
  eapply route_submitter; [done|done|].
  rewrite submissions_app. by destruct (submissions (calls_of i hist)).
Qed.

(** A rate check of a request that submitted a job succeeded. *)
Lemma submitter_checked hist v i now ins ip n :
  served hist v -> submissions (calls_of i hist) <> [] ->
  ECall i now ins (Ev (CheckRequest ip) n) ∈ hist -> n <= 0.
Proof.
  intros Hs Hsub Hin.
  destruct (served_submitter hist v i Hs Hsub)
    as (q & p & _ & _ & _ & t1 & t2 & t3 & Heq & Hg1 & Hg3 & _ & _ & Hp).
  apply gates_nil in Hg1 as [_ Hc1]. apply gates_nil in Hg3 as [_ Hc3].
  destruct Hp as ((m & Hm & Hck) & _).
  assert ((ip, n) ∈ checks (calls_of i hist)) as Hin2.
  { apply list_elem_of_omap. exists (Ev (CheckRequest ip) n). split; [|done].
    by eapply calls_of_elem. }
  unfold checks in *. rewrite Heq, !observe_app, Hc1, Hck, Hc3 in Hin2.
  apply list_elem_of_singleton in Hin2. injection Hin2 as _ ->. lia.
Qed.

Lemma let_through_accepted ip hist :
  Z.of_nat (length (let_through ip hist)) =
  RequestLimiter.accepted ip ((fun cn => (RequestLimiter.c_ip cn.1, cn.2)) <$> check_log hist).
Proof.
  induction hist as [|[i now ins [X e x]|job|job n] hist IH]; [done| |exact IH|exact IH].
  unfold let_through, check_log in *. cbn [omap list_omap].
  destruct (check_of now ins e x) as [[c n]|]; [|exact IH].
  rewrite fmap_cons. cbn [RequestLimiter.accepted fst snd].
  destruct (decide (RequestLimiter.c_ip c = ip)); [|exact IH].
  destruct (n =? 0); [|exact IH]. cbn [length]. lia.
Qed.

Lemma check_log_app h1 h2 : check_log (h1 ++ h2) = check_log h1 ++ check_log h2.
Proof. apply omap_app. Qed.
Lemma check_calls_app h1 h2 : check_calls (h1 ++ h2) = check_calls h1 ++ check_calls h2.
Proof. unfold check_calls. by rewrite check_log_app, fmap_app. Qed.

Lemma log_length {B} (f : entry -> option B) hist : (length (omap f hist) <= length hist)%nat.
Proof.
  induction hist as [|en hist IH]; cbn [omap list_omap]; [done|].
  destruct (f en); cbn [length]; lia.
Qed.

Lemma served_prefix h1 h2 v : served (h1 ++ h2) v -> exists v1, served h1 v1.
Proof.
  destruct h2 as [|en h2]; [rewrite app_nil_r; by exists v|].
  intros (v1 & v2 & H & _)%served_split. by exists v1.
Qed.

(** The answers of the request limiter in a part of a history. *)
Lemma served_checks h1 h2 v :
  served (h1 ++ h2) v -> RequestLimiter.ip_states (request_limiter_ s) = ∅ ->
  0 < RequestLimiter.max_rpm (request_limiter_ s) -> Z.of_nat (length (h1 ++ h2)) < 2 ^ 64 ->
  exists R t n, RequestLimiter.wf R t n /\ 0 <= n /\
    n + Z.of_nat (length (check_calls h2)) < 2 ^ 64 /\
    RequestLimiter.clock_ok t (check_calls h2) /\
    RequestLimiter.max_rpm R = RequestLimiter.max_rpm (request_limiter_ s) /\
    (RequestLimiter.run_calls R (check_calls h2)).1 =
    (fun cn => (RequestLimiter.c_ip cn.1, cn.2)) <$> check_log h2.
Proof.
  intros Hs Hempty Hmax Hlen.
  destruct (served_prefix h1 h2 v Hs) as [v1 Hs1].
  pose proof (agree_checks _ _ (served_agree _ _ Hs1)) as Hr1.
  pose proof (agree_checks _ _ (served_agree _ _ Hs)) as Hr.
  destruct (served_clock _ _ Hs) as (t0 & [_ _ _ Hclk _]).
  rewrite check_calls_app in Hclk, Hr. rewrite length_app in Hlen.
  rewrite check_log_app, fmap_app, RequestLimiter.run_calls_app, Hr1 in Hr.
  destruct (RequestLimiter.clock_ok_app _ _ _ Hclk) as (t2 & Ht & Hc2 & Hc1 & Hpast).
  pose proof (log_length (fun en => match en with
    | ECall _ now ins (Ev e x) => check_of now ins e x | _ => None end) h1) as Hl1.
  pose proof (log_length (fun en => match en with
    | ECall _ now ins (Ev e x) => check_of now ins e x | _ => None end) h2) as Hl2.
  fold (check_log h1) in Hl1. fold (check_log h2) in Hl2.
  rewrite <- (length_fmap fst) in Hl1, Hl2. fold (check_calls h1) in Hl1. fold (check_calls h2) in Hl2.
  destruct (RequestLimiter.run_calls_wf (request_limiter_ s) (check_calls h1) t0 0) with (t2 := t2)
    as [Hwf Hm]; [|done|lia|lia|done|done|].
  { intros k st. by rewrite Hempty, lookup_empty. }
  rewrite Hr1 in Hwf, Hm. cbn [snd] in Hwf, Hm.
  exists (sv_requests v1), t2, (0 + Z.of_nat (length (check_calls h1))).
  split; [done|]. split; [lia|]. split; [lia|]. split; [done|]. split; [done|].
  destruct (RequestLimiter.run_calls (sv_requests v1) (check_calls h2)) as [rs R2].
  injection Hr as Hrs _. by apply app_inv_head in Hrs.
Qed.
End Histories.

(** ** Properties *)

Section AbuseProperties.
Context {L : JsonLib} {HL : JsonLaws L} (VERSION : string).
Context (it : gmap string AuthLimiter.IpState -> list (string * AuthLimiter.IpState)).
Context (s : TtsServer).

#[local] Notation served := (served VERSION it s).

(** C3: only authorised jobs: with authentication on, every job the worker
    takes was submitted by a POST /v1/audio/speech whose bearer token was
    accepted, and that had before asked each limiter exactly once about its
    own address and been told that it is not locked out and within quota. *)
Theorem jobs_are_authorised hist v job
    (Hserved : served hist v) (Htake : ETake job ∈ hist)
    (Hauth : require_auth (config_ s) = true) :
  exists i q p, owned i job /\ sv_threads v !! i = Some (q, p) /\
    (exists j0, (j0, true) ∈ submissions (calls_of i hist) /\ request job = request j0) /\
    authorised s q (calls_of i hist).
Proof.
  apply list_elem_of_split in Htake as (h1 & h2 & ->).
  destruct (served_split VERSION it s _ _ _ _ Hserved) as (v1 & v2 & Hs1 & Hstep).
  destruct (served_inv VERSION it s h1 v1 Hs1) as (ts & HI).
  pose proof (served_origin VERSION it s h1 v1 Hs1) as Horg.
  assert (job ∈ pending (sv_pool v1)) as Hpend.
  { inversion Hstep as [| |w j a Ha| | |]; subst.
    destruct (take_pending _ _ _ _ (inv_owned _ _ HI) Ha) as (_ & -> & -> & _). by left. }
  pose proof (proj1 (Forall_forall _ _) (inv_owned _ _ HI) job Hpend) as [i Hi].
  pose proof (org_pending _ _ Horg i job Hpend Hi) as Hsub.
  apply (submitted_app i job h1 (ETake job :: h2)) in Hsub as (j0 & Hj0 & Hreq).
  destruct (served_submitter VERSION it s _ _ i Hserved) as (q & p & Ht & Hp).
  { intros He. rewrite He in Hj0. by apply elem_of_nil in Hj0. }
  exists i, q, p. split; [done|]. split; [done|]. split; [by exists j0|].
  by apply passed_first_authorised.
Qed.


(** C20: the rate limit works end to end: of the requests of one address whose
    rate check falls into one span of 60 seconds, at most twice the configured
    number per minute ever submit a job, however the requests interleave. *)
Theorem submission_rate env path hist v h1 h2 h3 ip tend ids
    (Hboot : booted env path s) (Hserved : served hist v)
    (Hhist : hist = h1 ++ h2 ++ h3)
    (Hspan : Forall (fun c => RequestLimiter.c_now c < tend /\
                              tend <= RequestLimiter.c_now c + 60 * SEC) (check_calls h2))
    (Hlen : Z.of_nat (length hist) < 2 ^ 64)
    (Hids : NoDup ids)
    (Hsub : Forall (fun i => submissions (calls_of i hist) <> [] /\
       exists now ins n, ECall i now ins (Ev (CheckRequest ip) n) ∈ h2) ids) :
  Z.of_nat (length ids) <= 2 * request_rate_limit_rpm (config_ s).
Proof.
  destruct (booted_limiters env path s Hboot) as [_ Hlim].
  pose proof (booted_rpm env path s Hboot) as Hrpm.
  assert (Hmax : RequestLimiter.max_rpm (request_limiter_ s) = request_rate_limit_rpm (config_ s)).
  { rewrite Hlim. apply u64_small. unfold INT_MAX in Hrpm. lia. }
  assert (served (h1 ++ h2 ++ h3) v) as Hs by by rewrite <- Hhist.
  rewrite app_assoc in Hs. apply served_prefix in Hs as [v2 Hs2].
  destruct (served_checks VERSION it s h1 h2 v2 Hs2) as (R & t & n & Hwf & Hn & Hb & Hclk & Hm & Hans).
  { by rewrite Hlim. }
  { lia. }
  { rewrite Hhist, app_assoc, length_app in Hlen. lia. }
  pose proof (request_limiter_sliding_bound R (check_calls h2) t n ip tend
    ltac:(lia) Hwf Hclk Hn Hb Hspan) as Hbound.
  rewrite Hans, <- let_through_accepted, Hm, Hmax in Hbound.
  pose proof (RequestLimiter.run_calls_answers R (check_calls h2) t n ltac:(lia) Hwf Hclk Hn Hb)
    as Hpos.
  rewrite Hans, Forall_fmap in Hpos.
  assert (length ids <= length (let_through ip h2))%nat; [|lia].
  apply submseteq_length, NoDup_submseteq; [done|]. intros i Hi.
  destruct (proj1 (Forall_forall _ _) Hsub i Hi) as (Hsb & now & ins & m & Hin).
  assert (m <= 0) as Hle.
  { eapply (submitter_checked VERSION it s hist v i); [done|done|].
    rewrite Hhist. apply elem_of_app. right. apply elem_of_app. by left. }
  assert (0 <= m) as Hge.
  { apply (proj1 (Forall_forall _ _) Hpos (RequestLimiter.mk_call now ins ip, m)).
    apply list_elem_of_omap. by exists (ECall i now ins (Ev (CheckRequest ip) m)). }
  apply list_elem_of_omap. exists (ECall i now ins (Ev (CheckRequest ip) m)). split; [done|].
  cbn. rewrite decide_True by done. by replace m with 0 by lia.
Qed.
End AbuseProperties.

(** ** Witnesses *)

Module AbuseWitness.
Import HandlerWitness AdapterWitness LivenessWitness.

Lemma jobs_are_authorised_witness :
  exists i q p, owned i job0 /\ sv_threads whole.2 !! i = Some (q, p) /\
    (exists j0, (j0, true) ∈ submissions (calls_of i whole.1) /\ request job0 = request j0) /\
    authorised server q (calls_of i whole.1).
Proof.
  refine (jobs_are_authorised "1.0" toy_it server whole.1 whole.2 job0 whole_served _ eq_refl).
  unfold whole. destruct (drive server 40 0 answered0) as [h v]. cbn [fst].
  apply elem_of_app. left. apply elem_of_app. right. by left.
Defined.

(** A server that tolerates two failures, and a client that guesses the key
    [n] times, one request after the other. *)
Definition strict_env : environment := fun n =>
  if String.eqb n "TTS_AUTH_RATE_LIMIT_MAX" then Some "2"%string
  else if String.eqb n "TTS_REQUIRE_AUTH" then Some "true"%string
  else if String.eqb n "TTS_API_KEY" then Some "secret"%string
  else if String.eqb n "TTS_MODEL_PATH" then Some "/m"%string else None.
Definition strict : TtsServer := booted_server (from_env strict_env).1 0.

Lemma strict_booted : booted strict_env "config/server.toml" strict.
Proof. apply booted_from_env; by vm_compute. Qed.

Definition guess (hv : list entry * service) : list entry * service :=
  let v := with_threads
    (sv_threads hv.2 ++ [(post "guess", route_speech strict (post "guess"))]) hv.2 in
  let '(h, v') := drive strict 40 (length (sv_threads hv.2)) v in (hv.1 ++ h, v').

Fixpoint attack (n : nat) : list entry * service :=
  match n with O => ([], service_init strict 7) | S n' => guess (attack n') end.

Lemma attack_served n : served "1.0" toy_it strict (attack n).1 (attack n).2.
Proof.
  induction n as [|n IH]; [constructor|]. cbn [attack]. unfold guess.
  set (v := with_threads _ (attack n).2).
  assert (served "1.0" toy_it strict (attack n).1 v) as Hv.
  { rewrite <- (app_nil_r (attack n).1).
    apply (served_step "1.0" toy_it strict (attack n).1 (attack n).2 None); [exact IH|].
    exact (step_arrive "1.0" toy_it strict (attack n).2 (post "guess") _ eq_refl). }
  pose proof (drive_served strict 40 (length (sv_threads (attack n).2)) _ v Hv) as H.
  by destruct (drive strict 40 _ v).
Qed.

(** Before and after the lock-out test of the fourth request. *)
Definition before_test : list entry := take (length (attack 3).1 + 6) (attack 4).1.
Definition after_test : list entry := drop (length (attack 3).1 + 7) (attack 4).1.

(** What the fourth request is answered. *)
Definition refusal : list response_op :=
  match sv_threads (attack 4).2 !! 3%nat with Some (_, Ret ops) => ops | _ => [] end.

Lemma attack_split :
  (attack 4).1 =
  before_test ++ ECall 3 7 7 (Ev (AuthIsBlocked "10.0.0.1") true) :: after_test.
Proof. by vm_compute. Qed.

Lemma attack_refused :
  failures_of "10.0.0.1" before_test = [(7, 7); (7, 7); (7, 7)] /\
  sv_threads (attack 4).2 !! 3%nat = Some (post "guess", Ret refusal).
Proof. by vm_compute. Qed.

Lemma attack_small :
  Z.of_nat (size (list_to_set (AuthLimiter.op_ip <$> auth_ops before_test) : gset string)) <= 10000 /\
  Z.of_nat (length before_test) < 2 ^ 64.
Proof. by vm_compute. Qed.


(** The one job of [whole] is within the quota. *)
Definition plain_env : environment := fun n =>
  if String.eqb n "TTS_REQUIRE_AUTH" then Some "true"%string
  else if String.eqb n "TTS_API_KEY" then Some "secret"%string
  else if String.eqb n "TTS_MODEL_PATH" then Some "/m"%string else None.

Lemma server_booted : booted plain_env "config/server.toml" server.
Proof.
  replace server with (booted_server (from_env plain_env).1 0) by by vm_compute.
  apply booted_from_env; by vm_compute.
Qed.

Lemma whole_span :
  Forall (fun c => RequestLimiter.c_now c < 8 /\ 8 <= RequestLimiter.c_now c + 60 * SEC)
    (check_calls whole.1).
Proof.
  assert (check_calls whole.1 = [RequestLimiter.mk_call 7 7 "10.0.0.1"]) as -> by by vm_compute.
  constructor; [by vm_compute|constructor].
Qed.

Lemma whole_parts : whole.1 = [] ++ whole.1 ++ [].
Proof. by rewrite app_nil_l, app_nil_r. Qed.

Lemma whole_submits : submissions (calls_of 0 whole.1) <> [].
Proof. by vm_compute. Qed.

Lemma whole_check : ECall 0 7 7 (Ev (CheckRequest "10.0.0.1") 0) ∈ whole.1.
Proof. apply (list_elem_of_lookup_2 _ 7). by vm_compute. Qed.

Lemma whole_length : Z.of_nat (length whole.1) < 2 ^ 64.
Proof. by vm_compute. Qed.

Lemma submission_rate_witness :
  Z.of_nat (length [0%nat]) <= 2 * request_rate_limit_rpm (config_ server).
Proof.
  refine (submission_rate "1.0" toy_it server plain_env "config/server.toml" whole.1 whole.2
    [] whole.1 [] "10.0.0.1" 8 [0%nat] server_booted whole_served whole_parts whole_span
    whole_length _ _).
  - apply NoDup_singleton.
  - constructor; [|constructor]. split; [exact whole_submits|].
    exists 7, 7, 0. exact whole_check.
Defined.
End AbuseWitness.
