(* ===== verification/Delivery.v ===== *)
(** * Every client gets the audio of its own request

    The speech handler of [RequestHandler], the routes of [HttpAdapter] and
    the histories of [Service] together: what a finished POST
    /v1/audio/speech answers, in terms of what the worker answered for the
    job that this very request submitted. *)

From Stdlib Require Import ZArith Lia Ascii String SpecFloat.
From stdpp Require Import base tactics numbers list strings gmap.
From S2P Require Import Prelude Effects Floats Auth RateLimit Voices Validation Metrics.
From S2P Require Import Backend Pool PoolSpec Config Http RequestHandler Uuid Server HttpAdapter.
From S2P Require Import Session Service Liveness Abuse.

#[local] Open Scope Z_scope.

(** ** Lemmas: responses *)

Lemma adapt_status s resp : SetStatus s ∈ adapt_response resp <-> s = status resp.
Proof.
  unfold adapt_response, header_ops. split.
  - intros [H|[H|H]%elem_of_app]%elem_of_app.
    + apply list_elem_of_singleton in H. injection H as ->. done.
    + by apply list_elem_of_fmap in H as (kv & [=] & _).
    + apply list_elem_of_singleton in H. by destruct (is_binary _).
  - intros ->. apply elem_of_app. left. by apply list_elem_of_singleton.
Qed.

Lemma adapted_status s id resp :
  SetStatus s ∈ adapt_response (apply_security_headers id resp) <-> s = status resp.
Proof. apply (adapt_status s (apply_security_headers id resp)). Qed.

(** How a POST /v1/audio/speech that answers [ops] got there. *)
Inductive speech_answer (deps : HandlerDeps) : sfoot -> list response_op -> Prop :=
| answer_refused f s ops :
    sf_outs f = [] -> Forall (fun jb => jb.2 = false) (sf_subs f) ->
    s <> 200 -> (sf_subs f <> [] -> s = 503) ->
    (forall s', SetStatus s' ∈ ops <-> s' = s) -> speech_answer deps f ops
| answer_audio f rq r id :
    valid_request deps rq -> sf_subs f = [(speech_job rq, true)] -> sf_outs f = [OSuccess r] ->
    speech_answer deps f (adapt_response (apply_security_headers id (audio_response r)))
| answer_failed f rq m id resp :
    valid_request deps rq -> sf_subs f = [(speech_job rq, true)] -> sf_outs f = [OError m] ->
    (m <> ""%string -> status resp = 500 /\ binary_body resp = []) ->
    speech_answer deps f (adapt_response (apply_security_headers id resp)).

(** The client is sent what the worker answered: 200 with exactly the audio,
    or a 500 without audio. *)
Definition delivered (n : notice) (ops : list response_op) : Prop :=
  match n with
  | NSuccess _ r => exists id, ops = adapt_response (apply_security_headers id (audio_response r))
  | NError _ _ => exists id resp, ops = adapt_response (apply_security_headers id resp) /\
      status resp = 500 /\ binary_body resp = []
  end.

Section Responses.
Context {L : JsonLib} {HL : JsonLaws L} (VERSION : string).

Lemma handler_answer req deps tr resp id :
  runs (handle_speech req deps) tr (Ok resp) ->
  speech_answer deps (sfoot_of tr) (adapt_response (apply_security_headers id resp)).
Proof.
  intros Hrun%handle_speech_post.
  assert (Herr : forall s ty code message param, Ok resp = make_error_response s ty code message param ->
    status resp = s /\ binary_body resp = []).
  { intros s ty code message param Hr.
    destruct (make_error_status s ty code message param) as [(resp' & Hr' & ? & ?)|[m Hr']];
      rewrite Hr' in Hr; [|done]. by injection Hr as ->. }
  assert (Hrefuse : forall f s, sf_outs f = [] -> Forall (fun jb => jb.2 = false) (sf_subs f) ->
    s <> 200 -> (sf_subs f <> [] -> s = 503) -> status resp = s ->
    speech_answer deps f (adapt_response (apply_security_headers id resp))).
  { intros f s Ho Hs Hne Hfull <-. apply (answer_refused deps f (status resp)); [done|done|done|done|].
    intros s'. apply adapted_status. }
  destruct Hrun as [(s & c & m & p & Hs & Hf & Hr)|[[_ (e & Hr & _)]|(rq & Hvalid & Hend)]]; [|done|].
  - apply Herr in Hr as [Hst _]. rewrite Hf. apply (Hrefuse _ s); [done|constructor| |done|done].
    by destruct Hs as [->| ->].
  - destruct Hend as [[Hf Hr]|[[Hf Hr]|[o Ho]]].
    + apply Herr in Hr as [Hst _]. rewrite Hf. by apply (Hrefuse _ 503).
    + apply Herr in Hr as [Hst _]. rewrite Hf. apply (Hrefuse _ 503); [done| |done|done|done].
      by repeat constructor.
    + destruct o as [r|m]; cbn [callback_cell fst snd] in Ho.
      * destruct Ho as [Hf Hr]. injection Hr as ->. rewrite Hf. by apply (answer_audio deps _ rq).
      * destruct (sempty m) eqn:Hm; destruct Ho as [Hf Hr]; rewrite Hf;
          apply (answer_failed deps _ rq m); try done.
        -- intros Hne. by destruct m.
        -- intros _. by apply Herr in Hr.
Qed.

Lemma speech_answer_ext deps f g ops :
  sf_subs g = sf_subs f -> sf_outs g = sf_outs f -> speech_answer deps f ops ->
  speech_answer deps g ops.
Proof.
  intros Hs Ho H. revert Hs Ho. destruct H as [f st ops|f rq r id|f rq m id resp]; intros Hs Ho.
  - apply (answer_refused _ _ st); by rewrite ?Hs, ?Ho.
  - apply (answer_audio _ _ rq); by rewrite ?Hs, ?Ho.
  - apply (answer_failed _ _ rq m); by rewrite ?Hs, ?Ho.
Qed.

(** A refusal of the middleware is a 429 or a 401. *)
Lemma refused_status s req tr resp : refused s req tr resp -> status resp <> 200.
Proof. intros [(-> & _)|[(n & _ & -> & _)|(-> & _)]]; done. Qed.

Lemma speech_route_answer s q tr ops :
  runs (route_speech s q) tr (Ok ops) -> speech_answer (make_deps s) (sfoot_of tr) ops.
Proof.
  intros Hrun. unfold route_speech in Hrun.
  apply runs_bind in Hrun as [(t1 & t2 & id & -> & (id' & _ & [= <-] & Hf1)%begin_request_post & H)
                             |(e & [=] & _)].
  unfold speech_body, slog in H. runs_skip H.
  apply runs_bind in H as [(t3 & t4 & o & -> & [Hf2 Hm]%run_middleware_post & H)|(e & [=] & _)].
  destruct o as [resp|].
  - destruct Hm as [_ Hm%refused_status]. apply respond_post in H as [Hf3 [= ->]].
    apply (answer_refused _ _ (status resp)); [| |done| |].
    + rewrite !sfoot_app, Hf1, Hf2, Hf3. done.
    + rewrite !sfoot_app, Hf1, Hf2, Hf3. constructor.
    + rewrite !sfoot_app, Hf1, Hf2, Hf3. done.
    + intros s'. apply adapted_status.
  - apply runs_bind in H as [(t5 & t6 & resp & -> & Hh & H)|(e & [=] & _)]. runs_skip H.
    apply respond_post in H as [Hf4 [= ->]]. apply (handler_answer _ _ _ _ id) in Hh.
    eapply speech_answer_ext; [| |exact Hh]; rewrite !sfoot_app, Hf1, Hf2, Hf4;
      cbn [sfoot_add sf_subs sf_outs sfoot_nil app]; by rewrite app_nil_r.
Qed.
End Responses.

(** ** Lemmas: histories *)

Section Histories.
Context {L : JsonLib} {HL : JsonLaws L} (VERSION : string).
Context (it : gmap string AuthLimiter.IpState -> list (string * AuthLimiter.IpState)).
Context (s : TtsServer).

#[local] Notation served := (served VERSION it s).

(** The worker only answers what the contract of the pool allows. *)
Lemma served_may_answer hist v job n :
  served hist v -> EAnswer job n ∈ hist -> may_answer job n = true.
Proof.
  intros Hs Hn. apply list_elem_of_split in Hn as (h1 & h2 & ->).
  destruct (served_split VERSION it s _ _ _ _ Hs) as (v1 & v2 & _ & Hstep).
  inversion Hstep as [| | |w j m a Hh Ha| |]; subst.
  by destruct (answer_pending _ _ _ _ _ Hh Ha) as (_ & _ & _ & ?).
Qed.

(** A finished request and the run behind it. *)
Lemma served_finished hist v i q ops :
  served hist v -> sv_threads v !! i = Some (q, Ret ops) ->
  exists p0, route VERSION s q = Some p0 /\ runs p0 (calls_of i hist) (Ok ops).
Proof.
  intros Hs Hi. pose proof (served_threads VERSION it s hist v i Hs) as H. rewrite Hi in H.
  destruct H as (p0 & Hr & Hst). exists p0. split; [done|]. by apply steps_ret.
Qed.

(** What a finished POST /v1/audio/speech handed to the pool, and was sent. *)
Lemma finished_speech hist v i q ops :
  served hist v -> sv_threads v !! i = Some (q, Ret ops) ->
  q_path q = "/v1/audio/speech"%string ->
  (Forall (fun jb => jb.2 = false) (submissions (calls_of i hist)) /\ SetStatus 200 ∉ ops) \/
  exists rq job n, valid_request (make_deps s) rq /\
    submissions (calls_of i hist) = [(speech_job rq, true)] /\
    EAnswer job n ∈ hist /\ owned i job /\ request job = rq /\ may_answer job n = true /\
    delivered n ops.
Proof.
  intros Hserved Hret Hpath.
  destruct (served_finished hist v i q ops Hserved Hret) as (p0 & Hr & Hrun).
  destruct (route_cases VERSION s q p0 Hr) as [[Hp _]|[[Hp _]|[[Hp _]|[[Hp _]|[_ ->]]]]];
    [congruence..|].
  pose proof (served_origin VERSION it s hist v Hserved) as Horg.
  assert (Hgot : forall o rq, outcomes (calls_of i hist) = [o] ->
    submissions (calls_of i hist) = [(speech_job rq, true)] ->
    exists job n, EAnswer job n ∈ hist /\ owned i job /\ request job = rq /\
      may_answer job n = true /\ o = (notice_cell n).2).
  { intros o rq Ho Hsub. destruct (org_results _ _ Horg i o) as (job & n & Hn & Hi & Hc & j0 & Hj & Hq).
    { rewrite Ho. by left. }
    rewrite Hsub in Hj. apply list_elem_of_singleton in Hj as [= ->].
    exists job, n. split_and!; [done|done|done|by eapply served_may_answer|by rewrite Hc]. }
  remember (sfoot_of (calls_of i hist)) as f eqn:Hf.
  apply speech_route_answer in Hrun. rewrite <- Hf in Hrun.
  destruct Hrun as [f st ops Ho Hsub Hne _ Hst|f rq r id Hv Hsub Ho|f rq m id resp Hv Hsub Ho He];
    rewrite Hf in Hsub, Ho; cbn [sfoot_of sf_subs sf_outs] in Hsub, Ho.
  - left. split; [exact Hsub|]. intros H. by apply Hne, eq_sym, Hst.
  - right. destruct (Hgot _ rq Ho Hsub) as (job & n & Hn & Hi & Hq & Hmay & Hr').
    exists rq, job, n. split_and!; [done..|]. destruct n as [cb e|cb r']; [done|].
    injection Hr' as ->. by exists id.
  - right. destruct (Hgot _ rq Ho Hsub) as (job & n & Hn & Hi & Hq & Hmay & Hr').
    exists rq, job, n. split_and!; [done..|]. destruct n as [cb e|cb r']; [|done].
    injection Hr' as ->. apply andb_true_iff in Hmay as [_ Hm].
    destruct He as [Hst Hb]; [by intros ->|]. by exists id, resp.
Qed.
End Histories.

(** ** Properties *)

Section DeliveryProperties.
Context {L : JsonLib} {HL : JsonLaws L} (VERSION : string).
Context (it : gmap string AuthLimiter.IpState -> list (string * AuthLimiter.IpState)).
Context (s : TtsServer).

#[local] Notation served := (served VERSION it s).

(** C1: delivery: when a POST /v1/audio/speech has returned, however many
    requests ran beside it, either it handed no job to the pool and did not
    answer 200, or it handed exactly one valid job to it, the worker answered a
    job with that very request, and the client was sent 200 with exactly the
    audio of that answer, or 500 when the answer was an error. *)
Theorem speech_delivered hist v i q ops
    (Hserved : served hist v) (Hret : sv_threads v !! i = Some (q, Ret ops))
    (Hpath : q_path q = "/v1/audio/speech"%string) :
  (Forall (fun jb => jb.2 = false) (submissions (calls_of i hist)) /\ SetStatus 200 ∉ ops) \/
  exists rq job n, valid_request (make_deps s) rq /\
    submissions (calls_of i hist) = [(speech_job rq, true)] /\
    EAnswer job n ∈ hist /\ owned i job /\ request job = rq /\
    delivered n ops.
Proof.
  destruct (finished_speech VERSION it s hist v i q ops Hserved Hret Hpath)
    as [H|(rq & job & n & Hv & Hsub & Hn & Hi & Hq & _ & Hd)]; [by left|right].
  by exists rq, job, n.
Qed.
End DeliveryProperties.

Module DeliveryWitness.
Import HandlerWitness AdapterWitness LivenessWitness.

Definition whole_ops : list response_op :=
  match sv_threads whole.2 !! 0%nat with Some (_, Ret ops) => ops | _ => [] end.

Lemma whole_returned : sv_threads whole.2 !! 0%nat = Some (post "secret", Ret whole_ops).
Proof. by vm_compute. Qed.

Lemma whole_ok : SetStatus 200 ∈ whole_ops.
Proof. apply (list_elem_of_lookup_2 _ 0). by vm_compute. Qed.

Lemma speech_delivered_witness :
  SetStatus 200 ∈ whole_ops /\
  ((Forall (fun jb => jb.2 = false) (submissions (calls_of 0 whole.1)) /\
    SetStatus 200 ∉ whole_ops) \/
   exists rq job n, valid_request (make_deps server) rq /\
     submissions (calls_of 0 whole.1) = [(speech_job rq, true)] /\
     EAnswer job n ∈ whole.1 /\ owned 0 job /\ request job = rq /\
     delivered n whole_ops).
Proof.
  split; [exact whole_ok|].
  exact (speech_delivered "1.0" toy_it server whole.1 whole.2 0 (post "secret") whole_ops
    whole_served whole_returned eq_refl).
Defined.
End DeliveryWitness.
