(* ===== verification/Logger.v ===== *)
(** * Logging

    [src/logging/logger.cpp]: the thread-local request id, the level names,
    the JSON formatter with its ISO 8601 timestamps, and [initialize()].

    spdlog is outside the repository: its level names are a parameter, its
    setters are recorded calls.  [gmtime_r] of the C library is modelled as
    the proleptic Gregorian calendar. *)

From Stdlib Require Import ZArith Lia Ascii String.
From stdpp Require Import base tactics numbers list strings pretty.
From S2P Require Import Prelude Effects Config Metrics Backend Pool Http.

#[local] Open Scope Z_scope.

(** ** Request id *)

(** The thread's [t_request_id]. *)
Definition thread_state := string.

Definition set_request_id (id : string) (_ : thread_state) : thread_state := id.
Definition get_request_id (t : thread_state) : string := t.

(** ** Levels *)

Definition parse_log_level (level : string) : log_level :=
  if String.eqb level "trace" then Effects.trace
  else if String.eqb level "debug" then debug
  else if String.eqb level "info" then info
  else if String.eqb level "warn" then warn
  else if String.eqb level "error" then err
  else if String.eqb level "critical" then critical
  else info.

(** ** Calendar *)

Record tm := mk_tm {
  tm_year : Z;
  tm_mon : Z;
  tm_mday : Z;
  tm_hour : Z;
  tm_min : Z;
  tm_sec : Z;
}.

(** Year, month (1 to 12) and day of a day count from 1970-01-01, by eras of
    400 years that start on 1 March. *)
Definition civil_of_era_day (doe : Z) : Z * Z * Z :=
  let yoe := (doe - doe / 1460 + doe / 36524 - doe / 146096) / 365 in
  let doy := doe - (365 * yoe + yoe / 4 - yoe / 100) in
  let mp := (5 * doy + 2) / 153 in
  let d := doy - (153 * mp + 2) / 5 + 1 in
  let m := if mp <? 10 then mp + 3 else mp - 9 in
  (yoe + (if m <=? 2 then 1 else 0), m, d).

Definition civil_of_days (days : Z) : Z * Z * Z :=
  let z := days + 719468 in
  let '(y, m, d) := civil_of_era_day (z mod 146097) in
  (y + 400 * (z / 146097), m, d).

Definition safe_gmtime (time : Z) : tm :=
  let '(y, m, d) := civil_of_days (time / 86400) in
  let s := time mod 86400 in
  mk_tm (y - 1900) (m - 1) d (s / 3600) (s mod 3600 / 60) (s mod 60).

(** ** Timestamps *)

Fixpoint pad_zeros (n : nat) : string :=
  match n with O => "" | S n' => String "0" (pad_zeros n') end.

(** [%0nd]: the sign counts as a column. *)
Definition printf_0d (width : nat) (z : Z) : string :=
  let digits := to_string (Z.abs z) in
  if z <? 0 then "-" +:+ pad_zeros (width - 1 - String.length digits) +:+ digits
  else pad_zeros (width - String.length digits) +:+ digits.

(** [tp] in nanoseconds since the epoch; [duration_cast] truncates. *)
Definition format_timestamp (tp : Z) : string :=
  let millis := Z.quot tp 1000000 in
  let secs := Z.quot millis 1000 in
  let ms := millis - secs * 1000 in
  let gmt := safe_gmtime secs in
  printf_0d 4 (tm_year gmt + 1900) +:+ "-" +:+ printf_0d 2 (tm_mon gmt + 1) +:+ "-" +:+
  printf_0d 2 (tm_mday gmt) +:+ "T" +:+ printf_0d 2 (tm_hour gmt) +:+ ":" +:+
  printf_0d 2 (tm_min gmt) +:+ ":" +:+ printf_0d 2 (tm_sec gmt) +:+ "." +:+
  printf_0d 3 ms +:+ "Z".

(** ** The JSON formatter *)

Record log_msg := mk_msg {
  msg_time : Z;
  msg_level : log_level;
  msg_logger_name : string;
  msg_payload : string;
}.

(** [level_name] is [spdlog::level::to_string_view]. *)
Definition log_json {L : JsonLib} (level_name : log_level -> string) (t : thread_state)
    (msg : log_msg) : json :=
  jobject (
    [("timestamp", jstr (format_timestamp (msg_time msg)));
     ("level", jstr (level_name (msg_level msg)));
     ("component", jstr (if 0 <? slen (msg_logger_name msg) then msg_logger_name msg else "server"));
     ("message", jstr (msg_payload msg))] ++
    (if negb (sempty t) then [("request_id", jstr t)] else [])).

Definition json_format {L : JsonLib} (level_name : log_level -> string) (t : thread_state)
    (msg : log_msg) : res string :=
  str ← dump (log_json level_name t msg);
  Ok (str +:+ String (ascii_of_nat 10) "").

(** ** Initialisation *)

Inductive spdlog_call :=
| SetLevel (l : log_level)
| SetJsonFormatter
| SetPattern (p : string).

Definition logging_initialize (cfg : ServerConfig) : list spdlog_call :=
  [SetLevel (parse_log_level (cfg_log_level cfg));
   if String.eqb (cfg_log_format cfg) "json" then SetJsonFormatter else SetPattern "%+"].

(** ** Lemmas: the calendar *)

(** The inverse: the day count of a date. *)
Definition days_of_civil (date : Z * Z * Z) : Z :=
  let '(y, m, d) := date in
  let y := if m <=? 2 then y - 1 else y in
  let mp := if 2 <? m then m - 3 else m + 9 in
  let doy := (153 * mp + 2) / 5 + d - 1 in
  let yoe := y mod 400 in
  146097 * (y / 400) + 365 * yoe + yoe / 4 - yoe / 100 + doy - 719468.

(** Year and day of the year inside an era. *)
Lemma era_year doe : 0 <= doe < 146097 ->
  let yoe := (doe - doe / 1460 + doe / 36524 - doe / 146096) / 365 in
  0 <= yoe <= 399 /\ 0 <= doe - (365 * yoe + yoe / 4 - yoe / 100) <= 365.
Proof.
  intros H. cbv zeta. split; [|split]; Z.div_mod_to_equations; lia.
Qed.

(** Month and day of a day of the year. *)
Lemma year_day doy : 0 <= doy <= 365 ->
  let mp := (5 * doy + 2) / 153 in
  let d := doy - (153 * mp + 2) / 5 + 1 in
  0 <= mp <= 11 /\ 1 <= d <= 31.
Proof. intros H. cbv zeta. split; split; Z.div_mod_to_equations; lia. Qed.

Lemma civil_of_era_day_correct doe e : 0 <= doe < 146097 ->
  let '(y, m, d) := civil_of_era_day doe in
  days_of_civil (y + 400 * e, m, d) = 146097 * e + doe - 719468 /\
  1 <= m <= 12 /\ 1 <= d <= 31 /\ 0 <= y <= 400 /\ (doe <= 146036 -> y <= 399).
Proof.
  intros H. unfold civil_of_era_day.
  set (yoe := (doe - doe / 1460 + doe / 36524 - doe / 146096) / 365).
  destruct (era_year doe H) as [Hy Hd]. fold yoe in Hy, Hd.
  set (doy := doe - (365 * yoe + yoe / 4 - yoe / 100)) in *.
  destruct (year_day doy Hd) as [Hm Hday].
  set (mp := (5 * doy + 2) / 153) in *.
  assert (Hlast : doe <= 146036 -> yoe = 399 -> mp < 10).
  { intros Hdoe Hyoe. unfold mp, doy. rewrite Hyoe. Z.div_mod_to_equations. lia. }
  cbn [days_of_civil]. destruct (Z.ltb_spec mp 10) as [Hmp|Hmp].
  - replace (mp + 3 <=? 2) with false by (symmetry; apply Z.leb_gt; lia).
    cbn [days_of_civil].
    replace (mp + 3 <=? 2) with false by (symmetry; apply Z.leb_gt; lia).
    replace (2 <? mp + 3) with true by (symmetry; apply Z.ltb_lt; lia).
    replace ((yoe + 0 + 400 * e) / 400) with e by (Z.div_mod_to_equations; lia).
    replace ((yoe + 0 + 400 * e) mod 400) with yoe by (Z.div_mod_to_equations; lia).
    replace (mp + 3 - 3) with mp by lia. unfold doy. split_and!; lia.
  - replace (mp - 9 <=? 2) with true by (symmetry; apply Z.leb_le; lia).
    cbn [days_of_civil].
    replace (mp - 9 <=? 2) with true by (symmetry; apply Z.leb_le; lia).
    replace (2 <? mp - 9) with false by (symmetry; apply Z.ltb_ge; lia).
    replace ((yoe + 1 + 400 * e - 1) / 400) with e by (Z.div_mod_to_equations; lia).
    replace ((yoe + 1 + 400 * e - 1) mod 400) with yoe by (Z.div_mod_to_equations; lia).
    replace (mp - 9 + 9) with mp by lia. unfold doy. split_and!; try lia.
Qed.

Lemma civil_of_days_correct n :
  let '(y, m, d) := civil_of_days n in
  days_of_civil (y, m, d) = n /\ 1 <= m <= 12 /\ 1 <= d <= 31 /\
  (0 <= n < 2932897 -> 0 <= y <= 9999).
Proof.
  unfold civil_of_days. set (z := n + 719468).
  pose proof (Z.mod_pos_bound z 146097 ltac:(lia)) as Hr.
  pose proof (civil_of_era_day_correct (z mod 146097) (z / 146097) Hr) as H.
  destruct (civil_of_era_day (z mod 146097)) as [[y m] d]. destruct H as (H & Hm & Hd & Hy & Hlast).
  pose proof (Z.div_mod z 146097 ltac:(lia)) as Hz.
  split; [rewrite H; unfold z in *; lia|]. split; [done|]. split; [done|].
  intros Hn. unfold z in *. lia.
Qed.

(** ** Lemmas: fixed-width decimals *)

Lemma to_string_N (x : N) : to_string (Z.of_N x) = pretty x.
Proof. by destruct x. Qed.

Lemma pretty_go_length w x s :
  (x < 10 ^ N.of_nat w)%N -> (String.length (pretty_N_go x s) <= w + String.length s)%nat.
Proof.
  revert x s. induction w as [|w IH]; intros x s Hx.
  - replace x with 0%N by (change (10 ^ N.of_nat 0)%N with 1%N in Hx; lia).
    by rewrite pretty_N_go_0.
  - destruct (decide (x = 0%N)) as [->|Hne]; [rewrite pretty_N_go_0; lia|].
    rewrite pretty_N_go_step by lia.
    assert (x / 10 < 10 ^ N.of_nat w)%N as Hx'.
    { apply N.Div0.div_lt_upper_bound. by rewrite Nat2N.inj_succ, N.pow_succ_r' in Hx. }
    specialize (IH (x / 10)%N (String (pretty_N_char (x mod 10)) s) Hx'). simpl in IH. lia.
Qed.

Lemma pretty_length w (x : N) :
  (x < 10 ^ N.of_nat (S w))%N -> (String.length (pretty x) <= S w)%nat.
Proof.
  intros Hx. unfold pretty, pretty_N. case_decide as H0; [simpl; lia|].
  pose proof (pretty_go_length (S w) x "" Hx) as H. simpl in H. lia.
Qed.

Lemma dec_value_zeros n s : dec_value 0 (pad_zeros n +:+ s) = dec_value 0 s.
Proof. induction n as [|n IH]; [done|]. exact IH. Qed.

Lemma pad_zeros_length n : String.length (pad_zeros n) = n.
Proof. induction n as [|n IH]; [done|]. simpl. by rewrite IH. Qed.

(** A number that fits is printed on exactly [width] digits that read back. *)
Lemma printf_0d_spec w z :
  0 <= z < 10 ^ Z.of_nat (S w) ->
  String.length (printf_0d (S w) z) = S w /\ dec_value 0 (printf_0d (S w) z) = z.
Proof.
  intros Hz. unfold printf_0d. destruct (Z.ltb_spec z 0); [lia|].
  rewrite Z.abs_eq by lia. replace z with (Z.of_N (Z.to_N z)) by lia. rewrite to_string_N.
  set (x := Z.to_N z).
  assert (Hl : (String.length (pretty x) <= S w)%nat).
  { apply pretty_length. apply N2Z.inj_lt. unfold x. rewrite Z2N.id, N2Z.inj_pow by lia.
    rewrite nat_N_Z. apply Hz. }
  split.
  - rewrite slength_app, pad_zeros_length. lia.
  - rewrite dec_value_zeros. unfold pretty, pretty_N. case_decide as H0; [by rewrite H0|].
    by destruct (pretty_go_digits x "") as [_ ->].
Qed.

(** Spells out a string of known length. *)
Ltac spell s :=
  let rec go t :=
    lazymatch goal with
    | H : String.length t = S _ |- _ =>
        let c := fresh "c" in let t' := fresh "t" in
        destruct t as [|c t']; [discriminate H|]; injection H as H; go t'
    | H : String.length t = O |- _ => destruct t; [clear H|discriminate H]
    end in go s.

(** ** Properties *)

Definition substring_at (off n : nat) (s : string) : string := stake n (sdrop off s).

(** Milliseconds since the epoch of an ISO 8601 timestamp. *)
Definition parse_timestamp (s : string) : Z :=
  let f off n := dec_value 0 (substring_at off n s) in
  let secs := 86400 * days_of_civil (f 0 4, f 5 2, f 8 2)%nat + 3600 * f 11%nat 2%nat +
              60 * f 14%nat 2%nat + f 17%nat 2%nat in
  1000 * secs + f 20%nat 3%nat.

Lemma parse_fields a b c d e f g :
  String.length a = 4%nat -> String.length b = 2%nat -> String.length c = 2%nat ->
  String.length d = 2%nat -> String.length e = 2%nat -> String.length f = 2%nat ->
  String.length g = 3%nat ->
  parse_timestamp (a +:+ "-" +:+ b +:+ "-" +:+ c +:+ "T" +:+ d +:+ ":" +:+ e +:+ ":" +:+ f +:+
                   "." +:+ g +:+ "Z") =
  1000 * (86400 * days_of_civil (dec_value 0 a, dec_value 0 b, dec_value 0 c) +
          3600 * dec_value 0 d + 60 * dec_value 0 e + dec_value 0 f) + dec_value 0 g.
Proof.
  intros Ha Hb Hc Hd He Hf Hg. spell a. spell b. spell c. spell d. spell e. spell f. spell g.
  reflexivity.
Qed.

(** C40: round trip: the timestamp of a log line of the years 1970 to 9999 has
    24 characters and reads back as the time of the message, in
    milliseconds. *)
Theorem timestamp_roundtrip tp (Htp : 0 <= tp < 253402300800 * SEC) :
  parse_timestamp (format_timestamp tp) = tp / 1000000 /\
  String.length (format_timestamp tp) = 24%nat.
Proof.
  unfold format_timestamp, SEC in *. rewrite (Z.quot_div_nonneg tp) by lia.
  set (millis := tp / 1000000).
  assert (Hmillis : 0 <= millis < 253402300800 * 1000).
  { unfold millis. Z.div_mod_to_equations. lia. }
  rewrite (Z.quot_div_nonneg millis) by lia. set (secs := millis / 1000).
  assert (Hsecs : 0 <= secs < 253402300800) by (unfold secs; Z.div_mod_to_equations; lia).
  assert (Hms : 0 <= millis - secs * 1000 < 1000) by (unfold secs; Z.div_mod_to_equations; lia).
  unfold safe_gmtime. pose proof (civil_of_days_correct (secs / 86400)) as Hciv.
  destruct (civil_of_days (secs / 86400)) as [[y m] d].
  destruct Hciv as (Hdays & Hm & Hd & Hy).
  specialize (Hy ltac:(Z.div_mod_to_equations; lia)).
  cbn [tm_year tm_mon tm_mday tm_hour tm_min tm_sec].
  replace (y - 1900 + 1900) with y by lia. replace (m - 1 + 1) with m by lia.
  destruct (printf_0d_spec 3 y ltac:(simpl; lia)) as [Ly Vy].
  destruct (printf_0d_spec 1 m ltac:(simpl; lia)) as [Lm Vm].
  destruct (printf_0d_spec 1 d ltac:(simpl; lia)) as [Ld Vd].
  destruct (printf_0d_spec 1 (secs mod 86400 / 3600)
    ltac:(simpl; Z.div_mod_to_equations; lia)) as [Lh Vh].
  destruct (printf_0d_spec 1 (secs mod 86400 mod 3600 / 60)
    ltac:(simpl; Z.div_mod_to_equations; lia)) as [Li Vi].
  destruct (printf_0d_spec 1 (secs mod 86400 mod 60)
    ltac:(simpl; Z.div_mod_to_equations; lia)) as [Ls Vs].
  destruct (printf_0d_spec 2 (millis - secs * 1000) ltac:(simpl; lia)) as [Lf Vf].
  split.
  - rewrite parse_fields by done. rewrite Vy, Vm, Vd, Vh, Vi, Vs, Vf, Hdays.
    unfold secs. Z.div_mod_to_equations. lia.
  - rewrite !slength_app, Ly, Lm, Ld, Lh, Li, Ls, Lf. done.
Qed.

Lemma timestamp_roundtrip_witness :
  format_timestamp 1775007000123456789 = "2026-04-01T01:30:00.123Z"%string /\
  parse_timestamp (format_timestamp 1775007000123456789) = 1775007000123.
Proof.
  split; [by vm_compute|].
  apply (timestamp_roundtrip 1775007000123456789). unfold SEC. lia.
Defined.

(** The levels of a valid configuration are told apart; their names are those
    of [Config.log_levels]. *)
Lemma parse_log_level_inj s1 s2 :
  s1 ∈ log_levels -> s2 ∈ log_levels -> parse_log_level s1 = parse_log_level s2 -> s1 = s2.
Proof.
  unfold log_levels. intros H1 H2.
  repeat (apply elem_of_cons in H1 as [->|H1]); try (by apply elem_of_nil in H1);
    repeat (apply elem_of_cons in H2 as [->|H2]); try (by apply elem_of_nil in H2);
    by vm_compute.
Qed.
