(* ===== verification/Main.v ===== *)
(** * The process

    [src/main.cpp]: the command line, the start-up sequence (configuration,
    logging, backend, server, listener), the graceful shutdown, and the signal
    handler.

    The effects of [main] are those of its parts: the configuration loader
    ([configE]), the backend ([engineE]), the server and the listener
    ([sysE]), and the process itself ([procE]).  Requests are served inside
    the call [HttpListen]; their programs are in [HttpAdapter]. *)

From Stdlib Require Import ZArith Lia Ascii String SpecFloat.
From stdpp Require Import base tactics numbers list strings gmap.
From S2P Require Import Prelude Effects Floats Voices Backend Pool Config Metrics Http.
From S2P Require Import RateLimit Server HttpAdapter Logger.

#[local] Open Scope Z_scope.

(** ** Effects *)

Variant procE : Type -> Type :=
| Stdout (s : string) : procE unit
| Stderr (s : string) : procE unit
| Spdlog (c : spdlog_call) : procE unit
| MLog (l : log_record) : procE unit
| Sigaction (signum : Z) : procE unit
| SetAdapter (on : bool) : procE unit.

Variant mainE (X : Type) : Type :=
| MConfig (e : configE X)
| MEngine (e : engineE X)
| MSys (e : sysE X)
| MProc (e : procE X).
Arguments MConfig {X}.
Arguments MEngine {X}.
Arguments MSys {X}.
Arguments MProc {X}.

Definition proc {X} (e : procE X) : prog mainE X := trigger (MProc e).
Definition mlog (lvl : log_level) (fmt : string) (args : list log_arg) : prog mainE unit :=
  proc (MLog (mk_log lvl fmt args)).

(** The server's view of the backend is [main]'s backend. *)
Definition sys_call (ready : bool) X (e : sysE X) : prog mainE X :=
  match e in sysE X return prog mainE X with
  | BackendIsReady => mret ready
  | e => trigger (MSys e)
  end.
Definition sys (ready : bool) {A} (p : prog sysE A) : prog mainE A := interp (sys_call ready) p.

(** ** Command line *)

Inductive cli :=
| CliVersion
| CliHelp
| CliMissingPath
| CliRun (config_path : string).

(** The loop over [argv[1..]]; other arguments are skipped. *)
Fixpoint parse_args (args : list string) (config_path : string) : cli :=
  match args with
  | [] => CliRun config_path
  | arg :: rest =>
      if String.eqb arg "--version" then CliVersion
      else if String.eqb arg "--help" then CliHelp
      else if String.eqb arg "--config" then
        match rest with
        | [] => CliMissingPath
        | path :: rest' => parse_args rest' path
        end
      else parse_args rest config_path
  end.

Definition newline : string := String (ascii_of_nat 10) "".

Definition print_usage (program : string) : prog mainE unit :=
  proc (Stdout ("Usage: " +:+ program +:+ " [OPTIONS]" +:+ newline +:+
    newline +:+ "Options:" +:+ newline +:+
    "  --config <path>   Path to TOML config file (default: config/server.toml)" +:+ newline +:+
    "  --version         Print version and exit" +:+ newline +:+
    "  --help            Print this help and exit" +:+ newline +:+
    newline +:+ "Environment variables (TTS_* prefix) override config file values." +:+ newline +:+
    "See config/server.toml for all available options." +:+ newline)).

Definition SIGINT : Z := 2.
Definition SIGTERM : Z := 15.

Section Main.
(** [tts::VERSION]; whether the engine is compiled in, and its sample rate. *)
Context (VERSION : string) (has_engine : bool) (TTS_SAMPLE_RATE : Z).

#[local] Instance main_backend : ITtsBackend Voxtral.VoxtralBackend :=
  Voxtral.voxtral_backend has_engine TTS_SAMPLE_RATE.

(** ** Start-up *)

Fixpoint spdlog_calls (cs : list spdlog_call) : prog mainE unit :=
  match cs with
  | [] => mret tt
  | c :: cs' => _ ← proc (Spdlog c); spdlog_calls cs'
  end.

(** The security lines; [false] when the key is missing. *)
Definition log_auth_status (cfg : ServerConfig) : prog mainE bool :=
  if require_auth cfg then
    if sempty (api_key cfg) then
      _ ← mlog err "TTS_REQUIRE_AUTH=true but TTS_API_KEY is empty — aborting" [];
      mret false
    else
      _ ← mlog info "API key authentication enabled (key=[REDACTED])" [];
      _ ← mlog info "Auth rate limit: {} attempts per {}s window"
            [AInt (auth_rate_limit_max cfg); AInt (auth_rate_limit_window cfg)];
      mret true
  else
    _ ← mlog warn "Authentication disabled (TTS_REQUIRE_AUTH=false)" [];
    mret true.

Definition backend_destroy (backend : Voxtral.VoxtralBackend) : prog mainE unit :=
  translate (@MEngine) (Voxtral.voxtral_destroy has_engine backend).

(** The listener and the shutdown; the adapter is destroyed first. *)
Definition serve (cfg : ServerConfig) (backend : Voxtral.VoxtralBackend) (tts_server : TtsServer)
    : prog mainE Z :=
  let ready := is_ready backend in
  _ ← proc (Sigaction SIGTERM);
  _ ← proc (Sigaction SIGINT);
  _ ← sys ready adapter_new;
  _ ← proc (SetAdapter true);
  _ ← mlog info "Starting HTTP listener on {}:{}..." [AStr (host cfg); AInt (port cfg)];
  listen_ok ← sys ready (adapter_start tts_server);
  _ ← proc (SetAdapter false);
  _ ← mlog info "Shutting down TTS server..." [];
  tts_server ← sys ready (server_shutdown tts_server);
  _ ← mlog info "voxtral-server stopped." [];
  _ ← sys ready (adapter_destroy false);
  _ ← sys ready (server_destroy tts_server);
  _ ← backend_destroy backend;
  mret (if listen_ok : bool then 0 else 1).

(** The server object, from its construction to its destruction. *)
Definition start_server (cfg : ServerConfig) (backend : Voxtral.VoxtralBackend) : prog mainE Z :=
  let ready := is_ready backend in
  tts_server ← sys ready (server_new cfg true (Some voice_catalog));
  init ← sys ready (server_initialize tts_server);
  if negb init.1 then
    _ ← mlog err "Failed to initialize TTS server" [];
    _ ← sys ready (server_destroy init.2);
    _ ← backend_destroy backend;
    mret 1
  else serve cfg backend init.2.

(** From the backend on. *)
Definition start_backend (cfg : ServerConfig) : prog mainE Z :=
  init ← translate (@MEngine)
           (initialize Voxtral.voxtral_new (model_path cfg));
  if negb init.1 then
    _ ← mlog err "Failed to initialize TTS backend (model_path={})" [AStr (model_path cfg)];
    _ ← backend_destroy init.2;
    mret 1
  else
    _ ← mlog info "TTS backend initialized: {}" [AStr (model_name init.2)];
    _ ← mlog info "Voice catalog loaded: {} voices" [AInt (Z.of_nat (length (all voice_catalog)))];
    start_server cfg init.2.

(** From a configuration on; [validate] throws [std::invalid_argument] only. *)
Definition start_with (cfg : ServerConfig) : prog mainE Z :=
  _ ← spdlog_calls (logging_initialize cfg);
  _ ← mlog info "voxtral-server v{} starting..." [AStr VERSION];
  _ ← mlog debug "Debug logging enabled (log_level={})" [AStr (cfg_log_level cfg)];
  match validate cfg with
  | Exn (InvalidArgument w) =>
      _ ← mlog err "Configuration error: {}" [AStr w];
      mret 1
  | Exn e => Throw e
  | Ok _ =>
      ok ← log_auth_status cfg;
      if negb ok then mret 1
      else
        _ ← mlog info "Config: host={} port={} workers={} max_connections={} max_input_chars={}"
              [AStr (host cfg); AInt (port cfg); AInt (workers cfg); AInt (max_connections cfg);
               AInt (max_input_chars cfg)];
        _ ← mlog info "Rate limit: {} requests/min" [AInt (request_rate_limit_rpm cfg)];
        start_backend cfg
  end.

Definition main (env : environment) (program : string) (args : list string) : prog mainE Z :=
  let config_path := default "config/server.toml" (env "TTS_CONFIG_PATH") in
  match parse_args args config_path with
  | CliVersion =>
      _ ← proc (Stdout ("voxtral-server v" +:+ VERSION +:+ newline));
      mret 0
  | CliHelp =>
      _ ← print_usage program;
      mret 0
  | CliMissingPath =>
      _ ← proc (Stderr ("Error: --config requires a path argument" +:+ newline));
      mret 1
  | CliRun path =>
      cfg ← translate (@MConfig) (from_file_and_env env path);
      start_with cfg
  end.
End Main.

(** ** Signals *)

(** [g_shutdown_requested]; [g_adapter], null or an adapter with its
    [running_]. *)
Record signal_state := mk_signals {
  g_shutdown_requested : bool;
  g_adapter : option bool;
}.

Definition signals_init : signal_state := mk_signals false None.

(** [exchange] is one atomic step, so a second signal sees the flag. *)
Definition signal_handler (signum : Z) (st : signal_state) : prog mainE signal_state :=
  let st' := mk_signals true (g_adapter st) in
  if g_shutdown_requested st then mret st'
  else
    _ ← proc (Stdout (newline +:+
          (if signum =? SIGTERM then "Received SIGTERM, shutting down..."
           else "Received SIGINT, shutting down...") +:+ newline));
    _ ← match g_adapter st with
        | Some running => translate (@MSys) (adapter_stop running)
        | None => mret tt
        end;
    mret st'.

(** The points of [main] and of [start()] that the handler can see, and the
    signals between them. *)
Inductive process_event :=
| AdapterSet
| ListenBegin
| ListenEnd
| AdapterCleared
| Signal (signum : Z).

Definition process_step (e : process_event) (st : signal_state) : prog mainE signal_state :=
  match e with
  | AdapterSet => mret (mk_signals (g_shutdown_requested st) (Some false))
  | ListenBegin => mret (mk_signals (g_shutdown_requested st) (Some true))
  | ListenEnd => mret (mk_signals (g_shutdown_requested st) (Some false))
  | AdapterCleared => mret (mk_signals (g_shutdown_requested st) None)
  | Signal signum => signal_handler signum st
  end.

Fixpoint process_steps (es : list process_event) (st : signal_state) : prog mainE signal_state :=
  match es with
  | [] => mret st
  | e :: es' => st ← process_step e st; process_steps es' st
  end.

(** ** Observations *)

(** The calls of a run that change the process, in order. *)
Inductive milestone :=
| EngineLoaded (ctx : Z)
| EngineReleased (ctx : Z)
| HandlerInstalled (signum : Z)
| AdapterPublished (on : bool)
| Listened (host : string) (port : Z) (ok : bool)
| ListenerStopped
| PoolStopped.

Definition milestone_of {X} (e : mainE X) : X -> option milestone :=
  match e with
  | MEngine e =>
      match e in engineE X return X -> option milestone with
      | TtsLoad _ => fun ctx => EngineLoaded <$> ctx
      | TtsFree ctx => fun _ => Some (EngineReleased ctx)
      | _ => fun _ => None
      end
  | MSys e =>
      match e in sysE X return X -> option milestone with
      | HttpListen host port => fun ok => Some (Listened host port ok)
      | HttpStop => fun _ => Some ListenerStopped
      | PoolShutdown => fun _ => Some PoolStopped
      | _ => fun _ => None
      end
  | MProc e =>
      match e in procE X return X -> option milestone with
      | Sigaction signum => fun _ => Some (HandlerInstalled signum)
      | SetAdapter on => fun _ => Some (AdapterPublished on)
      | _ => fun _ => None
      end
  | MConfig _ => fun _ => None
  end.

Definition config_event {X} (e : mainE X) : X -> option (event configE) :=
  match e with MConfig e => fun x => Some (Ev e x) | _ => fun _ => None end.
Definition engine_event {X} (e : mainE X) : X -> option (event engineE) :=
  match e with MEngine e => fun x => Some (Ev e x) | _ => fun _ => None end.

Definition milestones (tr : list (event mainE)) : list milestone := observe (@milestone_of) tr.
Definition config_part (tr : list (event mainE)) : list (event configE) :=
  observe (@config_event) tr.
Definition engine_part (tr : list (event mainE)) : list (event engineE) :=
  observe (@engine_event) tr.

(** The three together. *)
Definition mfoot (tr : list (event mainE))
    : list (event configE) * list (event engineE) * list milestone :=
  (config_part tr, engine_part tr, milestones tr).

(** ** Lemmas *)

Section MainLemmas.
Context (VERSION : string) (has_engine : bool) (TTS_SAMPLE_RATE : Z).

#[local] Notation start_with := (start_with VERSION has_engine TTS_SAMPLE_RATE).
#[local] Notation start_backend := (start_backend has_engine TTS_SAMPLE_RATE).
#[local] Notation start_server := (start_server has_engine TTS_SAMPLE_RATE).
#[local] Notation serve := (serve has_engine TTS_SAMPLE_RATE).
#[local] Notation backend_initialize :=
  (Voxtral.voxtral_initialize has_engine Voxtral.voxtral_new).

Lemma mfoot_app t1 t2 :
  mfoot (t1 ++ t2) =
  (config_part t1 ++ config_part t2, engine_part t1 ++ engine_part t2,
   milestones t1 ++ milestones t2).
Proof. unfold mfoot, config_part, engine_part, milestones. by rewrite !observe_app. Qed.

Definition renamed {E F} (f : forall X, E X -> F X) (tr : list (event E)) : list (event F) :=
  (fun ev => match ev with Ev e x => Ev (f _ e) x end) <$> tr.

Lemma config_foot tr : mfoot (renamed (@MConfig) tr) = (tr, [], []).
Proof.
  induction tr as [|[X e x] tr IH]; [done|]. cbn. injection IH as H1 H2 H3.
  unfold mfoot. f_equal; [f_equal|]; cbn; [by f_equal|exact H2|exact H3].
Qed.

Lemma engine_foot tr :
  config_part (renamed (@MEngine) tr) = [] /\ engine_part (renamed (@MEngine) tr) = tr.
Proof.
  induction tr as [|[X e x] tr [IH1 IH2]]; [done|]. split; cbn; [exact IH1|].
  f_equal. exact IH2.
Qed.

Lemma engine_loads tr :
  released tr = [] -> milestones (renamed (@MEngine) tr) = EngineLoaded <$> loaded tr.
Proof.
  induction tr as [|[X e x] tr IH]; [done|]. destruct e; try exact IH.
  - destruct x as [c|]; [|exact IH]. intros H. cbn. f_equal. exact (IH H).
  - done.
Qed.

Lemma engine_releases tr :
  loaded tr = [] -> milestones (renamed (@MEngine) tr) = EngineReleased <$> released tr.
Proof.
  induction tr as [|[X e x] tr IH]; [done|]. destruct e; try exact IH.
  - destruct x as [c|]; [done|exact IH].
  - intros H. cbn. f_equal. exact (IH H).
Qed.

Lemma backend_destroy_post b :
  has_post (backend_destroy has_engine b) (fun tr r => r = Ok tt /\
    config_part tr = [] /\
    milestones tr = EngineReleased <$> if has_engine then option_list (Voxtral.ctx_ b) else []).
Proof.
  intros tr r H. unfold backend_destroy in H. apply runs_translate in H as (tr0 & H & ->).
  apply voxtral_destroy_contexts in H as (-> & Hl & Hr). fold (renamed (@MEngine) tr0).
  split; [done|]. split; [apply engine_foot|]. by rewrite engine_releases, Hr.
Qed.

(** Between the signal handlers and the end of the server. *)
Definition served (cfg : ServerConfig) (ok : bool) : list milestone :=
  [HandlerInstalled SIGTERM; HandlerInstalled SIGINT; AdapterPublished true;
   Listened (host cfg) (port cfg) ok; AdapterPublished false; PoolStopped; PoolStopped].

Lemma parts_app t1 t2 :
  config_part (t1 ++ t2) = config_part t1 ++ config_part t2 /\
  milestones (t1 ++ t2) = milestones t1 ++ milestones t2.
Proof. unfold config_part, milestones. by rewrite !observe_app. Qed.

Ltac sys_unfold H :=
  unfold sys in H;
  cbn [interp mbind prog_bind pbind mret prog_ret trigger sys_call slog] in H.

Lemma adapter_start_post ready s :
  has_post (sys ready (adapter_start s)) (fun tr r => exists ok, r = Ok ok /\
    config_part tr = [] /\
    milestones tr = [Listened (host (config_ s)) (port (config_ s)) ok]).
Proof.
  intros tr r H. unfold adapter_start in H. sys_unfold H.
  do 3 (runs_skip H). runs_seq H as ok. exists ok. runs_skip H.
  destruct ok; [|runs_skip H]; by destruct H as [-> ->].
Qed.

Lemma server_shutdown_main ready s :
  has_post (sys ready (server_shutdown s)) (fun tr r => exists s', r = Ok s' /\
    (initialized_ s = true -> is_Some (pool_ s) ->
     initialized_ s' = false /\ pool_ s' = pool_ s /\ milestones tr = [PoolStopped]) /\
    config_part tr = []).
Proof.
  intros tr r H. unfold server_shutdown in H.
  destruct (initialized_ s) eqn:Hi; [destruct (pool_ s) as [p|] eqn:Hp|]; sys_unfold H.
  - do 3 (runs_skip H). destruct H as [-> ->]. eexists. split; [done|]. by split.
  - do 2 (runs_skip H). destruct H as [-> ->]. eexists. split; [done|]. split; [|done].
    by intros _ [? [=]].
  - destruct H as [-> ->]. eexists. split; [done|]. by split.
Qed.

Lemma server_destroy_main ready s :
  initialized_ s = false ->
  has_post (sys ready (server_destroy s)) (fun tr r => r = Ok tt /\ config_part tr = [] /\
    milestones tr = match pool_ s with Some _ => [PoolStopped] | None => [] end).
Proof.
  intros Hi tr r H. unfold server_destroy, replace_pool in H. rewrite Hi in H. sys_unfold H.
  destruct (pool_ s); sys_unfold H; [runs_seq H as u; destruct u|]; by destruct H as [-> ->].
Qed.

Lemma serve_post cfg b s :
  config_ s = cfg -> initialized_ s = true -> is_Some (pool_ s) ->
  has_post (serve cfg b s) (fun tr r => exists ok, r = Ok (if ok : bool then 0 else 1) /\
    config_part tr = [] /\
    milestones tr = served cfg ok ++
      (EngineReleased <$> if has_engine then option_list (Voxtral.ctx_ b) else [])).
Proof.
  intros Hc Hi [p Hp] tr r H. unfold Main.serve, mlog, proc in H.
  do 5 (runs_skip H).
  apply (runs_after_ex _ _ _ _ _ (adapter_start_post _ s)) in H as (ok & t1 & t2 & -> & [C1 M1] & H).
  do 2 (runs_skip H).
  apply (runs_after_ex _ _ _ _ _ (server_shutdown_main _ s)) in H
    as (s' & t3 & t4 & -> & [M3 C3] & H).
  destruct (M3 Hi (mk_is_Some _ _ Hp)) as (Hi' & Hp' & M3').
  do 1 (runs_skip H). sys_unfold H. runs_skip H.
  apply (runs_after _ _ tt _ _ _ (server_destroy_main _ s' Hi')) in H
    as (t5 & t6 & -> & [C5 M5] & H).
  apply (runs_after _ _ tt _ _ _ (backend_destroy_post b)) in H as (t7 & t8 & -> & [C7 M7] & H).
  destruct H as [-> ->]. exists ok. split; [done|].
  rewrite Hp', Hp in M5. subst cfg. unfold served.
  split.
  - unfold config_part in *. rewrite !observe_app, C1, C3, C5, C7. done.
  - unfold milestones in *. rewrite !observe_app, M1, M3', M5, M7. cbn.
    by rewrite app_nil_r.
Qed.

Lemma server_new_main ready cfg catalog :
  has_post (sys ready (server_new cfg true catalog)) (fun tr r => exists s, r = Ok s /\
    (config_ s = cfg /\ backend_ s = true /\ pool_ s = None /\ initialized_ s = false) /\
    config_part tr = [] /\ milestones tr = []).
Proof.
  intros tr r H. unfold server_new in H. sys_unfold H. runs_seq H as now.
  destruct H as [-> ->]. eexists. by split_and!.
Qed.

Lemma server_initialize_main s :
  validate (config_ s) = Ok tt -> backend_ s = true -> pool_ s = None -> initialized_ s = false ->
  has_post (sys true (server_initialize s)) (fun tr r => exists x, r = Ok x /\
    (x.1 = true /\ config_ x.2 = config_ s /\ initialized_ x.2 = true /\ is_Some (pool_ x.2)) /\
    config_part tr = [] /\ milestones tr = []).
Proof.
  intros (_ & _ & _ & _ & _ & Hd & Ht & _)%validate_ok_iff Hb Hp Hi tr r H.
  destruct (pool_create_total _ _ Hd Ht) as [q Hq].
  unfold server_initialize, replace_pool in H. rewrite Hi, Hb, Hp in H. cbn [negb] in H.
  sys_unfold H. cbn [negb] in H. rewrite Hq in H. sys_unfold H.
  runs_skip H. destruct H as [-> ->]. eexists. by split_and!.
Qed.

(** What [main] does with a configuration that [validate] accepts and a
    backend [b] that is ready. *)
Definition ran (cfg : ServerConfig) (b : Voxtral.VoxtralBackend) (ms : list milestone) (r : res Z)
    : Prop :=
  exists ok, r = Ok (if ok : bool then 0 else 1) /\
    ms = served cfg ok ++ (EngineReleased <$> if has_engine then option_list (Voxtral.ctx_ b) else []).

Lemma start_server_post cfg b :
  validate cfg = Ok tt -> Voxtral.initialized_ b = true ->
  has_post (start_server cfg b) (fun tr r => config_part tr = [] /\ ran cfg b (milestones tr) r).
Proof.
  intros Hv Hb tr r H. unfold Main.start_server in H.
  change (is_ready b) with (Voxtral.initialized_ b) in H. rewrite Hb in H.
  apply (runs_after_ex _ _ _ _ _ (server_new_main _ _ _)) in H
    as (s & t1 & t2 & -> & ((Hc & Hs & Hp & Hi) & C1 & M1) & H).
  rewrite <- Hc in Hv.
  apply (runs_after_ex _ _ _ _ _ (server_initialize_main s Hv Hs Hp Hi)) in H
    as ([ok s'] & t3 & t4 & -> & ((Hok & Hc' & Hi' & Hp') & C3 & M3) & H).
  cbn [fst snd] in *. subst ok. cbn [negb] in H. rewrite Hc in Hc'.
  apply (serve_post cfg b s' Hc' Hi' Hp') in H as (ok & -> & C4 & M4).
  destruct (parts_app t1 (t3 ++ t4)) as [-> ->]. destruct (parts_app t3 t4) as [-> ->].
  rewrite C1, C3, C4, M1, M3. split; [done|]. by exists ok.
Qed.

Lemma engine_part_app t1 t2 : engine_part (t1 ++ t2) = engine_part t1 ++ engine_part t2.
Proof. apply observe_app. Qed.

(** From the backend on: the backend does not come up, or [main] runs. *)
Definition backend_stage (cfg : ServerConfig) (tr : list (event mainE)) (r : res Z) : Prop :=
  exists t0 t1 up b, engine_part tr = t0 ++ t1 /\
    runs (backend_initialize (model_path cfg)) t0 (Ok (up, b)) /\
    exists ms, milestones tr = (EngineLoaded <$> option_list (Voxtral.ctx_ b)) ++ ms /\
      if up : bool then ran cfg b ms r else r = Ok 1 /\ ms = [].

Lemma start_backend_post cfg :
  validate cfg = Ok tt ->
  has_post (start_backend cfg) (fun tr r => config_part tr = [] /\ backend_stage cfg tr r).
Proof.
  intros Hv tr r H. unfold Main.start_backend in H.
  apply runs_bind in H as [(t1 & t2 & [up b] & -> & H1 & H)|(e & -> & H)].
  2: { apply runs_translate in H as (t0 & H & ->). by apply Voxtral.voxtral_initialize_post in H
         as (? & ? & [=] & _). }
  apply runs_translate in H1 as (t0 & H1 & ->). fold (renamed (@MEngine) t0).
  change (initialize Voxtral.voxtral_new (model_path cfg)) with
    (backend_initialize (model_path cfg)) in H1.
  destruct (voxtral_initialize_contexts _ _ _ _ _ H1) as (Hr0 & Hl0 & _ & Hup).
  destruct (engine_foot t0) as [C0 E0]. destruct (parts_app (renamed (@MEngine) t0) t2) as [-> Hm].
  unfold backend_stage. rewrite engine_part_app, E0, C0, Hm, engine_loads, Hl0 by done. clear Hm.
  cbn [fst snd] in H. destruct up; cbn [negb] in H.
  - unfold mlog, proc in H. do 2 (runs_skip H).
    apply start_server_post in H as [C3 HR]; [|done..].
    split; [by rewrite !(proj1 (parts_app _ _)), C3|]. exists t0. eexists. exists true, b.
    split; [reflexivity|]. split; [done|]. eexists. split; [reflexivity|].
    by rewrite !(proj2 (parts_app _ _)).
  - assert (b = Voxtral.voxtral_new) as ->.
    { by apply Voxtral.voxtral_initialize_post in H1 as (? & ? & [= <- <-] & ?). }
    unfold mlog, proc in H. runs_skip H.
    apply (runs_after _ _ tt _ _ _ (backend_destroy_post _)) in H as (t3 & t4 & -> & [C3 M3] & H).
    destruct H as [-> ->]. rewrite app_nil_r.
    rewrite (proj1 (parts_app _ _)), C3. split; [done|]. exists t0. eexists. exists false, Voxtral.voxtral_new.
    split; [reflexivity|]. split; [done|]. eexists. split; [reflexivity|]. split; [done|].
    rewrite (proj2 (parts_app _ _)), M3. by destruct has_engine.
Qed.

Lemma logging_foot cfg :
  has_post (spdlog_calls (logging_initialize cfg)) (fun tr r => r = Ok tt /\ mfoot tr = ([], [], [])).
Proof.
  intros tr r H. cbn [logging_initialize spdlog_calls] in H. unfold proc in H. do 2 (runs_skip H).
  by destruct H as [-> ->].
Qed.

Lemma log_auth_status_post cfg :
  validate cfg = Ok tt ->
  has_post (log_auth_status cfg) (fun tr r => r = Ok true /\ mfoot tr = ([], [], [])).
Proof.
  intros Hv tr r H. unfold log_auth_status, mlog, proc in H.
  destruct (require_auth cfg) eqn:Ha.
  - destruct (sempty (api_key cfg)) eqn:Hk.
    + apply validate_ok_iff in Hv. unfold valid_config in Hv. apply sempty_spec in Hk.
      naive_solver.
    + do 2 (runs_skip H). by destruct H as [-> ->].
  - runs_skip H. by destruct H as [-> ->].
Qed.

Lemma mfoot_skip t1 t2 : mfoot t1 = ([], [], []) -> mfoot (t1 ++ t2) = mfoot t2.
Proof. rewrite mfoot_app. by intros [= -> -> ->]. Qed.

Lemma mfoot_inv tr c e ms :
  mfoot tr = (c, e, ms) -> config_part tr = c /\ engine_part tr = e /\ milestones tr = ms.
Proof. by intros [= -> -> ->]. Qed.

(** [backend_stage] sees a trace through its footprint only. *)
Lemma backend_stage_foot cfg t1 t2 r :
  mfoot t1 = mfoot t2 -> backend_stage cfg t1 r -> backend_stage cfg t2 r.
Proof. unfold backend_stage. by intros [= _ -> ->]. Qed.

(** How [main] ends with a configuration. *)
Definition started (cfg : ServerConfig) (tr : list (event mainE)) (r : res Z) : Prop :=
  match validate cfg with
  | Ok _ => backend_stage cfg tr r
  | Exn _ => r = Ok 1 /\ engine_part tr = [] /\ milestones tr = []
  end.

Lemma start_with_post cfg :
  has_post (start_with cfg) (fun tr r => config_part tr = [] /\ started cfg tr r).
Proof.
  intros tr r H. unfold Main.start_with in H.
  apply (runs_after _ _ tt _ _ _ (logging_foot cfg)) in H as (t1 & t2 & -> & F1 & H).
  unfold mlog, proc in H. runs_skip H. runs_skip H.
  match type of H with runs _ ?t _ => rename t into t3 end.
  match goal with |- config_part ?t = _ /\ _ => assert (Hf : mfoot t = mfoot t3) end.
  { by rewrite (mfoot_skip t1), !mfoot_skip. }
  unfold started. destruct (validate_clean cfg) as [Hv|(w & Hv & _)]; rewrite Hv in H |- *.
  - apply (runs_after _ _ true _ _ _ (log_auth_status_post cfg Hv)) in H as (t4 & t5 & -> & F4 & H).
    cbn [negb] in H. runs_skip H. runs_skip H.
    match type of H with runs _ ?t _ => rename t into t6 end.
    apply start_backend_post in H as [C HB]; [|done].
    match type of Hf with _ = mfoot ?u => assert (Hu : mfoot u = mfoot t6) end.
    { by rewrite (mfoot_skip t4), !mfoot_skip. }
    rewrite Hu in Hf. split; [|by apply (backend_stage_foot cfg t6)].
    apply mfoot_inv in Hf as (-> & _ & _). exact C.
  - runs_skip H. destruct H as [-> ->]. by apply mfoot_inv in Hf as (-> & -> & ->).
Qed.
End MainLemmas.

(** ** Lemmas: arguments and signals *)

(** Not one of the options. *)
Definition plain (arg : string) : Prop :=
  arg <> "--version"%string /\ arg <> "--help"%string /\ arg <> "--config"%string.

Lemma parse_args_plain args path : Forall plain args -> parse_args args path = CliRun path.
Proof.
  induction 1 as [|arg args (H1 & H2 & H3) _ IH]; [done|]. cbn [parse_args].
  apply String.eqb_neq in H1, H2, H3. by rewrite H1, H2, H3.
Qed.

(** Arguments are read from left to right. *)
Lemma parse_args_app l1 l2 d q :
  parse_args l1 d = CliRun q -> parse_args (l1 ++ l2) d = parse_args l2 q.
Proof.
  remember (length l1) as n eqn:Hn. revert l1 d Hn.
  induction n as [n IH] using (well_founded_induction Wf_nat.lt_wf). intros l1 d -> H.
  destruct l1 as [|arg l1]; [by injection H as ->|]. cbn [parse_args app] in *.
  destruct (String.eqb arg "--version"); [done|]. destruct (String.eqb arg "--help"); [done|].
  destruct (String.eqb arg "--config").
  - destruct l1 as [|p l1]; [done|].
    refine (IH (length l1) _ l1 _ eq_refl H). simpl. lia.
  - refine (IH (length l1) _ l1 _ eq_refl H). simpl. lia.
Qed.

(** Where [main] is when the first signal arrives. *)
Fixpoint listening_at_first_signal (es : list process_event) (adapter : option bool) : bool :=
  match es with
  | [] => false
  | AdapterSet :: es' | ListenEnd :: es' => listening_at_first_signal es' (Some false)
  | ListenBegin :: es' => listening_at_first_signal es' (Some true)
  | AdapterCleared :: es' => listening_at_first_signal es' None
  | Signal _ :: _ => default false adapter
  end.

Lemma signal_handler_post signum st :
  has_post (signal_handler signum st) (fun tr r =>
    r = Ok (mk_signals true (g_adapter st)) /\
    milestones tr = if negb (g_shutdown_requested st) && default false (g_adapter st)
                    then [ListenerStopped] else []).
Proof.
  intros tr r H. unfold signal_handler, proc in H.
  destruct (g_shutdown_requested st); [by destruct H as [-> ->]|]. runs_skip H.
  destruct (g_adapter st) as [[]|].
  - apply runs_bind in H as [(t1 & t2 & v & -> & H1 & H)|(e & -> & H)];
      [apply runs_translate in H1 as (t0 & H1 & ->)|apply runs_translate in H as (t0 & H & ->)].
    + unfold adapter_stop, slog in H1. runs_skip H1. runs_skip H1. destruct H1 as [-> _].
      by destruct H as [-> ->].
    + unfold adapter_stop, slog in H. runs_skip H. runs_skip H. by destruct H as [_ ?].
  - by destruct H as [-> ->].
  - by destruct H as [-> ->].
Qed.

Lemma process_step_post e st :
  has_post (process_step e st) (fun tr r => exists st', r = Ok st' /\
    g_shutdown_requested st' =
      (match e with Signal _ => true | _ => g_shutdown_requested st end) /\
    g_adapter st' =
      (match e with
       | AdapterSet | ListenEnd => Some false
       | ListenBegin => Some true
       | AdapterCleared => None
       | Signal _ => g_adapter st
       end) /\
    milestones tr =
      (match e with
       | Signal _ => if negb (g_shutdown_requested st) && default false (g_adapter st)
                     then [ListenerStopped] else []
       | _ => []
       end)).
Proof.
  intros tr r H. destruct e; cbn [process_step] in H; [by destruct H as [-> ->]; eexists..|].
  apply signal_handler_post in H as [-> ->]. by eexists.
Qed.

Lemma process_steps_post es st :
  has_post (process_steps es st) (fun tr r => (exists st', r = Ok st') /\
    milestones tr =
      if negb (g_shutdown_requested st) && listening_at_first_signal es (g_adapter st)
      then [ListenerStopped] else []).
Proof.
  revert st. induction es as [|e es IH]; intros st tr r H; cbn [process_steps] in H.
  - destruct H as [-> ->]. split; [by eexists|]. by rewrite andb_false_r.
  - apply (runs_after_ex _ _ _ _ _ (process_step_post e st)) in H
      as (st' & t1 & t2 & -> & (Hg & Ha & M1) & H).
    apply IH in H as [Hr M2]. split; [done|]. rewrite (proj2 (parts_app _ _)), M1, M2, Hg, Ha.
    destruct e; cbn [listening_at_first_signal]; try done.
    by destruct (g_shutdown_requested st), (g_adapter st) as [[]|].
Qed.

Definition logged_by {X} (e : mainE X) : X -> option string :=
  match e with
  | MSys e =>
      match e in sysE X return X -> option string with
      | SLog l => fun _ => Some (log_fmt l)
      | _ => fun _ => None
      end
  | _ => fun _ => None
  end.

(** ** Properties *)

(** C28: the process: --version and --help print and exit with 0; --config
    without a path exits with 1; otherwise the file named on the command line,
    else by TTS_CONFIG_PATH, else config/server.toml, is loaded, and an
    exception of the loader leaves [main].  An invalid configuration or a
    backend that does not come up ends with exit code 1 before anything is
    started.  With both in order the server object always initialises: the
    handlers of both signals are installed, the adapter is published, the
    listener runs once on the configured address, the adapter is withdrawn,
    the pool is shut down and the engine context that was loaded is released,
    in this order; the exit code says whether the listener could bind. *)
Theorem main_outcome VERSION has_engine rate env program args tr r
    (Hrun : runs (main VERSION has_engine rate env program args) tr r) :
  match parse_args args (default "config/server.toml"%string (env "TTS_CONFIG_PATH"%string)) with
  | CliVersion | CliHelp => r = Ok 0 /\ mfoot tr = ([], [], [])
  | CliMissingPath => r = Ok 1 /\ mfoot tr = ([], [], [])
  | CliRun path => exists rc, runs (from_file_and_env env path) (config_part tr) rc /\
      match rc with
      | Exn e => r = Exn e /\ engine_part tr = [] /\ milestones tr = []
      | Ok cfg => started has_engine cfg tr r
      end
  end.
Proof.
  unfold main in Hrun. destruct (parse_args _ _) as [| | |path].
  1-3: unfold print_usage, proc in Hrun; runs_skip Hrun; by destruct Hrun as [-> ->].
  apply runs_bind in Hrun as [(t1 & t2 & cfg & -> & H1 & H)|(e & -> & H)].
  - apply runs_translate in H1 as (t0 & H1 & ->). fold (renamed (@MConfig) t0).
    apply start_with_post in H as [C HS]. exists (Ok cfg).
    assert (Hf : mfoot (renamed (@MConfig) t0 ++ t2) = (t0, engine_part t2, milestones t2)).
    { rewrite mfoot_app. destruct (mfoot_inv _ _ _ _ (config_foot t0)) as (-> & -> & ->).
      by rewrite C, app_nil_r. }
    apply mfoot_inv in Hf as (-> & He & Hm). split; [done|]. unfold started, backend_stage in *.
    by rewrite He, Hm.
  - apply runs_translate in H as (t0 & H & ->). fold (renamed (@MConfig) t0).
    destruct (mfoot_inv _ _ _ _ (config_foot t0)) as (-> & -> & ->). by exists (Exn e).
Qed.

(** The command line: arguments that are not options are skipped, and the
    last --config wins, over an earlier one and over TTS_CONFIG_PATH. *)
Theorem cli_last_wins l1 l2 d q path
    (Hfirst : parse_args l1 d = CliRun q) (Hplain : Forall plain l2) :
  parse_args (l1 ++ "--config"%string :: path :: l2) d = CliRun path.
Proof. rewrite (parse_args_app _ _ _ _ Hfirst). exact (parse_args_plain l2 path Hplain). Qed.

(** Signals: in every history of signals and of [main]'s progress, the
    listener is stopped at most once, and it is stopped exactly when the first
    signal of all arrives while it runs. *)
Theorem signals_stop_once es tr r (Hrun : runs (process_steps es signals_init) tr r) :
  milestones tr = (if listening_at_first_signal es None then [ListenerStopped] else []) /\
  exists st, r = Ok st.
Proof. by apply process_steps_post in Hrun as [? ->]. Qed.

(** Lost signal: [main] installs the handlers before the listener runs and
    never reads the flag, so after a signal in between no later signal stops
    the listener. *)
Theorem early_signal_lost before signum es tr r
    (Hearly : Forall (fun e => e = AdapterSet) before)
    (Hrun : runs (process_steps (before ++ Signal signum :: es) signals_init) tr r) :
  milestones tr = [].
Proof.
  apply process_steps_post in Hrun as [_ ->]. cbn [negb andb g_shutdown_requested signals_init].
  assert (forall a, default false a = false ->
    listening_at_first_signal (before ++ Signal signum :: es) a = false) as Hl.
  { induction Hearly as [|e before -> _ IH]; intros a Ha; cbn; [done|]. by apply IH. }
  by rewrite Hl.
Qed.

(** The handler of a first signal that stops the listener calls spdlog, which
    its comment rules out. *)
Theorem signal_handler_logs signum tr r
    (Hrun : runs (signal_handler signum (mk_signals false (Some true))) tr r) :
  observe (@logged_by) tr = ["HTTP listener stopping..."%string].
Proof.
  unfold signal_handler, proc in Hrun. cbn [g_shutdown_requested g_adapter] in Hrun.
  runs_skip Hrun.
  apply runs_bind in Hrun as [(t1 & t2 & v & -> & H1 & H)|(e & -> & H)];
    [apply runs_translate in H1 as (t0 & H1 & ->)|apply runs_translate in H as (t0 & H1 & ->)];
    unfold adapter_stop, slog in H1; runs_skip H1; runs_skip H1; destruct H1 as [-> ?];
    [by destruct H as [-> _]|done].
Qed.

(** ** Witnesses *)

Module MainWitness.

Definition config_answer {X} (e : configE X) : X :=
  match e in configE X return X with
  | Exists _ => Ok false
  | ParseFile _ => inl ""%string
  | CLog _ => tt
  end.
Definition engine_answer {X} (e : engineE X) : X :=
  match e in engineE X return X with
  | ENow => 0
  | FsExists _ => (true, false)
  | FsIsRegularFile _ => true
  | FsIsDirectory _ => false
  | TtsLoad _ => Some 3
  | TtsGenerate _ _ _ => (0, None, 0)
  | Undefined => []
  | Free _ | TtsFree _ | SleepMs _ | ELog _ => tt
  end.
Definition sys_answer {X} (e : sysE X) : option X :=
  match e in sysE X return option X with
  | SNow => Some 0
  | HttpListen _ _ => Some true
  | SLog _ | PoolShutdown | HttpNew | HttpConfigure _ _ _ | SetRunning _ | HttpStop | HttpDelete => Some tt
  | _ => None
  end.
Definition proc_answer {X} (e : procE X) : X :=
  match e in procE X return X with
  | Stdout _ | Stderr _ | Spdlog _ | MLog _ | Sigaction _ | SetAdapter _ => tt
  end.

(** No configuration file, a model file, an engine and a free port. *)
Definition answers : handler mainE unit := fun X e _ =>
  match e with
  | MConfig e => Some (config_answer e, tt)
  | MEngine e => Some (engine_answer e, tt)
  | MSys e => x ← sys_answer e; Some (x, tt)
  | MProc e => Some (proc_answer e, tt)
  end.

Definition env : environment := fun name =>
  if String.eqb name "TTS_MODEL_PATH" then Some "/models/voxtral.gguf"%string else None.

Definition program : prog mainE Z :=
  main "1.0.0" true 24000 env "voxtral-server" ["--config"; "site.toml"].

Definition demo_run : option (list (event mainE) * res Z * unit) := exec answers program tt.
Definition demo_trace : list (event mainE) :=
  match demo_run with Some (tr, _, _) => tr | None => [] end.

Lemma demo_runs : runs program demo_trace (Ok 0).
Proof.
  apply (exec_runs answers program tt demo_trace (Ok 0) tt). vm_compute. reflexivity.
Qed.

Lemma main_outcome_witness :
  milestones demo_trace =
    [EngineLoaded 3; HandlerInstalled 15; HandlerInstalled 2; AdapterPublished true;
     Listened "0.0.0.0" 9090 true; AdapterPublished false; PoolStopped; PoolStopped;
     EngineReleased 3] /\
  exists rc, runs (from_file_and_env env "site.toml") (config_part demo_trace) rc /\
    match rc with
    | Exn e => Ok 0 = Exn e /\ engine_part demo_trace = [] /\ milestones demo_trace = []
    | Ok cfg => started true cfg demo_trace (Ok 0)
    end.
Proof.
  split; [vm_compute; reflexivity|].
  exact (main_outcome "1.0.0" true 24000 env "voxtral-server" ["--config"%string; "site.toml"%string]
           demo_trace (Ok 0) demo_runs).
Defined.

Lemma cli_last_wins_witness :
  parse_args ["--config"; "a.toml"; "-v"; "--config"; "b.toml"; "-q"] "env.toml" =
    CliRun "b.toml".
Proof.
  refine (cli_last_wins ["--config"; "a.toml"; "-v"] ["-q"] "env.toml" "a.toml" "b.toml" _ _);
    [reflexivity|].
  constructor; [|constructor]. by split_and!.
Defined.

Definition interrupted : list process_event :=
  [AdapterSet; ListenBegin; Signal SIGTERM; Signal SIGINT; ListenEnd; AdapterCleared].
Definition signal_trace (es : list process_event) : list (event mainE) :=
  match exec answers (process_steps es signals_init) tt with Some (tr, _, _) => tr | None => [] end.

Lemma interrupted_runs :
  runs (process_steps interrupted signals_init) (signal_trace interrupted)
    (Ok (mk_signals true None)).
Proof.
  apply (exec_runs answers _ tt (signal_trace interrupted) (Ok (mk_signals true None)) tt).
  vm_compute. reflexivity.
Qed.

Lemma signals_stop_once_witness :
  milestones (signal_trace interrupted) = [ListenerStopped] /\
  exists st, Ok (mk_signals true None) = Ok st.
Proof. exact (signals_stop_once interrupted _ _ interrupted_runs). Defined.

Definition early : list process_event :=
  [AdapterSet; Signal SIGTERM; ListenBegin; Signal SIGTERM; Signal SIGINT].

Lemma early_runs :
  runs (process_steps early signals_init) (signal_trace early) (Ok (mk_signals true (Some true))).
Proof.
  apply (exec_runs answers _ tt (signal_trace early) (Ok (mk_signals true (Some true))) tt).
  vm_compute. reflexivity.
Qed.

Lemma early_signal_lost_witness : milestones (signal_trace early) = [].
Proof.
  refine (early_signal_lost [AdapterSet] SIGTERM [ListenBegin; Signal SIGTERM; Signal SIGINT]
            _ _ _ early_runs).
  by repeat constructor.
Defined.

Lemma signal_handler_logs_witness :
  observe (@logged_by)
    [Ev (MProc (Stdout (newline +:+ "Received SIGTERM, shutting down..." +:+ newline))) tt;
     Ev (MSys (SLog (mk_log info "HTTP listener stopping..." []))) tt; Ev (MSys HttpStop) tt] =
  ["HTTP listener stopping..."%string].
Proof.
  refine (signal_handler_logs SIGTERM _ (Ok (mk_signals true (Some true))) _).
  repeat answer tt. by split.
Defined.
End MainWitness.
