(* ===== verification/Process.v ===== *)
(** * What the process serves

    [main()] of [src/main.cpp] and the server of [Boot] together: when the
    listener runs, it serves the server object that this very run loaded,
    validated and initialised, so that the theorems of [Abuse] and [Delivery]
    are about the process. *)

From Stdlib Require Import ZArith Lia Ascii String SpecFloat.
From stdpp Require Import base tactics numbers list strings gmap.
From S2P Require Import Prelude Effects Floats Auth RateLimit Voices Validation Metrics.
From S2P Require Import Backend Pool Config Http RequestHandler Server Boot HttpAdapter Logger Main.

#[local] Open Scope Z_scope.

(** ** Observation *)

(** Calls of [listen()], with the address and the answer. *)
Definition listen_of {X} (e : mainE X) : X -> option (string * Z * bool) :=
  match e with
  | MSys e =>
      match e in sysE X return X -> option (string * Z * bool) with
      | HttpListen host port => fun ok => Some (host, port, ok)
      | _ => fun _ => None
      end
  | _ => fun _ => None
  end.
Definition listens (tr : list (event mainE)) : list (string * Z * bool) := observe (@listen_of) tr.

(** ** Lemmas *)

(** A run of the server's part is a run of the server. *)
Lemma sys_runs ready {A} (p : prog sysE A) tr r :
  runs (sys ready p) tr r -> exists tr0, runs p tr0 r.
Proof.
  unfold sys. revert tr. induction p as [a|e|X e k IH]; intros tr H.
  - exists []. by destruct H as [_ ->].
  - exists []. by destruct H as [_ ->].
  - assert (exists x t, runs (interp (sys_call ready) (k x)) t r) as (x & t & Hk).
    { destruct e; cbn [interp sys_call trigger pbind mret prog_ret] in H;
        try (apply runs_vis in H as (x & t & _ & H); by exists x, t).
      by exists ready, tr. }
    destruct (IH x t Hk) as [tr0 H0]. exists (Ev e x :: tr0). by exists x, tr0.
Qed.

(** Runs of the server's part one after the other. *)
Lemma sys_bind ready {A B} (p : prog sysE A) (k : A -> prog sysE B) t1 a t2 r :
  runs (sys ready p) t1 (Ok a) -> runs (sys ready (k a)) t2 r ->
  runs (sys ready (p ≫= k)) (t1 ++ t2) r.
Proof.
  unfold sys. revert t1. induction p as [b|e|X e k0 IH]; intros t1 H1 H2.
  - by destruct H1 as [-> [= ->]].
  - by destruct H1 as [_ [=]].
  - change (runs (x ← sys_call ready _ e; interp (sys_call ready) (k0 x)) t1 (Ok a)) in H1.
    change (runs (x ← sys_call ready _ e; interp (sys_call ready) (k0 x ≫= k)) (t1 ++ t2) r).
    apply runs_bind in H1 as [(u1 & u2 & x & -> & Hx & H1)|(e0 & [=] & _)].
    apply runs_bind. left. exists u1, (u2 ++ t2), x. rewrite app_assoc.
    split; [done|]. split; [done|]. by apply IH.
Qed.

Lemma mute_translate {E F B A} (g : forall X, E X -> F X) (f : forall X, F X -> X -> option B)
    (p : prog E A) :
  (forall X (e : E X) x, f X (g X e) x = None) -> mute f (translate g p).
Proof.
  intros Hf. unfold translate. induction p as [a|e|X e k IH]; cbn [interp pbind trigger]; [done..|].
  intros x. split; [apply Hf|apply IH].
Qed.

#[local] Notation quiet p := (mute (@listen_of) p).

(** The server's part without the listener. *)
Lemma sys_quiet ready {A} (p : prog sysE A) :
  mute (fun X (e : sysE X) x => listen_of (MSys e) x) p -> quiet (sys ready p).
Proof.
  unfold sys. induction p as [a|e|X e k IH]; intros Hp; [done..|].
  assert (forall x, quiet (interp (sys_call ready) (k x))) as Hk.
  { intros x. apply IH. by destruct (Hp x). }
  destruct e; cbn [interp sys_call trigger pbind mret prog_ret mute] in *; try apply Hk;
    intros x; split; try done; by destruct (Hp x).
Qed.

Section Process.
Context (VERSION : string) (has_engine : bool) (rate : Z).

Lemma backend_destroy_quiet b : quiet (backend_destroy has_engine b).
Proof. by apply mute_translate. Qed.

Lemma server_new_quiet ready cfg b c : quiet (sys ready (server_new cfg b c)).
Proof. apply sys_quiet. unfold server_new. mute_solve. Qed.

Lemma server_initialize_quiet ready s : quiet (sys ready (server_initialize s)).
Proof.
  apply sys_quiet. unfold server_initialize, replace_pool, slog.
  destruct (initialized_ s), (backend_ s), (pool_ s),
    (pool_create true (max_queue_depth (config_ s)) (request_timeout_seconds (config_ s))) as [[? ?]|?];
    mute_solve.
Qed.

Lemma server_shutdown_quiet ready s : quiet (sys ready (server_shutdown s)).
Proof.
  apply sys_quiet. unfold server_shutdown, slog. destruct (initialized_ s), (pool_ s); mute_solve.
Qed.

Lemma server_destroy_quiet ready s : quiet (sys ready (server_destroy s)).
Proof.
  apply sys_quiet. unfold server_destroy, server_shutdown, replace_pool, slog.
  destruct (initialized_ s), (pool_ s); mute_solve.
Qed.
Lemma listens_app t1 t2 : listens (t1 ++ t2) = listens t1 ++ listens t2.
Proof. apply observe_app. Qed.

Lemma quiet_listens {A} (p : prog mainE A) tr r : quiet p -> runs p tr r -> listens tr = [].
Proof. apply mute_runs. Qed.

Lemma adapter_listens ready s :
  has_post (sys ready (adapter_start s)) (fun tr r => exists ok, r = Ok ok /\
    (listens tr = [(host (config_ s), port (config_ s), ok)] /\
     runs (sys ready (adapter_start s)) tr (Ok ok))).
Proof.
  intros tr r H. pose proof H as Hrun. unfold adapter_start, sys in H.
  cbn [interp mbind prog_bind pbind mret prog_ret trigger sys_call slog] in H.
  do 3 (runs_skip H). runs_seq H as ok. exists ok. runs_skip H.
  destruct ok; [|runs_skip H]; by destruct H as [-> ->].
Qed.

(** The listener does not run, or runs once, on the server that this run has
    built from [cfg] before. *)
Definition listening (cfg : ServerConfig) (tr : list (event mainE)) : Prop :=
  listens tr = [] \/
  exists s ready ok t0 u t1 t2 t3, tr = t0 ++ u ++ t1 ++ t2 ++ t3 /\
    runs (sys ready (server_start cfg (Some voice_catalog))) u (Ok (true, s)) /\
    runs (sys ready (adapter_start s)) t2 (Ok ok) /\
    listens (t0 ++ u ++ t1) = [] /\ listens t3 = [] /\
    listens t2 = [(host (config_ s), port (config_ s), ok)].

Lemma listening_after cfg t0 tr : listens t0 = [] -> listening cfg tr -> listening cfg (t0 ++ tr).
Proof.
  intros H0 [H|(s & ready & ok & v & u & t1 & t2 & t3 & -> & Hs & Ha & H1 & H3 & H2)].
  - left. by rewrite listens_app, H0, H.
  - right. exists s, ready, ok, (t0 ++ v), u, t1, t2, t3. rewrite <- !app_assoc.
    rewrite (listens_app t0), H0. done.
Qed.

(** [serve()] on the server [s] runs the listener of [s], once. *)
Lemma serve_listens cfg b s :
  has_post (serve has_engine rate cfg b s) (fun tr _ => exists ok t1 t2 t3, tr = t1 ++ t2 ++ t3 /\
    runs (sys (Voxtral.initialized_ b) (adapter_start s)) t2 (Ok ok) /\
    listens t1 = [] /\ listens t3 = [] /\
    listens t2 = [(host (config_ s), port (config_ s), ok)]).
Proof.
  intros tr r H. unfold serve, mlog, proc in H. do 5 (runs_skip H).
  apply (runs_after_ex _ _ _ _ _ (adapter_listens _ s)) in H as (ok & t1 & t2 & -> & [Hl Ha] & H).
  rewrite !app_assoc. rewrite <- app_assoc.
  eexists ok, _, t1, t2. split; [reflexivity|]. split; [exact Ha|].
  split; [by rewrite !listens_app|]. split; [|done].
  eapply quiet_listens; [|exact H]. do 2 (intros ?; split; [done|]).
  apply mute_bind; [apply server_shutdown_quiet|]. intros s'. intros ?. split; [done|].
  apply mute_bind; [unfold sys; mute_solve|]. intros _.
  apply mute_bind; [apply server_destroy_quiet|]. intros _.
  apply mute_bind; [apply backend_destroy_quiet|]. done.
Qed.

Lemma start_server_listening cfg b :
  has_post (start_server has_engine rate cfg b) (fun tr _ => listening cfg tr).
Proof.
  intros tr r H. unfold start_server in H.
  apply runs_bind in H as [(t1 & t2 & s0 & -> & H1 & H)|(e & -> & H1)].
  2: { left. eapply quiet_listens; [apply server_new_quiet|exact H1]. }
  pose proof (quiet_listens _ _ _ (server_new_quiet _ cfg true (Some voice_catalog)) H1) as L1.
  apply runs_bind in H as [(t3 & t4 & [up s] & -> & H2 & H)|(e & -> & H2)];
    pose proof (quiet_listens _ _ _ (server_initialize_quiet _ s0) H2) as L2.
  2: { left. by rewrite listens_app, L1, L2. }
  cbn [fst snd] in H. destruct up; cbn [negb] in H.
  - apply serve_listens in H as (ok & v1 & v2 & v3 & -> & Ha & Hv1 & Hv3 & Hv2). right.
    eexists s, _, ok, [], (t1 ++ t3), v1, v2, v3.
    split; [by rewrite <- app_assoc|]. split; [by eapply sys_bind|]. split; [exact Ha|].
    by rewrite app_nil_l, !listens_app, L1, L2, Hv1.
  - left. rewrite !listens_app, L1, L2. cbn [app]. eapply quiet_listens; [|exact H]. intros ?. split; [done|].
    apply mute_bind; [apply server_destroy_quiet|]. intros _.
    apply mute_bind; [apply backend_destroy_quiet|]. done.
Qed.

Lemma start_backend_listening cfg :
  has_post (start_backend has_engine rate cfg) (fun tr _ => listening cfg tr).
Proof.
  intros tr r H. unfold start_backend in H.
  apply runs_bind in H as [(t1 & t2 & [up b] & -> & H1 & H)|(e & -> & H1)].
  2: { left. eapply quiet_listens; [|exact H1]. by apply mute_translate. }
  apply listening_after; [eapply quiet_listens; [|exact H1]; by apply mute_translate|].
  cbn [fst snd] in H. destruct up; cbn [negb] in H; unfold mlog, proc in H.
  - do 2 (runs_skip H; apply listening_after; [done|]). by apply start_server_listening in H.
  - left. eapply quiet_listens; [|exact H]. intros ?. split; [done|].
    apply mute_bind; [apply backend_destroy_quiet|]. done.
Qed.

Lemma logging_quiet cfg : quiet (spdlog_calls (logging_initialize cfg)).
Proof. unfold proc. cbn [logging_initialize spdlog_calls]. mute_solve. Qed.

Lemma log_auth_status_quiet cfg : quiet (log_auth_status cfg).
Proof. unfold log_auth_status, mlog, proc. mute_solve. Qed.

Lemma start_with_listening cfg :
  has_post (start_with VERSION has_engine rate cfg) (fun tr _ =>
    listens tr = [] \/ (validate cfg = Ok tt /\ listening cfg tr)).
Proof.
  intros tr r H. destruct (validate_clean cfg) as [Hv|(w & Hv & _)]; unfold start_with in H; rewrite Hv in H.
  - right. split; [done|].
    apply runs_bind in H as [(t1 & t2 & u & -> & H1 & H)|(e & -> & H1)];
      apply quiet_listens in H1; try apply logging_quiet; [|by left].
    apply listening_after; [done|]. unfold mlog, proc in H.
    do 2 (runs_skip H; apply listening_after; [done|]).
    apply runs_bind in H as [(t3 & t4 & ok & -> & H3 & H)|(e & -> & H3)];
      apply quiet_listens in H3; try apply log_auth_status_quiet; [|by left].
    apply listening_after; [done|]. destruct ok; cbn [negb] in H; [|left; by destruct H as [-> _]].
    do 2 (runs_skip H; apply listening_after; [done|]). by apply start_backend_listening in H.
  - left. eapply quiet_listens; [|exact H]. apply mute_bind; [apply logging_quiet|]. intros _.
    unfold mlog, proc. mute_solve.
Qed.
End Process.

(** ** Property *)

(** C24: the process serves what it configured: a run of [main] calls listen()
    at most once, and then the calls that this run made on the file system, the
    TOML parser and the environment are a run of the loader that gives a
    configuration accepted by validate(), this run has built and initialised
    the server object from that very configuration, with its pool, and then
    runs the listener of that object, on the configured address. *)
Theorem main_serves_booted VERSION has_engine rate env program args tr r
    (Hrun : runs (main VERSION has_engine rate env program args) tr r) :
  listens tr = [] \/
  exists path cfg s ready ok t0 u t1 t2 t3,
    parse_args args (default "config/server.toml"%string (env "TTS_CONFIG_PATH"%string)) = CliRun path /\
    runs (from_file_and_env env path) (config_part tr) (Ok cfg) /\ validate cfg = Ok tt /\
    tr = t0 ++ u ++ t1 ++ t2 ++ t3 /\
    runs (sys ready (server_start cfg (Some voice_catalog))) u (Ok (true, s)) /\
    runs (sys ready (adapter_start s)) t2 (Ok ok) /\
    listens tr = [(host cfg, port cfg, ok)] /\ config_ s = cfg /\ booted env path s.
Proof.
  unfold main in Hrun. destruct (parse_args _ _) as [| | |path] eqn:Hargs.
  1-3: left; eapply quiet_listens; [|exact Hrun]; unfold print_usage, proc; mute_solve.
  apply runs_bind in Hrun as [(t1 & t2 & cfg & -> & H1 & H)|(e & -> & H1)].
  2: { left. eapply quiet_listens; [|exact H1]. by apply mute_translate. }
  pose proof H1 as (t0 & Hload & Ht1)%runs_translate.
  assert (listens t1 = []) as Hl1 by (eapply quiet_listens; [|exact H1]; by apply mute_translate).
  pose proof (start_with_post VERSION has_engine rate cfg t2 r H) as [Hc2 _].
  assert (Hcfg : config_part (t1 ++ t2) = t0).
  { rewrite Ht1. fold (renamed (@MConfig) t0). unfold config_part in *. rewrite observe_app, Hc2.
    destruct (mfoot_inv _ _ _ _ (config_foot t0)) as (Hc0 & _). unfold config_part in Hc0.
    by rewrite Hc0, app_nil_r. }
  apply start_with_listening in H as [H|(Hv & [H|H])].
  1-2: left; by rewrite listens_app, Hl1, H.
  destruct H as (s & ready & ok & v & u & u1 & u2 & u3 & -> & Hs & Ha & Hu1 & Hu3 & Hu2). right.
  pose proof Hs as [t' Hs']%sys_runs.
  destruct (server_start_booted cfg t' s (proj1 (validate_ok_iff cfg) Hv) Hs') as [now Hshape].
  assert (config_ s = cfg) as Hsc by by rewrite Hshape.
  exists path, cfg, s, ready, ok, (t1 ++ v), u, u1, u2, u3.
  split; [done|]. split; [by rewrite Hcfg|]. split; [done|]. split; [by rewrite <- app_assoc|].
  split; [done|]. split; [done|]. split; [|split; [done|by exists cfg, t0, t']].
  rewrite <- Hsc, <- Hu2. rewrite !listens_app in Hu1. rewrite !listens_app, Hl1, Hu3.
  apply app_nil in Hu1 as [-> [-> ->]%app_nil]. by rewrite app_nil_r.
Qed.

(** The run of [MainWitness] listens once. *)
Module ProcessWitness.

Lemma main_serves_booted_witness :
  listens MainWitness.demo_trace = [("0.0.0.0"%string, 9090, true)] /\
  (listens MainWitness.demo_trace = [] \/
   exists path cfg s ready ok t0 u t1 t2 t3,
     parse_args ["--config"%string; "site.toml"%string]
       (default "config/server.toml"%string (MainWitness.env "TTS_CONFIG_PATH"%string)) = CliRun path /\
     runs (from_file_and_env MainWitness.env path) (config_part MainWitness.demo_trace) (Ok cfg) /\
     validate cfg = Ok tt /\ MainWitness.demo_trace = t0 ++ u ++ t1 ++ t2 ++ t3 /\
     runs (sys ready (server_start cfg (Some voice_catalog))) u (Ok (true, s)) /\
     runs (sys ready (adapter_start s)) t2 (Ok ok) /\
     listens MainWitness.demo_trace = [(host cfg, port cfg, ok)] /\ config_ s = cfg /\
     booted MainWitness.env path s).
Proof.
  split; [vm_compute; reflexivity|].
  exact (main_serves_booted "1.0.0" true 24000 MainWitness.env "voxtral-server"
    ["--config"%string; "site.toml"%string] MainWitness.demo_trace (Ok 0) MainWitness.demo_runs).
Defined.
End ProcessWitness.
