(* ===== verification/Order.v ===== *)
(** * First come, first served

    The queue of [InferencePool] seen from the clients: over the histories of
    [Service], the jobs accepted from any number of concurrent requests are
    taken and answered in the order in which [submit()] accepted them, each
    exactly once, and a request whose submission was refused answers 503. *)

From Stdlib Require Import ZArith Lia Ascii String SpecFloat.
From stdpp Require Import base tactics numbers list strings gmap.
From S2P Require Import Prelude Effects Floats Auth RateLimit Voices Validation Metrics.
From S2P Require Import Backend Pool PoolSpec Config Http RequestHandler Uuid Server Boot HttpAdapter.
From S2P Require Import Session Service Liveness Abuse Delivery.

#[local] Open Scope Z_scope.

(** ** What a history shows of the pool *)

(** A submission the pool accepted, with the request that made it. *)
Definition accepted_of (s : TtsServer) (i : nat) (now : Z) {X} (e : sysE X)
    : X -> option (nat * InferenceJob) :=
  match e in sysE X return X -> option (nat * InferenceJob) with
  | PoolSubmit job => fun b => if b then Some (i, own_job i (timeout s) now job) else None
  | _ => fun _ => None
  end.

Definition accepted (s : TtsServer) (hist : list entry) : list (nat * InferenceJob) :=
  omap (fun en => match en with
                  | ECall i now _ (Ev e x) => accepted_of s i now e x
                  | _ => None
                  end) hist.
Definition taken_jobs (hist : list entry) : list InferenceJob :=
  omap (fun en => match en with ETake job => Some job | _ => None end) hist.
Definition answered_jobs (hist : list entry) : list InferenceJob :=
  omap (fun en => match en with EAnswer job _ => Some job | _ => None end) hist.

(** ** Lemmas: one submission per request *)

Definition accepting (jb : InferenceJob * bool) : bool := jb.2.

(** A typed program hands over at most one job. *)
Lemma session_submits n ph {A} (p : prog sysE A) Q tr r :
  session n ph p Q -> runs p tr r ->
  (length (filter accepting (submissions tr)) <= if decide (ph = Fresh) then 1 else 0)%nat.
Proof.
  revert n ph tr. induction p as [a|e|X e k IH]; intros n ph tr; cbn [session runs].
  1-2: intros _ [-> _]; cbn; lia.
  destruct n as [|n]; [done|]. intros Hs (x & tr' & -> & Hr). specialize (Hs x).
  destruct (session_step ph e x) as [ph'|] eqn:Hph; [|done].
  specialize (IH x n ph' tr' Hs Hr).
  destruct e; cbn [session_step] in Hph; try discriminate Hph;
    try (injection Hph as <-; exact IH).
  - destruct ph; try discriminate Hph. destruct (both_callbacks job); [|done].
    injection Hph as <-. change (submissions (_ :: tr')) with ((job, x) :: submissions tr').
    rewrite filter_cons. destruct x; cbn in IH |- *; [|exact IH].
    by apply le_n_S.
  - destruct ph; try discriminate Hph. injection Hph as <-.
    exact IH.
Qed.

(** A typed program submits jobs with both callbacks. *)
Lemma session_callbacks n ph {A} (p : prog sysE A) Q tr r :
  session n ph p Q -> runs p tr r -> Forall (fun jb => both_callbacks jb.1 = true) (submissions tr).
Proof.
  revert n ph tr. induction p as [a|e|X e k IH]; intros n ph tr; cbn [session runs].
  1-2: intros _ [-> _]; constructor.
  destruct n as [|n]; [done|]. intros Hs (x & tr' & -> & Hr). specialize (Hs x).
  destruct (session_step ph e x) as [ph'|] eqn:Hph; [|done]. specialize (IH x n ph' tr' Hs Hr).
  destruct e; cbn [session_step] in Hph; try discriminate Hph; try exact IH.
  destruct ph; try discriminate Hph. constructor; [|exact IH]. cbn. by destruct (both_callbacks job).
Qed.

Section OrderLemmas.
Context {L : JsonLib} {HL : JsonLaws L} (VERSION : string).
Context (it : gmap string AuthLimiter.IpState -> list (string * AuthLimiter.IpState)).
Context (s : TtsServer).

#[local] Notation svc_step := (svc_step VERSION it s).
#[local] Notation served := (served VERSION it s).

Lemma served_submits_once hist v i :
  served hist v -> (length (filter accepting (submissions (calls_of i hist))) <= 1)%nat.
Proof.
  intros Hs. destruct (calls_of i hist) as [|ev evs] eqn:Hc; [cbn; lia|].
  destruct (served_run VERSION it s hist v i Hs) as (q & p & p0 & tr & r & _ & Hr & Hrun & _);
    [by rewrite Hc|].
  rewrite Hc in Hrun. apply (session_submits _ _ _ _ _ _ (route_session VERSION s q p0 Hr)) in Hrun.
  rewrite submissions_app, filter_app, length_app in Hrun. cbn [decide] in Hrun.
  destruct (decide _); lia.
Qed.

Lemma served_callbacks hist v i :
  served hist v -> Forall (fun jb => both_callbacks jb.1 = true) (submissions (calls_of i hist)).
Proof.
  intros Hs. destruct (calls_of i hist) as [|ev evs] eqn:Hc; [constructor|].
  destruct (served_run VERSION it s hist v i Hs) as (q & p & p0 & tr & r & _ & Hr & Hrun & _);
    [by rewrite Hc|].
  rewrite Hc in Hrun. apply (session_callbacks _ _ _ _ _ _ (route_session VERSION s q p0 Hr)) in Hrun.
  rewrite submissions_app in Hrun. by apply Forall_app in Hrun as [? _].
Qed.

Lemma accepted_snoc hist en :
  accepted s (hist ++ [en]) = accepted s hist ++
    option_list (match en with ECall i now _ (Ev e x) => accepted_of s i now e x | _ => None end).
Proof. apply omap_one. Qed.

(** What the pool accepted of request [i] is what [i] was told. *)
Lemma accepted_by i hist :
  length (filter (fun j => j = i) (accepted s hist).*1) =
  length (filter accepting (submissions (calls_of i hist))).
Proof.
  induction hist as [|en hist IH] using rev_ind; [done|].
  rewrite accepted_snoc, calls_of_app, submissions_app, fmap_app, !filter_app, !length_app, IH.
  f_equal. destruct en as [j now ins [X e x]| |]; [|done..].
  rewrite calls_of_call. destruct e; cbn [accepted_of]; try by destruct (decide (j = i)).
  destruct x; cbn [option_list from_option fmap list_fmap fst].
  - cbn. by destruct (decide (j = i)).
  - by destruct (decide (j = i)).
Qed.

Lemma accepted_owned hist v :
  served hist v -> Forall (fun ij => owned ij.1 ij.2) (accepted s hist).
Proof.
  intros Hs. apply Forall_forall. intros [i job] Hin.
  apply list_elem_of_omap in Hin as ([j now ins [X e x]| |] & Hen & Hacc); [|done..].
  destruct e; try done. destruct x; [|done]. injection Hacc as <- <-.
  apply own_job_owned. apply (calls_of_elem) in Hen.
  apply (proj1 (Forall_forall _ _) (served_callbacks hist v j Hs) (job0, true)).
  apply list_elem_of_omap. by exists (Ev (PoolSubmit job0) true).
Qed.

Lemma accepted_once hist v : served hist v -> NoDup (accepted s hist).*1.
Proof.
  intros Hs. apply NoDup_alt. intros a b i Ha Hb.
  destruct (decide (a = b)) as [|Hne]; [done|exfalso].
  pose proof (served_submits_once hist v i Hs) as Hle. rewrite <- accepted_by in Hle.
  revert a b Hne Ha Hb Hle. induction (accepted s hist).*1 as [|j l IH]; intros a b Hne Ha Hb; [done|].
  assert (Hpos : forall c, l !! c = Some i -> (0 < length (filter (fun j => j = i) l))%nat).
  { intros c Hc. apply list_elem_of_lookup_2 in Hc.
    assert (i ∈ filter (fun j => j = i) l) as Hf by by apply list_elem_of_filter.
    destruct (filter _ l); [by apply elem_of_nil in Hf|cbn; lia]. }
  rewrite filter_cons. destruct a as [|a], b as [|b]; cbn in Ha, Hb; [done| | |].
  - injection Ha as ->. rewrite decide_True by done. specialize (Hpos b Hb). cbn [length]. lia.
  - injection Hb as ->. rewrite decide_True by done. specialize (Hpos a Ha). cbn [length]. lia.
  - intros Hle. apply (IH a b); [congruence|done|done|]. destruct (decide (j = i)); cbn [length] in Hle; lia.
Qed.

Lemma owned_distinct l :
  Forall (fun ij : nat * InferenceJob => owned ij.1 ij.2) l -> NoDup l.*1 -> NoDup l.*2.
Proof.
  induction l as [|[i job] l IH]; intros Ho Hn; [constructor|].
  apply Forall_cons in Ho as [Hi Ho]. apply NoDup_cons in Hn as [Hni Hn]. cbn [fst snd fmap list_fmap] in *.
  constructor; [|by apply IH]. intros ([j job'] & -> & Hj)%list_elem_of_fmap.
  apply Hni, list_elem_of_fmap. exists (j, job'). split; [|done].
  apply (owned_inj i j job'); [exact Hi|]. by apply (proj1 (Forall_forall _ _) Ho (j, job')).
Qed.

(** How a call changes the pool. *)
Lemma call_pool i now ins X (e : sysE X) v x v' :
  call_answers it s i now ins e v x v' ->
  match accepted_of s i now e x with
  | Some (_, job) =>
      ps_queue (sv_pool v') = ps_queue (sv_pool v) ++ [job] /\
      pending (sv_pool v') = pending (sv_pool v) ++ [job]
  | None => sv_pool v' = sv_pool v
  end.
Proof.
  intros Hc. unfold call_answers in Hc.
  destruct e; cbn [shared_call] in Hc; try (by subst v').
  - by injection Hc as _ <-.
  - by injection Hc as _ <-.
  - rewrite submit_queue_spec in Hc; destruct (pool_spec_step _ _ _) as [a|] eqn:Ha; injection Hc as <- <-; cbn [accepted_of]; [|done].
    by destruct (pushed_pending _ _ _ _ Ha).
  - destruct (sv_cells v !! i); [|done]. by injection Hc as _ <-.
  - destruct (AuthLimiter.is_blocked _ _ _). by injection Hc as _ <-.
  - destruct (AuthLimiter.check_and_record_failure _ _ _ _ _). by injection Hc as _ <-.
  - destruct (RequestLimiter.check_request _ _ _ _). by injection Hc as _ <-.
Qed.

(** The jobs accepted so far: taken and queued, or answered and pending. *)
Record in_order (hist : list entry) (v : service) : Prop := mk_in_order {
  ord_taken : (accepted s hist).*2 = taken_jobs hist ++ ps_queue (sv_pool v);
  ord_answered : (accepted s hist).*2 = answered_jobs hist ++ pending (sv_pool v);
  ord_depth : Z.of_nat (length (ps_queue (sv_pool v))) <= Z.max 0 (depth s);
}.

Lemma in_order_same hist v v' :
  in_order hist v -> ps_queue (sv_pool v') = ps_queue (sv_pool v) ->
  pending (sv_pool v') = pending (sv_pool v) -> in_order (hist ++ []) v'.
Proof. intros [Ht Ha Hd] Hq Hp. rewrite app_nil_r. split; by rewrite ?Hq, ?Hp. Qed.

Lemma in_order_call hist v i now ins X (e : sysE X) x v' v2 :
  in_order hist v -> call_answers it s i now ins e v x v' -> sv_pool v2 = sv_pool v' ->
  in_order (hist ++ [ECall i now ins (Ev e x)]) v2.
Proof.
  intros [Ht Ha Hd] Hc Hv2. pose proof (call_pool _ _ _ _ _ _ _ _ Hc) as Hp.
  assert (Z.of_nat (length (ps_queue (sv_pool v'))) <= Z.max 0 (depth s)) as Hd'.
  { unfold call_answers in Hc. destruct e; cbn [accepted_of shared_call] in *; try by rewrite Hp.
    destruct x; [|by rewrite Hp]. rewrite submit_queue_spec in Hc; destruct (pool_spec_step _ _ _) as [a|] eqn:Hs; [|done].
    injection Hc as <-. cbn in Hs. destruct (ps_open _); [|done].
    destruct (Z.ltb_spec (Z.of_nat (length (ps_queue (sv_pool v)))) (depth s)); [|done].
    injection Hs as <-. cbn. rewrite length_app. cbn. lia. }
  split; rewrite ?Hv2, ?accepted_snoc, ?fmap_app; [| |exact Hd'];
    unfold taken_jobs, answered_jobs; rewrite omap_one;
    change (option_list None) with (@nil InferenceJob); rewrite app_nil_r;
    destruct (accepted_of s i now e x) as [[j job]|];
    cbn [option_list from_option fmap option_fmap list_fmap snd]; rewrite ?app_nil_r.
  - destruct Hp as [-> _]. by rewrite Ht, app_assoc.
  - by rewrite Hp, Ht.
  - destruct Hp as [_ ->]. by rewrite Ha, app_assoc.
  - by rewrite Hp, Ha.
Qed.

Lemma served_in_order hist v : served hist v -> in_order hist v.
Proof.
  induction 1 as [t|hist v o v' Hs IH Hstep]; [split; cbn; done || lia|].
  destruct (served_inv VERSION it s hist v Hs) as (ts & HI).
  destruct Hstep as [v q p Hr|v i q X e k x now ins v' Hi _ Hc|v job a Ha|v job n a Hh Ha|v a Ha|v a Ha];
    try change (option_list (Some ?en)) with [en].
  - by apply (in_order_same hist v).
  - by eapply in_order_call.
  - destruct (take_pending _ _ _ _ (inv_owned _ _ HI) Ha) as (Hp & _ & Hq & _).
    destruct IH as [It Ia Id].
    split; rewrite ?accepted_snoc, ?fmap_app; cbn [option_list from_option fmap list_fmap sv_pool with_service_pool];
      rewrite ?app_nil_r; unfold taken_jobs, answered_jobs; rewrite ?omap_one.
    + rewrite It, Hq. cbn [option_list from_option]. by rewrite <- app_assoc.
    + rewrite Hp, Ia. cbn [option_list from_option]. by rewrite app_nil_r.
    + rewrite Hq in Id. cbn [length] in Id. lia.
  - destruct (answer_pending _ _ _ _ _ Hh Ha) as (Hp & _ & Hq & _). destruct IH as [It Ia Id].
    split; rewrite ?accepted_snoc, ?fmap_app; cbn [option_list from_option fmap list_fmap fill_cell sv_pool with_cells with_service_pool];
      rewrite ?app_nil_r; unfold taken_jobs, answered_jobs; rewrite ?omap_one.
    + rewrite It, Hq. cbn [option_list from_option]. by rewrite app_nil_r.
    + rewrite Ia, Hp. cbn [option_list from_option]. by rewrite <- app_assoc.
    + by rewrite Hq.
  - destruct (close_pending _ _ _ Ha) as [Hp Hq]. by apply (in_order_same hist v).
  - destruct (exit_pending _ _ _ Ha) as [Hp Hq]. by apply (in_order_same hist v).
Qed.

(** Nothing is pending for requests that have ended. *)
Lemma ended_pending hist v :
  served hist v -> Forall (fun th => ~ unfinished th) (sv_threads v) -> pending (sv_pool v) = [].
Proof.
  intros Hs Hend. destruct (served_inv VERSION it s hist v Hs) as (ts & HI).
  destruct (pending (sv_pool v)) as [|job jobs] eqn:Hp; [done|exfalso].
  pose proof (inv_owned _ _ HI) as Hown. rewrite Hp in Hown.
  apply Forall_cons in Hown as [[i Hi] _]. pose proof (inv_owed _ _ HI i) as Ho.
  unfold owed in Ho. rewrite Hp, filter_cons_True in Ho by done. cbn [length] in Ho.
  destruct (ts !! i) as [[n ph]|] eqn:Hti; [|lia]. unfold due in Ho. cbn [snd] in Ho.
  destruct (decide (ph = Waiting)) as [->|]; [|lia].
  destruct (Forall2_lookup_r _ _ _ _ _ (inv_typed _ _ HI) Hti) as ([q p] & Hth & Hty).
  apply (proj1 (Forall_lookup _ _) Hend i _ Hth). unfold typed in Hty. cbn in Hty.
  by destruct p; cbn in Hty |- *.
Qed.

(** A request whose submission was refused answers 503. *)
Lemma served_refused hist v i q ops job :
  served hist v -> sv_threads v !! i = Some (q, Ret ops) ->
  (job, false) ∈ submissions (calls_of i hist) -> SetStatus 503 ∈ ops.
Proof.
  intros Hs Hret Hin.
  destruct (served_finished VERSION it s hist v i q ops Hs Hret) as (p0 & Hr & Hrun).
  destruct (decide (q_path q = "/v1/audio/speech"%string)) as [Hp|Hp].
  2: { rewrite (route_other_no_submission VERSION s q p0 Hr Hp _ _ Hrun) in Hin.
       by apply elem_of_nil in Hin. }
  destruct (route_cases VERSION s q p0 Hr) as [[Hq _]|[[Hq _]|[[Hq _]|[[Hq _]|[_ ->]]]]];
    [congruence..|].
  apply speech_route_answer in Hrun. remember (sfoot_of (calls_of i hist)) as f eqn:Hf.
  destruct Hrun as [f st ops Ho Hsub Hne Hfull Hst|f rq r id _ Hsub _|f rq m id resp _ Hsub _ _];
    rewrite Hf in Hsub; cbn [sfoot_of sf_subs] in Hsub.
  - apply Hst, eq_sym, Hfull. rewrite Hf. cbn [sfoot_of sf_subs]. intros He. rewrite He in Hin.
    by apply elem_of_nil in Hin.
  - rewrite Hsub in Hin. by apply list_elem_of_singleton in Hin.
  - rewrite Hsub in Hin. by apply list_elem_of_singleton in Hin.
Qed.
End OrderLemmas.

(** ** Properties *)

Section OrderProperties.
Context {L : JsonLib} {HL : JsonLaws L} (VERSION : string).
Context (it : gmap string AuthLimiter.IpState -> list (string * AuthLimiter.IpState)).
Context (s : TtsServer).

#[local] Notation served := (served VERSION it s).

(** C11: first come, first served, across all clients: the jobs that
    [submit()] has accepted so far, in the order of the calls, are exactly those
    the worker has taken followed by those in the queue, and exactly those it has
    answered followed by those still to be answered: no job is lost, duplicated
    or overtaken; every request owns at most one of them, with its own two
    callbacks, and no job appears twice; once all requests have ended, every
    accepted job has been answered. *)
Theorem service_fifo hist v (Hserved : served hist v) :
  (accepted s hist).*2 = taken_jobs hist ++ ps_queue (sv_pool v) /\
  (accepted s hist).*2 = answered_jobs hist ++ pending (sv_pool v) /\
  Forall (fun ij => owned ij.1 ij.2) (accepted s hist) /\
  NoDup (accepted s hist).*1 /\ NoDup (accepted s hist).*2 /\
  (Forall (fun th => ~ unfinished th) (sv_threads v) ->
   (accepted s hist).*2 = answered_jobs hist).
Proof.
  destruct (served_in_order VERSION it s hist v Hserved) as [Ht Ha _].
  pose proof (accepted_owned VERSION it s hist v Hserved) as Hown.
  pose proof (accepted_once VERSION it s hist v Hserved) as Hnd.
  split_and!; [done..|by apply owned_distinct|]. intros Hend.
  by rewrite Ha, (ended_pending VERSION it s hist v Hserved Hend), app_nil_r.
Qed.
End OrderProperties.

(** ** Witnesses *)

Module OrderWitness.
Import HandlerWitness AdapterWitness LivenessWitness.

Lemma service_fifo_witness :
  (accepted server whole.1).*2 = taken_jobs whole.1 ++ ps_queue (sv_pool whole.2) /\
  (accepted server whole.1).*2 = answered_jobs whole.1 ++ pending (sv_pool whole.2) /\
  Forall (fun ij => owned ij.1 ij.2) (accepted server whole.1) /\
  NoDup (accepted server whole.1).*1 /\ NoDup (accepted server whole.1).*2 /\
  (Forall (fun th => ~ unfinished th) (sv_threads whole.2) ->
   (accepted server whole.1).*2 = answered_jobs whole.1).
Proof. exact (service_fifo "1.0" toy_it server whole.1 whole.2 whole_served). Defined.
End OrderWitness.
