(* ===== verification/Fairness.v ===== *)
(** * No client is throttled without cause

    The converse of [Abuse]: over the histories of [Service], a client is told
    that it is locked out, or to slow down, only when the calls it made itself,
    within the current window, exceed what the configuration allows.  This
    holds for any number of other clients and whatever entries the limiters
    evict ([AuthRateLimiter] and [RequestRateLimiter] of
    [include/tts/auth.hpp], [run_middleware] of
    [src/server/http_adapter.cpp]). *)

From Stdlib Require Import ZArith Lia Ascii String SpecFloat.
From stdpp Require Import base tactics numbers list strings gmap.
From S2P Require Import Prelude Effects Floats Auth RateLimit Voices Validation Metrics.
From S2P Require Import Backend Pool PoolSpec Config Http RequestHandler Uuid Server Boot HttpAdapter.
From S2P Require Import Session Service Liveness Abuse Delivery.

#[local] Open Scope Z_scope.

(** ** What a client did lately *)

(** Failures of [ip] recorded, and requests of [ip] counted, since [t]. *)
Definition failed_since (ip : string) (t : Z) (o : AuthLimiter.op) : bool :=
  match o with
  | AuthLimiter.Record_ _ ins a => String.eqb a ip && (t <=? ins)
  | AuthLimiter.Query _ _ => false
  end.
Definition asked_since (ip : string) (t : Z) (c : RequestLimiter.call) : bool :=
  String.eqb (RequestLimiter.c_ip c) ip && (t <=? RequestLimiter.c_ins c).

Definition recent_failures (ip : string) (t : Z) (ops : list AuthLimiter.op) : Z :=
  Z.of_nat (length (filter (failed_since ip t) ops)).
Definition recent_requests (ip : string) (t : Z) (cs : list RequestLimiter.call) : Z :=
  Z.of_nat (length (filter (asked_since ip t) cs)).

(** ** Lemmas: counting *)

Lemma count_snoc {A} (f : A -> bool) l x :
  Z.of_nat (length (filter f (l ++ [x]))) = Z.of_nat (length (filter f l)) + (if f x then 1 else 0).
Proof.
  rewrite filter_app, length_app, Nat2Z.inj_add. f_equal. rewrite filter_cons.
  destruct (f x); reflexivity.
Qed.

Lemma count_impl {A} (f g : A -> bool) l :
  (forall x, x ∈ l -> f x = true -> g x = true) ->
  Z.of_nat (length (filter f l)) <= Z.of_nat (length (filter g l)).
Proof.
  intros Hfg. induction l as [|x l IH]; [done|].
  assert (Z.of_nat (length (filter f l)) <= Z.of_nat (length (filter g l))) as Hle
    by (apply IH; intros y Hy; apply Hfg; by right).
  rewrite !filter_cons. specialize (Hfg x ltac:(by left)).
  destruct (f x), (g x); repeat case_decide; cbn [length] in *; (done || lia || (exfalso; naive_solver)).
Qed.

Lemma u64_le x : 0 <= x -> u64 x <= x.
Proof. intros Hx. unfold u64. apply Z.mod_le; lia. Qed.

(** ** Lemmas: the lock-out counters *)

Section AuthCounters.
Import AuthLimiter.
Context (it : gmap string IpState -> list (string * IpState)).

(** Every counter is at most what its address has failed since its window
    opened. *)
Definition earned (A : AuthRateLimiter) (t : Z) (ops : list op) : Prop :=
  forall ip st, ip_states A !! ip = Some st ->
    window_start st <= t /\ 0 <= failures st <= recent_failures ip (window_start st) ops.

Lemma earned_weaken A A' t t' ops o :
  earned A t ops -> ip_states A' ⊆ ip_states A -> t <= t' -> earned A' t' (ops ++ [o]).
Proof.
  intros HA Hsub Ht ip st Hst. destruct (HA ip st) as [Hw Hf]; [by eapply lookup_weaken|].
  split; [lia|]. unfold recent_failures in *. rewrite count_snoc. destruct (failed_since _ _ _); lia.
Qed.

Lemma earned_record A t ops now ins ip m :
  earned A t ops -> t <= now -> now <= ins ->
  m ⊆ <[ip := next_state (window_secs A) now ins (ip_states A !! ip)]> (ip_states A) ->
  earned (with_states A m) ins (ops ++ [Record_ now ins ip]).
Proof.
  intros HA Hnow Hins Hm a st Hst. apply (lookup_weaken _ _ _ _ Hst) in Hm.
  destruct (decide (ip = a)) as [->|Hne].
  2: { rewrite lookup_insert_ne in Hm by done.
       by apply (earned_weaken A A t ins ops (Record_ now ins ip) HA); [|lia|]. }
  rewrite lookup_insert_eq in Hm. injection Hm as <-.
  unfold recent_failures. rewrite count_snoc. cbn [failed_since]. rewrite String.eqb_refl.
  assert (Hnew : forall w, w <= ins -> 0 <= u64 (0 + 1) <=
      Z.of_nat (length (filter (failed_since a w) ops)) + (if true && (w <=? ins) then 1 else 0)).
  { intros w Hw. apply Z.leb_le in Hw as ->. change (u64 (0 + 1)) with 1. cbn [andb]. lia. }
  unfold next_state. destruct (ip_states A !! a) as [st|] eqn:Ha; cbn [from_option Datatypes.id].
  - destruct (HA a st Ha) as [Hw Hf].
    destruct (expired _ _ st); cbn [failures window_start]; [split; [done|by apply Hnew]|].
    split; [lia|]. rewrite (proj2 (Z.leb_le _ _)) by lia. unfold recent_failures in Hf.
    pose proof (u64_le (failures st + 1)). unfold u64 in *.
    pose proof (Z.mod_pos_bound (failures st + 1) (2 ^ 64) eq_refl). cbn [andb]. lia.
  - destruct (expired _ _ _); cbn [failures window_start]; (split; [lia|by apply Hnew; lia]).
Qed.

Lemma earned_op A t ops o b A' ins :
  earned A t ops -> do_op it A o = (b, A') ->
  match o with Record_ now i _ => t <= now /\ now <= i /\ i <= ins | Query now _ => t <= ins end ->
  earned A' ins (ops ++ [o]).
Proof.
  intros HA Hop Ht. destruct o as [now i ip|now ip]; cbn [do_op] in Hop.
  - destruct Ht as (H1 & H2 & H3). unfold check_and_record_failure in Hop. injection Hop as _ <-.
    assert (Hstep : forall m, m ⊆ <[ip := next_state (window_secs A) now i (ip_states A !! ip)]> (ip_states A) ->
      earned (with_states A m) ins (ops ++ [Record_ now i ip])).
    { intros m Hm a st Hst. destruct (earned_record A t ops now i ip m HA H1 H2 Hm a st Hst). lia. }
    destruct (_ && _); apply Hstep; [apply evict_to_cap_subseteq|done].
  - unfold is_blocked in Hop. apply (earned_weaken A A' t ins ops _ HA); [|done].
    destruct (ip_states A !! ip); [|by injection Hop as _ <-].
    destruct (expired _ _ _); injection Hop as _ <-; [apply delete_subseteq|done].
Qed.

(** A client is locked out only by its own recent failures. *)
Lemma earned_blocked A t ops now ip :
  earned A t ops -> (is_blocked A now ip).1 = true ->
  max_failures A < recent_failures ip (now - window_secs A * SEC) ops.
Proof.
  intros HA. unfold is_blocked. destruct (ip_states A !! ip) as [st|] eqn:Hst; [|done].
  destruct (expired _ _ _) eqn:Hx; [done|]. cbn [fst]. intros Hlt%Z.ltb_lt.
  destruct (HA ip st Hst) as [_ Hf]. unfold expired in Hx. apply Z.ltb_ge in Hx.
  eapply Z.lt_le_trans; [exact Hlt|]. etrans; [apply Hf|]. apply count_impl.
  intros [now' ins a|]; [|done]. cbn. intros _ [-> Hw%Z.leb_le]%andb_true_iff.
  apply Z.leb_le. lia.
Qed.
End AuthCounters.

(** ** Lemmas: the request counters *)

Section RequestCounters.
Import RequestLimiter.

Definition asked (R : RequestRateLimiter) (t : Z) (cs : list call) : Prop :=
  forall ip st, ip_states R !! ip = Some st ->
    window_start st <= t /\ 0 <= requests st <= recent_requests ip (window_start st) cs.

Lemma asked_self ip t now ins : asked_since ip t (mk_call now ins ip) = (t <=? ins).
Proof. unfold asked_since. cbn [c_ip c_ins]. by rewrite String.eqb_refl. Qed.

Lemma asked_next R t cs now ins ip :
  asked R t cs -> t <= now -> now <= ins ->
  let st := next_state now ins (ip_states R !! ip) in
  window_start st <= ins /\
  0 <= requests st <= recent_requests ip (window_start st) (cs ++ [mk_call now ins ip]).
Proof.
  intros HR Hnow Hins. cbn zeta. unfold recent_requests. rewrite count_snoc.
  rewrite asked_self.
  assert (Hnew : forall w, w <= ins -> 0 <= u64 (0 + 1) <=
      Z.of_nat (length (filter (asked_since ip w) cs)) + (if w <=? ins then 1 else 0)).
  { intros w Hw. apply Z.leb_le in Hw as ->. change (u64 (0 + 1)) with 1. lia. }
  unfold next_state. destruct (ip_states R !! ip) as [st|] eqn:Ha; cbn [from_option Datatypes.id].
  - destruct (HR ip st Ha) as [Hw Hf].
    destruct (60 <=? elapsed now st); cbn [requests window_start]; [split; [done|by apply Hnew]|].
    split; [lia|]. rewrite (proj2 (Z.leb_le _ _)) by lia. unfold recent_requests in Hf.
    pose proof (u64_le (requests st + 1)). unfold u64 in *.
    pose proof (Z.mod_pos_bound (requests st + 1) (2 ^ 64) eq_refl). lia.
  - destruct (60 <=? elapsed now (mk_ip 0 ins)); cbn [requests window_start];
      (split; [lia|by apply Hnew; lia]).
Qed.

Lemma asked_check R t cs now ins ip n R' :
  asked R t cs -> t <= now -> now <= ins -> check_request R now ins ip = (n, R') ->
  asked R' ins (cs ++ [mk_call now ins ip]) /\
  (0 < n -> max_rpm R < recent_requests ip (now - 60 * SEC) (cs ++ [mk_call now ins ip])).
Proof.
  intros HR Hnow Hins Hc. pose proof (asked_next R t cs now ins ip HR Hnow Hins) as Hnext.
  split.
  - intros a st Hst. replace R' with (check_request R now ins ip).2 in Hst by by rewrite Hc.
    destruct (decide (ip = a)) as [->|Hne].
    { rewrite check_request_lookup_eq in Hst. injection Hst as <-. exact Hnext. }
    destruct (check_request_lookup_ne R now ins ip a Hne) as [Heq|[Heq _]]; [|congruence].
    rewrite Heq in Hst. destruct (HR a st Hst) as [Hw Hf]. split; [lia|].
    unfold recent_requests in *. rewrite count_snoc. destruct (asked_since _ _ _); lia.
  - unfold check_request in Hc.
    destruct (Z.ltb_spec (max_rpm R) (requests (next_state now ins (ip_states R !! ip)))) as [Hlt|_];
      [|injection Hc as <- _; lia].
    intros _. eapply Z.lt_le_trans; [exact Hlt|]. etrans; [apply Hnext|]. apply count_impl.
    pose proof (next_state_fresh now ins (ip_states R !! ip)) as Hf. rewrite elapsed_60 in Hf.
    apply Z.leb_gt in Hf. intros c _. unfold asked_since.
    intros [-> Hw%Z.leb_le]%andb_true_iff. apply Z.leb_le. lia.
Qed.
End RequestCounters.

(** ** Lemmas: histories *)

Section FairHistories.
Context {L : JsonLib} {HL : JsonLaws L} (VERSION : string).
Context (it : gmap string AuthLimiter.IpState -> list (string * AuthLimiter.IpState)).
Context (s : TtsServer).
Context (Hauth : AuthLimiter.ip_states (auth_limiter_ s) = ∅).
Context (Hreq : RequestLimiter.ip_states (request_limiter_ s) = ∅).

#[local] Notation served := (served VERSION it s).

Record fair (hist : list entry) (v : service) : Prop := mk_fair {
  fair_auth : earned (sv_auth v) (sv_time v) (auth_ops hist);
  fair_requests : asked (sv_requests v) (sv_time v) (check_calls hist);
  fair_max : AuthLimiter.max_failures (sv_auth v) = AuthLimiter.max_failures (auth_limiter_ s);
  fair_window : AuthLimiter.window_secs (sv_auth v) = AuthLimiter.window_secs (auth_limiter_ s);
  fair_rpm : RequestLimiter.max_rpm (sv_requests v) = RequestLimiter.max_rpm (request_limiter_ s);
}.

Lemma fair_same hist en v v' :
  fair hist v -> sv_time v' = sv_time v -> sv_auth v' = sv_auth v ->
  sv_requests v' = sv_requests v ->
  match en with ECall _ _ _ _ => False | _ => True end -> fair (hist ++ [en]) v'.
Proof.
  intros [Ha Hr Hm Hw Hp] Ht HA HR Hen.
  split; unfold auth_ops, check_calls in *; rewrite ?HA, ?HR, ?Ht, ?auth_log_snoc, ?check_log_snoc; try done; destruct en; try done;
    cbn [option_list from_option]; by rewrite app_nil_r.
Qed.

Lemma fair_call hist v i now ins X (e : sysE X) x v1 v' :
  fair hist v -> clock_reads e (sv_time v) now ins -> call_answers it s i now ins e v x v1 ->
  sv_time v' = ins -> sv_auth v' = sv_auth v1 -> sv_requests v' = sv_requests v1 ->
  fair (hist ++ [ECall i now ins (Ev e x)]) v'.
Proof.
  intros [Ha Hr Hm Hw Hp] (H1 & H2 & H3) Hc Ht HA HR.
  destruct (call_frame it s _ _ _ _ _ _ _ _ Hc) as (_ & Hfa & Hfc).
  split; unfold auth_ops, check_calls in *; rewrite ?HA, ?HR, ?Ht, ?auth_log_snoc, ?check_log_snoc, ?fmap_app.
  - destruct (auth_op_of now ins e x) as [[o b]|] eqn:Ho.
    + apply (earned_op it _ (sv_time v) _ o b _ _ Ha Hfa).
      destruct e; try discriminate Ho; injection Ho as <- _; lia.
    + change ((option_list None).*1) with (@nil AuthLimiter.op). rewrite app_nil_r, Hfa. intros ip st Hst. destruct (Ha ip st Hst). lia.
  - destruct (check_of now ins e x) as [[c n]|] eqn:Ho.
    + destruct e; try discriminate Ho. injection Ho as <- _.
      by apply (asked_check _ (sv_time v) _ _ _ _ _ _ Hr H3 H1 Hfc).
    + change ((option_list None).*1) with (@nil RequestLimiter.call). rewrite app_nil_r, Hfc. intros ip st Hst. destruct (Hr ip st Hst). lia.
  - destruct (auth_op_of now ins e x) as [[o b]|]; [|congruence].
    pose proof (proj1 (AuthLimiter.do_op_config it (sv_auth v) o)) as Hcfg.
    rewrite Hfa in Hcfg. cbn in Hcfg. congruence.
  - destruct (auth_op_of now ins e x) as [[o b]|]; [|congruence].
    pose proof (proj1 (proj2 (AuthLimiter.do_op_config it (sv_auth v) o))) as Hcfg.
    rewrite Hfa in Hcfg. cbn in Hcfg. congruence.
  - destruct (check_of now ins e x) as [[c n]|]; [|congruence].
    pose proof (proj1 (RequestLimiter.check_request_config (sv_requests v) (RequestLimiter.c_now c)
      (RequestLimiter.c_ins c) (RequestLimiter.c_ip c))) as Hcfg.
    rewrite Hfc in Hcfg. cbn in Hcfg. congruence.
Qed.

Lemma served_fair hist v : served hist v -> fair hist v.
Proof.
  induction 1 as [t|hist v o v' Hs IH Hstep].
  { split; cbn; try done; intros ip st; rewrite ?Hauth, ?Hreq, lookup_empty; done. }
  apply step_entry in Hstep. destruct o as [[i now ins [X e x]|job|job n]|].
  - destruct Hstep as (H1 & Ht & v1 & Hc & HA & HR). by eapply fair_call.
  - by eapply fair_same; [exact IH|apply Hstep..|].
  - by eapply fair_same; [exact IH|apply Hstep..|].
  - destruct Hstep as (Ht & HA & HR). rewrite app_nil_r. destruct IH.
    split; rewrite ?HA, ?HR, ?Ht; done.
Qed.
End FairHistories.

(** ** Lemmas: who is answered 429 *)

Section Throttled.
Context {L : JsonLib} {HL : JsonLaws L} (VERSION : string).

(** The two verdicts a 429 rests on, with the Retry-After announced. *)
Definition throttled (s : TtsServer) (q : HttplibRequest) (tr : list (event sysE))
    (ops : list response_op) : Prop :=
  let ip := client_ip (config_ s) (adapt_request q) in
  ((ip, true) ∈ blocks tr /\ SetHeader "Retry-After" "60" ∈ ops) \/
  exists n, 0 < n /\ (ip, n) ∈ checks tr /\ SetHeader "Retry-After" (to_string n) ∈ ops.

(** A program that never answers 429. *)
Definition calm (p : prog sysE (list response_op)) : Prop :=
  has_post p (fun _ r => forall ops, r = Ok ops -> SetStatus 429 ∉ ops).

Lemma throttled_after s q t1 t2 t3 ops :
  throttled s q t2 ops -> throttled s q (t1 ++ t2 ++ t3) ops.
Proof.
  unfold throttled, blocks, checks. rewrite !observe_app.
  intros [[Hb Hh]|(n & Hn & Hc & Hh)]; [left|right; exists n]; rewrite !elem_of_app; tauto.
Qed.

Lemma respond_calm id resp : status resp <> 429 -> calm (respond id resp).
Proof.
  intros Hne tr r [_ ->]%respond_post ops [= <-] H%adapted_status. congruence.
Qed.

(** The same of a handler. *)
Definition calm_handler (p : prog sysE HttpResponse) : Prop :=
  has_post p (fun _ r => forall resp, r = Ok resp -> status resp <> 429).

Lemma calm_json st j : st <> 429 -> calm_handler (of_res (json_response st j)).
Proof.
  intros Hne tr r [-> ->]%runs_of_res resp Hr.
  destruct (json_response_status st j) as [(resp' & Hr' & Hst & _)|[m Hr']]; rewrite Hr' in Hr; [|done].
  injection Hr as <-. by rewrite Hst.
Qed.

Lemma calm_handler_bind {A} (p : prog sysE A) k :
  (forall a, calm_handler (k a)) -> calm_handler (p ≫= k).
Proof.
  intros Hk tr r [(t1 & t2 & a & -> & _ & H)|(e & -> & _)]%runs_bind; [by eapply Hk|done].
Qed.

Lemma calm_answer id p : calm_handler p -> calm (response ← p; respond id response).
Proof.
  intros Hp tr r [(t1 & t2 & resp & -> & Hr & H)|(e & -> & _)]%runs_bind; [|done].
  revert H. apply respond_calm. by eapply Hp.
Qed.

Lemma calm_bind {A} (p : prog sysE A) k : (forall a, calm (k a)) -> calm (p ≫= k).
Proof.
  intros Hk tr r [(t1 & t2 & a & -> & _ & H)|(e & -> & _)]%runs_bind; [by eapply Hk|done].
Qed.

Lemma guarded_throttled s q id (rest : prog sysE (list response_op)) tr ops :
  calm rest ->
  runs (middleware_err ← run_middleware s (adapt_request q);
        match middleware_err with Some rejection => respond id rejection | None => rest end)
    tr (Ok ops) ->
  SetStatus 429 ∈ ops -> throttled s q tr ops.
Proof.
  intros Hcalm [(t2 & t3 & o & -> & Hm & H)|(e & [=] & _)]%runs_bind Hst.
  apply run_middleware_post in Hm as [_ Hm]. destruct o as [resp|].
  - apply respond_post in H as [_ [= ->]]. apply adapted_status in Hst. destruct Hm as [_ Hm].
    apply (throttled_after s q [] t2 t3).
    destruct Hm as [(_ & Hh & _ & Hb & _)|[(n & Hn & _ & Hh & Hc & _)|(H401 & _)]].
    + left. rewrite Hb. split; [by left|]. by apply retry_after_sent.
    + right. exists n. rewrite Hc. split; [done|]. split; [by left|]. by apply retry_after_sent.
    + congruence.
  - by destruct (Hcalm t3 (Ok ops) H ops eq_refl).
Qed.

Lemma speech_calm req deps id : 
  calm (response ← handle_speech req deps;
        _ ← slog info "POST /v1/audio/speech → {} ({} bytes)"
              [AInt (status response); AInt (response_size response)];
        respond id response).
Proof.
  intros tr r [(t1 & t2 & resp & -> & Hh & H)|(e & -> & _)]%runs_bind; [|done].
  apply speech_accounting in Hh as (_ & _ & Hin). unfold slog in H. runs_skip H.
  revert H. apply respond_calm. intros Hst. rewrite Hst in Hin. set_solver.
Qed.

Lemma route_throttled s q p tr ops :
  route VERSION s q = Some p -> runs p tr (Ok ops) -> SetStatus 429 ∈ ops -> throttled s q tr ops.
Proof.
  intros Hroute Hrun Hst.
  assert (Hno : calm p -> throttled s q tr ops).
  { intros Hc. by destruct (Hc tr (Ok ops) Hrun ops eq_refl). }
  destruct (route_cases VERSION s q p Hroute) as [[_ ->]|[[_ ->]|[[_ ->]|[[_ ->]|[_ ->]]]]].
  - apply Hno, calm_bind. intros id. apply calm_answer. unfold handle_health.
    apply calm_handler_bind. intros now. by apply calm_json.
  - apply Hno, calm_bind. intros id. apply calm_answer. unfold handle_ready.
    do 3 (apply calm_handler_bind; intros ?). apply calm_json. by case_match.
  - apply Hno. intros t r Hm o -> H. unfold route_metrics, handle_metrics in Hm. runs_skip Hm.
    destruct Hm as [_ [= ->]]. by apply adapt_status in H.
  - unfold route_voices in Hrun.
    apply runs_bind in Hrun as [(t1 & t2 & id & -> & _ & H)|(e & [=] & _)].
    rewrite <- (app_nil_r t2). apply throttled_after.
    eapply guarded_throttled; [|exact H|exact Hst]. apply calm_answer. by apply calm_json.
  - unfold route_speech in Hrun.
    apply runs_bind in Hrun as [(t1 & t2 & id & -> & _ & H)|(e & [=] & _)].
    rewrite <- (app_nil_r t2). apply throttled_after.
    unfold speech_body, slog in H. runs_skip H.
    match goal with |- throttled _ _ (?a ++ ?t) _ => rewrite <- (app_nil_r t) end. apply throttled_after.
    eapply guarded_throttled; [|exact H|exact Hst]. apply speech_calm.
Qed.
End Throttled.

(** ** Properties *)

Section FairnessProperties.
Context {L : JsonLib} {HL : JsonLaws L} (VERSION : string).
Context (it : gmap string AuthLimiter.IpState -> list (string * AuthLimiter.IpState)).
Context (s : TtsServer).

#[local] Notation served := (served VERSION it s).

(** C19: no client is throttled without cause: a request that was answered 429
    was either told that its address is locked out, and then more failures of
    that very address than the configuration allows were recorded within the
    window before; or it was told to slow down, and then its address made more
    requests than the configured number per minute within the 60 seconds
    before, this one included.  Other clients play no part, whatever entries the
    limiters evict, and the wait announced is the one decided. *)
Theorem throttling_is_justified env path hist v i q ops
    (Hboot : booted env path s) (Hserved : served hist v)
    (Hret : sv_threads v !! i = Some (q, Ret ops)) (H429 : SetStatus 429 ∈ ops) :
  let ip := client_ip (config_ s) (adapt_request q) in
  exists h1 h2 now ins, 
    (hist = h1 ++ ECall i now ins (Ev (AuthIsBlocked ip) true) :: h2 /\
     auth_rate_limit_max (config_ s) <
       recent_failures ip (now - auth_rate_limit_window (config_ s) * SEC) (auth_ops h1) /\
     SetHeader "Retry-After" "60" ∈ ops) \/
    (exists n, hist = h1 ++ ECall i now ins (Ev (CheckRequest ip) n) :: h2 /\
     request_rate_limit_rpm (config_ s) <
       recent_requests ip (now - 60 * SEC) (check_calls h1 ++ [RequestLimiter.mk_call now ins ip]) /\
     SetHeader "Retry-After" (to_string n) ∈ ops).
Proof.
  cbn zeta. set (ip := client_ip _ _).
  destruct (booted_limiters env path s Hboot) as [HA HR].
  pose proof (booted_auth_max env path s Hboot) as Hmax.
  pose proof (booted_rpm env path s Hboot) as Hrpm. unfold INT_MAX in *.
  assert (Hfair : forall h w, served h w -> fair s h w).
  { intros h w. apply served_fair; [by rewrite HA|by rewrite HR]. }
  destruct (served_finished VERSION it s hist v i q ops Hserved Hret) as (p0 & Hr & Hrun).
  assert (Hcall : forall (ev : event sysE), ev ∈ calls_of i hist ->
    exists h1 now ins h2, hist = h1 ++ ECall i now ins ev :: h2).
  { intros ev (en & Hen & Hev)%list_elem_of_omap. destruct en as [j now ins ev'| |]; [|done..].
    case_decide as Hj; [|done]. injection Hev as ->. subst j.
    apply list_elem_of_split in Hen as (h1 & h2 & ->). by exists h1, now, ins, h2. }
  destruct (route_throttled VERSION s q p0 _ ops Hr Hrun H429) as [[Hb Hh]|(n & Hn & Hc & Hh)].
  - apply list_elem_of_omap in Hb as ([X e x] & Hev & Hx). destruct e; try discriminate Hx.
    injection Hx as -> ->. destruct (Hcall _ Hev) as (h1 & now & ins & h2 & ->).
    exists h1, h2, now, ins. left. split; [done|]. split; [|done].
    destruct (served_split VERSION it s _ _ _ _ Hserved) as (v1 & v2 & Hs1 & Hstep).
    apply step_entry in Hstep as (_ & _ & v3 & Hcl & _).
    apply call_frame in Hcl as (_ & Hq & _). cbn [auth_op_of AuthLimiter.do_op] in Hq.
    destruct (Hfair _ _ Hs1) as [Ha _ Hm Hw _].
    pose proof (earned_blocked _ _ _ now ip Ha) as Hlt. fold ip in Hq.
    rewrite Hq in Hlt. specialize (Hlt eq_refl).
    rewrite Hm, Hw, HA in Hlt. cbn in Hlt. by rewrite u64_small in Hlt by lia.
  - apply list_elem_of_omap in Hc as ([X e x] & Hev & Hx). destruct e; try discriminate Hx.
    injection Hx as -> ->. destruct (Hcall _ Hev) as (h1 & now & ins & h2 & ->).
    exists h1, h2, now, ins. right. exists n. split; [done|]. split; [|done].
    destruct (served_split VERSION it s _ _ _ _ Hserved) as (v1 & v2 & Hs1 & Hstep).
    apply step_entry in Hstep as ((H2 & _ & H1) & _ & v3 & Hcl & _).
    apply call_frame in Hcl as (_ & _ & Hq). cbn in Hq. fold ip in Hq.
    destruct (Hfair _ _ Hs1) as [_ Hreq _ _ Hm].
    destruct (asked_check _ _ _ now ins ip n _ Hreq H1 H2 Hq) as [_ Hlt]. specialize (Hlt Hn).
    rewrite Hm, HR in Hlt. cbn in Hlt. by rewrite u64_small in Hlt by lia.
Qed.
End FairnessProperties.

(** ** Witness: the fourth guess of [AbuseWitness.attack] *)

Module FairnessWitness.
Import HandlerWitness AdapterWitness LivenessWitness AbuseWitness.

Lemma attacker_ip : client_ip (config_ strict) (adapt_request (post "guess")) = "10.0.0.1"%string.
Proof. by vm_compute. Qed.

Lemma refusal_429 : SetStatus 429 ∈ refusal.
Proof. apply (list_elem_of_lookup_2 _ 0). by vm_compute. Qed.

Lemma throttling_is_justified_witness :
  SetStatus 429 ∈ refusal /\
  exists h1 h2 now ins,
    ((attack 4).1 = h1 ++ ECall 3 now ins (Ev (AuthIsBlocked "10.0.0.1") true) :: h2 /\
     auth_rate_limit_max (config_ strict) <
       recent_failures "10.0.0.1" (now - auth_rate_limit_window (config_ strict) * SEC)
         (auth_ops h1) /\
     SetHeader "Retry-After" "60" ∈ refusal) \/
    (exists n, (attack 4).1 = h1 ++ ECall 3 now ins (Ev (CheckRequest "10.0.0.1") n) :: h2 /\
     request_rate_limit_rpm (config_ strict) <
       recent_requests "10.0.0.1" (now - 60 * SEC)
         (check_calls h1 ++ [RequestLimiter.mk_call now ins "10.0.0.1"]) /\
     SetHeader "Retry-After" (to_string n) ∈ refusal).
Proof.
  split; [exact refusal_429|].
  pose proof (throttling_is_justified "1.0" toy_it strict strict_env "config/server.toml"
    (attack 4).1 (attack 4).2 3 (post "guess") refusal strict_booted (attack_served 4)
    (proj2 attack_refused) refusal_429) as H.
  cbn zeta in H. rewrite attacker_ip in H. exact H.
Defined.
End FairnessWitness.
