(* ===== verification/Accounting.v ===== *)
(** * The metrics add up

    The gauge [opentts_active_jobs] and the counters
    [opentts_requests_total] that the speech handler updates
    ([handle_speech] of [src/server/request_handler.cpp]), summed over the
    histories of [Service]: at any moment the gauge lies between the jobs the
    pool owes and the requests that have not returned, and once every request
    has been answered it is back at zero and the counter of every status equals
    the number of responses with that status. *)

From Stdlib Require Import ZArith Lia Ascii String SpecFloat.
From stdpp Require Import base tactics numbers list strings gmap.
From S2P Require Import Prelude Effects Floats Auth RateLimit Voices Validation Metrics.
From S2P Require Import Backend Pool PoolSpec Config Http RequestHandler Uuid Server Boot HttpAdapter.
From S2P Require Import Session Service Liveness Abuse Delivery.

#[local] Open Scope Z_scope.

(** ** Summing a history *)

(** The metric updates of every request, in the order they were made. *)
Definition hist_events (hist : list entry) : list (event sysE) :=
  omap (fun en => match en with ECall _ _ _ ev => Some ev | _ => None end) hist.

(** The value of the gauge, and of the counter of [st]. *)
Definition active_jobs_gauge (hist : list entry) : Z := active_gauge (hist_events hist).
Definition counter_of (st : Z) (tr : list (event sysE)) : Z :=
  Z.of_nat (length (filter (fun c => c = st) (counted tr))).
Definition requests_total_counter (st : Z) (hist : list entry) : Z :=
  counter_of st (hist_events hist).

(** Speech requests that were answered with status [st]. *)
Definition answered_with (st : Z) (th : thread) : bool :=
  String.eqb (q_path th.1) "/v1/audio/speech" &&
  match th.2 with Ret ops => bool_decide (SetStatus st ∈ ops) | _ => false end.

Definition count_of {A} (f : A -> bool) (l : list A) : Z :=
  zsum ((fun x => if f x then 1 else 0) <$> l).

Definition returned (th : thread) : Prop :=
  match th.2 with Ret _ => True | _ => False end.

(** ** Lemmas: sums over requests *)

Lemma zsum_seq_update (f g : nat -> Z) (j n : nat) d :
  (j < n)%nat -> g j = f j + d -> (forall i, i <> j -> g i = f i) ->
  zsum (g <$> seq 0 n) = zsum (f <$> seq 0 n) + d.
Proof.
  intros Hj Hg Hother. induction n as [|n IH]; [lia|].
  rewrite seq_S, !fmap_app, !zsum_app. unfold zsum at 2 4. cbn [Nat.add fmap list_fmap fold_right].
  destruct (decide (j = n)) as [->|Hne].
  - assert (g <$> seq 0 n = f <$> seq 0 n) as ->.
    { apply list_fmap_ext. intros k x [-> Hk]%lookup_seq. apply Hother. lia. }
    rewrite Hg. lia.
  - rewrite IH by lia. rewrite Hother by done. lia.
Qed.

Lemma zsum_zero {A} (l : list A) : zsum ((fun _ => 0) <$> l) = 0.
Proof. unfold zsum. induction l as [|x l IH]; [done|exact IH]. Qed.

(** A sum over a history is the sum over its requests. *)
Section PerRequest.
Context (F : list (event sysE) -> Z) (HF0 : F [] = 0) (HF : forall a b, F (a ++ b) = F a + F b).

Lemma sum_by_request hist n :
  (forall i now ins ev, ECall i now ins ev ∈ hist -> (i < n)%nat) ->
  F (hist_events hist) = zsum ((fun i => F (calls_of i hist)) <$> seq 0 n).
Proof.
  intros Hn. induction hist as [|en hist IH] using rev_ind.
  - change (F [] = zsum ((fun _ => F []) <$> seq 0 n)). rewrite HF0. symmetry. apply zsum_zero.
  - assert (F (hist_events hist) = zsum ((fun i => F (calls_of i hist)) <$> seq 0 n)) as IH'.
    { apply IH. intros i now ins ev Hin. apply (Hn i now ins ev). apply elem_of_app. by left. }
    unfold hist_events. rewrite omap_one. destruct en as [j now ins ev|job|job m].
    2-3: rewrite app_nil_r; unfold hist_events in IH'; rewrite IH'; f_equal; apply list_fmap_ext;
      intros k i _; by rewrite calls_of_app, app_nil_r.
    change (option_list (Some ?x)) with [x]. rewrite HF. unfold hist_events in IH'. rewrite IH'.
    symmetry. apply (zsum_seq_update _ _ j).
    + apply (Hn j now ins ev). apply elem_of_app. right. by left.
    + by rewrite calls_of_app, calls_of_call, decide_True, HF by done.
    + intros i Hne. by rewrite calls_of_app, calls_of_call, decide_False, app_nil_r by done.
Qed.
End PerRequest.

Lemma counter_of_app st a b : counter_of st (a ++ b) = counter_of st a + counter_of st b.
Proof. unfold counter_of. rewrite counted_app, filter_app, length_app. lia. Qed.

(** ** Lemmas: the gauge along a request *)

(** Calls that move the gauge or the phase. *)
Definition touches {X} (e : sysE X) (_ : X) : option unit :=
  match e with
  | PoolSubmit _ | AwaitResult | PoolShutdown | HttpNew | HttpConfigure _ _ _ | SetRunning _
  | HttpListen _ _ | HttpStop | HttpDelete => Some tt
  | Metric op => if gauge_delta op =? 0 then None else Some tt
  | _ => None
  end.

Definition gauge_of {X} (e : sysE X) (x : X) : Z :=
  match metric_of e x with Some op => gauge_delta op | None => 0 end.

(** From gauge [g] and phase [ph] on, the gauge stays 0 or 1, is 1 whenever a
    callback is owed, and is 0 at the end, however the program ends. *)
Fixpoint tallied (g : Z) (ph : phase) {A} (p : prog sysE A) {struct p} : Prop :=
  match p with
  | Vis e k => forall x,
      let g' := g + gauge_of e x in
      match session_step ph e x with
      | Some ph' => 0 <= g' <= 1 /\ (ph' = Waiting -> g' = 1) /\ tallied g' ph' (k x)
      | None => False
      end
  | _ => g = 0 /\ ph <> Waiting
  end.

Lemma touches_none {X} (e : sysE X) x ph :
  touches e x = None -> session_step ph e x = Some ph /\ gauge_of e x = 0.
Proof.
  destruct e; cbn; try done. destruct (Z.eqb_spec (gauge_delta op) 0); [|done]. by split.
Qed.

(** A part that touches neither, while nothing is counted or owed. *)
Lemma tallied_mute {A B} (p : prog sysE A) (k : A -> prog sysE B) :
  mute (@touches) p -> (forall a, tallied 0 Fresh (k a)) -> tallied 0 Fresh (p ≫= k).
Proof.
  intros Hp Hk. unfold mbind, prog_bind.
  induction p as [a|e|X e f IH]; cbn [mute pbind tallied] in *; [apply Hk|done|].
  intros x. destruct (Hp x) as [He Hf]. destruct (touches_none e x Fresh He) as [-> ->].
  split; [lia|]. split; [done|]. by apply IH.
Qed.

Lemma tallied_still {A} ph (p : prog sysE A) :
  ph <> Waiting -> mute (@touches) p -> tallied 0 ph p.
Proof.
  intros Hph. induction p as [a|e|X e f IH]; cbn [mute tallied]; [done|done|].
  intros Hm x. destruct (Hm x) as [He Hf]. destruct (touches_none e x ph He) as [-> ->].
  split; [lia|]. split; [done|]. by apply IH.
Qed.

(** What follows the handler touches nothing. *)
Lemma tallied_bind {A B} (p : prog sysE A) (k : A -> prog sysE B) g ph :
  tallied g ph p -> (forall a, mute (@touches) (k a)) -> tallied g ph (p ≫= k).
Proof.
  intros Hp Hk. unfold mbind, prog_bind. revert g ph Hp.
  induction p as [a|e|X e f IH]; intros g ph; cbn [tallied pbind].
  - intros [-> Hph]. by apply tallied_still.
  - done.
  - intros Hp x. specialize (Hp x). destruct (session_step ph e x); [|done].
    destruct Hp as (H1 & H2 & H3). split; [done|]. split; [done|]. by apply IH.
Qed.

Lemma tallied_stop {A} (p : prog sysE A) g ph :
  0 <= g <= 1 -> (ph = Waiting -> g = 1) -> tallied g ph p ->
  exists ph', 0 <= g + active_gauge [] <= 1 /\ (ph' = Waiting -> g + active_gauge [] = 1) /\
    tallied (g + active_gauge []) ph' p.
Proof. intros Hg Hw Hp. exists ph. change (active_gauge []) with 0. by rewrite Z.add_0_r. Qed.

Lemma tallied_steps {A} (p q : prog sysE A) g ph tr :
  0 <= g <= 1 -> (ph = Waiting -> g = 1) -> tallied g ph p -> steps p tr q ->
  exists ph', 0 <= g + active_gauge tr <= 1 /\ (ph' = Waiting -> g + active_gauge tr = 1) /\
    tallied (g + active_gauge tr) ph' q.
Proof.
  revert g ph tr. induction p as [a|e|X e f IH]; intros g ph tr Hg Hw Hp; cbn [steps].
  1-2: intros [[-> ->]|[]]; by apply (tallied_stop _ _ ph).
  intros [[-> ->]|(x & tr' & -> & Hs)]; [by apply (tallied_stop _ _ ph)|].
  specialize (Hp x). cbn zeta in Hp. destruct (session_step ph e x) as [ph1|]; [|done].
  destruct Hp as (H1 & H2 & H3).
  destruct (IH x _ ph1 tr' H1 H2 H3 Hs) as (ph' & H).
  exists ph'. assert (active_gauge (Ev e x :: tr') = gauge_of e x + active_gauge tr') as ->.
  { change (Ev e x :: tr') with ([Ev e x] ++ tr'). rewrite active_gauge_app. f_equal.
    unfold active_gauge, gauge_of, metric_ops, observe. cbn. destruct (metric_of e x); cbn; lia. }
  by rewrite Z.add_assoc.
Qed.

(** A request that is owed a callback counts in the gauge. *)
Lemma waiting_counts {A} (p : prog sysE A) n Q g ph :
  session n Waiting p Q -> (forall ph' a, Q ph' a -> ph' <> Waiting) -> tallied g ph p -> ph = Waiting.
Proof.
  revert n g ph. induction p as [a|e|X e f IH]; intros n g ph Hs HQ; cbn [session tallied] in *.
  - by apply HQ in Hs.
  - done.
  - destruct n as [|n]; [done|]. intros Ht. specialize (Hs (some_answer e)).
    specialize (Ht (some_answer e)). cbn zeta in Ht.
    destruct e; cbn [session_step some_answer] in *;
      try (destruct Ht as (_ & _ & Ht); by eapply IH); try done.
    by destruct ph.
Qed.

Section Routes.
Context {L : JsonLib} (VERSION : string).

#[local] Notation untouched p := (mute (@touches) p).

Lemma set_queue_gauge_untouched : untouched set_queue_gauge.
Proof. unfold set_queue_gauge, metric. mute_solve. Qed.

(** Looks at every control path of a short program. *)
Ltac tallied_solve :=
  repeat first
    [ progress cbn [tallied session_step mbind prog_bind pbind trigger mret prog_ret of_res negb
                    both_callbacks on_success on_error]
    | match goal with |- forall _, _ => intros ? | |- _ /\ _ => split end
    | match goal with |- context [of_res ?r] => destruct r end
    | match goal with |- context [if ?b then _ else _] => destruct b end
    | done | (cbn; lia) ].

Lemma submit_speech_tallied t0 rq : tallied 0 Fresh (submit_speech t0 rq).
Proof.
  unfold submit_speech, set_queue_gauge, finish_speech, server_error, metric. tallied_solve.
Qed.

Lemma run_speech_tallied t0 deps rq : tallied 0 Fresh (run_speech t0 deps rq).
Proof.
  unfold run_speech. apply tallied_mute; [mute_solve|]. intros b.
  destruct b; cbn [negb]; [apply submit_speech_tallied|].
  unfold server_error, metric. tallied_solve.
Qed.

Lemma check_tallied v k : tallied 0 Fresh k -> tallied 0 Fresh (check v k).
Proof. intros Hk. unfold check, reject, metric. destruct (valid v); [exact Hk|]. tallied_solve. Qed.

Lemma handle_speech_tallied req deps : tallied 0 Fresh (handle_speech req deps).
Proof.
  unfold handle_speech. apply tallied_mute; [mute_solve|]. intros t0. apply check_tallied.
  destruct (valid _); cbn [negb]; [|unfold reject, metric; tallied_solve].
  destruct (parse (body req)) as [parsed|[]]; [|unfold metric; tallied_solve..].
  unfold speech_fields.
  repeat (first [apply run_speech_tallied|apply check_tallied
                |apply tallied_mute; [unfold of_res; by case_match|intros ?]]).
Qed.

Lemma begin_request_untouched : untouched begin_request.
Proof. unfold begin_request, generate_request_id, rand32. mute_solve. Qed.

Lemma respond_untouched id resp : untouched (respond id resp).
Proof. unfold respond. mute_solve. Qed.

Lemma middleware_untouched s req : untouched (run_middleware s req).
Proof. unfold run_middleware, authenticate, metric. mute_solve. Qed.

Lemma route_tallied s q p : route VERSION s q = Some p -> tallied 0 Fresh p.
Proof.
  intros Hroute.
  assert (Hprobe : forall h, untouched h -> untouched (probe_route h)).
  { intros h Hh. unfold probe_route. apply mute_bind; [apply begin_request_untouched|]. intros id.
    apply mute_bind; [done|]. intros resp. apply respond_untouched. }
  destruct (route_cases VERSION s q p Hroute) as [[_ ->]|[[_ ->]|[[_ ->]|[[_ ->]|[_ ->]]]]].
  - apply tallied_still, Hprobe; [done|]. unfold handle_health. mute_solve.
  - apply tallied_still, Hprobe; [done|]. unfold handle_ready. mute_solve.
  - apply tallied_still; [done|]. unfold route_metrics, handle_metrics. mute_solve.
  - apply tallied_mute; [apply begin_request_untouched|]. intros id.
    apply tallied_mute; [apply middleware_untouched|]. intros o. apply tallied_still; [done|].
    destruct o; [apply respond_untouched|]. unfold handle_voices.
    apply mute_bind; [mute_solve|]. intros resp. apply respond_untouched.
  - apply tallied_mute; [apply begin_request_untouched|]. intros id. unfold speech_body, slog.
    apply tallied_mute; [mute_solve|]. intros _.
    apply tallied_mute; [apply middleware_untouched|]. intros [resp|].
    { apply tallied_still; [done|apply respond_untouched]. }
    apply tallied_bind; [apply handle_speech_tallied|]. intros resp.
    apply mute_bind; [mute_solve|]. intros _. apply respond_untouched.
Qed.

(** *** The status counted *)

Definition status_of {X} (e : sysE X) (x : X) : option Z :=
  match metric_of e x with Some op => counted_status op | None => None end.

Lemma counted_observe tr : counted tr = observe (@status_of) tr.
Proof.
  unfold counted, metric_ops, observe. induction tr as [|[X e x] tr IH]; [done|].
  cbn [omap list_omap]. unfold status_of. destruct (metric_of e x) as [op|]; [|exact IH].
  cbn [omap list_omap]. by destruct (counted_status op); rewrite IH.
Qed.

Lemma sfoot_counted tr f : sfoot_of tr = f -> counted tr = sf_counted f.
Proof. by intros <-. Qed.

(** What a finished route counted, and what it answered. *)
Definition counts_answer (cs : list Z) (speech : bool) (ops : list response_op) : Prop :=
  (speech = false /\ cs = []) \/
  (exists st, cs = [st] /\ speech = true /\ forall s', SetStatus s' ∈ ops <-> s' = st) \/
  (exists st, cs = [] /\ st ∈ [401; 429] /\ forall s', SetStatus s' ∈ ops <-> s' = st).

End Routes.

Section CountedRoutes.
Context {L : JsonLib} {HL : JsonLaws L} (VERSION : string).

Lemma voices_counted s q tr ops :
  runs (route_voices s q) tr (Ok ops) -> counted tr = [].
Proof.
  intros Hrun. unfold route_voices in Hrun.
  apply runs_bind in Hrun as [(t1 & t2 & id & -> & (id' & _ & [= <-] & Hf1)%begin_request_post & H)
                             |(e & [=] & _)].
  apply runs_bind in H as [(t3 & t4 & o & -> & [Hf2 _]%run_middleware_post & H)|(e & [=] & _)].
  rewrite !counted_app, (sfoot_counted _ _ Hf1), (sfoot_counted _ _ Hf2), counted_observe.
  cbn [app sf_counted sfoot_nil]. eapply mute_runs; [|exact H].
  destruct o; [|unfold handle_voices; apply mute_bind; [mute_solve|intros ?]]; unfold respond; mute_solve.
Qed.

Lemma speech_counted s q tr ops :
  runs (route_speech s q) tr (Ok ops) -> counts_answer (counted tr) true ops.
Proof.
  intros Hrun. unfold route_speech in Hrun.
  apply runs_bind in Hrun as [(t1 & t2 & id & -> & (id' & _ & [= <-] & Hf1)%begin_request_post & H)
                             |(e & [=] & _)].
  unfold speech_body, slog in H. runs_skip H.
  apply runs_bind in H as [(t3 & t4 & o & -> & [Hf2 Hm]%run_middleware_post & H)|(e & [=] & _)].
  rewrite !counted_app, (sfoot_counted _ _ Hf1), (sfoot_counted _ _ Hf2).
  change (counted [Ev (SLog _) _]) with (@nil Z). cbn [app sf_counted sfoot_nil].
  right. destruct o as [resp|].
  - right. destruct Hm as [_ Hm]. apply respond_post in H as [Hf3 [= ->]].
    rewrite (sfoot_counted _ _ Hf3). exists (status resp). split; [done|].
    split; [|intros s'; apply adapted_status].
    destruct Hm as [(-> & _)|[(n & _ & -> & _)|(-> & _)]]; set_solver.
  - left. apply runs_bind in H as [(t5 & t6 & resp & -> & Hh & H)|(e & [=] & _)]. runs_skip H.
    apply respond_post in H as [Hf4 [= ->]]. apply speech_accounting in Hh as (_ & Hc & _).
    rewrite counted_app, Hc. change (counted [Ev (SLog _) _ ] ) with (@nil Z).
    exists (status resp). split; [|split; [done|intros s'; apply adapted_status]].
    rewrite counted_app, (sfoot_counted _ _ Hf4). done.
Qed.

Lemma route_counted s q p tr ops :
  route VERSION s q = Some p -> runs p tr (Ok ops) ->
  counts_answer (counted tr) (String.eqb (q_path q) "/v1/audio/speech") ops.
Proof.
  intros Hroute Hrun.
  assert (Hmute : mute (@status_of) p -> counted tr = []).
  { intros Hm. rewrite counted_observe. by eapply mute_runs. }
  destruct (route_cases VERSION s q p Hroute) as [[Hp ->]|[[Hp ->]|[[Hp ->]|[[Hp ->]|[Hp ->]]]]];
    rewrite Hp; [left; split; [done|]..|].
  - apply Hmute. unfold route_health, probe_route, begin_request, generate_request_id, rand32,
      handle_health, respond. mute_solve.
  - apply Hmute. unfold route_ready, probe_route, begin_request, generate_request_id, rand32,
      handle_ready, respond. mute_solve.
  - apply Hmute. unfold route_metrics, handle_metrics. mute_solve.
  - by eapply voices_counted.
  - by eapply speech_counted.
Qed.
End CountedRoutes.

(** ** Lemmas: histories *)

Lemma count_by_index {A} (f : A -> bool) (l : list A) :
  count_of f l = zsum ((fun i => match l !! i with Some x => if f x then 1 else 0 | None => 0 end)
                         <$> seq 0 (length l)).
Proof.
  unfold count_of. induction l as [|x l IH] using rev_ind; [done|].
  rewrite length_app. cbn [length]. rewrite Nat.add_1_r, seq_S, !fmap_app, !zsum_app.
  cbn [fmap list_fmap Nat.add]. rewrite lookup_app_r, Nat.sub_diag by lia. cbn [lookup list_lookup].
  f_equal. rewrite IH. f_equal. apply list_fmap_ext. intros k i [-> Hk]%lookup_seq.
  by rewrite lookup_app_l.
Qed.

Lemma filter_count {A} (P : A -> Prop) `{!forall x, Decision (P x)} l :
  Z.of_nat (length (filter P l)) = count_of (fun x => bool_decide (P x)) l.
Proof.
  unfold count_of, zsum. induction l as [|x l IH]; [done|]. rewrite filter_cons, fmap_cons.
  cbn [fold_right]. destruct (decide (P x)) as [Hx|Hx];
    [rewrite bool_decide_true by done|rewrite bool_decide_false by done]; cbn [length]; lia.
Qed.

Lemma zsum_le (f g : nat -> Z) l :
  (forall i, i ∈ l -> f i <= g i) -> zsum (f <$> l) <= zsum (g <$> l).
Proof.
  unfold zsum. induction l as [|i l IH]; intros H; [done|]. cbn [fmap list_fmap fold_right].
  pose proof (H i ltac:(by left)).
  assert (fold_right Z.add 0 (f <$> l) <= fold_right Z.add 0 (g <$> l)); [|unfold fmap in *; lia].
  apply IH. intros j Hj. apply H. by right.
Qed.

(** Each job of a list belongs to one request. *)
Lemma count_by_owner n l :
  Forall (fun job => exists i, (i < n)%nat /\ owned i job) l ->
  Z.of_nat (length l) = zsum ((fun i => Z.of_nat (length (filter (owned i) l))) <$> seq 0 n).
Proof.
  induction l as [|job l IH]; intros Hl; [symmetry; apply zsum_zero|].
  apply Forall_cons in Hl as [(j & Hj & Hown) Hl]. specialize (IH Hl).
  rewrite (zsum_seq_update (fun i => Z.of_nat (length (filter (owned i) l))) _ j n 1).
  - cbn [length]. lia.
  - done.
  - rewrite filter_cons_True by done. cbn [length]. lia.
  - intros i Hne. rewrite filter_cons_False; [done|]. intros Hi. by apply Hne, (owned_inj i j job).
Qed.

Section AccountingHistories.
Context {L : JsonLib} {HL : JsonLaws L} (VERSION : string).
Context (it : gmap string AuthLimiter.IpState -> list (string * AuthLimiter.IpState)).
Context (s : TtsServer).

#[local] Notation served := (served VERSION it s).

Lemma served_callers hist v i now ins ev :
  served hist v -> ECall i now ins ev ∈ hist -> (i < length (sv_threads v))%nat.
Proof.
  intros Hs Hin. apply lookup_lt_is_Some. pose proof (served_threads VERSION it s hist v i Hs) as H.
  destruct (sv_threads v !! i); [done|]. apply calls_of_elem in Hin. rewrite H in Hin.
  by apply elem_of_nil in Hin.
Qed.

(** The gauge and the phase of each request. *)
Lemma served_tallied hist v i q p :
  served hist v -> sv_threads v !! i = Some (q, p) ->
  exists ph, 0 <= active_gauge (calls_of i hist) <= 1 /\
    (ph = Waiting -> active_gauge (calls_of i hist) = 1) /\
    tallied (active_gauge (calls_of i hist)) ph p.
Proof.
  intros Hs Hi. pose proof (served_threads VERSION it s hist v i Hs) as H. rewrite Hi in H.
  destruct H as (p0 & Hr & Hst).
  exact (tallied_steps p0 p 0 Fresh _ ltac:(lia) ltac:(done) (route_tallied VERSION s q p0 Hr) Hst).
Qed.

Lemma gauge_by_request hist v :
  served hist v ->
  active_jobs_gauge hist =
  zsum ((fun i => active_gauge (calls_of i hist)) <$> seq 0 (length (sv_threads v))).
Proof.
  intros Hs. apply (sum_by_request active_gauge); [done|apply active_gauge_app|].
  intros i now ins ev. by apply served_callers.
Qed.

(** A job of the pool is owed to a request that counts in the gauge. *)
Lemma pending_counted hist v i :
  served hist v -> (i < length (sv_threads v))%nat ->
  Z.of_nat (length (filter (owned i) (pending (sv_pool v)))) <= active_gauge (calls_of i hist).
Proof.
  intros Hs [[q p] Hi]%lookup_lt_is_Some.
  destruct (served_tallied hist v i q p Hs Hi) as (ph & Hg & Hw & Ht).
  destruct (served_inv VERSION it s hist v Hs) as (ts & HI).
  destruct (Forall2_lookup_l _ _ _ _ _ (inv_typed _ _ HI) Hi) as ([n ph'] & Hti & Hty).
  pose proof (inv_owed _ _ HI i) as Ho. rewrite Hti in Ho. unfold owed, due in Ho. cbn [snd] in Ho.
  destruct (decide (ph' = Waiting)) as [->|]; [|lia].
  rewrite Hw; [lia|]. by eapply waiting_counts.
Qed.

Lemma owner_arrived hist v job :
  served hist v -> job ∈ pending (sv_pool v) ->
  exists i, (i < length (sv_threads v))%nat /\ owned i job.
Proof.
  intros Hs Hj. destruct (served_inv VERSION it s hist v Hs) as (ts & HI).
  destruct (proj1 (Forall_forall _ _) (inv_owned _ _ HI) job Hj) as [i Hi]. exists i. split; [|done].
  rewrite (Forall2_length _ _ _ (inv_typed _ _ HI)). apply lookup_lt_is_Some.
  pose proof (inv_owed _ _ HI i) as Ho. destruct (ts !! i); [done|exfalso].
  assert (job ∈ filter (owned i) (pending (sv_pool v))) as Hin by by apply list_elem_of_filter.
  unfold owed in Ho. destruct (filter (owned i) (pending (sv_pool v))); [by apply elem_of_nil in Hin|].
  cbn [length] in Ho. lia.
Qed.

Lemma gauge_lower hist v :
  served hist v -> Z.of_nat (length (pending (sv_pool v))) <= active_jobs_gauge hist.
Proof.
  intros Hs. rewrite (gauge_by_request hist v Hs), (count_by_owner (length (sv_threads v))).
  - apply zsum_le. intros i [_ Hi]%elem_of_seq. by apply pending_counted.
  - apply Forall_forall. intros job Hj. by eapply owner_arrived.
Qed.

Lemma gauge_upper hist v :
  served hist v -> active_jobs_gauge hist <= Z.of_nat (length (filter unfinished (sv_threads v))).
Proof.
  intros Hs. rewrite (gauge_by_request hist v Hs), filter_count, count_by_index.
  apply zsum_le. intros i [_ [[q p] Hi]%lookup_lt_is_Some]%elem_of_seq. rewrite Hi.
  destruct (served_tallied hist v i q p Hs Hi) as (ph & Hg & _ & Ht).
  destruct p; cbn [tallied] in Ht; cbn; try destruct Ht as [-> _]; lia.
Qed.

Lemma counter_by_request hist v st :
  served hist v -> Forall returned (sv_threads v) -> st <> 401 -> st <> 429 ->
  requests_total_counter st hist = count_of (answered_with st) (sv_threads v).
Proof.
  intros Hs Hret H401 H429. rewrite count_by_index. unfold requests_total_counter.
  rewrite (sum_by_request (counter_of st) eq_refl (counter_of_app st) hist (length (sv_threads v))).
  2: { intros i now ins ev. by apply served_callers. }
  f_equal. apply list_fmap_ext. intros k i [-> Hk]%lookup_seq.
  apply lookup_lt_is_Some in Hk as [[q p] Hi]. cbn [Nat.add]. rewrite Hi.
  pose proof (proj1 (Forall_lookup _ _) Hret k _ Hi) as Hp. unfold returned in Hp. cbn [snd] in Hp.
  destruct p as [ops|e|X e f]; [|done..].
  destruct (served_finished VERSION it s hist v k q ops Hs Hi) as (p0 & Hr & Hrun).
  apply (route_counted VERSION s q p0 _ ops Hr) in Hrun.
  unfold answered_with, counter_of. cbn [fst snd].
  destruct Hrun as [[-> ->]|[(st' & -> & -> & Hst)|(st' & -> & Hin & Hst)]]; [done| |].
  - cbn [andb]. rewrite filter_cons. destruct (decide (st' = st)) as [->|Hne].
    + rewrite bool_decide_true by by apply Hst. done.
    + rewrite bool_decide_false; [done|]. intros H%Hst. congruence.
  - rewrite bool_decide_false, andb_false_r; [done|]. intros H%Hst. subst. set_solver.
Qed.
End AccountingHistories.

(** ** Properties *)

Section AccountingProperties.
Context {L : JsonLib} {HL : JsonLaws L} (VERSION : string).
Context (it : gmap string AuthLimiter.IpState -> list (string * AuthLimiter.IpState)).
Context (s : TtsServer).

#[local] Notation served := (served VERSION it s).

(** C21: the metrics add up: at every moment the gauge of active jobs is at
    least the number of jobs the pool still owes an answer for and at most the
    number of requests that have not ended; and once all requests have returned
    a response the gauge is 0 and, for every status but the two of the
    middleware, the counter of that status is the number of speech requests
    answered with it. *)
Theorem metrics_conserved hist v (Hserved : served hist v) :
  Z.of_nat (length (pending (sv_pool v))) <= active_jobs_gauge hist <=
    Z.of_nat (length (filter unfinished (sv_threads v))) /\
  (Forall returned (sv_threads v) ->
   active_jobs_gauge hist = 0 /\
   forall st, st <> 401 -> st <> 429 ->
     requests_total_counter st hist = count_of (answered_with st) (sv_threads v)).
Proof.
  pose proof (gauge_lower VERSION it s hist v Hserved).
  pose proof (gauge_upper VERSION it s hist v Hserved) as Hup.
  split; [done|]. intros Hret. split; [|intros st; by apply (counter_by_request VERSION it s hist v)].
  assert (filter unfinished (sv_threads v) = []) as Hnone.
  { clear -Hret. induction Hret as [|[q p] ths Hp _ IH]; [done|].
    rewrite filter_cons_False; [exact IH|]. destruct p; cbn in *; tauto. }
  rewrite Hnone in Hup. cbn in Hup. lia.
Qed.
End AccountingProperties.

(** ** Witness: the one request of [LivenessWitness.whole], answered 200 *)

Module AccountingWitness.
Import HandlerWitness AdapterWitness LivenessWitness.

Lemma whole_all_returned : Forall returned (sv_threads whole.2).
Proof.
  assert (forallb (fun th : thread => match th.2 with Ret _ => true | _ => false end)
            (sv_threads whole.2) = true) as H by by vm_compute.
  apply Forall_forall. intros [q p] Hin. apply list_elem_of_In in Hin.
  apply (proj1 (forallb_forall _ _) H) in Hin. by destruct p.
Qed.

Lemma whole_counter : requests_total_counter 200 whole.1 = 1.
Proof. by vm_compute. Qed.

Lemma metrics_conserved_witness :
  Forall returned (sv_threads whole.2) /\ requests_total_counter 200 whole.1 = 1 /\
  Z.of_nat (length (pending (sv_pool whole.2))) <= active_jobs_gauge whole.1 <=
    Z.of_nat (length (filter unfinished (sv_threads whole.2))) /\
  (Forall returned (sv_threads whole.2) ->
   active_jobs_gauge whole.1 = 0 /\
   forall st, st <> 401 -> st <> 429 ->
     requests_total_counter st whole.1 = count_of (answered_with st) (sv_threads whole.2)).
Proof.
  split; [exact whole_all_returned|]. split; [exact whole_counter|].
  exact (metrics_conserved "1.0" toy_it server whole.1 whole.2 whole_served).
Defined.
End AccountingWitness.
