(* ===== verification/Secrecy.v ===== *)
(** * The API key stays secret

    [config.hpp] says of [api_key]: never log this value.  The process ([main]
    of [src/main.cpp]) and the service of [Service] are compared with copies of
    themselves that hold another key.  The start-up makes the same calls, so
    no log line, no output and no call on a library depends on the key beyond
    its being empty; and the copies serve the same histories as long as every
    client presents a key that both accept or both reject, so whatever clients
    and logs see of the service tells only which presented keys were right. *)

From Stdlib Require Import ZArith Lia Ascii String SpecFloat.
From stdpp Require Import base tactics numbers list strings gmap.
From S2P Require Import Prelude Effects Floats Auth RateLimit Voices Validation Metrics.
From S2P Require Import Backend Pool PoolSpec Config Http RequestHandler Uuid Server Boot HttpAdapter.
From S2P Require Import Session Service Liveness Abuse Logger Main.

#[local] Open Scope Z_scope.

#[local] Notation served := Service.served.

(** ** The same thing with another key *)

Definition env_with_key (k : string) (env : environment) : environment :=
  fun name => if String.eqb name "TTS_API_KEY" then Some k else env name.

Definition with_api_key (k : string) (cfg : ServerConfig) : ServerConfig :=
  mk_server_config (host cfg) (port cfg) (max_connections cfg) (model_path cfg)
    (default_voice cfg) (max_queue_depth cfg) (workers cfg) (max_input_chars cfg)
    (request_timeout_seconds cfg) k (require_auth cfg) (auth_rate_limit_max cfg)
    (auth_rate_limit_window cfg) (request_rate_limit_rpm cfg) (trust_proxy cfg)
    (trusted_proxy_hops cfg) (cfg_log_level cfg) (cfg_log_format cfg) (config_path cfg).

Definition rekey (k : string) (s : TtsServer) : TtsServer :=
  mk_server (with_api_key k (config_ s)) (backend_ s) (voice_catalog_ s) (pool_ s)
    (auth_limiter_ s) (request_limiter_ s) (start_time_ s) (initialized_ s).

(** The keys agree on whether a request is authenticated. *)
Definition keys_agree (k1 k2 : string) (q : HttplibRequest) : Prop :=
  let h := header (adapt_request q) "authorization" in
  authenticated (check_bearer_auth h k1) = authenticated (check_bearer_auth h k2).

(** ** Lemmas: the start-up *)

Lemma env_overrides_rekey k1 k2 env cfg :
  apply_env_overrides (env_with_key k2 env) cfg =
  (with_api_key k2 (apply_env_overrides (env_with_key k1 env) cfg).1,
   (apply_env_overrides (env_with_key k1 env) cfg).2).
Proof. reflexivity. Qed.

Lemma validate_rekey k cfg :
  sempty k = sempty (api_key cfg) -> validate (with_api_key k cfg) = validate cfg.
Proof. intros Hk. unfold validate. cbn. by rewrite Hk. Qed.

Lemma load_rekey k1 k2 env path :
  alike (fun c1 c2 => api_key c1 = k1 /\ c2 = with_api_key k2 c1)
    (from_file_and_env (env_with_key k1 env) path) (from_file_and_env (env_with_key k2 env) path).
Proof.
  unfold from_file_and_env. apply alike_seq. intros cfg. cbn zeta.
  rewrite (env_overrides_rekey k1 k2). cbn [fst snd]. apply alike_seq. intros []. by constructor.
Qed.

Lemma server_new_rekey k cfg b c :
  alike (fun s1 s2 => s2 = rekey k s1) (server_new cfg b c) (server_new (with_api_key k cfg) b c).
Proof. apply alike_seq. intros now. by constructor. Qed.

Lemma server_initialize_rekey k s :
  alike (fun r1 r2 => r2 = (r1.1, rekey k r1.2)) (server_initialize s) (server_initialize (rekey k s)).
Proof.
  unfold server_initialize. cbn [initialized_ backend_ config_ rekey].
  destruct (initialized_ s); [apply alike_seq; by constructor|].
  destruct (backend_ s); cbn [negb]; [|apply alike_seq; by constructor].
  apply alike_seq. intros []; cbn [negb]; [|apply alike_seq; by constructor].
  change (max_queue_depth (with_api_key k (config_ s))) with (max_queue_depth (config_ s)).
  change (request_timeout_seconds (with_api_key k (config_ s)))
    with (request_timeout_seconds (config_ s)).
  destruct (pool_create _ _ _) as [[p ?]|e]; [|apply alike_seq; by constructor].
  apply alike_seq. intros _. apply alike_seq. by constructor.
Qed.

Lemma server_shutdown_rekey k s :
  alike (fun s1 s2 => s2 = rekey k s1) (server_shutdown s) (server_shutdown (rekey k s)).
Proof.
  unfold server_shutdown. cbn [initialized_ pool_ rekey].
  destruct (initialized_ s); cbn [negb]; [|by constructor].
  do 3 (apply alike_seq; intros _). by constructor.
Qed.

Lemma server_destroy_rekey k s : alike eq (server_destroy s) (server_destroy (rekey k s)).
Proof.
  unfold server_destroy. cbn [initialized_ rekey]. eapply alike_bind.
  - destruct (initialized_ s); [apply (server_shutdown_rekey k)|]. by constructor.
  - intros s1 s2 ->. apply alike_refl. done.
Qed.

Section Startup.
Context (VERSION : string) (has_engine : bool) (rate : Z).

Lemma serve_rekey k cfg b s :
  alike eq (serve has_engine rate cfg b s) (serve has_engine rate (with_api_key k cfg) b (rekey k s)).
Proof.
  unfold serve. cbn [host port with_api_key]. do 5 (apply alike_seq; intros _).
  apply (alike_bind eq); [by apply alike_refl|]. intros ok ? <-. do 2 (apply alike_seq; intros _).
  eapply alike_bind; [apply alike_interp, (server_shutdown_rekey k)|]. intros s1 s2 ->.
  do 2 (apply alike_seq; intros _).
  eapply alike_bind; [apply alike_interp, (server_destroy_rekey k)|]. intros ? ? _.
  apply alike_refl. done.
Qed.

Lemma start_server_rekey k cfg b :
  alike eq (start_server has_engine rate cfg b) (start_server has_engine rate (with_api_key k cfg) b).
Proof.
  unfold start_server. eapply alike_bind; [apply alike_interp, (server_new_rekey k)|]. intros s1 s2 ->.
  eapply alike_bind; [apply alike_interp, (server_initialize_rekey k)|]. intros [ok s] r2 ->.
  cbn [fst snd]. destruct ok; cbn [negb]; [apply serve_rekey|].
  apply alike_seq. intros _.
  eapply alike_bind; [apply alike_interp, (server_destroy_rekey k)|]. intros ? ? _.
  apply alike_refl. done.
Qed.

Lemma start_with_rekey k cfg :
  sempty k = sempty (api_key cfg) ->
  alike eq (start_with VERSION has_engine rate cfg)
    (start_with VERSION has_engine rate (with_api_key k cfg)).
Proof.
  intros Hk. unfold start_with. rewrite (validate_rekey k cfg Hk).
  change (logging_initialize (with_api_key k cfg)) with (logging_initialize cfg).
  do 3 (apply alike_seq; intros _). destruct (validate cfg) as [[]|e]; [|by apply alike_refl].
  assert (log_auth_status (with_api_key k cfg) = log_auth_status cfg) as ->.
  { unfold log_auth_status. cbn [require_auth api_key with_api_key]. by rewrite Hk. }
  apply alike_seq. intros []; cbn [negb]; [|by apply alike_refl].
  do 2 (apply alike_seq; intros _). unfold start_backend. apply alike_seq. intros [ok b].
  cbn [fst snd]. destruct ok; cbn [negb]; [|by apply alike_refl].
  do 2 (apply alike_seq; intros _). apply start_server_rekey.
Qed.
End Startup.

(** ** Lemmas: the routes *)

Lemma check_same h k1 k2 :
  authenticated (check_bearer_auth h k1) = authenticated (check_bearer_auth h k2) ->
  check_bearer_auth h k1 = check_bearer_auth h k2.
Proof.
  unfold check_bearer_auth. destruct (sempty h); [done|]. destruct (_ || _); [done|].
  by do 2 destruct (constant_time_equals _ _).
Qed.

Section Routes.
Context {L : JsonLib} (VERSION : string) (k : string) (s : TtsServer) (q : HttplibRequest).
Context (Hagree : keys_agree (api_key (config_ s)) k q).

Lemma authenticate_rekey ip :
  authenticate (with_api_key k (config_ s)) (adapt_request q) ip =
  authenticate (config_ s) (adapt_request q) ip.
Proof.
  unfold authenticate. cbn [require_auth api_key with_api_key].
  by rewrite <- (check_same _ _ _ Hagree).
Qed.

Lemma run_middleware_rekey :
  run_middleware (rekey k s) (adapt_request q) = run_middleware s (adapt_request q).
Proof.
  unfold run_middleware. cbn [config_ rekey]. cbn zeta.
  change (client_ip (with_api_key k (config_ s))) with (client_ip (config_ s)).
  by rewrite authenticate_rekey.
Qed.

Lemma route_rekey : route VERSION (rekey k s) q = route VERSION s q.
Proof.
  unfold route, route_voices, route_speech, speech_body. by rewrite run_middleware_rekey.
Qed.
End Routes.

(** ** Lemmas: the service *)

Section Copies.
Context {L : JsonLib} (VERSION : string).
Context (it : gmap string AuthLimiter.IpState -> list (string * AuthLimiter.IpState)).

(** The requests that have arrived, which are never forgotten. *)
Definition arrived_requests (v : service) : list HttplibRequest := (sv_threads v).*1.

Lemma step_requests s v o v' :
  svc_step VERSION it s v o v' -> arrived_requests v `prefix_of` arrived_requests v'.
Proof.
  unfold arrived_requests.
  destruct 1 as [v q p Hr|v i q X e f x now ins v' Hi _ Hc| | | |]; try done.
  - cbn [sv_threads with_threads]. rewrite fmap_app. by apply prefix_app_r.
  - cbn [sv_threads resume with_time with_threads]. rewrite list_fmap_insert. cbn [fst].
    rewrite (proj1 (call_frame it s i now ins _ e v x v' Hc)).
    rewrite list_insert_id; [done|]. rewrite list_lookup_fmap.
    exact (f_equal (fmap (M := option) fst) Hi).
Qed.

Lemma step_rekey k s v o v' :
  Forall (keys_agree (api_key (config_ s)) k) (arrived_requests v') ->
  svc_step VERSION it s v o v' -> svc_step VERSION it (rekey k s) v o v'.
Proof.
  intros Hagree. destruct 1 as [v q p Hr|v i q X e f x now ins v' Hi H1 Hc|v job a Ha|v job n a Hh Ha|v a Ha|v a Ha].
  - apply step_arrive. rewrite route_rekey; [done|].
    unfold arrived_requests in Hagree. cbn [sv_threads with_threads] in Hagree.
    rewrite fmap_app in Hagree. apply Forall_app in Hagree as [_ Hq]. by apply Forall_cons in Hq as [? _].
  - by apply step_call.
  - by apply step_take.
  - by apply step_answer.
  - by apply step_close.
  - by apply step_exit.
Qed.

Lemma served_rekey k s hist v :
  Forall (keys_agree (api_key (config_ s)) k) (arrived_requests v) ->
  served VERSION it s hist v -> served VERSION it (rekey k s) hist v.
Proof.
  intros Hagree Hs. induction Hs as [t|hist v o v' Hs IH Hstep].
  - exact (served_init VERSION it (rekey k s) t).
  - eapply served_step; [|by apply step_rekey]. apply IH.
    destruct (step_requests s v o v' Hstep) as [rest Hr]. rewrite Hr in Hagree.
    by apply Forall_app in Hagree as [? _].
Qed.

Lemma rekey_back k s : rekey (api_key (config_ s)) (rekey k s) = s.
Proof. by destruct s as [[] ? ? ? ? ? ? ?]. Qed.
End Copies.

(** ** Properties *)

(** C16: the process never reveals the key: two processes whose environments
    differ only in a non-empty (or empty) API key make exactly the same calls,
    with the same arguments, under the same answers, and end alike: no log line,
    no output, no request to a library depends on it. *)
Theorem process_hides_key VERSION has_engine rate env program args k1 k2 tr r
    (Hk : sempty k1 = sempty k2) :
  runs (main VERSION has_engine rate (env_with_key k1 env) program args) tr r <->
  runs (main VERSION has_engine rate (env_with_key k2 env) program args) tr r.
Proof.
  apply alike_runs. unfold main.
  change (env_with_key k2 env "TTS_CONFIG_PATH") with (env_with_key k1 env "TTS_CONFIG_PATH").
  destruct (parse_args args _) as [| | |path]; [by apply alike_refl..|].
  eapply alike_bind; [apply alike_interp, (load_rekey k1 k2)|].
  intros c1 c2 [Hc ->]. apply start_with_rekey. by rewrite Hc.
Qed.

(** C17: the service never reveals the key: as long as each request presents a
    token that the server's key and another key both accept or both reject, the
    server and its copy with the other key serve exactly the same histories, with
    the same states of the limiters, the pool and the requests: every response,
    log line and metric is the same. *)
Theorem service_hides_key {L : JsonLib} VERSION it s k hist v
    (Hagree : Forall (keys_agree (api_key (config_ s)) k) (arrived_requests v)) :
  served VERSION it s hist v <-> served VERSION it (rekey k s) hist v.
Proof.
  split; [by apply served_rekey|]. intros Hs.
  rewrite <- (rekey_back k s). apply served_rekey; [|done].
  eapply Forall_impl; [exact Hagree|]. intros q. unfold keys_agree. by intros ->.
Qed.

(** ** Witnesses *)

Module SecrecyWitness.
Import HandlerWitness AdapterWitness LivenessWitness AbuseWitness.

Definition auth_env : environment := fun n =>
  if String.eqb n "TTS_REQUIRE_AUTH" then Some "true"%string
  else if String.eqb n "TTS_MODEL_PATH" then Some "/m"%string else None.

Definition process_with (k : string) : prog mainE Z :=
  main "1.0.0" true 24000 (env_with_key k auth_env) "voxtral-server" ["--config"; "site.toml"]%string.
Definition secret_trace : list (event mainE) :=
  match exec MainWitness.answers (process_with "secret") tt with Some (tr, _, _) => tr | None => [] end.

Lemma secret_runs : runs (process_with "secret") secret_trace (Ok 0).
Proof.
  apply (exec_runs MainWitness.answers (process_with "secret") tt secret_trace (Ok 0) tt).
  vm_compute. reflexivity.
Qed.

Lemma process_hides_key_witness :
  runs (process_with "secret") secret_trace (Ok 0) /\
  (runs (process_with "secret") secret_trace (Ok 0) <->
   runs (process_with "hidden") secret_trace (Ok 0)).
Proof.
  split; [exact secret_runs|].
  exact (process_hides_key "1.0.0" true 24000 auth_env "voxtral-server"
    ["--config"%string; "site.toml"%string] "secret" "hidden" secret_trace (Ok 0) eq_refl).
Defined.

(** The guesses of [AbuseWitness.attack] do not tell "secret" from "hidden". *)
Lemma guesses_agree :
  Forall (keys_agree (api_key (config_ strict)) "hidden") (arrived_requests (attack 4).2).
Proof.
  assert (arrived_requests (attack 4).2 = [post "guess"; post "guess"; post "guess"; post "guess"])
    as -> by by vm_compute.
  repeat (constructor; [by vm_compute|]). constructor.
Qed.

Lemma service_hides_key_witness :
  served "1.0" toy_it strict (attack 4).1 (attack 4).2 /\
  (served "1.0" toy_it strict (attack 4).1 (attack 4).2 <->
   served "1.0" toy_it (rekey "hidden" strict) (attack 4).1 (attack 4).2).
Proof.
  split; [exact (attack_served 4)|].
  exact (service_hides_key "1.0" toy_it strict "hidden" (attack 4).1 (attack 4).2 guesses_agree).
Defined.
End SecrecyWitness.
