(* ===== verification/System.v ===== *)
(** * The service over the pool as it is implemented

    [Service] talks to the pool through its contract ([PoolSpec]).  Here the
    request threads run against the pool of [Pool] itself: a call of a pool
    method is one of the pool's client programs, executed effect by effect
    (clock reading, critical section, notification, logging) and interleaved
    with the worker loop, the other requests and [shutdown()], and the worker's
    callbacks run the closures of [handle_speech].  Every execution of this
    system is an execution of [Service], so what is proved of [Service] holds of
    it. *)

From Stdlib Require Import ZArith Lia Ascii String SpecFloat.
From stdpp Require Import base tactics numbers list strings gmap.
From S2P Require Import Prelude Effects Floats Auth RateLimit Voices Validation Metrics.
From S2P Require Import Backend Pool PoolSpec Config Http RequestHandler Uuid Server Boot HttpAdapter.
From S2P Require Import Session Service Liveness Abuse Delivery Order.

#[local] Open Scope Z_scope.

(** ** State *)

(** A request thread runs its route, or is inside the pool method that the
    pool runs as client [c] and goes on with its answer. *)
Inductive activity :=
| Serving (p : prog sysE (list response_op))
| Calling (c : nat) (k : pool_answer -> prog sysE (list response_op)).

Record system := mk_system {
  y_auth : AuthLimiter.AuthRateLimiter;
  y_requests : RequestLimiter.RequestRateLimiter;
  y_time : Z;
  y_cells : gmap nat outcome;
  y_threads : list (HttplibRequest * activity);
  y_pool : Pool.sys;
}.

Definition y_with_limiters A R (y : system) : system :=
  mk_system A R (y_time y) (y_cells y) (y_threads y) (y_pool y).
Definition y_with_cells c (y : system) : system :=
  mk_system (y_auth y) (y_requests y) (y_time y) c (y_threads y) (y_pool y).
Definition y_with_threads ts (y : system) : system :=
  mk_system (y_auth y) (y_requests y) (y_time y) (y_cells y) ts (y_pool y).
Definition y_with_pool ps t (y : system) : system :=
  mk_system (y_auth y) (y_requests y) t (y_cells y) (y_threads y) ps.

Definition y_set_thread (i : nat) (th : HttplibRequest * activity) (t : Z) (y : system) : system :=
  mk_system (y_auth y) (y_requests y) t (y_cells y) (<[i := th]> (y_threads y)) (y_pool y).

(** ** Calls of the pool *)

(** The job with the closures of request [i]. *)
Definition bind_job (i : nat) (job : InferenceJob) : InferenceJob :=
  mk_job (request job) (deadline job)
    ((fun _ => success_handle i) <$> on_success job) ((fun _ => error_handle i) <$> on_error job).

Definition ans_bool (a : pool_answer) : bool := match a with AnsBool b => b | _ => false end.
Definition ans_int (a : pool_answer) : Z := match a with AnsInt n => n | _ => 0 end.

(** The method a call of the handler is, and how its answer is read. *)
Definition pool_method (i : nat) {X} (e : sysE X) : option (pool_call * (pool_answer -> X)) :=
  match e in sysE X return option (pool_call * (pool_answer -> X)) with
  | PoolIsAccepting => Some (CIsAccepting, ans_bool)
  | PoolQueueDepth => Some (CQueueDepth, ans_int)
  | PoolSubmit job => Some (CSubmit (bind_job i job), ans_bool)
  | _ => None
  end.

(** The clock after the pool made the calls of [tr]. *)
Definition time_after (t : Z) (tr : trace) : Z :=
  match readings (snd <$> tr) with r :: _ => r | [] => t end.

(** The closures called store their result in the cell of their request. *)
Definition run_closures (ns : list notice) (y : system) : system :=
  y_with_cells (foldl (fun cs n => <[(notice_cell n).1 := (notice_cell n).2]> cs) (y_cells y) ns) y.

Section System.
Context {L : JsonLib} (VERSION : string).
Context (it : gmap string AuthLimiter.IpState -> list (string * AuthLimiter.IpState)).
Context (s : TtsServer).

Definition pool_config : PoolConfig := mk_config (depth s) (timeout s).

(** Calls on the limiters and the wait for the result, as in
    [Service.shared_call]. *)
Definition local_call (i : nat) (now ins : Z) {X} (e : sysE X) (y : system)
    : option (option (X * system)) :=
  match e in sysE X return option (option (X * system)) with
  | AuthIsBlocked ip =>
      let '(b, A) := AuthLimiter.is_blocked (y_auth y) now ip in
      Some (Some (b, y_with_limiters A (y_requests y) y))
  | AuthRecordFailure ip =>
      let '(b, A) := AuthLimiter.check_and_record_failure it (y_auth y) now ins ip in
      Some (Some (b, y_with_limiters A (y_requests y) y))
  | CheckRequest ip =>
      let '(n, R) := RequestLimiter.check_request (y_requests y) now ins ip in
      Some (Some (n, y_with_limiters (y_auth y) R y))
  | AwaitResult =>
      match y_cells y !! i with
      | Some o => Some (Some (o, y_with_cells (delete i (y_cells y)) y))
      | None => Some None
      end
  | _ => None
  end.

Definition local_answers (i : nat) (now ins : Z) {X} (e : sysE X) (y : system) (x : X)
    (y' : system) : Prop :=
  match local_call i now ins e y with Some r => r = Some (x, y') | None => y' = y end.

(** ** Steps *)

Definition is_submit (c : pool_call) : bool := match c with CSubmit _ => true | _ => false end.

(** Who makes a step. *)
Inductive actor := Arrival | Request (i : nat) | Method (c : nat) (o : oracle) | Other | Worker (o : oracle).

(** A request arrives; it makes a call outside the pool; it enters a pool
    method; a pool method, of a request or of another thread, makes a step; the
    request leaves the method; another thread calls a method, such as
    [shutdown()]; the worker makes a step, its callbacks being the closures of
    the requests, which do not throw. *)
Inductive system_step : system -> actor -> trace -> system -> Prop :=
| sy_arrive y q p :
    route VERSION s q = Some p ->
    system_step y Arrival [] (y_with_threads (y_threads y ++ [(q, Serving p)]) y)
| sy_local y i q X (e : sysE X) k x now ins y' :
    y_threads y !! i = Some (q, Serving (Vis e k)) -> pool_method i e = None ->
    y_time y <= now -> now <= ins -> local_answers i now ins e y x y' ->
    system_step y (Request i) [] (y_set_thread i (q, Serving (k x)) ins y')
| sy_enter y i q X (e : sysE X) k c dec ps :
    y_threads y !! i = Some (q, Serving (Vis e k)) -> pool_method i e = Some (c, dec) ->
    sys_step pool_config (LCall c) (y_pool y) = Some (ps, []) ->
    system_step y (Request i) []
      (y_set_thread i (q, Calling (length (clients (y_pool y))) (fun a => k (dec a))) (y_time y)
         (y_with_pool ps (y_time y) y))
| sy_client y c o ps tr :
    sys_step pool_config (LClient c o) (y_pool y) = Some (ps, tr) ->
    y_time y <= time_after (y_time y) tr ->
    system_step y (Method c o) tr (y_with_pool ps (time_after (y_time y) tr) y)
| sy_leave y i q c k a :
    y_threads y !! i = Some (q, Calling c k) -> clients (y_pool y) !! c = Some (Ret a) ->
    system_step y (Request i) [] (y_set_thread i (q, Serving (k a)) (y_time y) y)
| sy_other y c ps :
    is_submit c = false -> sys_step pool_config (LCall c) (y_pool y) = Some (ps, []) ->
    system_step y Other [] (y_with_pool ps (y_time y) y)
| sy_worker y o ps tr :
    sys_step pool_config (LWorker o) (y_pool y) = Some (ps, tr) -> o_callback o = Ok tt ->
    y_time y <= time_after (y_time y) tr ->
    system_step y (Worker o) tr
      (run_closures (notices (worker_trace tr)) (y_with_pool ps (time_after (y_time y) tr) y)).

(** Executions, with the trace of the pool. *)
Inductive deployed : trace -> system -> Prop :=
| deployed_init t st :
    pool_create true (depth s) (timeout s) = Ok (pool_config, st) ->
    deployed [] (mk_system (auth_limiter_ s) (request_limiter_ s) t ∅ [] (sys_init st))
| deployed_step tr y a tr' y' :
    deployed tr y -> system_step y a tr' y' -> deployed (tr ++ tr') y'.
End System.

(** A step without a spurious wake-up, at a reading not before [t]. *)
Definition oracle_at (r : SynthesisResult) (t : Z) (ps : Pool.sys) : oracle :=
  mk_oracle (Z.to_N (Z.max 0 (t - clock (shared ps)))) false (Ok r) (Ok tt).

Lemma oracle_at_time cfg r t ps b b' X (e : poolE X) x st :
  perform cfg b (oracle_at r t ps) e (shared ps) = Some (x, st) -> t <= time_after t [(b', Ev e x)].
Proof.
  intros H. destruct e; try (cbn; lia). cbn in H. injection H as <- _.
  unfold time_after. cbn. rewrite Z2N.id; lia.
Qed.

(** ** Lemmas: where a request is inside a pool method *)

(** A program that only notifies and logs before it returns [a]. *)
Fixpoint returns {A} (a : A) (m : prog poolE A) : Prop :=
  match m with
  | Ret a' => a' = a
  | Throw _ => False
  | Vis e k =>
      match e with Notify | PLog _ => True | _ => False end /\ forall x, returns a (k x)
  end.

Fixpoint no_submit {A} (m : prog poolE A) : Prop :=
  match m with
  | Vis e k => match e with LockSubmit _ => False | _ => True end /\ forall x, no_submit (k x)
  | _ => True
  end.

Lemma returns_no_submit {A} (a : A) m : returns a m -> no_submit m.
Proof.
  induction m as [a'|e|X e k IH]; cbn; [done..|]. intros [He Hk].
  split; [by destruct e|]. intros x. by apply IH.
Qed.

Lemma call_no_submit cfg c : is_submit c = false -> no_submit (call_prog cfg c).
Proof.
  destruct c; [done|..]; intros _; unfold call_prog, shutdown, queue_depth, active_jobs,
    is_accepting, expired_jobs, call; cbn; repeat split; intros;
    repeat match goal with
    | |- context [if ?b then _ else _] => destruct b; cbn
    | |- context [of_res ?r] => destruct r; cbn
    | |- _ /\ _ => split
    | |- forall _, _ => intros ?
    end; done.
Qed.

Section Simulation.
Context {L : JsonLib} {HL : JsonLaws L} (VERSION : string).
Context (it : gmap string AuthLimiter.IpState -> list (string * AuthLimiter.IpState)).
Context (s : TtsServer) (Hdepth : in_int (depth s)).

#[local] Notation cfg := (pool_config s).
#[local] Notation svc_step := (svc_step VERSION it s).
#[local] Notation served := (served VERSION it s).

(** [submit()] once the deadline is set. *)
Definition submit_stamped (job : InferenceJob) : prog poolE pool_answer :=
  r ← trigger (LockSubmit job);
  b ← match r with
      | NotAccepting => mret false
      | Full size =>
          _ ← plog warn "InferencePool — queue full ({}/{} jobs), rejecting request"
                [AInt size; AInt (depth s)];
          mret false
      | Pushed => _ ← trigger Notify; mret true
      end;
  mret (AnsBool b).

(** What [m], run for request [i] that goes on with [k], is to the program
    [p] of the contract: before its critical section, or after it. *)
Inductive at_call (i : nat) (t : Z) (k : pool_answer -> prog sysE (list response_op))
    : prog poolE pool_answer -> prog sysE (list response_op) -> Prop :=
| at_now job k0 :
    (forall a, k a = k0 (ans_bool a)) ->
    at_call i t k (Vis Now (fun n => submit_stamped (own_job i (timeout s) n job)))
      (Vis (PoolSubmit job) k0)
| at_submit job k0 r :
    (forall a, k a = k0 (ans_bool a)) -> r <= t ->
    at_call i t k (submit_stamped (own_job i (timeout s) r job)) (Vis (PoolSubmit job) k0)
| at_accepting k0 :
    (forall a, k a = k0 (ans_bool a)) ->
    at_call i t k (call_prog cfg CIsAccepting) (Vis PoolIsAccepting k0)
| at_depth k0 :
    (forall a, k a = k0 (ans_int a)) ->
    at_call i t k (call_prog cfg CQueueDepth) (Vis PoolQueueDepth k0)
| at_done m a : returns a m -> at_call i t k m (k a).

Lemma at_call_later i t t' k m p : t <= t' -> at_call i t k m p -> at_call i t' k m p.
Proof. intros Ht. destruct 1; econstructor; done || lia. Qed.

(** A method is entered at its start. *)
Lemma at_enter i t X (e : sysE X) k c dec :
  pool_method i e = Some (c, dec) ->
  at_call i t (fun a => k (dec a)) (call_prog cfg c) (Vis e k).
Proof.
  intros H. destruct e; try discriminate H; injection H as <- <-; [by constructor..|].
  unfold call_prog, submit, bind_job. cbn [deadline].
  pose proof (at_now i t (fun a => k (ans_bool a)) job k) as H1.
  pose proof (at_submit i t (fun a => k (ans_bool a)) job k t) as H2.
  unfold own_job, submit_stamped in H1, H2. destruct (deadline job =? 0); [by apply H1|].
  apply H2; [done|lia].
Qed.

(** *** One step of a client program *)

Definition move (b : bool) (o : oracle) (m : prog poolE pool_answer) (st : InferencePool)
    : option (prog poolE pool_answer * InferencePool * event poolE) :=
  match m with
  | Vis e f => '(x, st') ← perform cfg b o e st; Some (f x, st', Ev e x)
  | _ => None
  end.

Lemma client_step_move c o ps ps' tr :
  client_step cfg c o ps = Some (ps', tr) ->
  exists m m' st' ev, clients ps !! c = Some m /\
    move (has_exited (worker ps)) o m (shared ps) = Some (m', st', ev) /\
    ps' = mk_sys st' (worker ps) (<[c := m']> (clients ps)) /\ tr = [(false, ev)].
Proof.
  unfold client_step. destruct (clients ps !! c) as [[a|err|X e f]|] eqn:Hc; try done.
  destruct (perform _ _ _ _ _) as [[x st']|] eqn:Hp; [|done]. intros [= <- <-].
  exists (Vis e f), (f x), st', (Ev e x). cbn [move]. by rewrite Hp.
Qed.

Lemma with_pool_id v : with_service_pool (sv_pool v) v = v.
Proof. by destruct v. Qed.

(** A request's client before its critical section. *)
Definition entering (m : prog poolE pool_answer) : bool :=
  match m with
  | Vis e _ => match e with Now | LockSubmit _ | LoadAccepting | LockSize => true | _ => false end
  | _ => false
  end.

Lemma returns_left a m : returns a m -> entering m = false.
Proof. destruct m as [a'|err|X e k]; [done..|]. intros [He _]. by destruct e. Qed.

(** How the service follows a step: by a call of its own, or without one. *)
Definition follows (b : bool) (v v' : service) : Prop :=
  if b then exists e, svc_step v (Some e) v'
  else v' = v \/ exists l a, (l = PClose \/ l = PExit) /\
    pool_spec_step (depth s) l (sv_pool v) = Some a /\ v' = with_service_pool a v.

(** The job a call queues. *)
Definition queued (ev : event poolE) : option InferenceJob :=
  match ev with Ev e x => Pool.accepted_of e x end.

(** The submission a call is, and the pool's verdict on it. *)
Definition pushed (r : push_result) : bool := match r with Pushed => true | _ => false end.
Definition submitted {X} (e : poolE X) : X -> option (InferenceJob * bool) :=
  match e in poolE X return X -> option (InferenceJob * bool) with
  | LockSubmit job => fun r => Some (job, pushed r)
  | _ => fun _ => None
  end.
Definition submitted_ev (ev : event poolE) : option (InferenceJob * bool) :=
  match ev with Ev e x => submitted e x end.
Definition submits_of (i : nat) (now : Z) {X} (e : sysE X) : X -> option (InferenceJob * bool) :=
  match e in sysE X return X -> option (InferenceJob * bool) with
  | PoolSubmit job => fun b => Some (own_job i (timeout s) now job, b)
  | _ => fun _ => None
  end.

Lemma submitted_queued ev : queued ev = submitted_ev ev ≫= fun jb => if jb.2 : bool then Some jb.1 else None.
Proof. destruct ev as [X e x]. destruct e; try done. by destruct x. Qed.

Lemma submits_accepted i now X (e : sysE X) x :
  snd <$> accepted_of s i now e x =
  submits_of i now e x ≫= fun jb => if jb.2 : bool then Some jb.1 else None.
Proof. destruct e; try done. by destruct x. Qed.

(** The contract's side of a step of a request's client: nothing, or its call. *)
Definition answered_call (i : nat) (t : Z) (p : prog sysE (list response_op)) (a a' : pool_state)
    (m : prog poolE pool_answer) (ev : event poolE) (m' : prog poolE pool_answer)
    (p' : prog sysE (list response_op)) : Prop :=
  (a' = a /\ p' = p /\ submitted_ev ev = None /\ entering m' = entering m) \/
  exists X (e : sysE X) k0 x now, p = Vis e k0 /\ p' = k0 x /\
    (forall time, time <= t -> clock_reads e time now t) /\
    (forall v, sv_pool v = a -> call_answers it s i now t e v x (with_service_pool a' v)) /\
    submitted_ev ev = submits_of i now e x.

Lemma done_now i t k m a p : returns a m -> k a = p -> at_call i t k m p.
Proof. intros Hm <-. by constructor. Qed.

Lemma at_submit_move i t t' k job k0 r b o st m' st' ev a a' :
  (forall a, k a = k0 (ans_bool a)) -> r <= t ->
  move b o (submit_stamped (own_job i (timeout s) r job)) st = Some (m', st', ev) ->
  ps_open a = accepting_ st ->
  pool_spec_run (depth s) (pool_labels [(false, ev)]) a = Some a' ->
  exists p', answered_call i t (Vis (PoolSubmit job) k0) a a'
    (submit_stamped (own_job i (timeout s) r job)) ev m' p' /\ at_call i t' k m' p'.
Proof.
  intros Hk Hr Hm Ho Hrun. cbn in Hm.
  destruct (submit_locked cfg (own_job i (timeout s) r job) st) as [x st1] eqn:Hsub.
  injection Hm as <- <- <-.
  set (ok := match x with Pushed => true | _ => false end).
  exists (k0 ok). split; [right|].
  - exists _, (PoolSubmit job), k0, ok, r. split; [done|]. split; [done|].
    split; [intros time Hle; repeat split; lia|]. split; [|by destruct x].
    intros v <-. unfold call_answers. cbn [shared_call]. rewrite submit_queue_spec.
    change (pool_labels [(false, Ev (LockSubmit (own_job i (timeout s) r job)) x)])
      with [PSubmit (own_job i (timeout s) r job) x] in Hrun.
    cbn [pool_spec_run] in Hrun.
    destruct (pool_spec_step _ _ _) as [a1|] eqn:Ha1; [|done]. injection Hrun as <-.
    destruct x as [|n|]; [| |by rewrite Ha1]; cbn [pool_spec_step] in Ha1 |- *.
    + destruct (ps_open (sv_pool v)); [done|]. injection Ha1 as <-. by rewrite with_pool_id.
    + destruct (ps_open (sv_pool v)); [|done]. cbn [andb] in *.
      destruct (Z.leb_spec (depth s) (Z.of_nat (length (ps_queue (sv_pool v))))); [|done].
      rewrite (proj2 (Z.ltb_ge _ _)) by done. case_match; [|done]. injection Ha1 as <-.
      by rewrite with_pool_id.
  - apply (done_now _ _ _ _ (AnsBool ok)); [by destruct x|]. apply Hk.
Qed.

Lemma at_call_move i t k m p b o st m' st' ev a a' :
  at_call i t k m p -> move b o m st = Some (m', st', ev) ->
  ps_queue a = queue_ st -> ps_open a = accepting_ st ->
  pool_spec_run (depth s) (pool_labels [(false, ev)]) a = Some a' ->
  t <= time_after t [(false, ev)] ->
  exists p', answered_call i t p a a' m ev m' p' /\ at_call i (time_after t [(false, ev)]) k m' p'.
Proof.
  intros Hat Hm Hq Ho Hrun Ht.
  destruct Hat as [job k0 Hk|job k0 r Hk Hr|k0 Hk|k0 Hk|m a0 Ha].
  - cbn in Hm. injection Hm as <- <- <-. cbn in Hrun. injection Hrun as <-.
    exists (Vis (PoolSubmit job) k0). split; [by left|]. constructor; [done|cbn; lia].
  - by eapply at_submit_move.
  - cbn in Hm. injection Hm as <- <- <-. cbn in Hrun. injection Hrun as <-.
    exists (k0 (accepting_ st)).
    split; [right|by apply (done_now _ _ _ _ (AnsBool (accepting_ st)))].
    exists _, PoolIsAccepting, k0, (accepting_ st), t. split; [done|]. split; [done|].
    split; [intros time Hle; repeat split; lia|]. split; [|done].
    intros v <-. unfold call_answers. cbn [shared_call]. by rewrite with_pool_id, Ho.
  - cbn in Hm. injection Hm as <- <- <-. cbn in Hrun. injection Hrun as <-.
    exists (k0 (queue_size st)).
    split; [right|by apply (done_now _ _ _ _ (AnsInt (queue_size st)))].
    exists _, PoolQueueDepth, k0, (queue_size st), t. split; [done|]. split; [done|].
    split; [intros time Hle; repeat split; lia|]. split; [|done].
    intros v <-. unfold call_answers. cbn [shared_call]. by rewrite with_pool_id, Hq.
  - exists (k a0). destruct m as [a1|e|X e f]; [done|done|]. cbn in Ha. destruct Ha as [He Hf].
    cbn [move] in Hm. destruct (perform _ _ _ _ _) as [[x st1]|]; [|done]. injection Hm as <- <- <-.
    split; [left|constructor; apply Hf].
    rewrite (returns_left _ _ (Hf x)).
    destruct e; try done; cbn in Hrun; by injection Hrun as <-.
Qed.

(** A client of no request only closes the pool, if anything. *)
Lemma other_move m b o st m' st' ev a a' :
  no_submit m -> client_ok m -> move b o m st = Some (m', st', ev) ->
  pool_spec_run (depth s) (pool_labels [(false, ev)]) a = Some a' ->
  no_submit m' /\ submitted_ev ev = None /\
  (a' = a \/ pool_spec_step (depth s) PClose a = Some a').
Proof.
  intros Hno Hok Hm Hrun. destruct m as [a0|e|X e f]; [done|done|]. cbn in Hno, Hok.
  destruct Hno as [He Hno], Hok as [Hce _]. cbn [move] in Hm.
  destruct (perform _ _ _ _ _) as [[x st1]|]; [|done]. injection Hm as <- <- <-.
  split; [apply Hno|]. destruct e; try discriminate Hce; try done; cbn in Hrun;
    (split; [done|]); injection Hrun as <-; (by left) || by right.
Qed.

(** ** The simulation relation *)

Definition caller_of (th : HttplibRequest * activity) : option nat :=
  match th.2 with Calling c _ => Some c | _ => None end.

Definition at_thread (y : system) (i : nat) (th : HttplibRequest * activity) (th' : thread) : Prop :=
  th.1 = th'.1 /\
  match th.2 with
  | Serving p => th'.2 = p
  | Calling c k => exists m, clients (y_pool y) !! c = Some m /\ at_call i (y_time y) k m th'.2
  end.

(** Every client belongs to at most one request, or is not a submission. *)
Record clients_rel (y : system) : Prop := mk_clients_rel {
  rel_distinct : forall i j th th' c, y_threads y !! i = Some th -> y_threads y !! j = Some th' ->
    caller_of th = Some c -> caller_of th' = Some c -> i = j;
  rel_bound : forall i th c, y_threads y !! i = Some th -> caller_of th = Some c ->
    (c < length (clients (y_pool y)))%nat;
  rel_others : forall c m, clients (y_pool y) !! c = Some m ->
    (forall i th, y_threads y !! i = Some th -> caller_of th <> Some c) -> no_submit m;
}.

Record state_rel (y : system) (v : service) : Prop := mk_state_rel {
  rel_auth : sv_auth v = y_auth y;
  rel_requests : sv_requests v = y_requests y;
  rel_cells : sv_cells v = y_cells y;
  rel_time : sv_time v <= y_time y;
  rel_pool : refines (y_pool y) (sv_pool v);
  rel_length : length (sv_threads v) = length (y_threads y);
  rel_threads : forall i th th', y_threads y !! i = Some th -> sv_threads v !! i = Some th' ->
    at_thread y i th th';
  rel_clients : clients_rel y;
}.

Definition notices_of (hist : list entry) : list notice :=
  omap (fun en => match en with EAnswer _ n => Some n | _ => None end) hist.

(** All submissions with their verdicts, in the history and at the pool. *)
Definition submits (hist : list entry) : list (InferenceJob * bool) :=
  omap (fun en => match en with ECall i now _ (Ev e x) => submits_of i now e x | _ => None end) hist.
Definition pool_submits (tr : trace) : list (InferenceJob * bool) :=
  omap (fun te => if te.1 : bool then None else submitted_ev te.2) tr.

(** The trace of the pool and the history of the service. *)
Record trace_rel (tr : trace) (hist : list entry) : Prop := mk_trace_rel {
  rel_accepted : (accepted s hist).*2 = Pool.accepted tr;
  rel_taken : taken_jobs hist = taken (worker_trace tr);
  rel_notices : notices_of hist = notices (worker_trace tr);
  rel_submits : submits hist = pool_submits tr;
}.

Record sim (tr : trace) (y : system) (hist : list entry) (v : service) : Prop := mk_sim {
  sim_served : served hist v;
  sim_reach : reach cfg (y_pool y) tr;
  sim_state : state_rel y v;
  sim_trace : trace_rel tr hist;
}.

(** Threads that do not call the changed client. *)
Lemma at_thread_mono y y' i th th' :
  at_thread y i th th' -> y_time y <= y_time y' ->
  (forall c m, caller_of th = Some c -> clients (y_pool y) !! c = Some m ->
     clients (y_pool y') !! c = Some m) ->
  at_thread y' i th th'.
Proof.
  intros [Hq Hact] Ht Hc. split; [done|]. unfold caller_of in Hc. destruct (th.2) as [p|c k]; [done|].
  destruct Hact as (m & Hm & Hat). exists m. split; [by apply Hc|]. by eapply at_call_later.
Qed.

Lemma rel_thread_of y v i th :
  state_rel y v -> y_threads y !! i = Some th ->
  exists p, sv_threads v !! i = Some (th.1, p) /\ at_thread y i th (th.1, p).
Proof.
  intros Hrel Hi. destruct (lookup_lt_is_Some_2 (sv_threads v) i) as [[q p] Hv].
  { rewrite (rel_length _ _ Hrel). by eapply lookup_lt_Some. }
  pose proof (rel_threads _ _ Hrel i th _ Hi Hv) as Hat. destruct Hat as [Hq Hact].
  cbn [fst snd] in *. subst q. exists p. by split.
Qed.

(** *** Steps outside the pool *)

Lemma local_shared y v i now ins X (e : sysE X) x y' :
  state_rel y v -> pool_method i e = None -> local_answers it i now ins e y x y' ->
  exists v', call_answers it s i now ins e v x v' /\
    sv_auth v' = y_auth y' /\ sv_requests v' = y_requests y' /\ sv_cells v' = y_cells y' /\
    sv_pool v' = sv_pool v /\ sv_threads v' = sv_threads v /\ y_pool y' = y_pool y /\
    y_threads y' = y_threads y /\ forall now, accepted_of s i now e x = None.
Proof.
  intros [Ha Hr Hc _ _ _ _ _] Hm Hl. unfold local_answers in Hl. unfold call_answers.
  destruct e; try discriminate Hm; cbn [local_call] in Hl; cbn [shared_call];
    try (subst y'; exists v; by split_and!).
  - rewrite Hc. destruct (y_cells y !! i) as [o|]; [|done]. injection Hl as <- <-.
    eexists. split; [done|]. by split_and!.
  - rewrite Ha. destruct (AuthLimiter.is_blocked _ _ _) as [b A]. injection Hl as <- <-.
    eexists. split; [done|]. by split_and!.
  - rewrite Ha. destruct (AuthLimiter.check_and_record_failure _ _ _ _ _) as [b A].
    injection Hl as <- <-. eexists. split; [done|]. by split_and!.
  - rewrite Hr. destruct (RequestLimiter.check_request _ _ _ _) as [n R]. injection Hl as <- <-.
    eexists. split; [done|]. by split_and!.
Qed.

(** *** One thread changes *)

Lemma state_rel_set y v y' v' i th th0 th0' :
  state_rel y v -> y_threads y !! i = Some th ->
  sv_auth v' = y_auth y' -> sv_requests v' = y_requests y' -> sv_cells v' = y_cells y' ->
  sv_time v' <= y_time y' -> refines (y_pool y') (sv_pool v') ->
  y_threads y' = <[i := th0]> (y_threads y) -> sv_threads v' = <[i := th0']> (sv_threads v) ->
  at_thread y' i th0 th0' -> y_time y <= y_time y' ->
  (forall c m, caller_of th <> Some c -> clients (y_pool y) !! c = Some m ->
     clients (y_pool y') !! c = Some m) ->
  clients_rel y' -> state_rel y' v'.
Proof.
  intros Hrel Hi Ha Hr Hc Ht Hp Hy Hv Hat Hle Hkeep Hcl. split; try done.
  - rewrite Hy, Hv, !length_insert. apply Hrel.
  - rewrite Hy, Hv. intros j thj thj' Hj Hj'. destruct (decide (i = j)) as [<-|Hne].
    + rewrite list_lookup_insert_eq in Hj by by eapply lookup_lt_Some.
      rewrite list_lookup_insert_eq in Hj'
        by (rewrite (rel_length _ _ Hrel); by eapply lookup_lt_Some).
      injection Hj as <-. injection Hj' as <-. exact Hat.
    + rewrite list_lookup_insert_ne in Hj by done. rewrite list_lookup_insert_ne in Hj' by done.
      apply (at_thread_mono y); [by eapply rel_threads|done|]. intros c m Hcj Hm.
      apply Hkeep; [|done]. intros Hci. apply Hne.
      exact (rel_distinct _ (rel_clients _ _ Hrel) i j th thj c Hi Hj Hci Hcj).
Qed.

(** The callers of [<[i := th0]> ts]. *)
Lemma insert_callers {A} (ts : list A) i th0 j th :
  <[i := th0]> ts !! j = Some th -> (j = i /\ th = th0) \/ (j <> i /\ ts !! j = Some th).
Proof.
  intros H. destruct (decide (j = i)) as [->|Hne]; [left|right; split; [done|]].
  - rewrite list_lookup_insert_eq in H; [by injection H as ->|].
    apply lookup_lt_Some in H. by rewrite length_insert in H.
  - by rewrite list_lookup_insert_ne in H.
Qed.

(** A thread that calls nothing, before and after, or stops calling a client
    that is done. *)
Lemma clients_rel_serve y i th q p y' :
  clients_rel y -> y_threads y !! i = Some th ->
  y_threads y' = <[i := (q, Serving p)]> (y_threads y) ->
  clients (y_pool y') = clients (y_pool y) ->
  (forall c m, caller_of th = Some c -> clients (y_pool y) !! c = Some m -> no_submit m) ->
  clients_rel y'.
Proof.
  intros [Hd Hb Ho] Hi Hy Hc Hdone. split; rewrite ?Hy, ?Hc.
  - intros j1 j2 t1 t2 c [[-> ->]|[_ H1]]%insert_callers [[-> ->]|[_ H2]]%insert_callers; try done.
    by eapply Hd.
  - intros j t c [[-> ->]|[_ H1]]%insert_callers; [done|]. by eapply Hb.
  - intros c m Hm Hn. destruct (decide (caller_of th = Some c)) as [Hth|Hth]; [by eapply Hdone|].
    apply (Ho c m Hm). intros j t Hj. destruct (decide (j = i)) as [->|Hne].
    + rewrite Hi in Hj. by injection Hj as <-.
    + apply (Hn j). by rewrite list_lookup_insert_ne.
Qed.

(** A thread enters the method that became the last client. *)
Lemma clients_rel_enter y i th q k m y' :
  clients_rel y -> y_threads y !! i = Some th -> caller_of th = None ->
  y_threads y' = <[i := (q, Calling (length (clients (y_pool y))) k)]> (y_threads y) ->
  clients (y_pool y') = clients (y_pool y) ++ [m] -> clients_rel y'.
Proof.
  intros [Hd Hb Ho] Hi Hth Hy Hc. split; rewrite ?Hy, ?Hc.
  - intros j1 j2 t1 t2 c [[-> ->]|[_ H1]]%insert_callers [[-> ->]|[_ H2]]%insert_callers; cbn; try done.
    + intros [= <-] Hc2. apply (Hb _ _ _ H2) in Hc2. lia.
    + intros Hc1 [= <-]. apply (Hb _ _ _ H1) in Hc1. lia.
    + by eapply Hd.
  - intros j t c [[-> ->]|[_ H1]]%insert_callers; rewrite length_app; cbn.
    + intros [= <-]. lia.
    + intros Hcj. apply (Hb _ _ _ H1) in Hcj. lia.
  - intros c m' Hm Hn. apply lookup_app_Some in Hm as [Hm|[Hge Hm]].
    + apply (Ho c m' Hm). intros j t Hj. destruct (decide (j = i)) as [->|Hne].
      * rewrite Hi in Hj. injection Hj as <-. by rewrite Hth.
      * apply (Hn j). by rewrite list_lookup_insert_ne.
    + exfalso. apply list_lookup_singleton_Some in Hm as [Hm _].
      apply (Hn i (q, Calling (length (clients (y_pool y))) k)).
      * apply list_lookup_insert_eq. by eapply lookup_lt_Some.
      * cbn. f_equal. lia.
Qed.

Lemma trace_rel_same tr hist : trace_rel tr hist -> trace_rel (tr ++ []) (hist ++ []).
Proof. by rewrite !app_nil_r. Qed.

(** Steps that leave the pool's trace and the history alone. *)
Lemma sim_quiet tr y hist v y' :
  sim tr y hist v -> reach cfg (y_pool y') tr -> state_rel y' v -> sim (tr ++ []) y' hist v.
Proof. intros [Hs Hr _ Ht] Hr' Hst. rewrite app_nil_r. by split. Qed.

Lemma sim_arrive tr y hist v q p :
  sim tr y hist v -> route VERSION s q = Some p ->
  exists hist' v', sim (tr ++ []) (y_with_threads (y_threads y ++ [(q, Serving p)]) y) hist' v'.
Proof.
  intros [Hs Hr Hst Ht] Hroute.
  exists (hist ++ []), (with_threads (sv_threads v ++ [(q, p)]) v). split.
  - exact (served_step VERSION it s hist v None _ Hs (step_arrive VERSION it s v q p Hroute)).
  - by rewrite app_nil_r.
  - destruct Hst as [Ha Hrq Hc Hti Hp Hl Hth [Hd Hb Ho]].
    split; cbn [sv_auth sv_requests sv_cells sv_time sv_pool sv_threads with_threads y_auth y_requests
      y_cells y_time y_pool y_threads y_with_threads]; try done.
    + rewrite !length_app, Hl. done.
    + intros i th th' Hi Hi'. apply lookup_app_Some in Hi as [Hi|[Hge Hi]].
      * rewrite lookup_app_l in Hi' by (rewrite Hl; by eapply lookup_lt_Some). by eapply Hth.
      * apply lookup_app_Some in Hi' as [Hi'|[_ Hi']].
        { apply lookup_lt_Some in Hi'. lia. }
        rewrite Hl in Hi'. apply list_lookup_singleton_Some in Hi as [_ <-].
        apply list_lookup_singleton_Some in Hi' as [_ <-]. by split.
    + assert (Hnew : forall j t c, (y_threads y ++ [(q, Serving p)]) !! j = Some t ->
        caller_of t = Some c -> y_threads y !! j = Some t).
      { intros j t c [Hj|[_ Hj]]%lookup_app_Some Hc'; [done|].
        apply list_lookup_singleton_Some in Hj as [_ <-]. done. }
      split; cbn [y_threads y_pool y_with_threads].
      * intros i j th th' c Hi Hj H1 H2. eapply Hd; [by eapply Hnew|by eapply Hnew|done|done].
      * intros i th c Hi H1. eapply Hb; [by eapply Hnew|done].
      * intros c m Hm Hn. apply (Ho c m Hm). intros i th Hi. apply (Hn i).
        by apply lookup_app_l_Some.
  - by apply trace_rel_same.
Qed.

Lemma sim_local tr y hist v i q X (e : sysE X) k x now ins y' :
  sim tr y hist v ->
  y_threads y !! i = Some (q, Serving (Vis e k)) -> pool_method i e = None ->
  y_time y <= now -> now <= ins -> local_answers it i now ins e y x y' ->
  exists hist' v', sim (tr ++ []) (y_set_thread i (q, Serving (k x)) ins y') hist' v' /\
    follows true v v'.
Proof.
  intros [Hs Hr Hst Ht] Hi Hm Hnow Hins Hl.
  destruct (local_shared _ _ _ _ _ _ _ _ _ Hst Hm Hl)
    as (v1 & Hcall & Ha & Hrq & Hc & Hp & Hth & Hyp & Hyt & Hacc).
  destruct (rel_thread_of _ _ _ _ Hst Hi) as (p & Hv & [_ Heq]). cbn [fst snd] in Hv, Heq. subst p.
  pose proof (rel_time _ _ Hst) as Hti.
  assert (Hcs : svc_step v (Some (ECall i now ins (Ev e x))) (resume i q (k x) ins v1)).
  { apply step_call; [done| |done].
    unfold clock_reads. split; [done|]. split; [lia|]. destruct e; done || lia. }
  exists (hist ++ [ECall i now ins (Ev e x)]), (resume i q (k x) ins v1).
  split; [|by eexists]. split.
  - exact (served_step VERSION it s hist v (Some _) _ Hs Hcs).
  - rewrite app_nil_r. cbn. by rewrite Hyp.
  - apply (state_rel_set y v _ _ i (q, Serving (Vis e k)) (q, Serving (k x)) (q, k x)); try done.
    + cbn. rewrite Hyp, Hp. apply Hst.
    + cbn. by rewrite Hyt.
    + cbn. by rewrite Hth.
    + cbn. lia.
    + intros c m _ Hcm. cbn. by rewrite Hyp.
    + apply (clients_rel_serve y i (q, Serving (Vis e k)) q (k x)); [apply Hst|done| | |done].
      * cbn. by rewrite Hyt.
      * cbn. by rewrite Hyp.
  - destruct Ht as [Ht1 Ht2 Ht3 Ht4]. rewrite app_nil_r. split.
    + rewrite accepted_snoc, fmap_app, Hacc. cbn. by rewrite app_nil_r.
    + unfold taken_jobs in *. rewrite omap_one. cbn. by rewrite app_nil_r.
    + unfold notices_of in *. rewrite omap_one. cbn. by rewrite app_nil_r.
    + unfold submits in *. rewrite omap_one, Ht4. destruct e; try discriminate Hm; apply app_nil_r.
Qed.

Lemma refines_clients y a ps :
  refines y a -> shared ps = shared y -> worker ps = worker y -> refines ps a.
Proof. intros [Hq Ho Hx Hh] H1 H2. split; by rewrite ?H1, ?H2. Qed.

Lemma sim_enter tr y hist v i q X (e : sysE X) k c dec ps :
  sim tr y hist v ->
  y_threads y !! i = Some (q, Serving (Vis e k)) -> pool_method i e = Some (c, dec) ->
  sys_step cfg (LCall c) (y_pool y) = Some (ps, []) ->
  sim (tr ++ []) (y_set_thread i (q, Calling (length (clients (y_pool y))) (fun a => k (dec a)))
         (y_time y) (y_with_pool ps (y_time y) y)) hist v.
Proof.
  intros Hsim Hi Hm Hstep. pose proof (sim_state _ _ _ _ Hsim) as Hst.
  destruct (rel_thread_of _ _ _ _ Hst Hi) as (p & Hv & [_ Heq]). cbn [fst snd] in Hv, Heq. subst p.
  apply (sim_quiet tr y hist v); [done| |].
  { rewrite <- (app_nil_r tr). eapply reach_step; [apply Hsim|exact Hstep]. }
  cbn [sys_step] in Hstep. injection Hstep as <-.
  apply (state_rel_set y v _ _ i (q, Serving (Vis e k))
    (q, Calling (length (clients (y_pool y))) (fun a => k (dec a))) (q, Vis e k)); cbn; try solve [apply Hst]; try done.
  - by apply (refines_clients (y_pool y)); [apply Hst|..].
  - by rewrite list_insert_id.
  - split; [done|]. cbn. exists (call_prog cfg c).
    rewrite lookup_app_r, Nat.sub_diag by lia. split; [done|]. by apply at_enter.
  - intros c' m _ Hcm. by apply lookup_app_l_Some.
  - by apply (clients_rel_enter y i (q, Serving (Vis e k)) q (fun a => k (dec a)) (call_prog cfg c));
      [apply Hst|..].
Qed.

Lemma at_call_ret i t k a p : at_call i t k (Ret a) p -> p = k a.
Proof.
  intros H. remember (Ret a) as m eqn:Hm. destruct H; try done. subst m. cbn in *. by subst.
Qed.

Lemma sim_leave tr y hist v i q c k a :
  sim tr y hist v -> y_threads y !! i = Some (q, Calling c k) ->
  clients (y_pool y) !! c = Some (Ret a) ->
  sim (tr ++ []) (y_set_thread i (q, Serving (k a)) (y_time y) y) hist v.
Proof.
  intros Hsim Hi Hm. pose proof (sim_state _ _ _ _ Hsim) as Hst.
  destruct (rel_thread_of _ _ _ _ Hst Hi) as (p & Hv & [_ (m & Hm' & Hat)]).
  rewrite Hm in Hm'. injection Hm' as <-. apply at_call_ret in Hat. cbn [fst snd] in *. subst p.
  apply (sim_quiet tr y hist v); [done|apply Hsim|].
  apply (state_rel_set y v _ _ i (q, Calling c k) (q, Serving (k a)) (q, k a)); cbn; try solve [apply Hst]; try done.
  - by rewrite list_insert_id.
  - apply (clients_rel_serve y i (q, Calling c k) q (k a)); [apply Hst|done..|].
    cbn. intros c' m [= <-] Hm'. rewrite Hm in Hm'. by injection Hm' as <-.
Qed.

Lemma sim_other tr y hist v c ps :
  sim tr y hist v -> is_submit c = false -> sys_step cfg (LCall c) (y_pool y) = Some (ps, []) ->
  sim (tr ++ []) (y_with_pool ps (y_time y) y) hist v.
Proof.
  intros Hsim Hc Hstep. pose proof (sim_state _ _ _ _ Hsim) as Hst.
  apply (sim_quiet tr y hist v); [done| |].
  { rewrite <- (app_nil_r tr). eapply reach_step; [apply Hsim|exact Hstep]. }
  cbn [sys_step] in Hstep. injection Hstep as <-.
  destruct Hst as [Ha Hrq Hcl Hti Hp Hl Hth [Hd Hb Ho]]. split; cbn; try done.
  - by apply (refines_clients (y_pool y)).
  - intros i th th' Hi Hi'. apply (at_thread_mono y); [by eapply Hth|done|].
    intros c' m _ Hm. cbn. by apply lookup_app_l_Some.
  - split; cbn; [done| |].
    + intros i th c' Hi Hc'. rewrite length_app. apply (Hb i th c' Hi) in Hc'. lia.
    + intros c' m Hm Hn. apply lookup_app_Some in Hm as [Hm|[_ Hm]]; [by apply (Ho c')|].
      apply list_lookup_singleton_Some in Hm as [_ <-]. by apply call_no_submit.
Qed.

(** *** Steps of the pool *)

Lemma state_rel_pool y v y' v' :
  state_rel y v ->
  sv_auth v' = y_auth y' -> sv_requests v' = y_requests y' -> sv_cells v' = y_cells y' ->
  sv_time v' <= y_time y' -> refines (y_pool y') (sv_pool v') ->
  y_threads y' = y_threads y -> sv_threads v' = sv_threads v -> y_time y <= y_time y' ->
  (forall i th c m, y_threads y !! i = Some th -> caller_of th = Some c ->
     clients (y_pool y) !! c = Some m -> clients (y_pool y') !! c = Some m) ->
  clients_rel y' -> state_rel y' v'.
Proof.
  intros Hrel Ha Hr Hc Ht Hp Hy Hv Hle Hkeep Hcl. split; try done.
  - rewrite Hy, Hv. apply Hrel.
  - rewrite Hy, Hv. intros i th th' Hi Hi'. apply (at_thread_mono y); [by eapply rel_threads|done|].
    intros c m Hcm Hm. by eapply Hkeep.
Qed.

Lemma clients_rel_move y y' c m' :
  clients_rel y -> y_threads y' = y_threads y ->
  clients (y_pool y') = <[c := m']> (clients (y_pool y)) ->
  no_submit m' \/ (exists i th, y_threads y !! i = Some th /\ caller_of th = Some c) ->
  clients_rel y'.
Proof.
  intros [Hd Hb Ho] Hy Hc Hm'. split; rewrite ?Hy, ?Hc; [done|by rewrite length_insert|].
  intros c' m Hm Hn. apply insert_callers in Hm as [[-> ->]|[_ Hm]]; [|by apply (Ho c')].
  destruct Hm' as [|(i & th & Hi & Hth)]; [done|]. by destruct (Hn i th Hi).
Qed.

Lemma trace_rel_client tr hist ev en :
  trace_rel tr hist ->
  match en with
  | Some (ECall i now _ (Ev e x)) => submitted_ev ev = submits_of i now e x
  | Some _ => False
  | None => submitted_ev ev = None
  end ->
  trace_rel (tr ++ [(false, ev)]) (hist ++ option_list en).
Proof.
  intros [Ha Ht Hn Hs] Hen.
  assert (Hsub : pool_submits (tr ++ [(false, ev)]) = pool_submits tr ++ option_list (submitted_ev ev)).
  { unfold pool_submits. by rewrite omap_one. }
  assert (Hq : Pool.accepted (tr ++ [(false, ev)]) = Pool.accepted tr ++ option_list (queued ev)).
  { rewrite Pool.accepted_app. by destruct ev as [X e x]. }
  assert (Hw : worker_trace (tr ++ [(false, ev)]) = worker_trace tr).
  { rewrite worker_trace_app. apply app_nil_r. }
  destruct en as [[i now ins [X e x]|job|job n]|]; [|done|done|]; split; rewrite ?Hq, ?Hw, ?Hsub.
  - change (option_list (Some ?a)) with [a]. rewrite accepted_snoc, fmap_app, Ha,
      submitted_queued, Hen, <- submits_accepted. f_equal. by destruct (accepted_of s i now e x).
  - change (option_list (Some ?a)) with [a]. unfold taken_jobs in *. rewrite omap_one, Ht.
    apply app_nil_r.
  - change (option_list (Some ?a)) with [a]. unfold notices_of in *. rewrite omap_one, Hn.
    apply app_nil_r.
  - change (option_list (Some ?a)) with [a]. unfold submits in *. by rewrite omap_one, Hs, Hen.
  - rewrite submitted_queued, Hen, !app_nil_r. exact Ha.
  - by rewrite app_nil_r.
  - by rewrite app_nil_r.
  - by rewrite Hen, !app_nil_r.
Qed.

Lemma sim_owned_client tr y hist v i q c k m m' o st' ev ps a' :
  sim tr y hist v -> y_threads y !! i = Some (q, Calling c k) ->
  clients (y_pool y) !! c = Some m ->
  move (has_exited (worker (y_pool y))) o m (shared (y_pool y)) = Some (m', st', ev) ->
  ps = mk_sys st' (worker (y_pool y)) (<[c := m']> (clients (y_pool y))) ->
  reach cfg ps (tr ++ [(false, ev)]) ->
  pool_spec_run (depth s) (pool_labels [(false, ev)]) (sv_pool v) = Some a' -> refines ps a' ->
  y_time y <= time_after (y_time y) [(false, ev)] ->
  exists hist' v' b, sim (tr ++ [(false, ev)])
    (y_with_pool ps (time_after (y_time y) [(false, ev)]) y) hist' v' /\ follows b v v' /\
    (b = false -> entering m' = entering m).
Proof.
  intros [Hs Hr Hst Ht] Hi Hc Hmove Hps Hreach Hrun Href Htime.
  destruct (rel_thread_of _ _ _ _ Hst Hi) as (p & Hv & [_ (m0 & Hm0 & Hat)]). cbn [fst snd] in *.
  rewrite Hc in Hm0. injection Hm0 as <-.
  destruct (at_call_move _ _ _ _ _ _ _ _ _ _ _ _ _ Hat Hmove (ref_queue _ _ (rel_pool _ _ Hst))
    (ref_open _ _ (rel_pool _ _ Hst)) Hrun Htime) as (p' & Hcall & Hat').
  assert (Hset : forall v', sv_auth v' = y_auth y -> sv_requests v' = y_requests y ->
    sv_cells v' = y_cells y -> sv_time v' <= y_time y -> sv_pool v' = a' ->
    sv_threads v' = <[i := (q, p')]> (sv_threads v) ->
    state_rel (y_with_pool ps (time_after (y_time y) [(false, ev)]) y) v').
  { intros v' H1 H2 H3 H4 H5 H6.
    apply (state_rel_set y v _ _ i (q, Calling c k) (q, Calling c k) (q, p')); cbn; try done; try lia.
    - by rewrite H5.
    - by rewrite list_insert_id.
    - split; [done|]. cbn. exists m'. split; [|done]. rewrite Hps. cbn.
      apply list_lookup_insert_eq. by eapply lookup_lt_Some.
    - intros c' m1 Hne Hm1. rewrite Hps. cbn. rewrite list_lookup_insert_ne; [done|].
      intros ->. by apply Hne.
    - apply (clients_rel_move y _ c m'); [apply Hst|done|by rewrite Hps|]. right.
      by exists i, (q, Calling c k). }
  destruct Hst as [Ha Hrq Hcl Hti Hp Hl Hth Hcr].
  destruct Hcall as [(-> & -> & Hq & Hent)|(X & e & k0 & x & now & -> & -> & Hclk & Hans & Hq)].
  - exists hist, v, false. split; [|split; [by left|done]]. split; [done|done| |].
    + apply Hset; try done. by rewrite list_insert_id.
    + rewrite <- (app_nil_r hist). by apply (trace_rel_client _ _ _ None).
  - assert (Hcs : svc_step v (Some (ECall i now (y_time y) (Ev e x)))
      (resume i q (k0 x) (y_time y) (with_service_pool a' v))).
    { apply step_call; [done|by apply Hclk|by apply Hans]. }
    exists (hist ++ [ECall i now (y_time y) (Ev e x)]),
      (resume i q (k0 x) (y_time y) (with_service_pool a' v)), true.
    split; [|split; [by eexists|done]]. split; [|done| |].
    + exact (served_step VERSION it s hist v (Some _) _ Hs Hcs).
    + by apply Hset.
    + by apply (trace_rel_client _ _ _ (Some (ECall i now (y_time y) (Ev e x)))).
Qed.

Lemma sim_other_client tr y hist v c m m' o st' ev ps a' :
  sim tr y hist v ->
  (forall i th, y_threads y !! i = Some th -> caller_of th <> Some c) ->
  clients (y_pool y) !! c = Some m -> client_ok m ->
  move (has_exited (worker (y_pool y))) o m (shared (y_pool y)) = Some (m', st', ev) ->
  ps = mk_sys st' (worker (y_pool y)) (<[c := m']> (clients (y_pool y))) ->
  reach cfg ps (tr ++ [(false, ev)]) ->
  pool_spec_run (depth s) (pool_labels [(false, ev)]) (sv_pool v) = Some a' -> refines ps a' ->
  y_time y <= time_after (y_time y) [(false, ev)] ->
  exists hist' v', sim (tr ++ [(false, ev)])
    (y_with_pool ps (time_after (y_time y) [(false, ev)]) y) hist' v' /\ follows false v v'.
Proof.
  intros [Hs Hr Hst Ht] Hfree Hc Hok Hmove Hps Hreach Hrun Href Htime.
  pose proof (rel_others _ (rel_clients _ _ Hst) c m Hc Hfree) as Hno.
  destruct (other_move _ _ _ _ _ _ _ _ _ Hno Hok Hmove Hrun) as (Hno' & Hq & Hstep).
  exists (hist ++ []), (with_service_pool a' v). split; [split; [|done| |]|].
  - destruct Hstep as [->|Hclose]; [by rewrite with_pool_id, app_nil_r|].
    exact (served_step VERSION it s hist v None _ Hs (step_close VERSION it s v a' Hclose)).
  - pose proof (rel_time _ _ Hst).
    apply (state_rel_pool y v); cbn; try solve [apply Hst]; try done; try lia.
    + intros i th c' m1 Hi Hth Hm1. rewrite Hps. cbn. rewrite list_lookup_insert_ne; [done|].
      intros ->. by apply (Hfree i th).
    + apply (clients_rel_move y _ c m'); [apply Hst|done|by rewrite Hps|by left].
  - by apply (trace_rel_client _ _ _ None).
  - destruct Hstep as [->|Hclose]; [left; apply with_pool_id|right]. exists PClose, a'.
    split; [by left|done].
Qed.

Lemma sim_client tr y hist v c o ps tr' :
  sim tr y hist v -> sys_step cfg (LClient c o) (y_pool y) = Some (ps, tr') ->
  y_time y <= time_after (y_time y) tr' ->
  exists hist' v' b m m', sim (tr ++ tr') (y_with_pool ps (time_after (y_time y) tr') y) hist' v' /\
    follows b v v' /\ clients (y_pool y) !! c = Some m /\ clients ps = <[c := m']> (clients (y_pool y)) /\
    (b = false -> entering m' = entering m \/
       forall i th, y_threads y !! i = Some th -> caller_of th <> Some c).
Proof.
  intros Hsim Hstep Htime. pose proof (sim_state _ _ _ _ Hsim) as Hst.
  pose proof (reach_inv cfg Hdepth _ _ (sim_reach _ _ _ _ Hsim)) as HI.
  assert (reach cfg ps (tr ++ tr')) as Hreach by (eapply reach_step; [apply Hsim|exact Hstep]).
  cbn [sys_step] in Hstep.
  destruct (client_refines cfg Hdepth _ _ _ _ _ _ _ HI (rel_pool _ _ Hst) Hstep) as (a' & Hrun & Href).
  destruct (client_step_move _ _ _ _ _ Hstep) as (m & m' & st' & ev & Hc & Hmove & Hps & ->).
  destruct (decide (List.Exists (fun th => caller_of th = Some c) (y_threads y))) as [Hex|Hno].
  - apply List.Exists_exists in Hex as ([q act] & Hin & Hth). apply list_elem_of_In, list_elem_of_lookup in Hin as [i Hi].
    destruct act as [p|c' k]; [done|]. injection Hth as ->.
    destruct (sim_owned_client tr y hist v i q c k m m' o st' ev ps a')
      as (hist' & v' & b & Hsim' & Hf & He); try done.
    exists hist', v', b, m, m'. split_and!; try done; [by rewrite Hps|]. intros Hb. left. by apply He.
  - assert (Hfree : forall i th, y_threads y !! i = Some th -> caller_of th <> Some c).
    { intros i th Hi Hth. apply Hno, List.Exists_exists. exists th.
      split; [by eapply list_elem_of_In, list_elem_of_lookup_2|done]. }
    destruct (sim_other_client tr y hist v c m m' o st' ev ps a') as (hist' & v' & Hsim' & Hf); try done.
    { exact (Forall_lookup_1 _ _ _ _ (inv_clients _ _ _ HI) Hc). }
    exists hist', v', false, m, m'. split_and!; try done; [by rewrite Hps|]. intros _. by right.
Qed.

Lemma trace_rel_worker tr hist X (e : poolE X) x en :
  trace_rel tr hist ->
  match en with
  | Some (ETake job) => taken_of e x = Some job /\ notice_of e x = None
  | Some (EAnswer job n) => taken_of e x = None /\ notice_of e x = Some n
  | Some _ => False
  | None => taken_of e x = None /\ notice_of e x = None
  end ->
  trace_rel (tr ++ [(true, Ev e x)]) (hist ++ option_list en).
Proof.
  intros [Ha Ht Hn Hs] Hen.
  assert (Hsub : pool_submits (tr ++ [(true, Ev e x)]) = pool_submits tr).
  { unfold pool_submits. rewrite omap_one. apply app_nil_r. }
  assert (Hacc : Pool.accepted (tr ++ [(true, Ev e x)]) = Pool.accepted tr).
  { rewrite Pool.accepted_app. apply app_nil_r. }
  assert (Htk : taken (worker_trace (tr ++ [(true, Ev e x)])) =
    taken (worker_trace tr) ++ option_list (taken_of e x)).
  { by rewrite worker_trace_app, taken_app. }
  assert (Hnt : notices (worker_trace (tr ++ [(true, Ev e x)])) =
    notices (worker_trace tr) ++ option_list (notice_of e x)).
  { by rewrite worker_trace_app, notices_app. }
  destruct en as [[i now ins ev|job|job n]|]; [done|..]; destruct Hen as [H1 H2];
    split; rewrite ?Hacc, ?Htk, ?Hnt, ?H1, ?H2, ?Hsub; try change (option_list (Some ?a)) with [a];
    rewrite ?accepted_snoc, ?fmap_app; unfold taken_jobs, notices_of, submits in *; rewrite ?omap_one;
    cbn [option_list from_option fmap list_fmap omap list_omap]; rewrite ?app_nil_r.
  all: try congruence; first [by rewrite Ht | by rewrite Hn].
Qed.

(** The call the worker makes. *)
Lemma worker_step_event o y y' tr tr' :
  Inv cfg y tr -> worker_step cfg o y = Some (y', tr') ->
  exists X (e : poolE X) x, tr' = [(true, Ev e x)] /\ worker_effect e = true /\
    clients y' = clients y.
Proof.
  intros HI Hstep. pose proof (inv_worker _ _ _ HI) as Hw. unfold worker_step in Hstep.
  destruct (worker y) as [[b|err|X e k]| |]; try done.
  destruct (perform _ _ _ _ _) as [[x st]|]; [|done]. injection Hstep as <- <-.
  exists X, e, x. split; [done|]. split; [|done].
  destruct Hw as (its & cur & _ & _ & Hcur & _). by apply iteration_point in Hcur as [? _].
Qed.

(** A call the contract does not see, and the labels it sees. *)
Lemma worker_label X (e : poolE X) x :
  worker_effect e = true ->
  match pool_label_of e x with
  | Some (PTake job) => taken_of e x = Some job /\ notice_of e x = None
  | Some (PAnswer n) => taken_of e x = None /\ notice_of e x = Some n
  | Some PExit | None => taken_of e x = None /\ notice_of e x = None
  | Some _ => False
  end.
Proof. intros He. destruct e; try done. by destruct x. Qed.

Lemma sim_worker tr y hist v o ps tr' :
  sim tr y hist v -> sys_step cfg (LWorker o) (y_pool y) = Some (ps, tr') ->
  y_time y <= time_after (y_time y) tr' ->
  exists hist' v' b, sim (tr ++ tr')
    (run_closures (notices (worker_trace tr')) (y_with_pool ps (time_after (y_time y) tr') y))
    hist' v' /\ follows b v v' /\ (b = false -> taken (worker_trace tr') = []).
Proof.
  intros [Hs Hr Hst Ht] Hstep Htime. pose proof (reach_inv cfg Hdepth _ _ Hr) as HI.
  assert (reach cfg ps (tr ++ tr')) as Hreach by (by eapply reach_step).
  cbn [sys_step] in Hstep.
  destruct (worker_refines cfg _ _ _ _ _ _ HI (rel_pool _ _ Hst) Hstep)
    as (a' & Hrun & Href).
  destruct (worker_step_event _ _ _ _ _ HI Hstep) as (X & e & x & -> & He & Hcl).
  set (y' := run_closures _ _).
  assert (Hset : forall v', sv_auth v' = sv_auth v -> sv_requests v' = sv_requests v ->
    sv_cells v' = y_cells y' -> sv_time v' = sv_time v -> sv_pool v' = a' ->
    sv_threads v' = sv_threads v -> state_rel y' v').
  { intros v' H1 H2 H3 H4 H5 H6. pose proof (rel_time _ _ Hst).
    apply (state_rel_pool y v); cbn; rewrite ?H1, ?H2, ?H4, ?H5, ?H6;
      try solve [apply Hst]; try done; try lia.
    - intros i th c m _ _ Hm. by rewrite Hcl.
    - destruct (rel_clients _ _ Hst) as [Hd Hb Ho]. split; cbn; rewrite ?Hcl; done. }
  pose proof (worker_label X e x He) as Hlab. rewrite pool_labels_one, pool_spec_run_label in Hrun.
  assert (Hcells : y_cells y' = match notice_of e x with
    | Some n => <[(notice_cell n).1 := (notice_cell n).2]> (y_cells y) | None => y_cells y end).
  { unfold y', run_closures. cbn. by destruct (notice_of e x). }
  pose proof (rel_cells _ _ Hst) as Hc0. rewrite Hcells in Hset.
  destruct (pool_label_of e x) as [[job r| |job|n| ]|].
  - done.
  - done.
  - destruct Hlab as [Htk Hn]. rewrite Hn in Hset.
    pose proof (step_take VERSION it s v job a' Hrun) as Hcs.
    exists (hist ++ [ETake job]), (with_service_pool a' v), true.
    split; [|split; [by eexists|done]]. split; [|done| |].
    + exact (served_step VERSION it s hist v (Some _) _ Hs Hcs).
    + apply Hset; try done; cbn; by rewrite ?Hc0.
    + by apply (trace_rel_worker _ _ _ _ _ (Some (ETake job))).
  - destruct Hlab as [Htk Hn]. rewrite Hn in Hset.
    destruct (ps_hand (sv_pool v)) as [[job [|]]|] eqn:Hhand;
      [by cbn in Hrun; rewrite Hhand in Hrun| |by cbn in Hrun; rewrite Hhand in Hrun].
    pose proof (step_answer VERSION it s v job n a' Hhand Hrun) as Hcs.
    exists (hist ++ [EAnswer job n]), (fill_cell n (with_service_pool a' v)), true.
    split; [|split; [by eexists|done]]. split; [|done| |].
    + exact (served_step VERSION it s hist v (Some _) _ Hs Hcs).
    + apply Hset; try done; cbn; by rewrite ?Hc0.
    + by apply (trace_rel_worker _ _ _ _ _ (Some (EAnswer job n))).
  - destruct Hlab as [Htk Hn]. rewrite Hn in Hset.
    exists (hist ++ []), (with_service_pool a' v), false.
    split; [|split; [right; exists PExit, a'; split; [by right|done]|intros _; cbn; by rewrite Htk]].
    split; [|done| |].
    + exact (served_step VERSION it s hist v None _ Hs (step_exit VERSION it s v a' Hrun)).
    + apply Hset; try done; cbn; by rewrite ?Hc0.
    + by apply (trace_rel_worker _ _ _ _ _ None).
  - destruct Hlab as [Htk Hn]. rewrite Hn in Hset. injection Hrun as <-.
    exists hist, v, false. split; [|split; [by left|intros _; cbn; by rewrite Htk]].
    split; [done|done| |].
    + by apply Hset.
    + rewrite <- (app_nil_r hist). by apply (trace_rel_worker _ _ _ _ _ None).
Qed.

(** *** Every execution *)

Lemma sim_init t st :
  pool_create true (depth s) (timeout s) = Ok (cfg, st) ->
  sim [] (mk_system (auth_limiter_ s) (request_limiter_ s) t ∅ [] (sys_init st)) []
    (service_init s t).
Proof.
  intros Hst. assert (Hr : reach cfg (sys_init st) []) by by apply reach_init.
  destruct (reach_refines cfg Hdepth _ _ Hr) as (a & Ha & Href). injection Ha as <-.
  split; [constructor|done| |done].
  by split; try done; split.
Qed.

Lemma deployed_sim tr y : deployed VERSION it s tr y -> exists hist v, sim tr y hist v.
Proof.
  induction 1 as [t st Hst|tr y a tr' y' _ (hist & v & Hsim) Hstep].
  - exists [], (service_init s t). by apply sim_init.
  - destruct Hstep.
    + by eapply sim_arrive.
    + destruct (sim_local _ _ _ _ _ _ _ _ _ _ _ _ _ Hsim H H0 H1 H2 H3) as (h & v' & ? & _). by exists h, v'.
    + do 2 eexists. by eapply sim_enter.
    + destruct (sim_client _ _ _ _ _ _ _ _ Hsim H H0) as (h & v' & ? & ? & ? & ? & _). by exists h, v'.
    + do 2 eexists. by eapply sim_leave.
    + do 2 eexists. by eapply sim_other.
    + destruct (sim_worker _ _ _ _ _ _ _ Hsim H H1) as (h & v' & ? & ? & _). by exists h, v'.
Qed.
End Simulation.
