(* ===== verification/Deployed.v ===== *)
(** * The implementation comes to an end, and keeps the promises of the service

    Over [System], the request threads on the pool as implemented: every request
    ends, with a bound on the statements left; freedom from deadlock at the
    level of the mutex and the condition variable; delivery, the life time of
    the closures, and when [submit()] accepts a job. *)

From Stdlib Require Import ZArith Lia Ascii String SpecFloat.
From stdpp Require Import base tactics numbers list strings gmap.
From S2P Require Import Prelude Effects Floats Auth RateLimit Voices Validation Metrics.
From S2P Require Import Backend Pool PoolSpec PoolServe Config Http RequestHandler Uuid Server Boot.
From S2P Require Import HttpAdapter Session Service Liveness Abuse Delivery Order System.

#[local] Open Scope Z_scope.

(** A request that has not returned. *)
Definition working (th : HttplibRequest * activity) : Prop :=
  match th.2 with Serving (Vis _ _) | Calling _ _ => True | _ => False end.

(** A step that is not an arrival, a call of another thread or a spurious
    wake-up. *)
Definition genuine (a : actor) : Prop :=
  match a with Request _ | Method _ _ => True | Worker o => o_spurious o = false | _ => False end.

(** ** What an execution shows *)

(** The jobs of request [i] that [submit()] accepted, and what the worker told
    them all. *)
Definition jobs_of (i : nat) (tr : trace) : list InferenceJob := filter (owned i) (Pool.accepted tr).
Definition worker_notices (tr : trace) : list notice := notices (worker_trace tr).

(** An execution of the implementation and a history of the service show the
    same: limiters, results that wait, queue and open flag, requests outside a
    pool method, jobs accepted, taken and answered. *)
Definition shows_same (s : TtsServer) (tr : trace) (y : system) (hist : list entry) (v : service) : Prop :=
  sv_auth v = y_auth y /\ sv_requests v = y_requests y /\ sv_cells v = y_cells y /\
  ps_queue (sv_pool v) = queue_ (shared (y_pool y)) /\
  ps_open (sv_pool v) = accepting_ (shared (y_pool y)) /\
  length (sv_threads v) = length (y_threads y) /\
  (forall i q p, y_threads y !! i = Some (q, Serving p) -> sv_threads v !! i = Some (q, p)) /\
  (accepted s hist).*2 = Pool.accepted tr /\ taken_jobs hist = taken (worker_trace tr) /\
  notices_of hist = worker_notices tr.

(** ** Steps of the system's own *)

Section OwnSteps.
Context {L : JsonLib} (VERSION : string).
Context (it : gmap string AuthLimiter.IpState -> list (string * AuthLimiter.IpState)).
Context (s : TtsServer).

(** No arrivals, no further calls of other threads, no spurious wake-ups. *)
Inductive own_steps : nat -> system -> system -> Prop :=
| own_none y : own_steps 0 y y
| own_one n y a tr y1 y2 :
    genuine a -> system_step VERSION it s y a tr y1 -> own_steps n y1 y2 -> own_steps (S n) y y2.
End OwnSteps.

(** The steps the system can make on its own: 40 for each unit of
    [Liveness.work_left], and what the calls in progress still take. *)
Definition steps_left (y : system) : nat :=
  40 * (120 * length (y_threads y) + 2 * length (queue_ (shared (y_pool y))) + 1) +
  34 * length (y_threads y) + 32 * length (clients (y_pool y)) + 10.

#[export] Instance working_dec th : Decision (working th).
Proof. unfold working. destruct (th.2) as [[]|]; apply _. Defined.

Section Progress.
Context {L : JsonLib} {HL : JsonLaws L} (VERSION : string).
Context (it : gmap string AuthLimiter.IpState -> list (string * AuthLimiter.IpState)).
Context (s : TtsServer) (Hdepth : in_int (depth s)).

#[local] Notation cfg := (pool_config s).
#[local] Notation svc_step := (svc_step VERSION it s).
#[local] Notation served := (served VERSION it s).
#[local] Notation sim := (sim VERSION it s).
#[local] Notation at_call := (at_call s).

(** ** Lemmas: progress *)

Lemma notifying_vis (m : prog poolE pool_answer) :
  notifying m = true -> exists k, m = Vis Notify k.
Proof. destruct m as [a|err|X e k]; try done. destruct e; try done. by exists k. Qed.

Lemma client_can_step c o ps {X} (e : poolE X) k x st :
  clients ps !! c = Some (Vis e k) -> perform cfg (has_exited (worker ps)) o e (shared ps) = Some (x, st) ->
  sys_step cfg (LClient c o) ps =
    Some (mk_sys st (worker ps) (<[c := k x]> (clients ps)), [(false, Ev e x)]).
Proof.
  intros Hc Hp. cbn [sys_step]. unfold client_step.
  destruct (clients ps !! c) as [m|]; [|done]. injection Hc as ->. by rewrite Hp.
Qed.

Lemma rel_thread_back y v i th' :
  state_rel s y v -> sv_threads v !! i = Some th' -> unfinished th' ->
  exists th, y_threads y !! i = Some th /\ working th.
Proof.
  intros Hrel Hv Hu. destruct (lookup_lt_is_Some_2 (y_threads y) i) as [[q act] Hi].
  { rewrite <- (rel_length _ _ _ Hrel). by eapply lookup_lt_Some. }
  exists (q, act). split; [done|]. destruct (rel_threads _ _ _ Hrel i _ _ Hi Hv) as [_ Hact].
  destruct act as [p|c k]; [|done]. cbn in Hact. unfold unfinished in Hu. rewrite Hact in Hu. exact Hu.
Qed.

(** With a job pending, a caller that has still to notify or the worker can
    move. *)
Lemma pool_can_move ps tr a t :
  Inv cfg ps tr -> refines ps a -> exit_ok a ->
  Forall (fun job => exists i, owned i job) (pending a) -> pending a <> [] ->
  exists l ps' tr', sys_step cfg l ps = Some (ps', tr') /\ t <= time_after t tr' /\
    ((exists c, l = LClient c (oracle_at result_init t ps)) \/ l = LWorker (oracle_at result_init t ps)).
Proof.
  intros HI Href Hexit Hown Hne.
  destruct (decide (List.Exists (fun m => notifying m = true) (clients ps))) as [Hex|Hno].
  { apply List.Exists_exists in Hex as (m & Hin & Hm).
    apply list_elem_of_In, list_elem_of_lookup in Hin as [c Hc].
    destruct (notifying_vis m Hm) as [k ->].
    eexists (LClient c (oracle_at result_init t ps)), _, _. split.
    - by apply (client_can_step c _ ps Notify k tt (set_waiting false (shared ps))).
    - split; [cbn; lia|left; by exists c]. }
  destruct Href as [Hq Ho Hx (cur & Hw & Hh)].
  assert (has_exited (worker ps) = false) as Hrun.
  { rewrite <- Hx. destruct (ps_exited a) eqn:Hxa; [|done]. by destruct (Hexit Hxa). }
  destruct (worker ps) as [p| |] eqn:Hwy; [|done|done]. destruct Hw as [Hs Hvis].
  destruct p as [b|err|X e k]; [done|done|]. pose proof (iteration_point _ _ Hs) as [He _].
  destruct (perform_progress cfg (oracle_at result_init t ps) X e (shared ps) He) as (x & st & Hp).
  { destruct (waiting (shared ps)) eqn:Hwt; [left|by right].
    destruct (at_block (Vis e Ret)) eqn:Hb; [exfalso|done].
    destruct (inv_wake _ _ _ HI Hwt) as [_ [[_ Hqe]|Hex]]; [|by apply Hno].
    assert (at_block (Vis e k) = true) as Hbk by by destruct e.
    unfold hand_rel in Hh. rewrite (proj1 (waiting_no_job _ _ Hs Hbk)) in Hh. unfold hand_free in Hh.
    apply Hne. unfold pending in *. rewrite Hq, Hqe, app_nil_r in *.
    destruct (ps_hand a) as [[job []]|]; [done| |done].
    apply Forall_cons in Hown as [[i Hi] _]. by rewrite (owned_both i job Hi) in Hh. }
  eexists (LWorker (oracle_at result_init t ps)), _, _. split.
  - cbn [sys_step]. unfold worker_step. rewrite Hwy, Hp. reflexivity.
  - split; [by eapply oracle_at_time|by right].
Qed.

(** A request's client moves, or has returned. *)
Lemma returns_moves {A} (a : A) b o m st :
  returns a m -> (exists a', m = Ret a') \/
  exists X (e : poolE X) k x st', m = Vis e k /\ perform cfg b o e st = Some (x, st').
Proof.
  destruct m as [a'|err|X e k]; cbn; [by left; exists a'|done|]. intros [He _]. right.
  destruct e; try done; by eexists _, _, _, _, _.
Qed.

Lemma at_call_moves i t k m p b o st :
  at_call i t k m p -> (exists a, m = Ret a) \/
  exists X (e : poolE X) f x st', m = Vis e f /\ perform cfg b o e st = Some (x, st').
Proof.
  intros H. destruct H as [job k0 _|job k0 r _ _|k0 _|k0 _|m a Ha];
    [right..|by eapply returns_moves]; try (by eexists _, _, _, _, _).
  destruct (submit_locked cfg (own_job i (timeout s) r job) st) as [x st'] eqn:Hsub.
  eexists _, _, _, x, st'. split; [reflexivity|]. cbn [perform]. by rewrite Hsub.
Qed.

Lemma sim_progress tr y hist v i th :
  sim tr y hist v -> y_threads y !! i = Some th -> working th ->
  exists a tr' y', genuine a /\ system_step VERSION it s y a tr' y'.
Proof.
  intros [Hs Hr Hst _] Hi Hw. pose proof (reach_inv cfg Hdepth _ _ Hr) as HI.
  destruct (rel_thread_of s _ _ _ _ Hst Hi) as (p & Hv & Hat). destruct th as [q act].
  destruct Hat as [_ Hat]. cbn [fst snd] in *.
  destruct act as [p0|c k]; [subst p; destruct p0 as [ops|err|X e k]; [done|done|]|].
  - destruct (pool_method i e) as [[c dec]|] eqn:Hm.
    { eexists (Request i), _, _. split; [done|]. by eapply sy_enter. }
    destruct (local_call it i (y_time y) (y_time y) e y) as [[[x y']|]|] eqn:Hl.
    + eexists (Request i), _, _. split; [done|].
      eapply (sy_local VERSION it s y i q X e k x (y_time y) (y_time y) y'); [done..|lia|lia|].
      unfold local_answers. by rewrite Hl.
    + assert (shared_call it s i (y_time y) (y_time y) e v = Some None) as Hsh.
      { destruct e; cbn [local_call] in Hl; try discriminate Hl; try (by repeat case_match).
        cbn [shared_call]. rewrite (rel_cells _ _ _ Hst). by destruct (y_cells y !! i). }
      destruct (served_inv VERSION it s hist v Hs) as (ts & HSI).
      destruct (pool_can_move (y_pool y) tr (sv_pool v) (y_time y) HI (rel_pool _ _ _ Hst)
        (served_exit_ok VERSION it s hist v Hs) (inv_owned _ _ HSI)
        (blocked_pending VERSION it s hist v i q X e k _ _ Hs Hv Hsh))
        as (l & ps & tr' & Hstep & Ht & [[c ->]| ->]).
      * eexists (Method c _), tr', _. split; [done|].
        exact (sy_client VERSION it s y c _ ps tr' Hstep Ht).
      * eexists (Worker (oracle_at result_init (y_time y) (y_pool y))), tr', _. split; [done|].
        exact (sy_worker VERSION it s y _ ps tr' Hstep eq_refl Ht).
    + eexists (Request i), _, _. split; [done|].
      eapply (sy_local VERSION it s y i q X e k (some_answer e) (y_time y) (y_time y) y);
        [done..|lia|lia|]. unfold local_answers. by rewrite Hl.
  - destruct Hat as (m & Hc & Hat).
    destruct (at_call_moves _ _ _ _ _ (has_exited (worker (y_pool y)))
      (oracle_at result_init (y_time y) (y_pool y)) (shared (y_pool y)) Hat)
      as [[a ->]|(X & e & f & x & st & -> & Hp)].
    + eexists (Request i), _, _. split; [done|]. by eapply sy_leave.
    + eexists (Method c _), _, _. split; [done|].
      eapply (sy_client VERSION it s y c (oracle_at result_init (y_time y) (y_pool y))); [|by eapply oracle_at_time].
      by apply (client_can_step c _ (y_pool y) e f x st).
Qed.

(** ** Lemmas: what is left to do *)

(** A sum over a list one element of which changes. *)
Lemma sum_change {A} (f g : A -> nat) l i x x' :
  l !! i = Some x -> (forall j z, j <> i -> l !! j = Some z -> (g z <= f z)%nat) ->
  (sum_list (g <$> <[i := x']> l) + f x <= sum_list (f <$> l) + g x')%nat.
Proof.
  revert i. induction l as [|z l IH]; intros [|i] Hi Hle; [done|done|..].
  - injection Hi as ->. rewrite !fmap_cons. cbn.
    enough (sum_list (g <$> l) <= sum_list (f <$> l))%nat by lia.
    assert (Hle' : forall j z, l !! j = Some z -> (g z <= f z)%nat) by (intros j w Hj; by apply (Hle (S j) w)).
    clear -Hle'. induction l as [|z l IH]; [done|]. rewrite !fmap_cons. cbn.
    pose proof (Hle' 0%nat z eq_refl). specialize (IH (fun j => Hle' (S j))). lia.
  - change (<[S i := x']> (z :: l)) with (z :: <[i := x']> l). rewrite !fmap_cons. cbn.
    pose proof (Hle 0%nat z (Nat.neq_0_succ _) eq_refl).
    specialize (IH i Hi (fun j w Hj => Hle (S j) w (fun H => Hj (Nat.succ_inj _ _ H)))). lia.
Qed.

Lemma sum_same {A} (f g : A -> nat) l :
  (forall j z, l !! j = Some z -> (g z <= f z)%nat) -> (sum_list (g <$> l) <= sum_list (f <$> l))%nat.
Proof.
  induction l as [|z l IH]; intros Hle; [done|]. rewrite !fmap_cons. cbn.
  pose proof (Hle 0%nat z eq_refl). specialize (IH (fun j => Hle (S j))). lia.
Qed.

Lemma sum_step (l : list nat) i n :
  l !! i = Some (S n) -> (sum_list (<[i := n]> l) + 1 = sum_list l)%nat.
Proof.
  revert i. induction l as [|z l IH]; intros [|i] Hi; [done|done|..].
  - injection Hi as ->. cbn. lia.
  - change (<[S i := n]> (z :: l)) with (z :: <[i := n]> l). cbn. specialize (IH i Hi). lia.
Qed.

(** A request that is about to call a method pays for it; one that is inside
    pays again once its call has been answered. *)
Definition thread_cost (cs : list (prog poolE pool_answer)) (th : HttplibRequest * activity) : nat :=
  match th.2 with
  | Serving (Vis _ _) => 33
  | Serving _ => 0
  | Calling c _ => match cs !! c with Some m => if entering m then 0 else 34 | None => 0 end
  end.

(** The worker until it waits: the rest of its iteration, and a look at the
    queue. *)
Definition worker_cost (w : worker_state) (waits : bool) (k : nat) : Prop :=
  match w with
  | Exited => True
  | Terminated => False
  | Running p =>
      if at_block p then waits = true \/ (3 <= k)%nat
      else (p = worker_iteration /\ (2 <= k)%nat) \/
           (exists n, within n p /\ no_take p /\ (n + 2 <= k)%nat)
  end.

Definition cost (y : system) (k : nat) : Prop :=
  exists ns w, Forall2 within ns (clients (y_pool y)) /\
    worker_cost (worker (y_pool y)) (waiting (shared (y_pool y))) w /\
    k = (sum_list (thread_cost (clients (y_pool y)) <$> y_threads y) + 4 * sum_list ns + w)%nat.

Lemma worker_cost_wake w waits waits' k :
  worker_cost w waits k -> worker_cost w waits' (k + 3).
Proof.
  destruct w as [p| |]; [|done..]. cbn. destruct (at_block p); [intros _; right; lia|].
  intros [[-> H]|(n & H1 & H2 & H3)]; [left; split; [done|lia]|right; exists n; split_and!; [done..|lia]].
Qed.

(** After a call of the worker, when it goes on. *)
Lemma settle_cost cur X (e : poolE X) f x n waits :
  steps worker_iteration cur (Vis e f) -> last_blocked [Ev e x] = false ->
  within n (f x) -> no_take (f x) -> worker_cost (settle (f x)) waits (n + 2).
Proof.
  intros Hs Ht Hw Hn. pose proof (settle_running cur X e f x Hs) as Hset.
  apply (steps_snoc _ _ _ _ _ x) in Hs. destruct (iteration_point _ _ Hs) as (_ & _ & _ & Hb & _).
  destruct (f x) as [[|]|err|Y e' f']; [|done|done|].
  - cbn. left. split; [done|lia].
  - cbn [settle worker_cost]. unfold last_blocked in *. rewrite Hb, last_take_snoc, Ht.
    right. by exists n.
Qed.

Lemma worker_cost_step o y tr y' tr' k :
  Inv cfg y tr -> worker_step cfg o y = Some (y', tr') -> o_spurious o = false ->
  worker_cost (worker y) (waiting (shared y)) k ->
  exists k', worker_cost (worker y') (waiting (shared y')) k' /\
    ((k' < k)%nat \/ (taken (worker_trace tr') <> [] /\ (k' <= 10)%nat)).
Proof.
  intros HI Hstep Hsp Hk. unfold worker_step in Hstep.
  destruct (inv_worker _ _ _ HI) as (its & cur & _ & _ & Hcur).
  destruct (worker y) as [p| |] eqn:Hwy; [|done|done]. destruct Hcur as [Hs Hvis].
  cbn [worker_cost] in Hk. destruct (at_block p) eqn:Hb.
  - destruct (waiting_wakes _ _ Hs Hb) as (f & -> & Hf). cbn in Hstep. rewrite Hsp in Hstep.
    destruct (waiting (shared y)); [done|]. injection Hstep as <- _.
    destruct Hk as [Hk|Hk]; [done|]. exists 2%nat. cbn [worker shared]. rewrite Hf.
    split; [left; split; [done|lia]|left; lia].
  - destruct Hk as [[-> Hk]|(n & Hn & Hnt & Hk)].
    + destruct worker_iteration_eq as (f & Heq & Hdown & Hf). rewrite Heq in Hstep.
      cbn [perform] in Hstep. destruct (take_locked (shared y)) as [x st] eqn:Ht. injection Hstep as <- <-.
      assert (Hs0 : steps worker_iteration [] (Vis LockTake f)) by (rewrite <- Heq; apply steps_refl).
      destruct x as [| |job].
      * exists 0%nat. split; [|left; lia]. cbn [worker shared].
        pose proof (inv_worker _ _ _ HI) as Hw. rewrite Hwy, Heq in Hw.
        destruct (worker_blocked_step LockTake f Blocked _ Hw eq_refl) as (p & -> & Hp).
        cbn [worker_cost]. rewrite Hp. left. unfold take_locked in Ht.
        destruct (negb _); [by injection Ht as <-|]. destruct (_ && _); [done|]. by destruct (queue_ (shared y)).
      * exists 0%nat. split; [|left; lia]. cbn [worker shared]. by rewrite Hdown.
      * exists 10%nat. split; [|right; split; [done|lia]]. cbn [worker shared].
        destruct (Hf (Took job)) as [Hf1 Hf2]. by apply (settle_cost [] _ LockTake f (Took job) 8).
    + destruct p as [b|err|X e f]; [done|done|]. destruct n as [|n]; [done|].
      destruct (perform _ _ _ _ _) as [[x st]|]; [|done]. injection Hstep as <- <-.
      exists (n + 2)%nat. split; [|left; lia]. cbn [worker shared].
      destruct Hnt as [Ht Hnt]. apply (settle_cost cur _ e f x n); [done| |apply Hn|apply Hnt].
      unfold last_blocked. by destruct e.
Qed.

(** Every method is short. *)
Lemma call_within c : within 8 (call_prog cfg c).
Proof.
  destruct c as [[rq dl cs ce]| | | | |]; unfold call_prog, submit, shutdown, queue_depth,
    active_jobs, is_accepting, expired_jobs, call, plog;
    try destruct (dl =? 0) eqn:Hd; cbn [deadline]; rewrite ?Hd; cbn; try done.
  all: repeat match goal with
       | |- forall _, _ => intros ?
       | |- context [match ?x with _ => _ end] => is_var x; destruct x; cbn
       | |- context [of_res ?x] => destruct x; cbn
       end.
  all: done.
Qed.

Lemma reach_within ps tr : reach cfg ps tr -> Forall (within 8) (clients ps).
Proof.
  induction 1 as [st Hst|ps tr l ps' tr' _ IH Hstep]; [constructor|].
  destruct l as [c|o|c o]; cbn [sys_step] in Hstep.
  - injection Hstep as <- _. apply Forall_app. split; [done|]. constructor; [apply call_within|constructor].
  - unfold worker_step in Hstep. destruct (worker ps) as [[b|err|X e k]| |]; try done.
    destruct (perform _ _ _ _ _) as [[x st]|]; [|done]. by injection Hstep as <- _.
  - destruct (client_step_move s _ _ _ _ _ Hstep) as (m & m' & st' & ev & Hc & Hm & -> & _).
    cbn [clients]. apply Forall_insert; [done|]. pose proof (Forall_lookup_1 _ _ _ _ IH Hc) as Hw.
    destruct m as [a|err|X e k]; [done|done|]. cbn [move] in Hm.
    destruct (perform _ _ _ _ _) as [[x st]|]; [|done]. injection Hm as <- _ _.
    apply (within_mono 7); [lia|]. apply Hw.
Qed.

(** A client that makes a step has one call less to make. *)
Lemma client_cost c o ps ps' tr ns :
  Forall2 within ns (clients ps) -> client_step cfg c o ps = Some (ps', tr) ->
  exists ns', Forall2 within ns' (clients ps') /\ (sum_list ns' + 1 = sum_list ns)%nat.
Proof.
  intros Hns Hstep. destruct (client_step_move s _ _ _ _ _ Hstep) as (m & m' & st' & ev & Hc & Hm & -> & _).
  destruct (Forall2_lookup_r _ _ _ _ _ Hns Hc) as (n & Hn & Hw).
  destruct m as [a|err|X e k]; [done|done|]. cbn [move] in Hm.
  destruct (perform _ _ _ _ _) as [[x st]|]; [|done]. injection Hm as <- _ _.
  destruct n as [|n]; [done|]. exists (<[c := n]> ns). split; [|by apply sum_step].
  cbn [clients]. apply Forall2_insert; [done|]. apply Hw.
Qed.

(** The threads pay at most once for an answered call, and nothing for a step
    that stays on its side of the critical section. *)
Lemma threads_cost y c m m' b :
  clients_rel y -> clients (y_pool y) !! c = Some m ->
  (b = false -> entering m' = entering m \/
     forall i th, y_threads y !! i = Some th -> caller_of th <> Some c) ->
  (sum_list (thread_cost (<[c := m']> (clients (y_pool y))) <$> y_threads y) <=
   sum_list (thread_cost (clients (y_pool y)) <$> y_threads y) + if b then 34 else 0)%nat.
Proof.
  intros Hrel Hc Hb. set (f := thread_cost (clients (y_pool y))). set (g := thread_cost _).
  assert (Hother : forall th, caller_of th <> Some c -> (g th <= f th)%nat).
  { intros [q [p|c' k]] Hne; [done|]. unfold f, g, thread_cost. cbn.
    rewrite list_lookup_insert_ne; [done|]. intros ->. by apply Hne. }
  assert (Hown : forall th, caller_of th = Some c ->
    (g th <= 34)%nat /\ (entering m' = entering m -> (g th <= f th)%nat)).
  { intros [q [p|c' k]] [=->]. unfold f, g, thread_cost. cbn.
    rewrite list_lookup_insert_eq, Hc by by eapply lookup_lt_Some.
    split; [destruct (entering m'); lia|by intros ->]. }
  destruct (decide (List.Exists (fun th => caller_of th = Some c) (y_threads y))) as [Hex|Hno].
  - apply List.Exists_exists in Hex as (th & Hin & Hth).
    apply list_elem_of_In, list_elem_of_lookup in Hin as [i Hi].
    pose proof (sum_change f g (y_threads y) i th th Hi) as Hsum.
    rewrite list_insert_id in Hsum by done. destruct (Hown th Hth) as [H1 H2].
    assert (sum_list (g <$> y_threads y) + f th <= sum_list (f <$> y_threads y) + g th)%nat.
    { apply Hsum. intros j z Hj Hz. apply Hother. intros Hz'. apply Hj.
      by apply (rel_distinct _ Hrel j i z th c). }
    destruct b; [lia|]. destruct (Hb eq_refl) as [He|Hn]; [specialize (H2 He); lia|].
    by destruct (Hn i th Hi).
  - assert (sum_list (g <$> y_threads y) <= sum_list (f <$> y_threads y))%nat; [|destruct b; lia].
    apply sum_same. intros j z Hz. apply Hother. intros Hz'. apply Hno, List.Exists_exists.
    exists z. split; [|done]. by eapply list_elem_of_In, list_elem_of_lookup_2.
Qed.

(** The weight of the service pays for the calls that are answered. *)
Lemma follows_weight b v v' ts :
  svc_inv v ts -> follows VERSION it s b v v' ->
  exists ts', svc_inv v' ts' /\ (weight v' ts' + Nat.b2n b <= weight v ts)%nat.
Proof.
  intros HI Hf. destruct b; cbn [follows Nat.b2n] in *.
  - destruct Hf as [e Hs]. destruct (inv_step VERSION it s v ts (Some e) v' HI Hs) as (ts' & HI' & Hlt).
    exists ts'. split; [done|]. specialize (Hlt (mk_is_Some _ _ eq_refl)). lia.
  - destruct Hf as [->|(l & a & Hl & Ha & ->)]; [exists ts; split; [done|lia]|].
    assert (pending a = pending (sv_pool v) /\ ps_queue a = ps_queue (sv_pool v)) as [Hp Hq].
    { destruct Hl as [-> | ->]; [by eapply close_pending|by eapply exit_pending]. }
    exists ts. split.
    + destruct HI as [H1 H2 H3 H4]. split; [exact H1| |by cbn; rewrite Hp|exact H4].
      intros i. rewrite <- H2. unfold owed. cbn. by rewrite Hp.
    + unfold weight. cbn. rewrite Hp, Hq. lia.
Qed.

(** *** One step *)

(** The weight of the service, and the cost of what goes on between its
    calls. *)
Definition total (v : service) (ts : list (nat * phase)) (k : nat) : nat := 40 * weight v ts + k.

Lemma cost_thread y y' i th th' k d :
  cost y k -> y_threads y !! i = Some th -> y_threads y' = <[i := th']> (y_threads y) ->
  y_pool y' = y_pool y ->
  (thread_cost (clients (y_pool y)) th' + d <= thread_cost (clients (y_pool y)) th)%nat ->
  exists k', cost y' k' /\ (k' + d <= k)%nat.
Proof.
  intros (ns & w & Hns & Hw & ->) Hi Hy Hp Hle.
  exists (sum_list (thread_cost (clients (y_pool y)) <$> <[i := th']> (y_threads y)) +
    4 * sum_list ns + w)%nat. split.
  - exists ns, w. rewrite Hy, Hp. by split_and!.
  - pose proof (sum_change (thread_cost (clients (y_pool y))) (thread_cost (clients (y_pool y)))
      (y_threads y) i th th' Hi (fun _ _ _ _ => Nat.le_refl _)). lia.
Qed.

(** What a step leads to: the service follows, and less is left. *)
Definition nearer (tr : trace) (y' : system) (v : service) (ts : list (nat * phase)) (k : nat) : Prop :=
  exists hist' v' ts' k', sim tr y' hist' v' /\ svc_inv v' ts' /\ cost y' k' /\
    (total v' ts' k' < total v ts k)%nat.

Lemma serving_cost cs q p : (thread_cost cs (q, Serving p) <= 33)%nat.
Proof. unfold thread_cost. cbn. destruct p; lia. Qed.

Lemma own_local tr y hist v ts k i q X (e : sysE X) f x now ins y' :
  sim tr y hist v -> svc_inv v ts -> cost y k ->
  y_threads y !! i = Some (q, Serving (Vis e f)) -> pool_method i e = None ->
  y_time y <= now -> now <= ins -> local_answers it i now ins e y x y' ->
  nearer (tr ++ []) (y_set_thread i (q, Serving (f x)) ins y') v ts k.
Proof.
  intros Hsim HI Hk Hi Hm Hnow Hins Hl.
  destruct (sim_local _ _ _ _ _ _ _ _ _ _ _ _ _ _ _ _ Hsim Hi Hm Hnow Hins Hl) as (hist' & v' & Hsim' & Hf).
  destruct (local_shared it s _ _ _ _ _ _ _ _ _ (sim_state _ _ _ _ _ _ _ Hsim) Hm Hl)
    as (v1 & _ & _ & _ & _ & _ & _ & Hyp & Hyt & _).
  destruct (follows_weight true v v' ts HI Hf) as (ts' & HI' & Hw). cbn [Nat.b2n] in Hw.
  destruct (cost_thread y (y_set_thread i (q, Serving (f x)) ins y') i (q, Serving (Vis e f))
    (q, Serving (f x)) k 0 Hk Hi) as (k' & Hk' & Hle); [by cbn; rewrite Hyt|by cbn; rewrite Hyp| |].
  { pose proof (serving_cost (clients (y_pool y)) q (f x)). rewrite Nat.add_0_r. done. }
  exists hist', v', ts', k'. split_and!; [done..|]. unfold total. lia.
Qed.

Lemma method_enters i X (e : sysE X) c dec :
  pool_method i e = Some (c, dec) -> entering (call_prog cfg c) = true.
Proof.
  destruct e; try done; intros [= <- _]; [done..|].
  unfold call_prog, submit. cbn. by destruct (_ =? 0).
Qed.

Lemma own_enter tr y hist v ts k i q X (e : sysE X) f c dec ps :
  sim tr y hist v -> svc_inv v ts -> cost y k ->
  y_threads y !! i = Some (q, Serving (Vis e f)) -> pool_method i e = Some (c, dec) ->
  sys_step cfg (LCall c) (y_pool y) = Some (ps, []) ->
  nearer (tr ++ []) (y_set_thread i (q, Calling (length (clients (y_pool y))) (fun a => f (dec a)))
                       (y_time y) (y_with_pool ps (y_time y) y)) v ts k.
Proof.
  intros Hsim HI (ns & w & Hns & Hw & ->) Hi Hm Hstep.
  pose proof (sim_enter _ _ _ _ _ _ _ _ _ _ _ _ _ _ _ Hsim Hi Hm Hstep) as Hsim'.
  cbn [sys_step] in Hstep. injection Hstep as Hps.
  set (cs := clients (y_pool y)) in *. set (th' := (q, Calling (length cs) (fun a => f (dec a)))).
  assert (Hc : clients ps = cs ++ [call_prog cfg c]) by by rewrite <- Hps.
  exists hist, v, ts, (sum_list (thread_cost (clients ps) <$> <[i := th']> (y_threads y)) +
    4 * sum_list (ns ++ [8%nat]) + w)%nat. split_and!; [done..| |].
  - exists (ns ++ [8%nat]), w. cbn [y_pool y_set_thread y_with_pool y_threads]. split_and!; [| |done].
    + rewrite Hc. apply Forall2_app; [done|]. constructor; [apply call_within|constructor].
    + by rewrite <- Hps.
  - unfold total. rewrite sum_list_with_app. cbn [sum_list_with].
    enough (sum_list (thread_cost (clients ps) <$> <[i := th']> (y_threads y)) + 33 <=
      sum_list (thread_cost cs <$> y_threads y))%nat by (unfold Datatypes.id in *; lia).
    pose proof (sum_change (thread_cost cs) (thread_cost (clients ps)) (y_threads y) i
      (q, Serving (Vis e f)) th' Hi) as Hsum.
    assert (thread_cost (clients ps) th' = 0%nat) as H0.
    { unfold thread_cost, th'. cbn. rewrite Hc, lookup_app_r, Nat.sub_diag by lia. cbn.
      by rewrite (method_enters _ _ _ _ _ Hm). }
    rewrite H0, Nat.add_0_r in Hsum. apply Hsum. intros j [q' [p|c' k']] Hj Hz; [done|].
    unfold thread_cost. cbn. rewrite Hc, lookup_app_l; [done|].
    by apply (rel_bound _ (rel_clients _ _ _ (sim_state _ _ _ _ _ _ _ Hsim)) j _ c' Hz).
Qed.

Lemma own_leave tr y hist v ts k i q c f a :
  sim tr y hist v -> svc_inv v ts -> cost y k ->
  y_threads y !! i = Some (q, Calling c f) -> clients (y_pool y) !! c = Some (Ret a) ->
  nearer (tr ++ []) (y_set_thread i (q, Serving (f a)) (y_time y) y) v ts k.
Proof.
  intros Hsim HI Hk Hi Hc. pose proof (sim_leave _ _ _ _ _ _ _ _ _ _ _ _ Hsim Hi Hc) as Hsim'.
  destruct (cost_thread y (y_set_thread i (q, Serving (f a)) (y_time y) y) i (q, Calling c f)
    (q, Serving (f a)) k 1 Hk Hi) as (k' & Hk' & Hle); [done|done| |].
  { assert (thread_cost (clients (y_pool y)) (q, Calling c f) = 34%nat) as ->
      by (unfold thread_cost; cbn; by rewrite Hc).
    pose proof (serving_cost (clients (y_pool y)) q (f a)). lia. }
  exists hist, v, ts, k'. split_and!; [done..|]. unfold total. lia.
Qed.

Lemma own_client tr y hist v ts k c o ps tr' :
  sim tr y hist v -> svc_inv v ts -> cost y k ->
  sys_step cfg (LClient c o) (y_pool y) = Some (ps, tr') -> y_time y <= time_after (y_time y) tr' ->
  nearer (tr ++ tr') (y_with_pool ps (time_after (y_time y) tr') y) v ts k.
Proof.
  intros Hsim HI (ns & w & Hns & Hw & ->) Hstep Ht.
  destruct (sim_client VERSION it s Hdepth _ _ _ _ _ _ _ _ Hsim Hstep Ht)
    as (hist' & v' & b & m & m' & Hsim' & Hf & Hc & Hcs & Hb).
  destruct (follows_weight b v v' ts HI Hf) as (ts' & HI' & Hwt).
  cbn [sys_step] in Hstep. destruct (client_cost _ _ _ _ _ _ Hns Hstep) as (ns' & Hns' & Hsum).
  pose proof (threads_cost y c m m' b (rel_clients _ _ _ (sim_state _ _ _ _ _ _ _ Hsim)) Hc Hb) as Hth.
  destruct (client_step_move s _ _ _ _ _ Hstep) as (m1 & m2 & st' & ev & _ & _ & Hps & _).
  exists hist', v', ts', (sum_list (thread_cost (clients ps) <$> y_threads y) + 4 * sum_list ns' + (w + 3))%nat.
  split_and!; [done..| |].
  - exists ns', (w + 3)%nat. cbn [y_pool y_with_pool y_threads]. split_and!; [done| |done].
    rewrite Hps. by eapply worker_cost_wake.
  - unfold total. rewrite Hcs. destruct b; cbn [Nat.b2n] in Hwt; lia.
Qed.

Lemma own_worker tr y hist v ts k o ps tr' :
  sim tr y hist v -> svc_inv v ts -> cost y k ->
  sys_step cfg (LWorker o) (y_pool y) = Some (ps, tr') -> o_spurious o = false ->
  y_time y <= time_after (y_time y) tr' ->
  nearer (tr ++ tr') (run_closures (notices (worker_trace tr'))
    (y_with_pool ps (time_after (y_time y) tr') y)) v ts k.
Proof.
  intros Hsim HI (ns & w & Hns & Hw & ->) Hstep Hsp Ht.
  destruct (sim_worker VERSION it s Hdepth _ _ _ _ _ _ _ Hsim Hstep Ht)
    as (hist' & v' & b & Hsim' & Hf & Hb).
  destruct (follows_weight b v v' ts HI Hf) as (ts' & HI' & Hwt).
  pose proof (reach_inv cfg Hdepth _ _ (sim_reach _ _ _ _ _ _ _ Hsim)) as HP. cbn [sys_step] in Hstep.
  destruct (worker_cost_step _ _ _ _ _ _ HP Hstep Hsp Hw) as (w' & Hw' & Hlt).
  destruct (worker_step_event s _ _ _ _ _ HP Hstep) as (X1 & e1 & x1 & _ & _ & Hcl).
  exists hist', v', ts', (sum_list (thread_cost (clients (y_pool y)) <$> y_threads y) + 4 * sum_list ns + w')%nat.
  split_and!; [done..| |].
  - exists ns, w'. cbn [y_pool y_with_pool run_closures y_with_cells y_threads]. by rewrite Hcl.
  - unfold total. destruct Hlt as [Hlt|[Htk Hle]].
    + destruct b; cbn [Nat.b2n] in Hwt; lia.
    + destruct b; [cbn [Nat.b2n] in Hwt; lia|]. by destruct Htk, Hb.
Qed.

Lemma own_step tr y hist v ts k a tr' y' :
  sim tr y hist v -> svc_inv v ts -> cost y k -> genuine a -> system_step VERSION it s y a tr' y' ->
  nearer (tr ++ tr') y' v ts k.
Proof.
  intros Hsim HI Hk Ha Hstep. destruct Hstep; try done.
  - by eapply own_local.
  - by eapply own_enter.
  - by eapply own_client.
  - by eapply own_leave.
  - by eapply own_worker.
Qed.

(** *** All steps *)

Lemma cost_exists tr y hist v :
  sim tr y hist v -> exists k, cost y k /\
    (k <= 34 * length (y_threads y) + 32 * length (clients (y_pool y)) + 10)%nat.
Proof.
  intros Hsim. pose proof (sim_reach _ _ _ _ _ _ _ Hsim) as Hr.
  pose proof (reach_inv cfg Hdepth _ _ Hr) as HP.
  set (ns := replicate (length (clients (y_pool y))) 8%nat).
  exists (sum_list (thread_cost (clients (y_pool y)) <$> y_threads y) + 4 * sum_list ns + 10)%nat. split.
  - exists ns, 10%nat. split_and!; [|clear -HP|done].
    + apply Forall2_replicate_l; [done|by eapply reach_within].
    + destruct (inv_worker _ _ _ HP) as (its & cur & _ & _ & Hcur). destruct (worker _) as [p| |]; [|done..].
      destruct Hcur as [Hs _]. cbn. destruct (at_block p) eqn:Hb; [right; lia|].
      destruct (iteration_tail _ _ Hs) as [[_ ->]|[Hw Hn]]; [left; split; [done|lia]|].
      right. by exists 8%nat.
  - unfold ns. rewrite sum_list_replicate.
    assert (forall ths, (sum_list (thread_cost (clients (y_pool y)) <$> ths) <= 34 * length ths)%nat) as Hs.
    { clear. induction ths as [|[q act] ths IH]; [done|]. rewrite fmap_cons. cbn [sum_list_with length].
      enough (Datatypes.id (thread_cost (clients (y_pool y)) (q, act)) <= 34)%nat by lia.
      destruct act as [p|c f]; [pose proof (serving_cost (clients (y_pool y)) q p); unfold Datatypes.id; lia|].
      unfold thread_cost. cbn. destruct (clients (y_pool y) !! c) as [m|]; [|lia]. destruct (entering m); lia. }
    specialize (Hs (y_threads y)). lia.
Qed.

Lemma own_steps_nearer n y y' tr hist v ts k :
  own_steps VERSION it s n y y' -> sim tr y hist v -> svc_inv v ts -> cost y k ->
  exists tr' hist' v' ts' k', sim tr' y' hist' v' /\ svc_inv v' ts' /\ cost y' k' /\
    (n + total v' ts' k' <= total v ts k)%nat.
Proof.
  intros Hn. revert tr hist v ts k.
  induction Hn as [y|n y a tr1 y1 y2 Ha Hstep _ IH]; intros tr hist v ts k Hsim HI Hk.
  - exists tr, hist, v, ts, k. split_and!; [done..|lia].
  - destruct (own_step _ _ _ _ _ _ _ _ _ Hsim HI Hk Ha Hstep) as (h1 & v1 & ts1 & k1 & Hs1 & HI1 & Hk1 & Hlt).
    destruct (IH _ _ _ _ _ Hs1 HI1 Hk1) as (tr2 & h2 & v2 & ts2 & k2 & ? & ? & ? & Hle).
    exists tr2, h2, v2, ts2, k2. split_and!; [done..|lia].
Qed.

Lemma steps_left_total tr y hist v ts k :
  sim tr y hist v -> svc_inv v ts ->
  (k <= 34 * length (y_threads y) + 32 * length (clients (y_pool y)) + 10)%nat ->
  (total v ts k <= steps_left y)%nat.
Proof.
  intros [_ _ Hst _] HI Hk. pose proof (weight_work_left v ts HI) as Hw. unfold work_left in Hw.
  rewrite (rel_length _ _ _ Hst), (ref_queue _ _ (rel_pool _ _ _ Hst)) in Hw.
  unfold total, steps_left. lia.
Qed.

(** ** Lemmas: what the pool's trace says of a request *)

Lemma owned_pairs i (l : list (nat * InferenceJob)) :
  Forall (fun ij => owned ij.1 ij.2) l ->
  length (filter (owned i) l.*2) = length (filter (fun j => j = i) l.*1).
Proof.
  induction 1 as [|[j job] l Hj _ IH]; [done|]. cbn [fst snd] in Hj. rewrite !fmap_cons. cbn [fst snd].
  rewrite !filter_cons. destruct (decide (j = i)) as [->|Hne].
  - rewrite decide_True by done. cbn [length]. by rewrite IH.
  - rewrite decide_False; [done|]. intros Hi. by apply Hne, (owned_inj j i job).
Qed.

Lemma deployed_submits hist v i :
  served hist v ->
  length (filter (owned i) (accepted s hist).*2) =
  length (filter accepting (submissions (calls_of i hist))).
Proof.
  intros Hs. rewrite <- (accepted_by s i hist). by eapply owned_pairs, accepted_owned.
Qed.

Lemma filter_refused (l : list (InferenceJob * bool)) :
  Forall (fun jb => jb.2 = false) l -> filter accepting l = [].
Proof. induction 1 as [|[job b] l Hb _ IH]; [done|]. cbn in Hb. by subst b. Qed.

Lemma filter_single {A} (P : A -> Prop) `{!forall x, Decision (P x)} (l : list A) x :
  x ∈ l -> P x -> length (filter P l) = 1%nat -> filter P l = [x].
Proof.
  intros Hx HP Hl. assert (x ∈ filter P l) as Hin by by apply list_elem_of_filter.
  destruct (filter P l) as [|y [|z k]]; [done| |done]. apply list_elem_of_singleton in Hin. by subst.
Qed.

Lemma answered_elem job n hist : EAnswer job n ∈ hist -> job ∈ answered_jobs hist /\ n ∈ notices_of hist.
Proof. intros H. split; apply list_elem_of_omap; by exists (EAnswer job n). Qed.

Lemma sim_delivery tr y hist v i q ops :
  sim tr y hist v -> y_threads y !! i = Some (q, Serving (Ret ops)) ->
  q_path q = "/v1/audio/speech"%string ->
  (filter (owned i) (Pool.accepted tr) = [] /\ SetStatus 200 ∉ ops) \/
  exists job n, valid_request (make_deps s) (request job) /\
    filter (owned i) (Pool.accepted tr) = [job] /\ n ∈ notices (worker_trace tr) /\
    may_answer job n = true /\ delivered n ops.
Proof.
  intros [Hs _ Hst [Ha _ Hn]] Hi Hpath.
  destruct (rel_thread_of s _ _ _ _ Hst Hi) as (p & Hv & [_ Heq]). cbn [fst snd] in *. subst p.
  pose proof (deployed_submits hist v i Hs) as Hlen. rewrite <- Ha, <- Hn.
  destruct (finished_speech VERSION it s hist v i q ops Hs Hv Hpath)
    as [[Hsub Hne]|(rq & job & n & Hval & Hsub & Han & Hown & <- & Hmay & Hd)].
  - left. split; [|done]. rewrite (filter_refused _ Hsub) in Hlen. by apply nil_length_inv.
  - right. exists job, n. apply answered_elem in Han as [Hj Hno]. split_and!; try done.
    rewrite Hsub in Hlen. apply filter_single; [|done|done].
    rewrite (ord_answered _ _ _ (served_in_order VERSION it s hist v Hs)).
    apply elem_of_app. by left.
Qed.

(** The answer of the worker, in the contract. *)
Lemma sim_answer tr y hist v o ps tr' n :
  sim tr y hist v -> sys_step cfg (LWorker o) (y_pool y) = Some (ps, tr') ->
  n ∈ notices (worker_trace tr') ->
  notices (worker_trace tr') = [n] /\
  exists job v', svc_step v (Some (EAnswer job n)) v' /\ may_answer job n = true.
Proof.
  intros [_ Hr Hst _] Hstep Hn. pose proof (reach_inv cfg Hdepth _ _ Hr) as HI. cbn [sys_step] in Hstep.
  destruct (worker_refines cfg _ _ _ _ _ _ HI (rel_pool _ _ _ Hst) Hstep) as (a' & Hrun & _).
  destruct (worker_step_event s _ _ _ _ _ HI Hstep) as (X & e & x & -> & He & _).
  pose proof (worker_label X e x He) as Hlab. rewrite pool_labels_one, pool_spec_run_label in Hrun.
  assert (Hne : notice_of e x = Some n).
  { cbn in Hn. destruct (notice_of e x) as [n'|]; [|by apply elem_of_nil in Hn].
    apply list_elem_of_singleton in Hn. by subst. }
  destruct (pool_label_of e x) as [[job r| |job|n'| ]|]; try (destruct Hlab; congruence).
  destruct Hlab as [_ Hn']. rewrite Hne in Hn'. injection Hn' as <-.
  destruct (ps_hand (sv_pool v)) as [[job [|]]|] eqn:Hhand;
    [by cbn in Hrun; rewrite Hhand in Hrun| |by cbn in Hrun; rewrite Hhand in Hrun].
  split; [cbn; by rewrite Hne|].
  exists job, (fill_cell n (with_service_pool a' v)). split; [by apply step_answer|].
  cbn in Hrun. rewrite Hhand in Hrun. by destruct (may_answer job n).
Qed.
End Progress.

(** ** Properties *)

(** *** Back-pressure *)

(** The pool was closed: a caller ran the locked part of [shutdown()]. *)
Definition closed (tr : trace) : bool :=
  existsb (fun te => match te.2 with Ev LockClose _ => true | _ => false end) tr.

(** The jobs accepted and not taken. *)
Definition waiting_jobs (tr : trace) : Z :=
  Z.of_nat (length (Pool.accepted tr)) - Z.of_nat (length (taken (worker_trace tr))).

Lemma closed_app t1 t2 : closed (t1 ++ t2) = closed t1 || closed t2.
Proof. apply existsb_app. Qed.

Lemma perform_open cfg b o X (e : poolE X) st x st' :
  perform cfg b o e st = Some (x, st') ->
  accepting_ st' = accepting_ st && negb (match e with LockClose => true | _ => false end).
Proof.
  intros Hp. destruct e; cbn in Hp |- *; rewrite ?andb_true_r, ?andb_false_r;
    unfold submit_locked, take_locked in Hp; repeat case_match; simplify_eq; done.
Qed.

Lemma reach_open cfg ps tr : reach cfg ps tr -> accepting_ (shared ps) = negb (closed tr).
Proof.
  induction 1 as [st Hst|ps tr l ps' tr' _ IH Hstep].
  { unfold pool_create in Hst. repeat case_match; try done. by simplify_eq. }
  rewrite closed_app, negb_orb, <- IH. clear IH.
  destruct l as [c|o|c o]; cbn [sys_step] in Hstep.
  - injection Hstep as <- <-. cbn. by rewrite andb_true_r.
  - unfold worker_step in Hstep. destruct (worker ps) as [[b|err|X e k]| |]; try done.
    destruct (perform _ _ _ _ _) as [[x st]|] eqn:Hp; [|done]. injection Hstep as <- <-.
    cbn. rewrite orb_false_r. by apply perform_open in Hp.
  - unfold client_step in Hstep. destruct (clients ps !! c) as [[b|err|X e k]|]; try done.
    destruct (perform _ _ _ _ _) as [[x st]|] eqn:Hp; [|done]. injection Hstep as <- <-.
    cbn. rewrite orb_false_r. by apply perform_open in Hp.
Qed.

(** What the locked part of [submit()] answers. *)
Definition answers_submit (cfg : PoolConfig) (st : InferencePool) (ev : event poolE) : Prop :=
  match ev with
  | Ev e x => match e in poolE X return X -> Prop with
              | LockSubmit job => fun r => r = (submit_locked cfg job st).1
              | _ => fun _ => True
              end x
  end.

Lemma perform_submit cfg b o X (e : poolE X) st x st' :
  perform cfg b o e st = Some (x, st') -> answers_submit cfg st (Ev e x).
Proof. intros Hp. destruct e; try done. cbn in Hp |- *. by destruct (submit_locked _ _ _); simplify_eq. Qed.

Lemma client_answers cfg c o ps ps' tr ev :
  sys_step cfg (LClient c o) ps = Some (ps', tr) -> (false, ev) ∈ tr ->
  answers_submit cfg (shared ps) ev /\ tr = [(false, ev)].
Proof.
  cbn [sys_step]. unfold client_step. intros Hstep Hin.
  destruct (clients ps !! c) as [[b|err|X e k]|]; try done.
  destruct (perform _ _ _ _ _) as [[x st]|] eqn:Hp; [|done]. injection Hstep as _ <-.
  apply list_elem_of_singleton in Hin. injection Hin as ->. split; [by eapply perform_submit|done].
Qed.

Lemma worker_events cfg o ps ps' tr ev :
  sys_step cfg (LWorker o) ps = Some (ps', tr) -> (false, ev) ∉ tr.
Proof.
  cbn [sys_step]. unfold worker_step. intros Hstep Hin.
  destruct (worker ps) as [[b|err|X e k]| |]; try done.
  destruct (perform _ _ _ _ _) as [[x st]|] eqn:Hp; [|done]. injection Hstep as _ <-.
  by apply list_elem_of_singleton in Hin.
Qed.

Lemma reach_waiting cfg (Hdepth : in_int (max_queue_depth_ cfg)) ps tr :
  reach cfg ps tr ->
  waiting_jobs tr = Z.of_nat (length (queue_ (shared ps))) /\ waiting_jobs tr <= max_queue_depth_ cfg.
Proof.
  intros [Hd Hf _ _ _ _ _ _]%(reach_inv cfg Hdepth). unfold waiting_jobs.
  apply (f_equal length) in Hf. rewrite length_app in Hf. lia.
Qed.

(** The verdict of [submit()] in terms of the calls made before. *)
Lemma reach_verdict cfg (Hdepth : in_int (max_queue_depth_ cfg)) ps tr job :
  reach cfg ps tr ->
  (submit_locked cfg job (shared ps)).1 =
  if closed tr then NotAccepting
  else if waiting_jobs tr <? max_queue_depth_ cfg then Pushed else Full (waiting_jobs tr).
Proof.
  intros Hr. destruct (reach_waiting cfg Hdepth _ _ Hr) as [Hw Hd].
  unfold submit_locked. rewrite (reach_open _ _ _ Hr), negb_involutive.
  destruct (closed tr); [done|]. rewrite (queue_size_exact cfg Hdepth) by (rewrite <- Hw; done).
  rewrite <- Hw. destruct (Z.leb_spec (max_queue_depth_ cfg) (waiting_jobs tr)).
  - by rewrite (proj2 (Z.ltb_ge _ _)) by lia.
  - by rewrite (proj2 (Z.ltb_lt _ _)) by lia.
Qed.

(** A request whose submission the pool refused answers 503. *)
Lemma sim_refused {L : JsonLib} {HL : JsonLaws L} VERSION it s (Hdepth : in_int (depth s))
    tr y hist v i q ops job :
  sim VERSION it s tr y hist v -> (job, false) ∈ pool_submits tr -> owned i job ->
  y_threads y !! i = Some (q, Serving (Ret ops)) -> SetStatus 503 ∈ ops.
Proof.
  intros Hsim Hin Hown Hi. pose proof (sim_served _ _ _ _ _ _ _ Hsim) as Hs.
  destruct (rel_thread_of s _ _ _ _ (sim_state _ _ _ _ _ _ _ Hsim) Hi) as (p' & Hv & [_ Heq]).
  cbn in Heq. subst p'. cbn [fst] in Hv.
  rewrite <- (rel_submits _ _ _ (sim_trace _ _ _ _ _ _ _ Hsim)) in Hin.
  apply list_elem_of_omap in Hin as ([j now ins [X e x]| |] & Hen & Hsub); [|done..].
  destruct e; try done. cbn in Hsub. injection Hsub as Hjob ->.
  pose proof (calls_of_elem _ _ _ _ _ Hen) as Hcall.
  assert (Hsb : (job0, false) ∈ submissions (calls_of j hist)).
  { apply list_elem_of_omap. by exists (Ev (PoolSubmit job0) false). }
  assert (Hj : owned j job).
  { rewrite <- Hjob. apply own_job_owned.
    exact (proj1 (Forall_forall _ _) (served_callbacks VERSION it s hist v j Hs) _ Hsb). }
  rewrite (owned_inj i j job Hown Hj) in Hv. by eapply served_refused.
Qed.

Section SystemProperties.
Context {L : JsonLib} {HL : JsonLaws L} (VERSION : string).
Context (it : gmap string AuthLimiter.IpState -> list (string * AuthLimiter.IpState)).
Context (s : TtsServer).

#[local] Notation deployed := (deployed VERSION it s).
#[local] Notation system_step := (system_step VERSION it s).
#[local] Notation own_steps := (own_steps VERSION it s).

(** C2: refinement: every execution of the request threads over the pool as it
    is implemented (mutexes, condition variable, worker loop) is a history of
    the service over the contract of the pool: the limiters, the results that
    wait, the queue, the open flag, every request outside a pool method and the
    jobs accepted, taken and answered agree, so that what is proved of the
    histories holds of the implementation. *)
Theorem system_refines_service tr y (Hdepth : in_int (depth s)) (Hdep : deployed tr y) :
  exists hist v, served VERSION it s hist v /\ shows_same s tr y hist v.
Proof.
  destruct (deployed_sim VERSION it s Hdepth tr y Hdep) as (hist & v & [Hs _ Hst [Ha Ht Hn _]]).
  exists hist, v. split; [done|]. pose proof Hst as [H1 H2 H3 _ [H4 H5 _ _] H6 _ _].
  unfold shows_same, worker_notices. split_and!; try done.
  intros i q p Hi. destruct (rel_thread_of s _ _ _ _ Hst Hi) as (p' & Hv & [_ Heq]).
  cbn in Heq. by subst p'.
Qed.

(** C13: delivery over the implementation: when a POST /v1/audio/speech has
    returned, either [submit()] accepted no job of it and it is not answered
    200, or [submit()] accepted exactly one job with its closures, for a valid
    request, the worker called one of those closures, and the client was sent
    200 with exactly the audio it was called with, or 500 for an error. *)
Theorem deployed_delivery tr y i q ops (Hdepth : in_int (depth s)) (Hdep : deployed tr y)
    (Hret : y_threads y !! i = Some (q, Serving (Ret ops)))
    (Hpath : q_path q = "/v1/audio/speech"%string) :
  (jobs_of i tr = [] /\ SetStatus 200 ∉ ops) \/
  exists job n, valid_request (make_deps s) (request job) /\
    jobs_of i tr = [job] /\ n ∈ worker_notices tr /\
    may_answer job n = true /\ delivered n ops.
Proof.
  destruct (deployed_sim VERSION it s Hdepth tr y Hdep) as (hist & v & Hsim).
  by eapply sim_delivery.
Qed.

(** C4: every request ends, in the implementation: from every state the number
    of steps that the requests, the pool methods in progress and the worker can
    make by themselves (no arrivals, no further calls, no spurious wake-ups) is
    bounded, however they interleave; and as long as a request has not returned
    one of them can move: no deadlock, no lost wake-up, no endless loop. *)
Theorem deployed_ends tr y (Hdepth : in_int (depth s)) (Hdep : deployed tr y) :
  (forall n y', own_steps n y y' -> (n <= steps_left y)%nat) /\
  (forall n y', own_steps n y y' ->
     (exists a tr' y'', genuine a /\ system_step y' a tr' y'') \/
     Forall (fun th => ~ working th) (y_threads y')).
Proof.
  destruct (deployed_sim VERSION it s Hdepth tr y Hdep) as (hist & v & Hsim).
  destruct (served_inv VERSION it s hist v (sim_served _ _ _ _ _ _ _ Hsim)) as (ts & HI).
  destruct (cost_exists VERSION it s Hdepth _ _ _ _ Hsim) as (k & Hk & Hle).
  pose proof (steps_left_total VERSION it s _ _ _ _ ts k Hsim HI Hle).
  split; intros n y' Hn;
    destruct (own_steps_nearer VERSION it s Hdepth _ _ _ _ _ _ _ _ Hn Hsim HI Hk)
      as (tr' & hist' & v' & ts' & k' & Hsim' & _ & _ & Hlt); [lia|].
  destruct (decide (Forall (fun th => ~ working th) (y_threads y'))) as [|Hex]; [by right|left].
  apply not_Forall_Exists in Hex; [|apply _].
  apply list.Exists_exists in Hex as (th & [i Hi]%list_elem_of_lookup & Hw).
  apply (sim_progress VERSION it s Hdepth tr' y' hist' v' i th Hsim' Hi). by apply dec_stable.
Qed.

(** C12: callbacks are safe in the implementation: when the worker calls a
    closure, the handler that owns it has not returned, even if it is still
    inside [submit()], so the references the closure captured are valid; no
    result is there yet, and the call leaves its result in that cell alone. *)
Theorem deployed_callbacks_live tr y o tr' y' n (Hdepth : in_int (depth s)) (Hdep : deployed tr y)
    (Hstep : system_step y (Worker o) tr' y') (Hn : n ∈ notices (worker_trace tr')) :
  exists i th, (notice_cell n).1 = i /\ y_threads y !! i = Some th /\ working th /\
    y_cells y !! i = None /\ y_cells y' = <[i := (notice_cell n).2]> (y_cells y).
Proof.
  destruct (deployed_sim VERSION it s Hdepth tr y Hdep) as (hist & v & Hsim).
  remember (Worker o) as a eqn:Ha. destruct Hstep as [| | | | | |y o' ps tr' Hps _ _]; try done.
  destruct (sim_answer VERSION it s Hdepth _ _ _ _ _ _ _ n Hsim Hps Hn)
    as (Hone & job & v' & Hans & Hmay).
  destruct (callbacks_hit_live_frames VERSION it s hist v job n v' (sim_served _ _ _ _ _ _ _ Hsim) Hans)
    as (i & th' & Hown & Hi & Hun & Hcell & _).
  pose proof (sim_state _ _ _ _ _ _ _ Hsim) as Hst.
  destruct (rel_thread_back s y v i th' Hst Hi Hun) as (th & Hy & Hw).
  exists i, th. rewrite <- (rel_cells _ _ _ Hst). pose proof (notice_owner i job n Hown Hmay) as Hi'.
  split_and!; try done. unfold run_closures. rewrite Hone. cbn. by rewrite Hi', (rel_cells _ _ _ Hst).
Qed.

(** C22: back-pressure is exact, in the implementation: whatever the threads do,
    the locked part of [submit()] queues a job exactly when no thread has run
    the locked part of [shutdown()] and fewer jobs than the configured depth
    have been queued and not yet taken by the worker, that many jobs being
    what it otherwise reports; never more than the depth are waiting; and the
    request whose job it refused is answered 503, whatever happens meanwhile. *)
Theorem backpressure_exact tr y a tr' y' job r (Hdepth : in_int (depth s)) (Hdep : deployed tr y)
    (Hstep : system_step y a tr' y') (Hsub : (false, Ev (LockSubmit job) r) ∈ tr') :
  (r = Pushed <-> closed tr = false /\ waiting_jobs tr < depth s) /\
  (r = NotAccepting <-> closed tr = true) /\
  (forall n, r = Full n -> n = waiting_jobs tr) /\
  waiting_jobs (tr ++ tr') <= depth s /\
  (r <> Pushed -> forall tr2 y2 i q ops,
     deployed ((tr ++ tr') ++ tr2) y2 -> owned i job ->
     y_threads y2 !! i = Some (q, Serving (Ret ops)) -> SetStatus 503 ∈ ops).
Proof.
  destruct (deployed_sim VERSION it s Hdepth tr y Hdep) as (hist & v & Hsim).
  destruct (deployed_sim VERSION it s Hdepth (tr ++ tr') y') as (hist' & v' & Hsim');
    [by eapply deployed_step|].
  pose proof (proj2 (reach_waiting (pool_config s) Hdepth _ _ (sim_reach _ _ _ _ _ _ _ Hsim'))) as Hd.
  assert (Hr : r = (submit_locked (pool_config s) job (shared (y_pool y))).1 /\
               tr' = [(false, Ev (LockSubmit job) r)]).
  { destruct Hstep as [| | |y c o ps tr' Hps _| | |y o ps tr' Hps _ _]; try by apply elem_of_nil in Hsub.
    - exact (client_answers _ _ _ _ _ _ _ Hps Hsub).
    - by apply (worker_events _ _ _ _ _ _ Hps) in Hsub. }
  destruct Hr as [Hr Htr].
  rewrite (reach_verdict (pool_config s) Hdepth _ _ job (sim_reach _ _ _ _ _ _ _ Hsim)) in Hr.
  cbn [pool_config max_queue_depth_] in Hr.
  split; [|split; [|split; [|split; [exact Hd|]]]].
  1-3: clear -Hr; destruct (closed tr), (Z.ltb_spec (waiting_jobs tr) (depth s)); subst r;
    try (split; [try done|]); try done; try lia; intros; destruct_and?; simplify_eq; try done; lia.
  intros Hne tr2 y2 i q ops Hdep2 Hown Hi.
  destruct (deployed_sim VERSION it s Hdepth _ y2 Hdep2) as (hist2 & v2 & Hsim2).
  eapply (sim_refused VERSION it s Hdepth _ _ _ _ _ _ _ job Hsim2); [|exact Hown|exact Hi].
  unfold pool_submits. rewrite !omap_app, Htr. apply elem_of_app. left. apply elem_of_app. right.
  cbn. destruct r; [by left|by left|done].
Qed.
End SystemProperties.

(** ** Witnesses *)

Module DeployedWitness.
Import HandlerWitness AdapterWitness LivenessWitness.

(** The worker makes a step; the backend answers [demo_result]. *)
Definition calm (y : system) : oracle := oracle_at demo_result (y_time y) (y_pool y).

Definition worker_turn (srv : TtsServer) (y : system) : option (trace * system) :=
  '(ps, tr) ← sys_step (pool_config srv) (LWorker (calm y)) (y_pool y);
  Some (tr, run_closures (notices (worker_trace tr))
              (y_with_pool ps (time_after (y_time y) tr) y)).

(** Request [i] makes a step, or the worker does when it waits. *)
Definition turn (srv : TtsServer) (i : nat) (y : system) : option (trace * system) :=
  match y_threads y !! i with
  | Some (q, Serving (Vis e k)) =>
      match pool_method i e with
      | Some (c, dec) =>
          '(ps, _) ← sys_step (pool_config srv) (LCall c) (y_pool y);
          Some ([], y_set_thread i (q, Calling (length (clients (y_pool y))) (fun a => k (dec a)))
                      (y_time y) (y_with_pool ps (y_time y) y))
      | None =>
          match local_call toy_it i (y_time y) (y_time y) e y with
          | Some (Some (x, y')) => Some ([], y_set_thread i (q, Serving (k x)) (y_time y) y')
          | Some None => worker_turn srv y
          | None => Some ([], y_set_thread i (q, Serving (k (some_answer e))) (y_time y) y)
          end
      end
  | Some (q, Calling c k) =>
      match clients (y_pool y) !! c with
      | Some (Ret a) => Some ([], y_set_thread i (q, Serving (k a)) (y_time y) y)
      | _ =>
          '(ps, tr) ← sys_step (pool_config srv) (LClient c (calm y)) (y_pool y);
          Some (tr, y_with_pool ps (time_after (y_time y) tr) y)
      end
  | _ => None
  end.

Fixpoint turns (srv : TtsServer) (n i : nat) (y : system) : trace * system :=
  match n with
  | O => ([], y)
  | S n' =>
      match turn srv i y with
      | Some (tr, y1) => let '(tr', y2) := turns srv n' i y1 in (tr ++ tr', y2)
      | None => ([], y)
      end
  end.

Lemma calm_time cfg b b' y X (e : poolE X) x st :
  perform cfg b (calm y) e (shared (y_pool y)) = Some (x, st) ->
  y_time y <= time_after (y_time y) [(b', Ev e x)].
Proof. apply oracle_at_time. Qed.

Lemma worker_turn_step srv y tr y' :
  worker_turn srv y = Some (tr, y') -> system_step "1.0" toy_it srv y (Worker (calm y)) tr y'.
Proof.
  unfold worker_turn. destruct (sys_step _ _ _) as [[ps tr1]|] eqn:Hs; [|done]. intros [= <- <-].
  apply sy_worker; [done|done|]. cbn [sys_step] in Hs. unfold worker_step in Hs.
  destruct (worker (y_pool y)) as [[b|err|X e k]| |]; try done.
  destruct (perform _ _ _ _ _) as [[x st]|] eqn:Hp; [|done]. injection Hs as _ <-. by eapply calm_time.
Qed.

Lemma calm_client srv y c ps tr :
  sys_step (pool_config srv) (LClient c (calm y)) (y_pool y) = Some (ps, tr) ->
  system_step "1.0" toy_it srv y (Method c (calm y)) tr
    (y_with_pool ps (time_after (y_time y) tr) y).
Proof.
  intros Hs. apply sy_client; [done|].
  destruct (client_step_move srv _ _ _ _ _ Hs) as (m & m' & st & ev & _ & Hmv & _ & ->).
  destruct m as [?|?|Y e' g]; [done|done|]. cbn [move] in Hmv.
  destruct (perform _ _ _ _ _) as [[x st']|] eqn:Hp; [|done]. injection Hmv as _ _ <-.
  by eapply calm_time.
Qed.

Lemma turn_step srv i y tr y' :
  turn srv i y = Some (tr, y') -> exists a, genuine a /\ system_step "1.0" toy_it srv y a tr y'.
Proof.
  unfold turn. destruct (y_threads y !! i) as [[q [[ops|err|X e k]|c k]]|] eqn:Hi; try done.
  - destruct (pool_method i e) as [[c dec]|] eqn:Hm.
    + intros [= <- <-]. eexists (Request i). split; [done|]. by eapply sy_enter.
    + destruct (local_call _ _ _ _ _ _) as [[[x y1]|]|] eqn:Hl; [intros [= <- <-]| |intros [= <- <-]].
      * exists (Request i). split; [done|]. eapply sy_local; [done..|reflexivity|reflexivity|].
        unfold local_answers. by rewrite Hl.
      * intros H. exists (Worker (calm y)). split; [done|]. by apply worker_turn_step.
      * exists (Request i). split; [done|]. eapply sy_local; [done..|reflexivity|reflexivity|].
        unfold local_answers. by rewrite Hl.
  - destruct (clients (y_pool y) !! c) as [[a|err|X e f]|] eqn:Hc;
      [intros [= <- <-]; exists (Request i); split; [done|]; by eapply sy_leave|..].
    all: destruct (sys_step _ _ _) as [[ps tr1]|] eqn:Hs; [|done]; intros [= <- <-];
      exists (Method c (calm y)); split; [done|]; by eapply calm_client.
Qed.

Lemma turns_deployed srv n i tr y :
  deployed "1.0" toy_it srv tr y ->
  deployed "1.0" toy_it srv (tr ++ (turns srv n i y).1) (turns srv n i y).2.
Proof.
  revert tr y. induction n as [|n IH]; intros tr y H; [by rewrite app_nil_r|]. cbn [turns].
  destruct (turn srv i y) as [[tr1 y1]|] eqn:Ht; [|by rewrite app_nil_r].
  destruct (turn_step srv i y tr1 y1 Ht) as (a & _ & Ha).
  specialize (IH (tr ++ tr1) y1 (deployed_step _ _ _ _ _ _ _ _ H Ha)).
  destruct (turns srv n i y1) as [tr2 y2]. cbn [fst snd] in *. by rewrite app_assoc.
Qed.

Definition fresh_pool (srv : TtsServer) : InferencePool :=
  match pool_create true (depth srv) (timeout srv) with
  | Ok (_, st) => st
  | Exn _ => mk_pool [] false 0 0 false false 0
  end.

Definition one_client (srv : TtsServer) (q : HttplibRequest) (p : prog sysE (list response_op)) : system :=
  mk_system (auth_limiter_ srv) (request_limiter_ srv) 0 ∅ [(q, Serving p)]
    (sys_init (fresh_pool srv)).

Lemma one_deployed srv q p :
  pool_create true (depth srv) (timeout srv) = Ok (pool_config srv, fresh_pool srv) ->
  route "1.0" srv q = Some p -> deployed "1.0" toy_it srv [] (one_client srv q p).
Proof.
  intros Hp Hr.
  exact (deployed_step "1.0" toy_it srv [] _ _ [] _ (deployed_init "1.0" toy_it srv 0 _ Hp)
    (sy_arrive "1.0" toy_it srv _ q p Hr)).
Qed.

Definition start : system := one_client server (post "secret") (route_speech server (post "secret")).

(** The run up to the call of the closure, and to the end. *)
Definition half : trace * system := turns server 34 0 start.
Definition full : trace * system := turns server 200 0 start.
Definition full_ops : list response_op :=
  match y_threads full.2 !! 0%nat with Some (_, Serving (Ret ops)) => ops | _ => [] end.

Lemma server_depth : in_int (depth server).
Proof. vm_compute. by split. Qed.

Lemma turned_deployed n :
  deployed "1.0" toy_it server (turns server n 0 start).1 (turns server n 0 start).2.
Proof.
  rewrite <- (app_nil_l (turns server n 0 start).1). apply turns_deployed. by apply one_deployed.
Qed.

Lemma full_returned : y_threads full.2 !! 0%nat = Some (post "secret", Serving (Ret full_ops)).
Proof. by vm_compute. Qed.

Lemma full_ok : SetStatus 200 ∈ full_ops.
Proof. apply (list_elem_of_lookup_2 _ 0). by vm_compute. Qed.

Definition half_thread : HttplibRequest * activity :=
  match y_threads half.2 !! 0%nat with Some th => th | None => (post "secret", Serving (Ret [])) end.

Lemma half_count : length (y_threads half.2) = 1%nat.
Proof. by vm_compute. Qed.

Lemma half_waits : y_threads half.2 !! 0%nat = Some half_thread.
Proof.
  unfold half_thread. destruct (y_threads half.2 !! 0%nat) eqn:H; [done|].
  apply lookup_ge_None in H. rewrite half_count in H. lia.
Qed.

Lemma half_works : working half_thread.
Proof. by vm_compute. Qed.

(** The next step of the worker calls the closure. *)
Definition told : trace * system :=
  match worker_turn server half.2 with Some p => p | None => half end.

Lemma told_moves : (if worker_turn server half.2 then true else false) = true.
Proof. by vm_compute. Qed.

Lemma told_step : system_step "1.0" toy_it server half.2 (Worker (calm half.2)) told.1 told.2.
Proof.
  unfold told. destruct (worker_turn server half.2) as [[tr y']|] eqn:H.
  - by apply worker_turn_step.
  - pose proof told_moves as Hm. by rewrite H in Hm.
Qed.

Lemma told_answer : answer0 ∈ notices (worker_trace told.1).
Proof. apply (list_elem_of_lookup_2 _ 0). by vm_compute. Qed.

Lemma system_refines_service_witness :
  exists hist v, served "1.0" toy_it server hist v /\ shows_same server full.1 full.2 hist v.
Proof.
  exact (system_refines_service "1.0" toy_it server full.1 full.2 server_depth (turned_deployed 200)).
Defined.

Lemma deployed_delivery_witness :
  SetStatus 200 ∈ full_ops /\
  ((jobs_of 0 full.1 = [] /\ SetStatus 200 ∉ full_ops) \/
   exists job n, valid_request (make_deps server) (request job) /\
     jobs_of 0 full.1 = [job] /\ n ∈ worker_notices full.1 /\
     may_answer job n = true /\ delivered n full_ops).
Proof.
  split; [exact full_ok|].
  exact (deployed_delivery "1.0" toy_it server full.1 full.2 0 (post "secret") full_ops server_depth
    (turned_deployed 200) full_returned eq_refl).
Defined.

Lemma deployed_ends_witness :
  working half_thread /\
  (forall n y', own_steps "1.0" toy_it server n half.2 y' -> (n <= steps_left half.2)%nat) /\
  (forall n y', own_steps "1.0" toy_it server n half.2 y' ->
     (exists a tr' y'', genuine a /\ system_step "1.0" toy_it server y' a tr' y'') \/
     Forall (fun th => ~ working th) (y_threads y')).
Proof.
  split; [exact half_works|].
  exact (deployed_ends "1.0" toy_it server half.1 half.2 server_depth (turned_deployed 34)).
Defined.

Lemma deployed_callbacks_live_witness :
  answer0 ∈ notices (worker_trace told.1) /\
  exists i th, (notice_cell answer0).1 = i /\ y_threads half.2 !! i = Some th /\ working th /\
    y_cells half.2 !! i = None /\ y_cells told.2 = <[i := (notice_cell answer0).2]> (y_cells half.2).
Proof.
  split; [exact told_answer|].
  exact (deployed_callbacks_live "1.0" toy_it server half.1 half.2 (calm half.2) told.1 told.2 answer0
    server_depth (turned_deployed 34) told_step told_answer).
Defined.

(** A server with room for one job, and two clients: the first has submitted,
    the worker has not moved, and the second is about to submit. *)
Definition tiny_env : environment := fun n =>
  if String.eqb n "TTS_MAX_QUEUE_DEPTH" then Some "1"%string
  else if String.eqb n "TTS_MODEL_PATH" then Some "/m"%string else None.
Definition tiny : TtsServer := booted_server (from_env tiny_env).1 0.

Definition client : HttplibRequest * activity := (post "none", Serving (route_speech tiny (post "none"))).
Definition both_here : system :=
  let y := one_client tiny (post "none") (route_speech tiny (post "none")) in
  y_with_threads (y_threads y ++ [client]) y.
Definition after (n i : nat) (p : trace * system) : trace * system :=
  (p.1 ++ (turns tiny n i p.2).1, (turns tiny n i p.2).2).
Definition second_due : trace * system := after 21 1 (after 25 0 ([], both_here)).
Definition second_in : trace * system :=
  match turn tiny 1 second_due.2 with Some p => p | None => second_due end.
Definition second_back : trace * system := turns tiny 60 1 second_in.2.
Definition second_job : InferenceJob :=
  match pool_submits second_in.1 with (j, _) :: _ => j | [] => demo_job end.
Definition refusal : list response_op :=
  match y_threads second_back.2 !! 1%nat with Some (_, Serving (Ret ops)) => ops | _ => [] end.

Lemma both_deployed : deployed "1.0" toy_it tiny [] both_here.
Proof.
  assert (route "1.0" tiny (post "none") = Some (route_speech tiny (post "none"))) as Hr by done.
  exact (deployed_step "1.0" toy_it tiny [] _ _ [] _ (one_deployed tiny _ _ eq_refl Hr)
    (sy_arrive "1.0" toy_it tiny _ _ _ Hr)).
Qed.

Lemma after_deployed n i p :
  deployed "1.0" toy_it tiny p.1 p.2 ->
  deployed "1.0" toy_it tiny (after n i p).1 (after n i p).2.
Proof. intros H. by apply turns_deployed. Qed.

Lemma due_deployed : deployed "1.0" toy_it tiny second_due.1 second_due.2.
Proof.
  exact (after_deployed 21 1 _ (after_deployed 25 0 ([], both_here) both_deployed)).
Qed.

Lemma second_moves : (if turn tiny 1 second_due.2 then true else false) = true.
Proof. by vm_compute. Qed.

Lemma second_steps :
  exists a, system_step "1.0" toy_it tiny second_due.2 a second_in.1 second_in.2.
Proof.
  unfold second_in. destruct (turn tiny 1 second_due.2) as [[tr y]|] eqn:H.
  - destruct (turn_step tiny 1 _ tr y H) as (a & _ & Ha). by exists a.
  - pose proof second_moves as Hm. by rewrite H in Hm.
Qed.

Lemma second_refused :
  (false, Ev (LockSubmit second_job) (Full 1)) ∈ second_in.1 /\ owned 1 second_job.
Proof.
  split; [|by vm_compute]. apply (list_elem_of_lookup_2 _ 0). by vm_compute.
Qed.

Lemma second_returned :
  y_threads second_back.2 !! 1%nat = Some (post "none", Serving (Ret refusal)).
Proof. by vm_compute. Qed.

Lemma second_deployed :
  deployed "1.0" toy_it tiny ((second_due.1 ++ second_in.1) ++ second_back.1) second_back.2.
Proof.
  destruct second_steps as [a Ha].
  exact (turns_deployed tiny 60 1 _ second_in.2
    (deployed_step "1.0" toy_it tiny _ _ _ _ _ due_deployed Ha)).
Qed.

Lemma tiny_depth : in_int (depth tiny).
Proof. vm_compute. by split. Qed.

Lemma backpressure_exact_witness :
  (Full 1 = Pushed <-> closed second_due.1 = false /\ waiting_jobs second_due.1 < depth tiny) /\
  1 = waiting_jobs second_due.1 /\ SetStatus 503 ∈ refusal.
Proof.
  destruct second_steps as [a Ha]. destruct second_refused as [Hin Hown].
  destruct (backpressure_exact "1.0" toy_it tiny second_due.1 second_due.2 a second_in.1 second_in.2
    second_job (Full 1) tiny_depth due_deployed Ha Hin) as (H1 & _ & H3 & _ & H5).
  split; [exact H1|]. split; [exact (H3 1 eq_refl)|].
  refine (H5 _ second_back.1 second_back.2 1%nat (post "none") refusal second_deployed Hown
    second_returned).
  discriminate.
Defined.
End DeployedWitness.
