(* ===== verification/Lifecycle.v ===== *)
(** * The process around the service, and its graceful shutdown

    The thread of [main()] from the installation of the signal handlers to its
    end ([serve] of [Main], [src/main.cpp]) beside the requests, the pool and
    its worker ([System]).  Requests arrive while [main()] is inside
    [listen()]; when [listen()] has returned, [TtsServer::shutdown()] runs the
    pool's [shutdown()] as one more of its clients, the destructors run it
    again, and the engine is released.  [join()] waits for the worker, which may
    be in the middle of a job. *)

From Stdlib Require Import ZArith Lia Ascii String SpecFloat.
From stdpp Require Import base tactics numbers list strings gmap.
From S2P Require Import Prelude Effects Floats Auth RateLimit Voices Validation Metrics.
From S2P Require Import Backend Pool PoolSpec PoolServe Config Http RequestHandler Uuid Server Boot.
From S2P Require Import HttpAdapter Session Service Liveness Abuse Delivery Order Logger Main.
From S2P Require Import System Deployed.

#[local] Open Scope Z_scope.

(** ** State *)

(** [main()] runs its program, or is inside [InferencePool::shutdown()], which
    the pool runs as client [c]. *)
Inductive main_activity :=
| MainAt (p : prog mainE Z)
| MainIn (c : nat) (k : unit -> prog mainE Z).

Record life := mk_life {
  lf_system : system;
  lf_main : main_activity;
}.

(** The calls of [main()] that are not answered at once. *)
Definition shuts_down {X} (e : mainE X) : option (unit -> X) :=
  match e with
  | MSys e =>
      match e in sysE X return option (unit -> X) with
      | PoolShutdown => Some (fun u => u)
      | _ => None
      end
  | _ => None
  end.

Definition listens_here {X} (e : mainE X) : bool :=
  match e with MSys (HttpListen _ _) => true | _ => false end.

Definition listening (m : main_activity) : bool :=
  match m with MainAt (Vis e _) => listens_here e | _ => false end.

Section Lifecycle.
Context {L : JsonLib} (VERSION : string).
Context (it : gmap string AuthLimiter.IpState -> list (string * AuthLimiter.IpState)).
Context (s : TtsServer).
(** The backend [main()] owns, and how it was compiled. *)
Context (has_engine : bool) (rate : Z) (backend : Voxtral.VoxtralBackend).
(** When cpp-httplib's [listen()] may return, and with what. *)
Context (listen_returns : system -> bool -> Prop).

(** [main()] from the signal handlers on. *)
Definition main_program : prog mainE Z := serve has_engine rate (config_ s) backend s.

Definition main_answers (y : system) {X} (e : mainE X) (x : X) : Prop :=
  match e with
  | MSys e =>
      match e in sysE X return X -> Prop with
      | HttpListen _ _ => listen_returns y
      | _ => fun _ => True
      end x
  | _ => True
  end.

(** ** Steps *)

(** The requests, the pool and the worker make a step (requests arrive only
    during [listen()]); [main()] makes a call; it enters or leaves [shutdown()],
    possibly with the exception of [join()]. *)
Inductive life_step : life -> option actor -> trace -> life -> Prop :=
| lc_system y m a tr y' :
    system_step VERSION it s y a tr y' -> a <> Other -> (a = Arrival -> listening m = true) ->
    life_step (mk_life y m) (Some a) tr (mk_life y' m)
| lc_main y X (e : mainE X) k x :
    shuts_down e = None -> main_answers y e x ->
    life_step (mk_life y (MainAt (Vis e k))) None [] (mk_life y (MainAt (k x)))
| lc_enter y X (e : mainE X) k dec ps :
    shuts_down e = Some dec -> sys_step (pool_config s) (LCall CShutdown) (y_pool y) = Some (ps, []) ->
    life_step (mk_life y (MainAt (Vis e k))) None []
      (mk_life (y_with_pool ps (y_time y) y)
         (MainIn (length (clients (y_pool y))) (fun u => k (dec u))))
| lc_leave y c k a :
    clients (y_pool y) !! c = Some (Ret a) ->
    life_step (mk_life y (MainIn c k)) None [] (mk_life y (MainAt (k tt)))
| lc_throw y c k err :
    clients (y_pool y) !! c = Some (Throw err) ->
    life_step (mk_life y (MainIn c k)) None [] (mk_life y (MainAt (Throw err))).

(** Executions, with the trace of the pool. *)
Inductive lives : trace -> life -> Prop :=
| lives_init t st :
    pool_create true (depth s) (timeout s) = Ok (pool_config s, st) ->
    lives [] (mk_life (mk_system (auth_limiter_ s) (request_limiter_ s) t ∅ [] (sys_init st))
                (MainAt main_program))
| lives_step tr p a tr' p' :
    lives tr p -> life_step p a tr' p' -> lives (tr ++ tr') p'.

(** Steps without arrivals and spurious wake-ups. *)
Definition own_actor (a : option actor) : Prop := match a with Some a => genuine a | None => True end.

Inductive life_steps : nat -> life -> life -> Prop :=
| ls_none p : life_steps 0 p p
| ls_one n p a tr p1 p2 :
    own_actor a -> life_step p a tr p1 -> life_steps n p1 p2 -> life_steps (S n) p p2.
End Lifecycle.

(** The steps that are left, apart from arrivals: [main()] makes at most 24
    calls of its own. *)
Definition life_left (p : life) : nat := steps_left (lf_system p) + 40 * 24 + 1.

(** [main()] has returned. *)
Definition ended (p : life) : Prop := exists z, lf_main p = MainAt (Ret z).

(** No request is in progress. *)
Definition idle (y : system) : Prop := Forall (fun th => ~ working th) (y_threads y).

(** No [shutdown()] is left to run. *)
Fixpoint pool_over (p : prog mainE Z) : Prop :=
  match p with
  | Vis e k => shuts_down e = None /\ forall x, pool_over (k x)
  | _ => True
  end.

(** [main()] is about to release the engine, or beyond its last
    [shutdown()]. *)
Definition past_shutdown (m : main_activity) : Prop :=
  match m with
  | MainAt (Vis (MEngine (TtsFree _)) _) => True
  | MainAt p => pool_over p
  | MainIn _ _ => False
  end.

(** ** Lemmas: the program of [main()] *)

(** The calls of [serve]: only logging, signals, the listener and the pool;
    the engine only once the pool is down. *)
Definition main_call (down : bool) {X} (e : mainE X) : bool :=
  match e with
  | MSys e =>
      match e with
      | SLog _ | PoolShutdown | HttpNew | HttpConfigure _ _ _ | SetRunning _ | HttpListen _ _ => true
      | HttpDelete => down
      | _ => false
      end
  | MProc _ => true
  | MEngine (ELog _) => true
  | MEngine (TtsFree _) => down
  | _ => false
  end.

(** At most [n] calls, the end only once the pool is down, no exception. *)
Fixpoint winding (n : nat) (down : bool) (p : prog mainE Z) {struct p} : Prop :=
  match p with
  | Ret _ => down = true
  | Throw _ => False
  | Vis e k =>
      match n with
      | O => False
      | S n' => main_call down e = true /\
          forall x, winding n' (down || (if shuts_down e then true else false)) (k x)
      end
  end.

Lemma main_winding s has_engine rate b :
  initialized_ s = true -> is_Some (pool_ s) -> winding 24 false (main_program s has_engine rate b).
Proof.
  intros Hi [p Hp]. unfold main_program, serve, adapter_start, server_shutdown, server_destroy,
    replace_pool, adapter_new, adapter_destroy, adapter_stop, backend_destroy, Voxtral.voxtral_destroy. rewrite Hi, Hp.
  destruct has_engine; [destruct (Voxtral.ctx_ b)|]; cbn;
    repeat (split; [done|]; intros []; cbn); done.
Qed.

(** ** Lemmas: the pool under [shutdown()] *)

(** A client that is not [shutdown()]. *)
Fixpoint no_join {A} (m : prog poolE A) : Prop :=
  match m with
  | Vis e k => match e with LockClose | Join => False | _ => True end /\ forall x, no_join (k x)
  | _ => True
  end.

Lemma call_no_join cfg c : c <> CShutdown -> no_join (call_prog cfg c).
Proof.
  destruct c as [[rq dl cs ce]| | | | |]; intros H; try done;
    unfold call_prog, submit, queue_depth, active_jobs, is_accepting, expired_jobs, plog;
    try destruct (dl =? 0) eqn:Hd; cbn [deadline]; rewrite ?Hd; cbn; repeat split; intros;
    repeat match goal with
    | |- context [match ?x with _ => _ end] => is_var x; destruct x; cbn
    | |- _ /\ _ => split
    | |- forall _, _ => intros ?
    end; done.
Qed.

(** [shutdown()] at each of its steps, and what holds there. *)
Inductive shutdown_at (st : InferencePool) : prog poolE pool_answer -> Prop :=
| sh_close cfg : shutdown_at st (call_prog cfg CShutdown)
| sh_notify :
    accepting_ st = false ->
    shutdown_at st (_ ← (_ ← trigger Notify; j ← trigger Joinable;
                         if (j : bool) then call Join else mret tt); mret AnsUnit)
| sh_joinable :
    accepting_ st = false ->
    shutdown_at st (_ ← (j ← trigger Joinable; if (j : bool) then call Join else mret tt); mret AnsUnit)
| sh_join :
    accepting_ st = false -> joinable st = true -> shutdown_at st (_ ← call Join; mret AnsUnit)
| sh_done :
    accepting_ st = false -> joinable st = false -> shutdown_at st (Ret AnsUnit).

(** The pool beside [main()], which has at most [n] calls left. *)
Record pool_rel (n : nat) (m : main_activity) (ps : Pool.sys) : Prop := mk_pool_rel {
  pr_main :
    match m with
    | MainAt p => exists down, winding n down p /\
        (down = true -> joinable (shared ps) = false /\ accepting_ (shared ps) = false)
    | MainIn c k => exists mc, clients ps !! c = Some mc /\ winding n true (k tt) /\
        shutdown_at (shared ps) mc
    end;
  pr_joined : joinable (shared ps) = false -> worker ps = Exited;
  pr_clients : forall c mc, clients ps !! c = Some mc ->
    no_join mc \/ exists k, m = MainIn c k;
}.

Lemma shutdown_at_stable st st' m :
  shutdown_at st m -> joinable st' = joinable st -> (accepting_ st = false -> accepting_ st' = false) ->
  shutdown_at st' m.
Proof. intros H Hj Ha. destruct H; constructor; rewrite ?Hj; auto. Qed.

(** A step that leaves the clients of [main()] alone. *)
Lemma pool_rel_keep n m ps ps' :
  pool_rel n m ps -> joinable (shared ps') = joinable (shared ps) ->
  (accepting_ (shared ps) = false -> accepting_ (shared ps') = false) ->
  (worker ps = Exited -> worker ps' = Exited) ->
  (forall c k, m = MainIn c k -> clients ps' !! c = clients ps !! c) ->
  (forall c mc, clients ps' !! c = Some mc -> clients ps !! c = Some mc \/ no_join mc) ->
  pool_rel n m ps'.
Proof.
  intros [Hm Hj Hc] Hjo Hac Hw Hmain Hcl. split.
  - destruct m as [p|c k].
    + destruct Hm as (down & Hwd & Hd). exists down. split; [done|]. intros H.
      destruct (Hd H) as [H1 H2]. split; [congruence|by apply Hac].
    + destruct Hm as (mc & Hmc & Hwd & Hsh). exists mc.
      split; [by rewrite (Hmain c k eq_refl)|]. split; [done|]. by eapply shutdown_at_stable.
  - rewrite Hjo. auto.
  - intros c mc H. destruct (Hcl c mc H) as [H'|H']; [by apply Hc|by left].
Qed.

Lemma perform_worker_joinable cfg b o X (e : poolE X) st x st' :
  worker_effect e = true -> perform cfg b o e st = Some (x, st') -> joinable st' = joinable st.
Proof.
  intros He Hp. destruct e; try discriminate He; cbn in Hp; try (by injection Hp as _ <-).
  - unfold take_locked in Hp. destruct (negb _); [by injection Hp as _ <-|].
    destruct (_ && _); [by injection Hp as _ <-|]. destruct (queue_ st); by injection Hp as _ <-.
  - destruct (waiting st && negb (o_spurious o)); [done|]. by injection Hp as _ <-.
Qed.

Lemma pool_rel_worker cfg o n m ps tr ps' tr' :
  pool_rel n m ps -> Inv cfg ps tr -> worker_step cfg o ps = Some (ps', tr') -> pool_rel n m ps'.
Proof.
  intros Hrel HI Hstep. pose proof (inv_worker _ _ _ HI) as Hw. unfold worker_step in Hstep.
  destruct (worker ps) as [[b|err|X e k]| |] eqn:Hwy; try done.
  destruct (perform _ _ _ _ _) as [[x st]|] eqn:Hp; [|done]. injection Hstep as <- _.
  destruct Hw as (its & cur & _ & _ & Hcur & _). apply iteration_point in Hcur as [He _].
  destruct (perform_worker _ _ _ _ _ _ _ _ He Hp) as (_ & Ha & _).
  apply (pool_rel_keep n m ps); cbn; try done; [by eapply perform_worker_joinable|congruence|congruence|].
  intros c mc H. by left.
Qed.

Lemma pool_rel_call cfg c n m ps ps' :
  pool_rel n m ps -> c <> CShutdown -> sys_step cfg (LCall c) ps = Some (ps', []) -> pool_rel n m ps'.
Proof.
  intros Hrel Hc Hstep. cbn [sys_step] in Hstep. injection Hstep as <-.
  apply (pool_rel_keep n m ps); cbn; try done.
  - intros c' k ->. destruct (pr_main _ _ _ Hrel) as (mc & Hmc & _).
    apply lookup_lt_Some in Hmc. by apply lookup_app_l.
  - intros c' mc [H|[_ H]]%lookup_app_Some; [by left|right].
    apply list_lookup_singleton_Some in H as [_ <-]. by apply call_no_join.
Qed.

Lemma shutdown_move s exited o st m m' st' ev :
  shutdown_at st m -> move s exited o m st = Some (m', st', ev) ->
  shutdown_at st' m' /\ (accepting_ st = false -> accepting_ st' = false) /\
  (joinable st' = false -> joinable st = false \/ exited = true).
Proof.
  intros H Hm. destruct H as [cfg|Ha|Ha|Ha Hj|Ha Hj]; cbn in Hm.
  - injection Hm as <- <- _. split_and!; [by apply sh_notify|done|by left].
  - injection Hm as <- <- _. split_and!; [by apply sh_joinable|done|by left].
  - injection Hm as <- <- _. split_and!; [|done|by left].
    destruct (joinable st) eqn:Hj; [by apply sh_join|by apply sh_done].
  - destruct exited; [|done]. rewrite Hj in Hm. injection Hm as <- <- _.
    split_and!; [by apply sh_done|done|by right].
  - done.
Qed.

Lemma no_join_move s exited o st m m' st' ev :
  no_join m -> client_ok m -> move s exited o m st = Some (m', st', ev) ->
  no_join m' /\ joinable st' = joinable st /\ (accepting_ st = false -> accepting_ st' = false).
Proof.
  intros Hn Hok Hm. destruct m as [a|err|X e k]; [done|done|]. destruct Hn as [He Hn], Hok as [Hce _].
  cbn [move] in Hm. destruct (perform _ _ _ _ _) as [[x st1]|] eqn:Hp; [|done]. injection Hm as <- <- _.
  split; [apply Hn|]. destruct (perform_client _ _ _ _ _ _ _ _ Hce Hp) as (_ & _ & _ & _ & Hac & _).
  split; [|done]. destruct e; try discriminate Hce; try done; cbn in Hp;
    try (by injection Hp as _ <-).
  unfold submit_locked in Hp. destruct (negb _); [by injection Hp as _ <-|].
  destruct (_ <=? _); by injection Hp as _ <-.
Qed.

Lemma pool_rel_client s c o n m ps tr ps' tr' :
  pool_rel n m ps -> Inv (pool_config s) ps tr ->
  sys_step (pool_config s) (LClient c o) ps = Some (ps', tr') -> pool_rel n m ps'.
Proof.
  intros Hrel HI Hstep. cbn [sys_step] in Hstep.
  destruct (client_step_move s _ _ _ _ _ Hstep) as (mc & mc' & st & ev & Hc & Hmv & -> & _).
  pose proof (Forall_lookup_1 _ _ _ _ (inv_clients _ _ _ HI) Hc) as Hok.
  destruct (pr_clients _ _ _ Hrel c mc Hc) as [Hn|[k ->]].
  - destruct (no_join_move _ _ _ _ _ _ _ _ Hn Hok Hmv) as (Hn' & Hj & Ha).
    assert (Hins : forall c' m', <[c := mc']> (clients ps) !! c' = Some m' ->
      clients ps !! c' = Some m' \/ no_join m').
    { intros c' m' [[-> ->]|[_ H]]%insert_callers; auto. }
    destruct m as [p|c' k]; [by apply (pool_rel_keep n (MainAt p) ps)|].
    destruct (decide (c' = c)) as [->|Hne].
    + destruct (pr_main _ _ _ Hrel) as (m0 & Hm0 & Hwd & Hsh). rewrite Hc in Hm0. injection Hm0 as <-.
      destruct (shutdown_move _ _ _ _ _ _ _ _ Hsh Hmv) as (Hsh' & _).
      split; cbn; [|rewrite Hj; apply Hrel|intros c' m' [H|H]%Hins; [by apply (pr_clients _ _ _ Hrel)|by left]].
      exists mc'. split_and!; [|done..]. apply list_lookup_insert_eq. by eapply lookup_lt_Some.
    + apply (pool_rel_keep n (MainIn c' k) ps); try done. intros c1 k1 [= <- _]. cbn.
      by apply list_lookup_insert_ne.
  - destruct (pr_main _ _ _ Hrel) as (m0 & Hm0 & Hwd & Hsh). rewrite Hc in Hm0. injection Hm0 as <-.
    destruct (shutdown_move _ _ _ _ _ _ _ _ Hsh Hmv) as (Hsh' & _ & Hj). split; cbn.
    + exists mc'. split_and!; [|done..]. apply list_lookup_insert_eq. by eapply lookup_lt_Some.
    + intros [H|H]%Hj; [by apply (pr_joined _ _ _ Hrel)|]. by destruct (worker ps).
    + intros c' m' [[-> ->]|[_ H]]%insert_callers; [right; by exists k|by apply (pr_clients _ _ _ Hrel)].
Qed.

(** *** Steps of [main()] *)

Lemma pool_rel_main n X (e : mainE X) k x ps :
  pool_rel n (MainAt (Vis e k)) ps -> shuts_down e = None ->
  exists n', n = S n' /\ pool_rel n' (MainAt (k x)) ps.
Proof.
  intros [(down & Hwd & Hd) Hj Hc] Hs. destruct n as [|n]; [done|]. destruct Hwd as [_ Hwd].
  specialize (Hwd x). rewrite Hs, orb_false_r in Hwd. exists n. split; [done|]. split; [|done|].
  - by exists down.
  - intros c mc H. destruct (Hc c mc H) as [Hn|[? [=]]]. by left.
Qed.

Lemma pool_rel_enter cfg n X (e : mainE X) k dec ps ps' :
  pool_rel n (MainAt (Vis e k)) ps -> shuts_down e = Some dec ->
  sys_step cfg (LCall CShutdown) ps = Some (ps', []) ->
  exists n', n = S n' /\ pool_rel n' (MainIn (length (clients ps)) (fun u => k (dec u))) ps'.
Proof.
  intros [(down & Hwd & Hd) Hj Hc] Hs Hstep. destruct n as [|n]; [done|]. destruct Hwd as [_ Hwd].
  specialize (Hwd (dec tt)). rewrite Hs, orb_true_r in Hwd. cbn [sys_step] in Hstep.
  injection Hstep as <-. exists n. split; [done|]. split; [|done|]; cbn [clients shared].
  - exists (call_prog cfg CShutdown). rewrite lookup_app_r, Nat.sub_diag by lia.
    split_and!; [done|done|apply sh_close].
  - intros c mc [H|[Hge H]]%lookup_app_Some.
    + destruct (Hc c mc H) as [Hn|[? [=]]]. by left.
    + apply list_lookup_singleton_Some in H as [H _]. right. eexists. f_equal. lia.
Qed.

Lemma shutdown_returned st a :
  shutdown_at st (Ret a) -> accepting_ st = false /\ joinable st = false.
Proof. intros H. remember (Ret a) as m eqn:Hm. by destruct H. Qed.

Lemma shutdown_throws st err : shutdown_at st (Throw err) -> False.
Proof. intros H. remember (Throw err) as m eqn:Hm. by destruct H. Qed.

Lemma pool_rel_leave n c k a ps :
  pool_rel n (MainIn c k) ps -> clients ps !! c = Some (Ret a) -> pool_rel n (MainAt (k tt)) ps.
Proof.
  intros [(mc & Hmc & Hwd & Hsh) Hj Hcl] Hc. rewrite Hc in Hmc. injection Hmc as <-.
  apply shutdown_returned in Hsh as [Ha Hjo]. split; [by exists true|done|].
  intros c' m' H. left. destruct (Hcl c' m' H) as [Hn|[k' [= <- _]]]; [done|].
  rewrite Hc in H. by injection H as <-.
Qed.

(** ** Lemmas: the life of the process *)

Lemma idle_lookup y i th : idle y -> y_threads y !! i = Some th -> working th -> False.
Proof. intros H Hi Hw. by apply (Forall_lookup_1 _ _ _ _ H Hi). Qed.

Section LifecycleLemmas.
Context {L : JsonLib} {HL : JsonLaws L} (VERSION : string).
Context (it : gmap string AuthLimiter.IpState -> list (string * AuthLimiter.IpState)).
Context (s : TtsServer) (has_engine : bool) (rate : Z) (backend : Voxtral.VoxtralBackend).
Context (listen_returns : system -> bool -> Prop).
Context (Hlisten : forall y ok, listen_returns y ok -> idle y).
Context (Hdepth : in_int (depth s)) (Hinit : initialized_ s = true) (Hpool : is_Some (pool_ s)).

#[local] Notation cfg := (pool_config s).
#[local] Notation life_step := (life_step VERSION it s listen_returns).
#[local] Notation lives := (lives VERSION it s has_engine rate backend listen_returns).
#[local] Notation deployed := (deployed VERSION it s).
#[local] Notation system_step := (system_step VERSION it s).

Lemma local_keeps i now ins X (e : sysE X) y x y' :
  local_answers it i now ins e y x y' -> y_pool y' = y_pool y /\ y_threads y' = y_threads y.
Proof.
  unfold local_answers. intros H.
  destruct e; cbn [local_call] in H; try (by subst y').
  - destruct (y_cells y !! i); [|done]. by injection H as _ <-.
  - destruct (AuthLimiter.is_blocked _ _ _). by injection H as _ <-.
  - destruct (AuthLimiter.check_and_record_failure _ _ _ _ _). by injection H as _ <-.
  - destruct (RequestLimiter.check_request _ _ _ _). by injection H as _ <-.
Qed.

(** Without arrivals, finished requests stay finished. *)
Lemma idle_stays y a tr y' : system_step y a tr y' -> a <> Arrival -> idle y -> idle y'.
Proof.
  intros Hstep Ha Hi. destruct Hstep as [| | |y c o ps tr _ _| |y c ps _ _|y o ps tr _ _ _]; try done;
    by edestruct idle_lookup.
Qed.

Lemma pool_rel_system n m y a tr y' tr0 :
  pool_rel n m (y_pool y) -> Inv cfg (y_pool y) tr0 -> system_step y a tr y' -> a <> Other ->
  pool_rel n m (y_pool y').
Proof.
  intros Hrel HI Hstep Ha. destruct Hstep as [|y i q X e k x now ins y' Hi Hm _ _ Hl
    |y i q X e k c dec ps Hi Hm Hps|y c o ps tr Hps _| | |y o ps tr Hps _ _]; try done.
  - cbn. by rewrite (proj1 (local_keeps _ _ _ _ _ _ _ _ Hl)).
  - apply (pool_rel_call cfg c n m (y_pool y)); [done| |done]. by destruct e; try discriminate Hm;
      injection Hm as <- _.
  - by apply (pool_rel_client s c o n m (y_pool y) tr0 ps tr).
  - cbn [sys_step] in Hps. by apply (pool_rel_worker cfg o n m (y_pool y) tr0 ps tr).
Qed.

Record life_inv (n : nat) (tr : trace) (p : life) : Prop := mk_life_inv {
  li_deployed : deployed tr (lf_system p);
  li_idle : listening (lf_main p) = true \/ idle (lf_system p);
  li_pool : pool_rel n (lf_main p) (y_pool (lf_system p));
  li_calls : (n <= 24)%nat;
}.

Lemma life_init t st :
  pool_create true (depth s) (timeout s) = Ok (cfg, st) ->
  life_inv 24 [] (mk_life (mk_system (auth_limiter_ s) (request_limiter_ s) t ∅ [] (sys_init st))
    (MainAt (main_program s has_engine rate backend))).
Proof.
  intros Hst. split; cbn [lf_system lf_main]; [by apply deployed_init|right; constructor| |lia].
  split; cbn.
  - exists false. split; [by apply (main_winding s has_engine rate backend)|done].
  - unfold pool_create in Hst. repeat case_match; try done. by injection Hst as <-.
  - done.
Qed.

Lemma deployed_pool tr y : deployed tr y -> Inv cfg (y_pool y) tr.
Proof.
  intros H. destruct (deployed_sim VERSION it s Hdepth tr y H) as (hist & v & Hsim).
  exact (reach_inv cfg Hdepth _ _ (sim_reach _ _ _ _ _ _ _ Hsim)).
Qed.

(** The calls of [main()] left after a step. *)
Definition calls_after (n : nat) (p : life) (a : option actor) (n' : nat) : Prop :=
  match a, lf_main p with
  | None, MainAt _ => n = S n'
  | _, _ => n' = n
  end.

Lemma life_keeps n tr p a tr' p' :
  life_inv n tr p -> life_step p a tr' p' ->
  exists n', life_inv n' (tr ++ tr') p' /\ calls_after n p a n'.
Proof.
  intros [Hd Hi Hp Hn] Hstep.
  destruct Hstep as [y m a tr' y' Hy Ha Harr|y X e k x Hs Hx|y X e k dec ps Hs Hps|y c k a Hc|y c k err Hc];
    cbn [lf_system lf_main] in *.
  - exists n. split; [|done]. split; cbn [lf_system lf_main]; [by eapply deployed_step| | |done].
    + destruct Hi as [Hi|Hi]; [by left|]. destruct (listening m); [by left|right].
      apply (idle_stays y a tr' y' Hy); [|done]. intros ->. by discriminate Harr.
    + eapply pool_rel_system; [done|by eapply deployed_pool|done|done].
  - destruct (pool_rel_main _ _ _ _ x _ Hp Hs) as (n' & -> & Hp').
    exists n'. split; [|done]. rewrite app_nil_r. split; cbn [lf_system lf_main]; [done| |done|lia].
    right. destruct Hi as [Hi|Hi]; [|done]. cbn in Hi. destruct e as [|?|e|]; try done.
    destruct e; try done. by apply (Hlisten y x).
  - destruct (pool_rel_enter _ _ _ _ _ _ _ _ Hp Hs Hps) as (n' & -> & Hp').
    exists n'. split; [|done]. split; cbn [lf_system lf_main]; [|right|done|lia].
    + eapply deployed_step; [done|]. by apply (sy_other VERSION it s y CShutdown ps eq_refl).
    + destruct Hi as [Hi|Hi]; [|done]. cbn in Hi. destruct e as [|?|e|]; try done. by destruct e.
  - exists n. split; [|done]. rewrite app_nil_r. split; cbn [lf_system lf_main]; [done|right|by eapply pool_rel_leave|done].
    by destruct Hi.
  - destruct (pr_main _ _ _ Hp) as (mc & Hmc & _ & Hsh). rewrite Hc in Hmc. injection Hmc as <-.
    by apply shutdown_throws in Hsh.
Qed.

Lemma lives_inv tr p : lives tr p -> exists n, life_inv n tr p.
Proof.
  induction 1 as [t st Hst|tr p a tr' p' _ [n IH] Hstep].
  - exists 24%nat. by apply life_init.
  - destruct (life_keeps _ _ _ _ _ _ IH Hstep) as (n' & H & _). by exists n'.
Qed.
(** *** What is left to do *)

Lemma cost_enter tr y hist v k c ps :
  sim VERSION it s tr y hist v -> cost y k -> sys_step cfg (LCall c) (y_pool y) = Some (ps, []) ->
  exists k', cost (y_with_pool ps (y_time y) y) k' /\ (k' <= k + 32)%nat.
Proof.
  intros Hsim (ns & w & Hns & Hw & ->) Hstep. cbn [sys_step] in Hstep. injection Hstep as Hps.
  set (cs := clients (y_pool y)) in *.
  assert (Hc : clients ps = cs ++ [call_prog cfg c]) by by rewrite <- Hps.
  exists (sum_list (thread_cost (clients ps) <$> y_threads y) + 4 * sum_list (ns ++ [8%nat]) + w)%nat.
  split.
  - exists (ns ++ [8%nat]), w. cbn [y_pool y_with_pool y_threads]. split_and!; [| |done].
    + rewrite Hc. apply Forall2_app; [done|]. constructor; [apply call_within|constructor].
    + by rewrite <- Hps.
  - rewrite sum_list_with_app. cbn [sum_list_with].
    enough (sum_list (thread_cost (clients ps) <$> y_threads y) <=
      sum_list (thread_cost cs <$> y_threads y))%nat by (unfold Datatypes.id in *; lia).
    apply sum_same. intros j [q' [p|c' k']] Hz; [done|]. unfold thread_cost. cbn.
    rewrite Hc, lookup_app_l; [done|].
    by apply (rel_bound _ (rel_clients _ _ _ (sim_state _ _ _ _ _ _ _ Hsim)) j _ c' Hz).
Qed.

(** The calls of [main()], and the weight of the rest. *)
Definition life_total (n : nat) (m : main_activity) (v : service) (ts : list (nat * phase)) (k : nat) : nat :=
  40 * n + match m with MainAt _ => 0 | MainIn _ _ => 1 end + total v ts k.

Definition life_nearer (n : nat) (m : main_activity) (v : service) (ts : list (nat * phase)) (k : nat)
    (tr : trace) (p : life) : Prop :=
  exists n' hist' v' ts' k', life_inv n' tr p /\ sim VERSION it s tr (lf_system p) hist' v' /\
    svc_inv v' ts' /\ cost (lf_system p) k' /\
    (life_total n' (lf_main p) v' ts' k' < life_total n m v ts k)%nat.

Lemma life_step_nearer n tr p a tr' p' hist v ts k :
  life_inv n tr p -> sim VERSION it s tr (lf_system p) hist v -> svc_inv v ts -> cost (lf_system p) k ->
  own_actor a -> life_step p a tr' p' -> life_nearer n (lf_main p) v ts k (tr ++ tr') p'.
Proof.
  intros Hli Hsim HI Hk Ha Hstep. destruct (life_keeps _ _ _ _ _ _ Hli Hstep) as (n' & Hli' & Hn).
  destruct Hstep as [y m a tr' y' Hy _ _|y X e k0 x _ _|y X e k0 dec ps _ Hps|y c k0 a _|y c k0 err _];
    cbn [lf_system lf_main calls_after own_actor] in *.
  - subst n'. destruct (own_step VERSION it s Hdepth _ _ _ _ _ _ _ _ _ Hsim HI Hk Ha Hy)
      as (hist' & v' & ts' & k' & Hsim' & HI' & Hk' & Hlt).
    exists n, hist', v', ts', k'. split_and!; [done..|]. unfold life_total. cbn [lf_main]. lia.
  - subst n. exists n', hist, v, ts, k. rewrite app_nil_r in *. split_and!; [done..|].
    unfold life_total. cbn [lf_main]. lia.
  - subst n. destruct (cost_enter _ _ _ _ _ _ _ Hsim Hk Hps) as (k' & Hk' & Hle).
    pose proof (sim_other VERSION it s _ _ _ _ CShutdown ps Hsim eq_refl Hps) as Hsim'.
    exists n', hist, v, ts, k'. split_and!; [done..|]. unfold life_total, total. cbn [lf_main]. lia.
  - subst n'. exists n, hist, v, ts, k. rewrite app_nil_r in *. split_and!; [done..|].
    unfold life_total. cbn [lf_main]. lia.
  - subst n'. exists n, hist, v, ts, k. rewrite app_nil_r in *. split_and!; [done..|].
    unfold life_total. cbn [lf_main]. lia.
Qed.

#[local] Notation life_steps := (life_steps VERSION it s listen_returns).

Lemma life_steps_nearer m n p p' tr hist v ts k :
  life_steps m p p' -> life_inv n tr p -> sim VERSION it s tr (lf_system p) hist v ->
  svc_inv v ts -> cost (lf_system p) k ->
  exists tr' n' v' ts' k', life_inv n' tr' p' /\
    (m + life_total n' (lf_main p') v' ts' k' <= life_total n (lf_main p) v ts k)%nat.
Proof.
  intros Hm. revert n tr hist v ts k.
  induction Hm as [p|m p a tr1 p1 p2 Ha Hstep _ IH]; intros n tr hist v ts k Hli Hsim HI Hk.
  - exists tr, n, v, ts, k. split; [done|lia].
  - destruct (life_step_nearer _ _ _ _ _ _ _ _ _ _ Hli Hsim HI Hk Ha Hstep)
      as (n1 & hist1 & v1 & ts1 & k1 & Hli1 & Hsim1 & HI1 & Hk1 & Hlt).
    destruct (IH _ _ _ _ _ _ Hli1 Hsim1 HI1 Hk1) as (tr2 & n2 & v2 & ts2 & k2 & Hli2 & Hle).
    exists tr2, n2, v2, ts2, k2. split; [done|lia].
Qed.

Lemma life_bound n tr p :
  life_inv n tr p ->
  (forall m p', life_steps m p p' -> (m <= life_left p)%nat) /\
  (forall m p', life_steps m p p' -> exists tr' n', life_inv n' tr' p').
Proof.
  intros Hli. destruct (deployed_sim VERSION it s Hdepth _ _ (li_deployed _ _ _ Hli)) as (hist & v & Hsim).
  destruct (served_inv VERSION it s hist v (sim_served _ _ _ _ _ _ _ Hsim)) as (ts & HI).
  destruct (cost_exists VERSION it s Hdepth _ _ _ _ Hsim) as (k & Hk & Hle).
  pose proof (steps_left_total VERSION it s _ _ _ _ ts k Hsim HI Hle) as Htot.
  pose proof (li_calls _ _ _ Hli). split; intros m p' Hm;
    destruct (life_steps_nearer _ _ _ _ _ _ _ _ _ Hm Hli Hsim HI Hk) as (tr' & n' & v' & ts' & k' & Hli' & Hlt).
  - unfold life_left, life_total in *. destruct (lf_main p), (lf_main p'); lia.
  - by exists tr', n'.
Qed.
(** *** Progress *)

(** A closed pool whose worker has not returned moves by itself. *)
Lemma closed_can_move ps tr t :
  Inv cfg ps tr -> accepting_ (shared ps) = false -> worker ps <> Exited ->
  exists l ps' tr', sys_step cfg l ps = Some (ps', tr') /\ t <= time_after t tr' /\
    ((exists c, l = LClient c (oracle_at result_init t ps)) \/ l = LWorker (oracle_at result_init t ps)).
Proof.
  intros HI Ha Hw. set (o := oracle_at result_init t ps).
  destruct (decide (List.Exists (fun m => notifying m = true) (clients ps))) as [Hex|Hno].
  - apply List.Exists_exists in Hex as (m & Hin & Hm).
    apply list_elem_of_In, list_elem_of_lookup in Hin as [c Hc]. destruct (notifying_vis m Hm) as [k ->].
    eexists (LClient c o), _, _. split; [|split; [|left; by exists c]].
    + by apply (client_can_step s c o ps Notify k tt (set_waiting false (shared ps))).
    + cbn. lia.
  - assert (Hset : settled ps).
    { apply Forall_forall. intros m Hm. destruct (notifying m) eqn:Hn; [|done]. exfalso.
      apply Hno, List.Exists_exists. exists m. split; [by apply list_elem_of_In|done]. }
    destruct (worker_moves cfg o ps tr HI Hset (or_intror Ha) Hw) as (ps' & tr' & Hstep).
    exists (LWorker o), ps', tr'. split; [done|]. split; [|by right].
    unfold worker_step in Hstep. destruct (worker ps) as [[b|err|X e k]| |]; try done.
    destruct (perform _ _ _ _ _) as [[x st]|] eqn:Hp; [|done]. injection Hstep as _ <-.
    by eapply oracle_at_time.
Qed.

(** [shutdown()] has returned, or it can go on, or it is joining a worker that
    can. *)
Lemma shutdown_can_move n c k ps tr t :
  pool_rel n (MainIn c k) ps -> Inv cfg ps tr ->
  (exists a, clients ps !! c = Some (Ret a)) \/
  exists l ps' tr', sys_step cfg l ps = Some (ps', tr') /\ t <= time_after t tr' /\
    ((exists c, l = LClient c (oracle_at result_init t ps)) \/ l = LWorker (oracle_at result_init t ps)).
Proof.
  intros Hrel HI. destruct (pr_main _ _ _ Hrel) as (mc & Hmc & _ & Hsh).
  assert (Hgo : forall X (e : poolE X) f x st, mc = Vis e f ->
    perform cfg (has_exited (worker ps)) (oracle_at result_init t ps) e (shared ps) = Some (x, st) ->
    exists l ps' tr', sys_step cfg l ps = Some (ps', tr') /\ t <= time_after t tr' /\
      ((exists c, l = LClient c (oracle_at result_init t ps)) \/ l = LWorker (oracle_at result_init t ps))).
  { intros X e f x st -> Hp. eexists (LClient c (oracle_at result_init t ps)), _, _.
    split; [by apply (client_can_step s c _ ps e f x st)|]. split; [by eapply oracle_at_time|].
    left. by exists c. }
  destruct Hsh as [cf|Ha|Ha|Ha Hj|Ha Hj]; [right; by eapply Hgo..| |left; by eexists].
  destruct (worker ps) as [p| |] eqn:Hw.
  - right. apply (closed_can_move ps tr t HI Ha). by rewrite Hw.
  - right. cbn [has_exited] in Hgo. by apply (Hgo _ Join _ (Ok tt) (set_joinable false (shared ps)) eq_refl);
      cbn; rewrite Hj.
  - right. apply (closed_can_move ps tr t HI Ha). by rewrite Hw.
Qed.

Lemma life_of_pool y m l ps tr :
  sys_step cfg l (y_pool y) = Some (ps, tr) -> y_time y <= time_after (y_time y) tr ->
  ((exists c, l = LClient c (oracle_at result_init (y_time y) (y_pool y))) \/
   l = LWorker (oracle_at result_init (y_time y) (y_pool y))) ->
  exists a tr' p', own_actor a /\ life_step (mk_life y m) a tr' p'.
Proof.
  intros Hstep Ht [[c ->]| ->].
  - eexists (Some (Method c _)), tr, _. split; [done|]. apply lc_system; [|done|done].
    by apply (sy_client VERSION it s y c _ ps tr).
  - eexists (Some (Worker (oracle_at result_init (y_time y) (y_pool y)))), tr, _. split; [done|].
    apply lc_system; [|done|done]. by apply (sy_worker VERSION it s y _ ps tr).
Qed.

(** The calls of [main()] that are not [listen()] have an answer. *)
Lemma main_answered down X (e : mainE X) y :
  main_call down e = true -> listens_here e = false -> exists x, main_answers listen_returns y e x.
Proof.
  intros Hc Hl. destruct e as [e|e|e|e]; [done|destruct e; try done|destruct e; try done|destruct e];
    by exists tt.
Qed.

Lemma life_progress n tr p :
  life_inv n tr p ->
  (forall a tr' p', own_actor a -> ~ life_step p a tr' p') ->
  ended p \/
  (listening (lf_main p) = true /\ idle (lf_system p) /\ forall ok, ~ listen_returns (lf_system p) ok).
Proof.
  intros Hli Hstuck. destruct p as [y m]. pose proof Hli as [Hd _ Hp _]. cbn [lf_system lf_main] in *.
  pose proof (deployed_pool _ _ Hd) as HP.
  destruct m as [[z|err|X e k]|c k]; [left; by exists z|..].
  - by destruct (pr_main _ _ _ Hp) as (down & Hwd & _).
  - destruct (pr_main _ _ _ Hp) as (down & Hwd & _). destruct n as [|n]; [done|]. destruct Hwd as [Hc _].
    destruct (shuts_down e) as [dec|] eqn:Hs.
    { exfalso. eapply (Hstuck None); [done|]. by eapply (lc_enter VERSION it s listen_returns y X e k dec). }
    destruct (listens_here e) eqn:Hl.
    + right. split; [done|]. split.
      * apply Forall_lookup_2. intros i th Hi Hw.
        destruct (deployed_sim VERSION it s Hdepth _ _ Hd) as (hist & v & Hsim).
        destruct (sim_progress VERSION it s Hdepth _ _ _ _ i th Hsim Hi Hw) as (a & tr' & y' & Ha & Hy).
        apply (Hstuck (Some a) tr' (mk_life y' (MainAt (Vis e k)))); [done|].
        apply lc_system; [done|by destruct a|by destruct a].
      * intros ok Hok. destruct e as [|?|e|]; try done. destruct e; try done.
        by eapply (Hstuck None), (lc_main VERSION it s listen_returns y _ _ k ok).
    + exfalso. destruct (main_answered down X e y Hc Hl) as [x Hx].
      by eapply (Hstuck None), (lc_main VERSION it s listen_returns y X e k x).
  - exfalso. destruct (shutdown_can_move _ _ _ _ _ (y_time y) Hp HP) as [[a Ha]|(l & ps & tr' & Hl & Ht & Hor)].
    + eapply (Hstuck None); [done|]. by eapply (lc_leave VERSION it s listen_returns y c k a).
    + destruct (life_of_pool y (MainIn c k) l ps tr' Hl Ht Hor) as (a & tr'' & p'' & Ha & Hst).
      by apply (Hstuck a tr'' p'').
Qed.
(** *** After the last [shutdown()] *)

Lemma main_call_answer down X (e : mainE X) : main_call down e = true -> exists x : X, True.
Proof.
  intros Hc. destruct e as [e|e|e|e]; [done|destruct e; try done|destruct e; try done|destruct e];
    (by exists tt) || by exists true.
Qed.

(** Every way to the end runs [shutdown()]. *)
Lemma winding_down n p : winding n false p -> pool_over p -> (forall err, p <> Throw err) -> False.
Proof.
  revert n. induction p as [z|err|X e k IH]; intros n Hw Ho Hne; [done|by destruct (Hne err)|].
  destruct n as [|n]; [done|]. destruct Hw as [Hc Hw], Ho as [Hs Ho]. rewrite Hs in Hw. cbn in Hw.
  destruct (main_call_answer _ _ _ Hc) as [x _]. apply (IH x n (Hw x) (Ho x)).
  intros err Heq. specialize (Hw x). by rewrite Heq in Hw; destruct n.
Qed.

Lemma past_exited n m ps :
  pool_rel n m ps -> past_shutdown m -> worker ps = Exited.
Proof.
  intros Hrel Hm. apply (pr_joined _ _ _ Hrel). destruct m as [p|c k]; [|done].
  destruct (pr_main _ _ _ Hrel) as (down & Hwd & Hd). destruct down; [by apply Hd|exfalso].
  assert (pool_over p \/ exists c k, p = Vis (MEngine (TtsFree c)) k) as [Ho|(c & k & ->)].
  { destruct p as [z|err|X [e|e|e|e] k]; try (by left). destruct e; try (by left). by right; eexists _, _. }
  - eapply winding_down; [done..|]. intros err ->. by destruct n.
  - destruct n as [|n]; [done|]. by destruct Hwd.
Qed.

Lemma exited_answered tr y :
  deployed tr y -> worker (y_pool y) = Exited ->
  queue_ (shared (y_pool y)) = [] /\ accepting_ (shared (y_pool y)) = false /\
  Forall2 answers (Pool.accepted tr) (worker_notices tr).
Proof.
  intros Hd Hx. pose proof (deployed_pool _ _ Hd) as HP.
  destruct (inv_exit _ _ _ HP Hx) as [Ha Hq]. split_and!; [done..|].
  destruct (deployed_sim VERSION it s Hdepth _ _ Hd) as (hist & v & [Hs _ _ [Hacc _ _]]).
  assert (Forall has_callbacks (Pool.accepted tr)) as Hcb.
  { rewrite <- Hacc. apply Forall_fmap. eapply Forall_impl; [by eapply accepted_owned|].
    intros [i job] Hown. apply both_callbacks_spec. by eapply owned_both. }
  pose proof (inv_fifo _ _ _ HP) as Hf. rewrite Hq, app_nil_r in Hf. rewrite Hf in Hcb |- *.
  destruct (worker_inv_cases _ _ (inv_worker _ _ _ HP)) as (_ & _ & _ & Hj).
  destruct (Hj Hcb) as (fin & inflight & -> & Hans & _ & Hi). by rewrite (Hi Hx), app_nil_r.
Qed.

(** The worker has no step left. *)
Lemma exited_silent n tr p a tr' p' :
  life_inv n tr p -> worker (y_pool (lf_system p)) = Exited -> life_step p a tr' p' -> worker_trace tr' = [].
Proof.
  intros Hli Hx Hstep. destruct Hstep as [y m a tr' y' Hy _ _| | | |]; try done. cbn [lf_system] in *.
  destruct Hy as [| | |y c o ps tr' Hps _| | |y o ps tr' Hps _ _]; try done; cbn [sys_step] in Hps.
  - destruct (client_step_move s _ _ _ _ _ Hps) as (? & ? & ? & ? & _ & _ & _ & ->). done.
  - unfold worker_step in Hps. by rewrite Hx in Hps.
Qed.
End LifecycleLemmas.

(** ** Properties *)

Section LifecycleProperties.
Context {L : JsonLib} {HL : JsonLaws L} (VERSION : string).
Context (it : gmap string AuthLimiter.IpState -> list (string * AuthLimiter.IpState)).
Context (s : TtsServer) (has_engine : bool) (rate : Z) (backend : Voxtral.VoxtralBackend).
Context (listen_returns : system -> bool -> Prop).

#[local] Notation life_step := (life_step VERSION it s listen_returns).
#[local] Notation life_steps := (life_steps VERSION it s listen_returns).
#[local] Notation lives := (lives VERSION it s has_engine rate backend listen_returns).

(** C5: the shutdown is graceful, whatever the interleaving of main(), the
    requests, the pool methods and the worker: requests are in progress only
    while main() is in listen(); no exception leaves main() after start-up;
    and when main() releases the engine, and from its last shutdown() on, the
    worker has returned, the queue is empty, every job ever accepted has been
    told its verdict once, in order, by its own callback, and no further call
    of the worker (to the backend or a closure) is possible. *)
Theorem graceful_shutdown tr p
    (Hlisten : forall y ok, listen_returns y ok -> idle y)
    (Hdepth : in_int (depth s)) (Hinit : initialized_ s = true) (Hpool : is_Some (pool_ s))
    (Hlives : lives tr p) :
  (listening (lf_main p) = true \/ idle (lf_system p)) /\
  (forall err, lf_main p <> MainAt (Throw err)) /\
  (past_shutdown (lf_main p) ->
   worker (y_pool (lf_system p)) = Exited /\ queue_ (shared (y_pool (lf_system p))) = [] /\
   Forall2 answers (Pool.accepted tr) (worker_notices tr) /\
   forall a tr' p', life_step p a tr' p' -> worker_trace tr' = []).
Proof.
  destruct (lives_inv VERSION it s has_engine rate backend listen_returns Hlisten Hdepth Hinit Hpool
    tr p Hlives) as [n Hli].
  split; [apply Hli|]. split.
  - intros err Heq. pose proof (pr_main _ _ _ (li_pool _ _ _ _ _ _ Hli)) as Hm. rewrite Heq in Hm.
    by destruct Hm as (? & Hwd & _), n.
  - intros Hp. pose proof (past_exited _ _ _ (li_pool _ _ _ _ _ _ Hli) Hp) as Hx.
    destruct (exited_answered VERSION it s Hdepth tr _ (li_deployed _ _ _ _ _ _ Hli) Hx) as (Hq & _ & Ha).
    split_and!; [done..|]. intros a tr' p' Hstep. by eapply exited_silent.
Qed.

(** C6: the process comes to an end: from every state the number of steps that
    main(), the requests, the pool methods and the worker make by themselves is
    bounded, however they interleave; and they come to rest only when main()
    has returned, or when it waits in listen() for a reason to return, with
    every request answered.  In particular join() never waits for ever. *)
Theorem shutdown_completes tr p
    (Hlisten : forall y ok, listen_returns y ok -> idle y)
    (Hdepth : in_int (depth s)) (Hinit : initialized_ s = true) (Hpool : is_Some (pool_ s))
    (Hlives : lives tr p) :
  (forall m p', life_steps m p p' -> (m <= life_left p)%nat) /\
  (forall m p', life_steps m p p' ->
     (forall a tr' p'', own_actor a -> ~ life_step p' a tr' p'') ->
     ended p' \/
     (listening (lf_main p') = true /\ idle (lf_system p') /\
      forall ok, ~ listen_returns (lf_system p') ok)).
Proof.
  destruct (lives_inv VERSION it s has_engine rate backend listen_returns Hlisten Hdepth Hinit Hpool
    tr p Hlives) as [n Hli].
  destruct (life_bound VERSION it s listen_returns Hlisten Hdepth n tr p Hli) as [Hb Hr].
  split; [done|]. intros m p' Hm Hstuck. destruct (Hr m p' Hm) as (tr' & n' & Hli').
  by eapply life_progress.
Qed.
End LifecycleProperties.

(** ** Witnesses *)

Module LifecycleWitness.
Import HandlerWitness AdapterWitness LivenessWitness DeployedWitness.

Definition engine : Voxtral.VoxtralBackend := Voxtral.mk_voxtral true "/m" (Some 7) true.
(** cpp-httplib returns once no request is in progress. *)
Definition returns_idle (y : system) (ok : bool) : Prop := idle y.

#[local] Instance idle_dec y : Decision (idle y).
Proof. unfold idle. apply _. Defined.

#[local] Instance threads_nil_dec (y : system) : Decision (y_threads y = []).
Proof. destruct (y_threads y); [by left|by right]. Defined.

(** The answer of a call of [main()]. *)
Definition main_default {X} (e : mainE X) : option X :=
  match e with
  | MSys e =>
      match e in sysE X return option X with
      | SLog _ => Some tt
      | HttpNew => Some tt
      | HttpConfigure _ _ _ => Some tt
      | SetRunning _ => Some tt
      | HttpListen _ _ => Some true
      | HttpDelete => Some tt
      | _ => None
      end
  | MProc e =>
      match e in procE X return option X with
      | Stdout _ => Some tt
      | Stderr _ => Some tt
      | Spdlog _ => Some tt
      | MLog _ => Some tt
      | Sigaction _ => Some tt
      | SetAdapter _ => Some tt
      end
  | MEngine e =>
      match e in engineE X return option X with ELog _ => Some tt | TtsFree _ => Some tt | _ => None end
  | MConfig _ => None
  end.

(** A request arrives during [listen()] and is served; then [listen()] returns
    and [main()] shuts down, waiting for the worker when it must. *)
Definition life_turn (p : life) : option (trace * life) :=
  let y := lf_system p in
  match lf_main p with
  | MainAt (Vis e k) =>
      match shuts_down e with
      | Some dec =>
          '(ps, _) ← sys_step (pool_config server) (LCall CShutdown) (y_pool y);
          Some ([], mk_life (y_with_pool ps (y_time y) y)
                      (MainIn (length (clients (y_pool y))) (fun u => k (dec u))))
      | None =>
          if listens_here e && bool_decide (y_threads y = []) then
            Some ([], mk_life (y_with_threads
                        (y_threads y ++ [(post "secret", Serving (route_speech server (post "secret")))]) y)
                        (lf_main p))
          else if listens_here e && negb (bool_decide (idle y)) then
            '(tr, y') ← turn server 0 y; Some (tr, mk_life y' (lf_main p))
          else x ← main_default e; Some ([], mk_life y (MainAt (k x)))
      end
  | MainIn c k =>
      match clients (y_pool y) !! c with
      | Some (Ret _) => Some ([], mk_life y (MainAt (k tt)))
      | _ =>
          match sys_step (pool_config server) (LClient c (calm y)) (y_pool y) with
          | Some (ps, tr) => Some (tr, mk_life (y_with_pool ps (time_after (y_time y) tr) y) (lf_main p))
          | None => '(tr, y') ← worker_turn server y; Some (tr, mk_life y' (lf_main p))
          end
      end
  | _ => None
  end.

Fixpoint life_run (n : nat) (p : life) : trace * life :=
  match n with
  | O => ([], p)
  | S n' =>
      match life_turn p with
      | Some (tr, p1) => let '(tr', p2) := life_run n' p1 in (tr ++ tr', p2)
      | None => ([], p)
      end
  end.

Definition born : life :=
  mk_life (mk_system (auth_limiter_ server) (request_limiter_ server) 0 ∅ [] (sys_init (fresh_pool server)))
    (MainAt (main_program server true 24000 engine)).

Definition run_at (n : nat) : trace * life := life_run n born.
Definition is_ended (p : life) : bool :=
  match lf_main p with MainAt (Ret z) => z =? 0 | _ => false end.

#[local] Notation life_step := (life_step "1.0" toy_it server returns_idle).
#[local] Notation life_steps := (life_steps "1.0" toy_it server returns_idle).
#[local] Notation lives := (lives "1.0" toy_it server true 24000 engine returns_idle).

Lemma default_answers y X (e : mainE X) x :
  main_default e = Some x -> (listens_here e = true -> idle y) -> main_answers returns_idle y e x.
Proof.
  intros _ Hi. destruct e as [|?|e|]; try done. destruct e; try done. by apply Hi.
Qed.

Lemma turn_lives y k tr y' :
  turn server 0 y = Some (tr, y') -> exists a, life_step (mk_life y k) a tr (mk_life y' k).
Proof.
  intros Ht. destruct (turn_step _ _ _ _ _ Ht) as (a & Ha & Hs). exists (Some a).
  apply lc_system; [done|by destruct a|by destruct a].
Qed.

Lemma life_turn_step p tr p' : life_turn p = Some (tr, p') -> exists a, life_step p a tr p'.
Proof.
  destruct p as [y [[z|err|X e k]|c k]]; unfold life_turn; cbn [lf_system lf_main]; try done.
  - destruct (shuts_down e) as [dec|] eqn:Hs.
    { intros [= <- <-]. exists None. by apply lc_enter. }
    destruct (listens_here e && bool_decide (y_threads y = [])) eqn:Harr.
    { intros [= <- <-]. exists (Some Arrival). apply andb_prop in Harr as [Hl _].
      apply lc_system; [by apply sy_arrive|done|done]. }
    destruct (listens_here e && negb (bool_decide (idle y))) eqn:Hserve.
    { destruct (turn server 0 y) as [[tr1 y1]|] eqn:Ht; [|done]. intros [= <- <-]. by apply turn_lives. }
    destruct (main_default e) as [x|] eqn:Hx; [|done]. intros [= <- <-]. exists None.
    apply lc_main; [done|]. apply default_answers; [done|]. intros Hl. rewrite Hl in Hserve.
    destruct (bool_decide (idle y)) eqn:Hi; [|done]. by apply bool_decide_eq_true in Hi.
  - assert (Hgo : forall r, match sys_step (pool_config server) (LClient c (calm y)) (y_pool y) with
        | Some (ps, tr) => Some (tr, mk_life (y_with_pool ps (time_after (y_time y) tr) y) (MainIn c k))
        | None => '(tr, y') ← worker_turn server y; Some (tr, mk_life y' (MainIn c k))
        end = Some r -> exists a, life_step (mk_life y (MainIn c k)) a r.1 r.2).
    { intros r. destruct (sys_step _ _ _) as [[ps tr1]|] eqn:Hs.
      - intros [= <-]. exists (Some (Method c (calm y))). apply lc_system; [by apply calm_client|done|done].
      - destruct (worker_turn server y) as [[tr1 y1]|] eqn:Hw; [|done]. intros [= <-].
        exists (Some (Worker (calm y))). apply lc_system; [by apply worker_turn_step|done|done]. }
    destruct (clients (y_pool y) !! c) as [[a|err|X e f]|] eqn:Hc; [|by apply (Hgo (tr, p'))..].
    intros [= <- <-]. exists None. by apply lc_leave with (a := a).
Qed.

Lemma life_run_lives n tr p : lives tr p -> lives (tr ++ (life_run n p).1) (life_run n p).2.
Proof.
  revert tr p. induction n as [|n IH]; intros tr p H; [by rewrite app_nil_r|]. cbn [life_run].
  destruct (life_turn p) as [[tr1 p1]|] eqn:Ht; [|by rewrite app_nil_r].
  destruct (life_turn_step p tr1 p1 Ht) as [a Ha].
  specialize (IH (tr ++ tr1) p1 (lives_step _ _ _ _ _ _ _ _ _ _ _ _ H Ha)).
  destruct (life_run n p1) as [tr2 p2]. cbn [fst snd] in *. by rewrite app_assoc.
Qed.

Lemma run_lives n : lives (run_at n).1 (run_at n).2.
Proof. rewrite <- (app_nil_l (run_at n).1). apply life_run_lives. by apply lives_init. Qed.

Lemma idle_returns y ok : returns_idle y ok -> idle y.
Proof. done. Qed.

Lemma server_pool : is_Some (pool_ server).
Proof. by eexists. Qed.

(** The end of the process, with one job served. *)
Lemma run_ends : is_ended (run_at 100).2 && (length (Pool.accepted (run_at 100).1) =? 1)%nat = true.
Proof. by vm_compute. Qed.

Lemma ended_past p : is_ended p = true -> past_shutdown (lf_main p).
Proof. unfold is_ended. by destruct (lf_main p) as [[]|]. Qed.

Lemma run_past : past_shutdown (lf_main (run_at 100).2).
Proof. apply ended_past. by destruct (andb_prop _ _ run_ends). Qed.

(** [main()] inside [join()], the worker not yet back. *)
Lemma run_joins : match lf_main (run_at 65).2 with MainIn _ _ => true | _ => false end &&
  negb (has_exited (worker (y_pool (lf_system (run_at 65).2)))) = true.
Proof. by vm_compute. Qed.

Lemma graceful_shutdown_witness :
  (is_ended (run_at 100).2 && (length (Pool.accepted (run_at 100).1) =? 1)%nat = true) /\
  past_shutdown (lf_main (run_at 100).2) /\
  (listening (lf_main (run_at 100).2) = true \/ idle (lf_system (run_at 100).2)) /\
  (forall err, lf_main (run_at 100).2 <> MainAt (Throw err)) /\
  (past_shutdown (lf_main (run_at 100).2) ->
   worker (y_pool (lf_system (run_at 100).2)) = Exited /\
   queue_ (shared (y_pool (lf_system (run_at 100).2))) = [] /\
   Forall2 answers (Pool.accepted (run_at 100).1) (worker_notices (run_at 100).1) /\
   forall a tr' p', life_step (run_at 100).2 a tr' p' -> worker_trace tr' = []).
Proof.
  split; [exact run_ends|]. split; [exact run_past|].
  exact (graceful_shutdown "1.0" toy_it server true 24000 engine returns_idle (run_at 100).1 (run_at 100).2
    idle_returns server_depth eq_refl server_pool (run_lives 100)).
Defined.

Lemma shutdown_completes_witness :
  (match lf_main (run_at 65).2 with MainIn _ _ => true | _ => false end &&
   negb (has_exited (worker (y_pool (lf_system (run_at 65).2)))) = true) /\
  (forall m p', life_steps m (run_at 65).2 p' -> (m <= life_left (run_at 65).2)%nat) /\
  (forall m p', life_steps m (run_at 65).2 p' ->
     (forall a tr' p'', own_actor a -> ~ life_step p' a tr' p'') ->
     ended p' \/
     (listening (lf_main p') = true /\ idle (lf_system p') /\
      forall ok, ~ returns_idle (lf_system p') ok)).
Proof.
  split; [exact run_joins|].
  exact (shutdown_completes "1.0" toy_it server true 24000 engine returns_idle (run_at 65).1 (run_at 65).2
    idle_returns server_depth eq_refl server_pool (run_lives 65)).
Defined.
End LifecycleWitness.
