(* ===== verification/Signals.v ===== *)
(** * Signals in the running process

    [signal_handler] of [src/main.cpp] on whatever thread of the process the
    kernel delivers SIGTERM or SIGINT to, statement by statement, interleaved
    with the process of [Lifecycle].  The thread below a handler stands still
    until the handler has returned; a further signal may interrupt a handler. *)

From Stdlib Require Import ZArith Lia Ascii String SpecFloat.
From stdpp Require Import base tactics numbers list strings gmap.
From S2P Require Import Prelude Effects Floats Auth RateLimit Voices Validation Metrics.
From S2P Require Import Backend Pool PoolSpec PoolServe Config Http RequestHandler Uuid Server Boot.
From S2P Require Import HttpAdapter Session Service Liveness Abuse Delivery Order Logger Main.
From S2P Require Import System Deployed Lifecycle.

#[local] Open Scope Z_scope.

(** ** The handler *)

(** [LoadRunning] is the test of [server_] and [running_], and [ServerStop]
    the call of [server_->stop()]: both dereference [g_adapter]. *)
Variant sigE : Type -> Type :=
| Exchange : sigE bool
| WriteOut (s : string) : sigE unit
| LoadAdapter : sigE bool
| LoadRunning : sigE bool
| SigLog (l : log_record) : sigE unit
| ServerStop : sigE unit.

(** [HttpAdapter::stop()], called by the handler. *)
Definition stop_adapter : prog sigE unit :=
  running ← trigger LoadRunning;
  if (running : bool) then
    _ ← trigger (SigLog (mk_log info "HTTP listener stopping..." []));
    trigger ServerStop
  else mret tt.

Definition handler_steps (signum : Z) : prog sigE unit :=
  requested ← trigger Exchange;
  if (requested : bool) then mret tt
  else
    _ ← trigger (WriteOut (newline +:+
          (if signum =? SIGTERM then "Received SIGTERM, shutting down..."
           else "Received SIGINT, shutting down...") +:+ newline));
    adapter ← trigger LoadAdapter;
    if (adapter : bool) then stop_adapter else mret tt.

(** ** State *)

(** The adapter is a local variable of [main()]. *)
Inductive adapter_life := Unborn | Alive | Destroyed.

(** [g_adapter], and the adapter with its [running_]. *)
Record adapter_view := mk_view {
  av_published : bool;
  av_running : bool;
  av_life : adapter_life;
}.

(** [sg_serving]: cpp-httplib has bound its socket and runs, so that its
    [stop()] has an effect; [sg_stopped]: it was called then. *)
Record signals := mk_sig {
  sg_requested : bool;
  sg_serving : bool;
  sg_stopped : bool;
  sg_installed : list Z;
  sg_view : adapter_view;
}.

Definition no_signals : signals := mk_sig false false false [] (mk_view false false Unborn).

(** The thread a handler runs on: [main()]'s, the worker, or one of cpp-httplib
    that serves a request or none. *)
Inductive sig_host := OnMain | OnWorker | OnHttp (request : option nat).

Record process := mk_process {
  p_life : life;
  p_sig : signals;
  p_handlers : list (sig_host * prog sigE unit);
}.

(** What the calls of [main()] do to the adapter. *)
Definition main_view {X} (e : mainE X) (v : adapter_view) : adapter_view :=
  match e with
  | MProc (SetAdapter on) => mk_view on (av_running v) (av_life v)
  | MSys HttpNew => mk_view (av_published v) false Alive
  | MSys (SetRunning on) => mk_view (av_published v) on (av_life v)
  | MSys HttpDelete => mk_view (av_published v) (av_running v) Destroyed
  | _ => v
  end.

Definition main_signals {X} (e : mainE X) (g : signals) : signals :=
  mk_sig (sg_requested g) (sg_serving g && negb (listens_here e)) (sg_stopped g)
    (match e with MProc (Sigaction n) => n :: sg_installed g | _ => sg_installed g end)
    (main_view e (sg_view g)).

(** The statements of a handler; cpp-httplib's [stop()] does nothing to a
    server that does not run yet, or no more. *)
Definition perform_sig {X} (e : sigE X) (g : signals) : X * signals :=
  match e in sigE X return X * signals with
  | Exchange =>
      (sg_requested g, mk_sig true (sg_serving g) (sg_stopped g) (sg_installed g) (sg_view g))
  | WriteOut _ => (tt, g)
  | LoadAdapter => (av_published (sg_view g), g)
  | LoadRunning => (av_running (sg_view g), g)
  | SigLog _ => (tt, g)
  | ServerStop =>
      (tt, mk_sig (sg_requested g) (sg_serving g) (sg_stopped g || sg_serving g) (sg_installed g)
             (sg_view g))
  end.

(** cpp-httplib has bound its socket. *)
Definition now_serving (g : signals) : signals :=
  mk_sig (sg_requested g) true (sg_stopped g) (sg_installed g) (sg_view g).

(** ** Steps *)

(** A handler that has not returned. *)
Definition busy (hp : sig_host * prog sigE unit) : Prop :=
  match hp.2 with Vis _ _ => True | _ => False end.

#[export] Instance busy_dec hp : Decision (busy hp).
Proof. unfold busy. destruct (hp.2); apply _. Defined.

Definition interrupts (hs : list (sig_host * prog sigE unit)) (h : sig_host) : Prop :=
  exists p, (h, p) ∈ hs /\ busy (h, p).

(** The thread that would make a step runs a handler. *)
Definition interrupted (hs : list (sig_host * prog sigE unit)) (p : life) (a : option actor) : Prop :=
  match a with
  | None => interrupts hs OnMain
  | Some (Request i) => interrupts hs (OnHttp (Some i))
  | Some (Method c _) =>
      ((exists k, lf_main p = MainIn c k) /\ interrupts hs OnMain) \/
      exists i th, y_threads (lf_system p) !! i = Some th /\ caller_of th = Some c /\
        interrupts hs (OnHttp (Some i))
  | Some (Worker _) => interrupts hs OnWorker
  | Some _ => False
  end.

(** The threads that exist; those of cpp-httplib only inside [listen()]. *)
Definition receives (p : life) (h : sig_host) : Prop :=
  match h with
  | OnMain => ~ ended p
  | OnWorker => worker (y_pool (lf_system p)) <> Exited
  | OnHttp _ => listening (lf_main p) = true
  end.

(** What a step of [main()] does to the signals' state. *)
Definition after_step (p : life) (a : option actor) (g : signals) : signals :=
  match a, lf_main p with
  | None, MainAt (Vis e _) => main_signals e g
  | _, _ => g
  end.

Inductive happening :=
| ALife (a : option actor)
| ADeliver (h : sig_host) (signum : Z)
| AHandler (i : nat)
| AServing.

(** The call of spdlog in [stop()]. *)
Definition logs {X} (e : sigE X) : bool := match e with SigLog _ => true | _ => false end.

Section Signals.
Context {L : JsonLib} (VERSION : string).
Context (it : gmap string AuthLimiter.IpState -> list (string * AuthLimiter.IpState)).
Context (s : TtsServer).
Context (has_engine : bool) (rate : Z) (backend : Voxtral.VoxtralBackend).
(** When [listen()] may return, depending on [sg_stopped]. *)
Context (listen_returns : bool -> system -> bool -> Prop).
(** Whether the call of spdlog in a handler on some thread can return: spdlog
    is not async-signal-safe, and waits for its mutex, which the interrupted
    thread may hold. *)
Context (log_returns : life -> sig_host -> Prop).

(** The process makes a step on a thread that is not interrupted ([listen()]
    joins its threads before it returns); a signal whose handler is installed
    arrives; the handler on top of its thread makes a step; inside [listen()]
    cpp-httplib starts to serve. *)
Inductive signal_step : process -> happening -> trace -> process -> Prop :=
| ss_life p g hs a tr p' :
    life_step VERSION it s (listen_returns (sg_stopped g)) p a tr p' -> ~ interrupted hs p a ->
    (a = None -> listening (lf_main p) = true -> forall r, ~ interrupts hs (OnHttp r)) ->
    signal_step (mk_process p g hs) (ALife a) tr (mk_process p' (after_step p a g) hs)
| ss_deliver p g hs h signum :
    signum ∈ sg_installed g -> receives p h ->
    signal_step (mk_process p g hs) (ADeliver h signum) []
      (mk_process p g (hs ++ [(h, handler_steps signum)]))
| ss_handler p g hs i h X (e : sigE X) k x g' :
    hs !! i = Some (h, Vis e k) ->
    (forall j q, (i < j)%nat -> hs !! j = Some (h, q) -> ~ busy (h, q)) ->
    (logs e = true -> log_returns p h) ->
    perform_sig e g = (x, g') ->
    signal_step (mk_process p g hs) (AHandler i) [] (mk_process p g' (<[i := (h, k x)]> hs))
| ss_serving p g hs :
    listening (lf_main p) = true ->
    signal_step (mk_process p g hs) AServing [] (mk_process p (now_serving g) hs).

(** Executions from the start of [main_program]. *)
Inductive processes : trace -> process -> Prop :=
| processes_init t st :
    pool_create true (depth s) (timeout s) = Ok (pool_config s, st) ->
    processes []
      (mk_process
        (mk_life (mk_system (auth_limiter_ s) (request_limiter_ s) t ∅ [] (sys_init st))
           (MainAt (main_program s has_engine rate backend)))
        no_signals [])
| processes_step tr q a tr' q' :
    processes tr q -> signal_step q a tr' q' -> processes (tr ++ tr') q'.

Inductive continues : process -> process -> Prop :=
| cont_none q : continues q q
| cont_one q a tr q1 q2 : signal_step q a tr q1 -> continues q1 q2 -> continues q q2.

(** Steps without arrivals, signals, spurious wake-ups and the start of
    cpp-httplib's service. *)
Definition own_happening (a : happening) : Prop :=
  match a with ALife a => own_actor a | AHandler _ => True | ADeliver _ _ | AServing => False end.

Inductive signal_steps : nat -> process -> process -> Prop :=
| sgs_none q : signal_steps 0 q q
| sgs_one n q a tr q1 q2 :
    own_happening a -> signal_step q a tr q1 -> signal_steps n q1 q2 -> signal_steps (S n) q q2.
End Signals.

(** A handler stands in its call of spdlog, which does not return. *)
Definition log_blocked (log_returns : life -> sig_host -> Prop) (q : process) : Prop :=
  exists h l k, (h, Vis (SigLog l) k) ∈ p_handlers q /\ ~ log_returns (p_life q) h.

(** A handler makes at most six calls. *)
Definition process_left (q : process) : nat := life_left (p_life q) + 6 * length (p_handlers q).

(** ** Lemmas: handlers *)

Definition at_exchange (p : prog sigE unit) : bool :=
  match p with Vis Exchange _ => true | _ => false end.

(** The next statement dereferences [g_adapter]. *)
Definition uses_adapter (p : prog sigE unit) : Prop :=
  match p with Vis LoadRunning _ | Vis ServerStop _ => True | _ => False end.

Definition held_after {X} (e : sigE X) : X -> bool -> bool :=
  match e in sigE X return X -> bool -> bool with LoadAdapter => fun x held => held || x | _ => fun _ held => held end.

(** The adapter is only used once [g_adapter] was seen, and the flag is
    exchanged first if at all. *)
Fixpoint handler_ok (held : bool) (p : prog sigE unit) : Prop :=
  match p with
  | Vis e k =>
      match e with LoadRunning | ServerStop => held = true | _ => True end /\
      forall x, at_exchange (k x) = false /\ handler_ok (held_after e x held) (k x)
  | _ => True
  end.

(** The answers of the first handler while the listener runs. *)
Definition expected {X} (e : sigE X) : X -> Prop :=
  match e in sigE X return X -> Prop with
  | Exchange => fun x => x = false
  | LoadAdapter | LoadRunning => fun x => x = true
  | _ => fun _ => True
  end.

(** With these answers the handler stops the listener. *)
Fixpoint will_stop (p : prog sigE unit) : Prop :=
  match p with
  | Vis e k => match e with ServerStop => True | _ => forall x, expected e x -> will_stop (k x) end
  | _ => False
  end.

Lemma handler_typed n : handler_ok false (handler_steps n).
Proof.
  unfold handler_steps, stop_adapter. cbn.
  repeat first [done | intros []; cbn | split].
Qed.

Lemma handler_stops n : will_stop (handler_steps n).
Proof. unfold handler_steps, stop_adapter. cbn. intros x ->. cbn. intros _ _ x ->. cbn. by intros x ->. Qed.

Lemma handler_within n : within 6 (handler_steps n).
Proof.
  unfold handler_steps, stop_adapter. cbn. repeat first [done | intros []; cbn].
Qed.

Lemma will_stop_busy h p : will_stop p -> busy (h, p).
Proof. by destruct p. Qed.

(** What stays as it was when a handler makes a step. *)
Lemma perform_sig_view X (e : sigE X) g x g' :
  perform_sig e g = (x, g') -> sg_serving g' = sg_serving g /\ sg_view g' = sg_view g /\ sg_installed g' = sg_installed g /\
  (sg_requested g = true -> sg_requested g' = true) /\ (sg_stopped g = true -> sg_stopped g' = true).
Proof. destruct e; cbn; intros [= <- <-]; cbn; split_and!; try done. by intros ->. Qed.

(** A handler that finds the flag set returns. *)
Definition second_time (p : prog sigE unit) : prog sigE unit :=
  match p with
  | Vis e k =>
      match e in sigE X return (X -> prog sigE unit) -> prog sigE unit with
      | Exchange => fun k => k true
      | _ => fun _ => mret tt
      end k
  | p => p
  end.

Lemma handler_again n X (e : sigE X) k g x g' :
  Vis e k = handler_steps n -> sg_requested g = true -> perform_sig e g = (x, g') ->
  k x = Ret tt /\ sg_requested g' = true /\ sg_stopped g' = sg_stopped g.
Proof.
  intros Hr Hreq Hp. pose proof (f_equal at_exchange Hr) as H1. pose proof (f_equal second_time Hr) as H2.
  destruct e; try discriminate H1. cbn in Hp. rewrite Hreq in Hp. injection Hp as <- <-.
  split; [exact H2|done].
Qed.

(** ** Lemmas: the program of [main()] and the adapter *)

Definition main_may (heard : bool) (v : adapter_view) {X} (e : mainE X) : Prop :=
  match e with
  | MSys (HttpListen _ _) => heard = false /\ av_published v = true /\ av_running v = true
  | MSys HttpDelete => av_published v = false
  | _ => True
  end.

(** [g_adapter] points to a living adapter, [listen()] is called once, on a
    published adapter, which is destroyed when it is no longer published. *)
Fixpoint orderly (heard : bool) (v : adapter_view) (p : prog mainE Z) : Prop :=
  (av_published v = true -> av_life v = Alive) /\
  match p with
  | Vis e k => main_may heard v e /\ forall x, orderly (heard || listens_here e) (main_view e v) (k x)
  | _ => True
  end.

Lemma main_orderly s has_engine rate b :
  initialized_ s = true -> is_Some (pool_ s) ->
  orderly false (sg_view no_signals) (main_program s has_engine rate b).
Proof.
  intros Hi [p Hp]. unfold main_program, serve, adapter_start, server_shutdown, server_destroy,
    replace_pool, adapter_new, adapter_destroy, adapter_stop, backend_destroy, Voxtral.voxtral_destroy.
  rewrite Hi, Hp.
  destruct has_engine; [destruct (Voxtral.ctx_ b)|]; cbn;
    repeat first [done | intros []; cbn | split].
Qed.

(** What [main()] has left to do. *)
Definition main_rest (m : main_activity) : prog mainE Z :=
  match m with MainAt p => p | MainIn _ k => k tt end.

Lemma shuts_down_view X (e : mainE X) dec v :
  shuts_down e = Some dec -> main_view e v = v /\ listens_here e = false.
Proof. destruct e as [|?|e|]; try done. by destruct e. Qed.

Lemma orderly_listening heard v m :
  orderly heard v (main_rest m) -> listening m = true ->
  heard = false /\ av_published v = true /\ av_running v = true.
Proof.
  destruct m as [[z|err|X e k]|c k]; try done. cbn. intros [_ [Hm _]] Hl.
  destruct e as [|?|e|]; try done. by destruct e.
Qed.

Definition deletes {X} (e : mainE X) : bool := match e with MSys HttpDelete => true | _ => false end.

(** The adapter is destroyed when the worker has returned. *)
Lemma delete_exited n X (e : mainE X) k ps :
  deletes e = true -> pool_rel n (MainAt (Vis e k)) ps -> worker ps = Exited.
Proof.
  intros He Hrel. apply (pr_joined _ _ _ Hrel). destruct (pr_main _ _ _ Hrel) as (down & Hwd & Hd).
  destruct n as [|n]; [done|]. destruct Hwd as [Hdown _]. apply Hd.
  destruct e as [|?|e|]; try done. by destruct e.
Qed.

Lemma main_view_alive X (e : mainE X) v :
  deletes e = false -> av_life v = Alive -> av_life (main_view e v) = Alive.
Proof. intros He Hv. destruct e as [|?|e|e]; [done|done|by destruct e|by destruct e]. Qed.

(** ** Lemmas: every execution *)

Section SignalLemmas.
Context {L : JsonLib} {HL : JsonLaws L} (VERSION : string).
Context (it : gmap string AuthLimiter.IpState -> list (string * AuthLimiter.IpState)).
Context (s : TtsServer) (has_engine : bool) (rate : Z) (backend : Voxtral.VoxtralBackend).
Context (listen_returns : bool -> system -> bool -> Prop).
Context (log_returns : life -> sig_host -> Prop).
Context (Hlisten : forall stopped y ok, listen_returns stopped y ok -> idle y).
Context (Hdepth : in_int (depth s)) (Hinit : initialized_ s = true) (Hpool : is_Some (pool_ s)).

#[local] Notation cfg := (pool_config s).
#[local] Notation signal_step := (signal_step VERSION it s listen_returns log_returns).
#[local] Notation processes := (processes VERSION it s has_engine rate backend listen_returns log_returns).
#[local] Notation life_inv := (life_inv VERSION it s).

(** [listen()] may return, stopped or not. *)
Definition some_return (y : system) (ok : bool) : Prop := exists stopped, listen_returns stopped y ok.

Lemma some_return_idle y ok : some_return y ok -> idle y.
Proof. intros [b H]. by eapply Hlisten. Qed.

Lemma life_step_mono b p a tr p' :
  life_step VERSION it s (listen_returns b) p a tr p' -> life_step VERSION it s some_return p a tr p'.
Proof.
  destruct 1 as [y m a tr y' Hy Ha Harr|y X e k x Hs Hx|y X e k dec ps Hs Hps|y c k a Hc|y c k err Hc].
  - by apply lc_system.
  - apply lc_main; [done|]. destruct e as [|?|e|]; try done. destruct e; try done. by exists b.
  - by apply lc_enter.
  - by eapply lc_leave.
  - by apply lc_throw.
Qed.

Lemma system_worker y a tr y' :
  system_step VERSION it s y a tr y' -> (forall o, a <> Worker o) ->
  worker (y_pool y') = worker (y_pool y).
Proof.
  intros Hy Ha. destruct Hy as [|y i q X e k x now ins y' _ _ _ _ Hl|y i q X e k c dec ps _ _ Hps
    |y c o ps tr Hps _| |y c ps _ Hps|y o ps tr _ _ _]; try done; cbn.
  - by rewrite (proj1 (local_keeps it _ _ _ _ _ _ _ _ Hl)).
  - cbn [sys_step] in Hps. by injection Hps as <-.
  - cbn [sys_step] in Hps. by destruct (client_step_move s _ _ _ _ _ Hps) as (? & ? & ? & ? & _ & _ & -> & _).
  - cbn [sys_step] in Hps. by injection Hps as <-.
  - by destruct (Ha o).
Qed.

(** *** The invariant *)

Record sig_inv (tr : trace) (q : process) : Prop := mk_sig_inv {
  si_life : exists n, life_inv n tr (p_life q);
  si_orderly : exists heard, orderly heard (sg_view (p_sig q)) (main_rest (lf_main (p_life q)));
  si_hosts : forall h p, (h, p) ∈ p_handlers q -> busy (h, p) ->
    match h with
    | OnMain => True
    | OnWorker => worker (y_pool (lf_system (p_life q))) <> Exited
    | OnHttp _ => listening (lf_main (p_life q)) = true
    end;
  si_held : forall h p, (h, p) ∈ p_handlers q -> exists held, handler_ok held p /\
    (held = true -> busy (h, p) -> av_life (sg_view (p_sig q)) = Alive);
  si_first : forall h p, (h, p) ∈ p_handlers q -> at_exchange p = true -> will_stop p;
  si_short : Forall (fun hp => within 6 hp.2) (p_handlers q);
  si_serving : sg_serving (p_sig q) = true -> listening (lf_main (p_life q)) = true;
}.

Lemma sig_init t st :
  pool_create true (depth s) (timeout s) = Ok (cfg, st) ->
  sig_inv []
    (mk_process
      (mk_life (mk_system (auth_limiter_ s) (request_limiter_ s) t ∅ [] (sys_init st))
         (MainAt (main_program s has_engine rate backend)))
      no_signals []).
Proof.
  intros Hst. split; cbn [p_life p_sig p_handlers lf_main]; try (by intros h p H%elem_of_nil).
  - exists 24%nat. by apply life_init.
  - exists false. by apply main_orderly.
  - constructor.
  - done.
Qed.

Lemma insert_handlers {A} (hs : list A) i hp hp' :
  hp' ∈ <[i := hp]> hs -> hp' = hp \/ hp' ∈ hs.
Proof.
  intros [j [[-> ->]|[_ H]]%insert_callers]%list_elem_of_lookup; [by left|right].
  by eapply list_elem_of_lookup_2.
Qed.

Lemma sig_handler tr p g hs i h X (e : sigE X) k x g' :
  sig_inv tr (mk_process p g hs) -> hs !! i = Some (h, Vis e k) ->
  perform_sig e g = (x, g') ->
  sig_inv tr (mk_process p g' (<[i := (h, k x)]> hs)).
Proof.
  intros [Hl [heard Ho] Hh Hd Hf Hs Hsv] Hi Hp. cbn [p_life p_sig p_handlers] in *.
  pose proof (list_elem_of_lookup_2 _ _ _ Hi) as Hin.
  destruct (perform_sig_view _ _ _ _ _ Hp) as (Hsg & Hv & _).
  split; cbn [p_life p_sig p_handlers]; rewrite ?Hv, ?Hsg.
  - done.
  - by exists heard.
  - intros h' p' [[= -> ->]|H]%insert_handlers Hb; [by apply (Hh h (Vis e k))|by apply (Hh h' p')].
  - intros h' p' [[= -> ->]|H]%insert_handlers; [|by apply Hd].
    destruct (Hd h (Vis e k) Hin) as (held & [Hu Hok] & Ha).
    exists (held_after e x held). split; [apply Hok|]. intros Hheld _.
    destruct e; try (by apply Ha). cbn in Hheld, Hp. injection Hp as <- <-.
    apply orb_prop in Hheld as [?|Hpub]; [by apply Ha|].
    destruct p as [y m]. cbn in Ho. by destruct (main_rest m); destruct Ho as [Ho _]; apply Ho.
  - intros h' p' [[= -> ->]|H]%insert_handlers Hex; [|by eapply Hf].
    destruct (Hd h (Vis e k) Hin) as (held & [_ Hok] & _). by rewrite (proj1 (Hok x)) in Hex.
  - apply Forall_insert; [done|]. pose proof (Forall_lookup_1 _ _ _ _ Hs Hi) as Hw. cbn in Hw |- *.
    apply (within_mono 5); [lia|]. apply Hw.
  - done.
Qed.

Lemma sig_deliver tr p g hs h n :
  sig_inv tr (mk_process p g hs) -> receives p h -> sig_inv tr (mk_process p g (hs ++ [(h, handler_steps n)])).
Proof.
  intros [Hl Ho Hh Hd Hf Hs Hsv] Hr. cbn [p_life p_sig p_handlers] in *.
  assert (Hin : forall h' p', (h', p') ∈ hs ++ [(h, handler_steps n)] ->
    (h', p') ∈ hs \/ (h' = h /\ p' = handler_steps n)).
  { intros h' p' [H|H%list_elem_of_singleton]%elem_of_app; [by left|right]. by injection H as -> ->. }
  split; cbn [p_life p_sig p_handlers]; try done.
  - intros h' p' [H|[-> ->]]%Hin Hb; [by apply (Hh h' p')|]. by destruct h.
  - intros h' p' [H|[-> ->]]%Hin; [by apply Hd|]. exists false. split; [apply handler_typed|done].
  - intros h' p' [H|[-> ->]]%Hin Hex; [by eapply Hf|]. apply handler_stops.
  - apply Forall_app. split; [done|]. constructor; [apply handler_within|constructor].
Qed.
(** What a step of [main()] leaves of the handlers: only its own. *)
Lemma main_alone tr p g hs h q :
  sig_inv tr (mk_process p g hs) -> ~ interrupted hs p None ->
  (listening (lf_main p) = true -> forall r, ~ interrupts hs (OnHttp r)) ->
  (h, q) ∈ hs -> busy (h, q) -> h = OnWorker /\ worker (y_pool (lf_system p)) <> Exited.
Proof.
  intros HI Hm Hl Hin Hb. pose proof (si_hosts _ _ HI h q Hin Hb) as Hh. cbn in Hh.
  destruct h as [| |r].
  - destruct Hm. by exists q.
  - done.
  - destruct (Hl Hh r). by exists q.
Qed.

Lemma after_view p a g :
  sg_requested (after_step p a g) = sg_requested g /\ sg_stopped (after_step p a g) = sg_stopped g.
Proof. unfold after_step. destruct a; [done|]. by destruct (lf_main p) as [[]|]. Qed.

(** cpp-httplib serves only inside [listen()]. *)
Lemma after_serving b p a g tr p' :
  life_step VERSION it s (listen_returns b) p a tr p' ->
  (sg_serving g = true -> listening (lf_main p) = true) ->
  sg_serving (after_step p a g) = true -> listening (lf_main p') = true.
Proof.
  intros Hstep Hg.
  destruct Hstep as [y m a tr' y' _ _ _|y X e k x _ _|y X e k dec ps _ _|y c k a _|y c k err _];
    cbn [after_step lf_main main_signals sg_serving listening] in *; try done.
  1-2: intros [H1 H2]%andb_true_iff; by rewrite (Hg H1) in H2.
  intros H1. by specialize (Hg H1).
Qed.

(** The order of [main()]'s calls along a step. *)
Lemma life_orderly b n tr p g a tr' p' heard :
  life_inv n tr p -> orderly heard (sg_view g) (main_rest (lf_main p)) ->
  life_step VERSION it s (listen_returns b) p a tr' p' ->
  exists heard', orderly heard' (sg_view (after_step p a g)) (main_rest (lf_main p')) /\
    heard' = heard || match a with None => listening (lf_main p) | _ => false end.
Proof.
  intros Hli Ho Hstep.
  destruct Hstep as [y m a tr' y' _ _ _|y X e k x _ _|y X e k dec ps Hs _|y c k a Hc|y c k err Hc];
    cbn [lf_main main_rest after_step] in *.
  - exists heard. by rewrite orb_false_r.
  - destruct Ho as (_ & _ & Ho). eexists. split; [apply Ho|done].
  - destruct Ho as (_ & _ & Ho). specialize (Ho (dec tt)). eexists. split; [exact Ho|done].
  - exists heard. by rewrite orb_false_r.
  - destruct (pr_main _ _ _ (li_pool _ _ _ _ _ _ Hli)) as (mc & Hmc & _ & Hsh). cbn in Hmc.
    rewrite Hc in Hmc. injection Hmc as <-. by apply shutdown_throws in Hsh.
Qed.

(** The adapter, while a handler is in progress. *)
Lemma adapter_stays b tr n p g hs a tr' p' h q :
  sig_inv tr (mk_process p g hs) -> life_inv n tr p ->
  life_step VERSION it s (listen_returns b) p a tr' p' -> ~ interrupted hs p a ->
  (a = None -> listening (lf_main p) = true -> forall r, ~ interrupts hs (OnHttp r)) ->
  (h, q) ∈ hs -> busy (h, q) -> av_life (sg_view g) = Alive ->
  av_life (sg_view (after_step p a g)) = Alive.
Proof.
  intros HI Hli Hstep Hint Hl Hin Hb Hv.
  destruct Hstep as [y m a tr' y' _ _ _|y X e k x _ _|y X e k dec ps _ _|y c k a _|y c k err _];
    cbn [lf_main after_step main_signals sg_view] in *; try done.
  all: destruct (deletes e) eqn:Hde; [|by apply main_view_alive].
  all: destruct (main_alone _ _ _ _ _ _ HI Hint (Hl eq_refl) Hin Hb) as [_ Hw].
  all: by destruct Hw; apply (delete_exited n X e k _ Hde (li_pool _ _ _ _ _ _ Hli)).
Qed.

Lemma sig_life_step tr p g hs a tr' p' :
  sig_inv tr (mk_process p g hs) ->
  life_step VERSION it s (listen_returns (sg_stopped g)) p a tr' p' -> ~ interrupted hs p a ->
  (a = None -> listening (lf_main p) = true -> forall r, ~ interrupts hs (OnHttp r)) ->
  sig_inv (tr ++ tr') (mk_process p' (after_step p a g) hs).
Proof.
  intros HI Hstep Hint Hl. pose proof HI as [[n Hli] [heard Ho] Hh Hd Hf Hs Hsv].
  cbn [p_life p_sig p_handlers] in *. split; cbn [p_life p_sig p_handlers]; try done.
  - destruct (life_keeps VERSION it s some_return some_return_idle Hdepth _ _ _ _ _ _ Hli
      (life_step_mono _ _ _ _ _ Hstep)) as (n' & Hli' & _). by exists n'.
  - destruct (life_orderly _ _ _ _ _ _ _ _ _ Hli Ho Hstep) as (heard' & Ho' & _). by exists heard'.
  - intros h q Hin Hb. destruct a as [a|].
    + specialize (Hh h q Hin Hb). inversion Hstep as [y m a0 tr0 y' Hy Ha Harr| | | |]; subst.
      cbn [lf_main lf_system] in *. destruct h as [| |r]; [done| |done].
      rewrite (system_worker _ _ _ _ Hy); [done|]. intros o ->. apply Hint. by exists q.
    + destruct (main_alone _ _ _ _ _ _ HI Hint (Hl eq_refl) Hin Hb) as [-> Hw].
      inversion Hstep as [|y X e k x| y X e k dec ps Hs' Hps| |]; subst; try done.
      cbn [lf_system y_pool y_with_pool] in *. cbn [sys_step] in Hps. by injection Hps as <-.
  - intros h q Hin. destruct (Hd h q Hin) as (held & Hok & Ha). exists held. split; [done|].
    intros Hheld Hb. specialize (Ha Hheld Hb).
    by apply (adapter_stays (sg_stopped g) tr n p g hs a tr' p' h q HI Hli Hstep Hint Hl Hin Hb).
  - by eapply after_serving.
Qed.

Lemma sig_keeps tr q a tr' q' : sig_inv tr q -> signal_step q a tr' q' -> sig_inv (tr ++ tr') q'.
Proof.
  intros HI Hstep. destruct Hstep as [p g hs a tr' p' Hlife Hint Hl|p g hs h n Hn Hr
    |p g hs i h X e k x g' Hi Htop _ Hp|p g hs Hls].
  - by apply sig_life_step.
  - rewrite app_nil_r. by apply sig_deliver.
  - rewrite app_nil_r. by eapply sig_handler.
  - rewrite app_nil_r. by destruct HI; split.
Qed.

Lemma processes_inv tr q : processes tr q -> sig_inv tr q.
Proof.
  induction 1 as [t st Hst|tr q a tr' q' _ IH Hstep]; [by apply sig_init|by eapply sig_keeps].
Qed.
(** *** What is left to do *)

#[local] Notation signal_steps := (signal_steps VERSION it s listen_returns log_returns).
#[local] Notation continues := (continues VERSION it s listen_returns log_returns).

Lemma continues_inv tr q q' : sig_inv tr q -> continues q q' -> exists tr', sig_inv tr' q'.
Proof.
  intros HI Hc. revert tr HI. induction Hc as [q|q a tr1 q1 q2 Hstep _ IH]; intros tr HI; [by exists tr|].
  eapply IH, sig_keeps; done.
Qed.

Lemma signal_steps_continue n q q' : signal_steps n q q' -> continues q q'.
Proof. induction 1; [constructor|by econstructor]. Qed.

(** The steps of the handlers, apart from those of the process. *)
Lemma signal_steps_split n q q' ns :
  signal_steps n q q' -> Forall2 within ns (snd <$> p_handlers q) ->
  exists m, life_steps VERSION it s some_return m (p_life q) (p_life q') /\
    (n <= m + sum_list ns)%nat.
Proof.
  intros Hn. revert ns. induction Hn as [q|n q a tr q1 q2 Ha Hstep _ IH]; intros ns Hns.
  - exists 0%nat. split; [constructor|lia].
  - destruct Hstep as [p g hs a tr' p' Hlife Hint Hl|p g hs h k Hk Hr
      |p g hs i h X e k x g' Hi Htop _ Hp|p g hs Hls];
      cbn [p_life p_handlers] in *.
    + destruct (IH ns Hns) as (m & Hm & Hle). exists (S m). split; [|lia].
      eapply ls_one; [exact Ha|by eapply life_step_mono|exact Hm].
    + done.
    + assert (Hi' : (snd <$> hs) !! i = Some (Vis e k)) by by rewrite list_lookup_fmap, Hi.
      destruct (Forall2_lookup_r _ _ _ _ _ Hns Hi') as ([|w] & Hw & Hwi); [done|].
      destruct (IH (<[i := w]> ns)) as (m & Hm & Hle).
      * rewrite list_fmap_insert. apply Forall2_insert; [done|]. apply Hwi.
      * exists m. split; [done|]. pose proof (sum_step ns i w Hw). lia.
    + done.
Qed.

Lemma signal_bound tr q : sig_inv tr q -> forall m q', signal_steps m q q' -> (m <= process_left q)%nat.
Proof.
  intros HI m q' Hm. destruct (si_life _ _ HI) as [n Hli].
  destruct (signal_steps_split m q q' (replicate (length (p_handlers q)) 6%nat) Hm) as (l & Hl & Hle).
  { apply Forall2_replicate_l; [by rewrite length_fmap|]. apply Forall_fmap. exact (si_short _ _ HI). }
  rewrite sum_list_replicate in Hle.
  destruct (life_bound VERSION it s some_return some_return_idle Hdepth n tr (p_life q) Hli) as [Hb _].
  specialize (Hb l (p_life q') Hl). unfold process_left. lia.
Qed.

(** The last handler of all can go on, or waits for spdlog. *)
Lemma handler_moves p g hs :
  List.Exists busy hs ->
  (forall i q', ~ signal_step (mk_process p g hs) (AHandler i) [] q') ->
  log_blocked log_returns (mk_process p g hs).
Proof.
  intros Hex Hstuck.
  assert (exists i hp, hs !! i = Some hp /\ busy hp /\ forall j hp', (i < j)%nat -> hs !! j = Some hp' -> ~ busy hp')
    as (i & [h pr] & Hi & Hb & Htop).
  { clear p g Hstuck. induction hs as [|hp hs IH] using rev_ind; [by inversion Hex|].
    destruct (decide (busy hp)) as [Hb|Hb].
    - exists (length hs), hp. split; [by apply list_lookup_middle|]. split; [done|].
      intros j hp' Hj Hj'. apply lookup_lt_Some in Hj'. rewrite length_app in Hj'. cbn in Hj'. lia.
    - destruct IH as (i & hp1 & Hi & Hb1 & Htop).
      { apply Exists_app in Hex as [|Hex]; [done|]. apply Exists_cons in Hex as [|Hex]; [done|by inversion Hex]. }
      exists i, hp1. split; [by apply lookup_app_l_Some|]. split; [done|]. intros j hp' Hj Hj'.
      apply lookup_app_Some in Hj' as [Hj'|[_ Hj']]; [by apply (Htop j)|].
      apply list_lookup_singleton_Some in Hj' as [_ <-]. done. }
  destruct pr as [a|err|X e k]; [done|done|].
  assert (Hgo : ~ (logs e = true -> log_returns p h)).
  { intros Hlog. destruct (perform_sig e g) as [x g'] eqn:Hp. eapply (Hstuck i), ss_handler; [done| |done|done].
    intros j q Hj Hjq. by apply (Htop j). }
  destruct e as [| | | |l|]; try (by destruct Hgo). exists h, l, k.
  split; [by eapply list_elem_of_lookup_2|]. intros Hr. by apply Hgo.
Qed.

(** At rest, a handler waits for spdlog; or no handler is in progress, and the
    process has ended or waits in [listen()]. *)
Lemma signal_rest tr q :
  sig_inv tr q -> (forall a tr' q', own_happening a -> ~ signal_step q a tr' q') ->
  log_blocked log_returns q \/
  Forall (fun hp => ~ busy hp) (p_handlers q) /\
  (ended (p_life q) \/
   (listening (lf_main (p_life q)) = true /\ idle (lf_system (p_life q)) /\
    forall ok, ~ listen_returns (sg_stopped (p_sig q)) (lf_system (p_life q)) ok)).
Proof.
  intros HI Hstuck. destruct q as [p g hs]. cbn [p_life p_sig p_handlers] in *.
  destruct (decide (List.Exists busy hs)) as [Hex|Hnone].
  { left. apply handler_moves; [done|]. intros i q'. by apply (Hstuck (AHandler i)). }
  right. assert (Hno : Forall (fun hp => ~ busy hp) hs).
  { apply Forall_forall. intros hp Hin Hb. apply Hnone, List.Exists_exists. exists hp.
    split; [by apply list_elem_of_In|done]. }
  split; [done|]. destruct (si_life _ _ HI) as [n Hli].
  assert (Hfree : forall h, ~ interrupts hs h).
  { intros h (pr & Hin & Hb). by apply (proj1 (Forall_forall _ _) Hno (h, pr)). }
  apply (life_progress VERSION it s (listen_returns (sg_stopped g)) Hdepth n tr p Hli).
  intros a tr' p' Ha Hlife. apply (Hstuck (ALife a) tr' (mk_process p' (after_step p a g) hs)); [done|].
  apply ss_life; [done| |intros _ _ r; apply Hfree].
  destruct a as [[|i|c o| |o]|]; cbn; try (by apply Hfree); try (by intros []).
  intros [[_ H]|(i & th & _ & _ & H)]; by apply Hfree in H.
Qed.

(** *** The first signal *)

(** [main()] has left [listen()]; or cpp-httplib serves and has not been told
    to stop, has been, or is about to be. *)
Definition stopping (q : process) : Prop :=
  exists heard, orderly heard (sg_view (p_sig q)) (main_rest (lf_main (p_life q))) /\
    (heard = true \/
     (listening (lf_main (p_life q)) = true /\ sg_serving (p_sig q) = true /\
      (sg_requested (p_sig q) = false \/ sg_stopped (p_sig q) = true \/
       exists i h p, p_handlers q !! i = Some (h, p) /\ will_stop p /\ at_exchange p = false))).

Lemma stopping_handler tr p g hs i h X (e : sigE X) k x g' :
  sig_inv tr (mk_process p g hs) -> stopping (mk_process p g hs) -> hs !! i = Some (h, Vis e k) ->
  perform_sig e g = (x, g') ->
  stopping (mk_process p g' (<[i := (h, k x)]> hs)).
Proof.
  intros HI (heard & Ho & Hor) Hi Hp. cbn [p_life p_sig p_handlers] in *.
  destruct (perform_sig_view _ _ _ _ _ Hp) as (Hsg & Hv & _ & _ & Hst).
  exists heard. cbn [p_life p_sig p_handlers]. rewrite Hv, Hsg. split; [done|].
  destruct Hor as [|(Hl & Hsv & Hor)]; [by left|right]. split; [done|]. split; [done|].
  destruct (orderly_listening _ _ _ Ho Hl) as (_ & Hpub & Hrun).
  pose proof (list_elem_of_lookup_2 _ _ _ Hi) as Hin.
  destruct (si_held _ _ HI h (Vis e k) Hin) as (held & [_ Hok] & _).
  assert (Hnew : expected e x -> will_stop (Vis e k) -> sg_stopped g' = true \/ will_stop (k x)).
  { intros Hx Hw. destruct e; try (right; by apply Hw). left. cbn in Hp. injection Hp as _ <-. cbn.
    by rewrite Hsv, orb_true_r. }
  assert (Hput : forall j hp, hs !! j = Some hp -> j <> i -> <[i := (h, k x)]> hs !! j = Some hp).
  { intros j hp Hj Hne. by rewrite list_lookup_insert_ne. }
  assert (Hself : <[i := (h, k x)]> hs !! i = Some (h, k x)).
  { apply list_lookup_insert_eq. by eapply lookup_lt_Some. }
  destruct Hor as [Hreq|[Hs|(j & h1 & p1 & Hj & Hw & Hex)]]; [| |].
  - destruct (at_exchange (Vis e k)) eqn:Hexc.
    + pose proof (si_first _ _ HI h (Vis e k) Hin Hexc) as Hw. destruct e; try done.
      cbn in Hp. rewrite Hreq in Hp. injection Hp as <- <-. right.
      destruct (Hnew eq_refl Hw) as [?|Hw']; [by left|right]. exists i, h, (k false).
      split; [done|]. split; [done|]. apply Hok.
    + left. destruct e; try done; cbn in Hp; by injection Hp as _ <-.
  - right. left. by apply Hst.
  - right. destruct (decide (j = i)) as [->|Hne]; [|right; exists j, h1, p1; split; [by apply Hput|done]].
    rewrite Hi in Hj. injection Hj as <- <-.
    assert (expected e x) as Hx.
    { destruct e; try done; cbn in Hp; injection Hp as <- _; cbn; done. }
    destruct (Hnew Hx Hw) as [?|Hw']; [by left|right]. exists i, h, (k x). split; [done|].
    split; [done|]. apply Hok.
Qed.

Lemma stopping_keeps tr q a tr' q' :
  sig_inv tr q -> stopping q -> signal_step q a tr' q' -> stopping q'.
Proof.
  intros HI Hst Hstep.
  destruct Hstep as [p g hs a tr' p' Hlife Hint Hl|p g hs h n Hn Hr
    |p g hs i h X e k x g' Hi Htop _ Hp|p g hs Hls].
  - destruct Hst as (heard & Ho & Hor). cbn [p_life p_sig p_handlers] in *.
    destruct (si_life _ _ HI) as [n Hli].
    destruct (life_orderly _ _ _ _ _ _ _ _ _ Hli Ho Hlife) as (heard' & Ho' & ->).
    eexists. split; [exact Ho'|]. cbn [p_life p_sig p_handlers].
    destruct Hor as [-> |(Hls & Hsv & Hor)]; [by left|]. destruct a as [a|]; [|left; by rewrite Hls, orb_true_r].
    right. inversion Hlife as [y m a0 tr0 y' Hy Ha Harr| | | |]; subst. by cbn in *.
  - destruct Hst as (heard & Ho & Hor). exists heard. split; [done|]. cbn [p_life p_sig p_handlers] in *.
    destruct Hor as [|(Hls & Hsv & [?|[?|(j & h1 & p1 & Hj & Hw)]])]; [by left|right..];
      (split; [done|]); (split; [done|]).
    + by left.
    + by right; left.
    + right; right. exists j, h1, p1. split; [by apply lookup_app_l_Some|done].
  - by eapply stopping_handler.
  - destruct Hst as (heard & Ho & Hor). exists heard. split; [done|].
    destruct Hor as [|(_ & _ & Hor)]; [by left|by right].
Qed.

Lemma continues_stopping tr q q' :
  sig_inv tr q -> stopping q -> continues q q' -> exists tr', sig_inv tr' q' /\ stopping q'.
Proof.
  intros HI Hst Hc. revert tr HI Hst.
  induction Hc as [q|q a tr1 q1 q2 Hstep _ IH]; intros tr HI Hst; [by exists tr|].
  eapply IH; [by eapply sig_keeps|by eapply stopping_keeps].
Qed.

Lemma requested_stays q q' :
  continues q q' -> sg_requested (p_sig q) = true -> sg_requested (p_sig q') = true.
Proof.
  induction 1 as [q|q a tr1 q1 q2 Hstep _ IH]; [done|]. intros Hr. apply IH.
  destruct Hstep as [p g hs a tr' p' _ _ _|p g hs h n _ _
    |p g hs i h X e k x g' _ _ _ Hp|p g hs _]; cbn [p_sig] in *.
  - by rewrite (proj1 (after_view p a g)).
  - done.
  - destruct (perform_sig_view _ _ _ _ _ Hp) as (_ & _ & _ & H & _). by apply H.
  - done.
Qed.
End SignalLemmas.

(** ** Properties *)

Section SignalProperties.
Context {L : JsonLib} {HL : JsonLaws L} (VERSION : string).
Context (it : gmap string AuthLimiter.IpState -> list (string * AuthLimiter.IpState)).
Context (s : TtsServer) (has_engine : bool) (rate : Z) (backend : Voxtral.VoxtralBackend).
Context (listen_returns : bool -> system -> bool -> Prop).
Context (log_returns : life -> sig_host -> Prop).

#[local] Notation signal_step := (signal_step VERSION it s listen_returns log_returns).
#[local] Notation signal_steps := (signal_steps VERSION it s listen_returns log_returns).
#[local] Notation continues := (continues VERSION it s listen_returns log_returns).
#[local] Notation processes := (processes VERSION it s has_engine rate backend listen_returns log_returns).

(** C7: signal handlers are memory safe: whatever threads SIGTERM and SIGINT
    are delivered to, and at whatever points of main(), the requests and the
    worker, a handler dereferences g_adapter only while the adapter, a local
    variable of main(), lives; g_adapter never points to a destroyed one; and
    when the adapter is destroyed no handler is in progress on any thread. *)
Theorem handlers_safe tr q
    (Hlisten : forall stopped y ok, listen_returns stopped y ok -> idle y)
    (Hdepth : in_int (depth s)) (Hinit : initialized_ s = true) (Hpool : is_Some (pool_ s))
    (Hrun : processes tr q) :
  (forall h p, (h, p) ∈ p_handlers q -> uses_adapter p -> av_life (sg_view (p_sig q)) = Alive) /\
  (av_published (sg_view (p_sig q)) = true -> av_life (sg_view (p_sig q)) = Alive) /\
  (forall a tr' q', signal_step q a tr' q' -> av_life (sg_view (p_sig q)) = Alive ->
     av_life (sg_view (p_sig q')) = Destroyed -> Forall (fun hp => ~ busy hp) (p_handlers q)).
Proof.
  pose proof (processes_inv VERSION it s has_engine rate backend listen_returns log_returns Hlisten Hdepth Hinit
    Hpool tr q Hrun) as HI.
  split_and!.
  - intros h p Hin Hu. destruct (si_held _ _ _ _ _ HI h p Hin) as (held & Hok & Ha).
    destruct p as [| |X e k]; [done|done|]. destruct Hok as [He _]. by destruct e; try done; apply Ha.
  - destruct (si_orderly _ _ _ _ _ HI) as [heard Ho]. by destruct (main_rest _), Ho.
  - intros a tr' q' Hstep Hv Hv'. apply Forall_forall. intros [h pr] Hin Hb. revert Hv'.
    destruct Hstep as [p g hs a tr' p' Hlife Hint Hl|p g hs h' n _ _
      |p g hs i h' X e k x g' _ _ _ Hp|p g hs _];
      cbn [p_sig p_handlers] in *.
    + destruct (si_life _ _ _ _ _ HI) as [n Hli].
      by rewrite (adapter_stays VERSION it s listen_returns _ _ _ _ _ _ _ _ _ _ _ HI Hli Hlife Hint Hl Hin Hb Hv).
    + by rewrite Hv.
    + destruct (perform_sig_view _ _ _ _ _ Hp) as (_ & -> & _). by rewrite Hv.
    + cbn. by rewrite Hv.
Qed.

(** C8: SIGTERM and SIGINT end the process: when the first signal arrives while
    cpp-httplib is serving, on whatever thread, then however the process goes
    on, once the flag is set the steps that are left are bounded, and the
    process comes to rest only when main() has returned, or with a handler that
    waits for ever in its call of spdlog, which is not async-signal-safe
    (cpp-httplib returning from a stopped listen() once no request is in
    progress). *)
Theorem signal_ends_process tr q q1
    (Hlisten : forall stopped y ok, listen_returns stopped y ok -> idle y)
    (Hstop : forall y, idle y -> exists ok, listen_returns true y ok)
    (Hdepth : in_int (depth s)) (Hinit : initialized_ s = true) (Hpool : is_Some (pool_ s))
    (Hrun : processes tr q) (Hserving : sg_serving (p_sig q) = true)
    (Hfirst : sg_requested (p_sig q) = false)
    (Hcont : continues q q1) (Hreq : sg_requested (p_sig q1) = true) :
  (forall m q2, signal_steps m q1 q2 -> (m <= process_left q1)%nat) /\
  (forall m q2, signal_steps m q1 q2 ->
     (forall a tr' q3, own_happening a -> ~ signal_step q2 a tr' q3) ->
     ended (p_life q2) \/ log_blocked log_returns q2).
Proof.
  pose proof (processes_inv VERSION it s has_engine rate backend listen_returns log_returns Hlisten Hdepth Hinit
    Hpool tr q Hrun) as HI.
  assert (stopping q) as Hst.
  { destruct (si_orderly _ _ _ _ _ HI) as [heard Ho]. exists heard. split; [done|]. right.
    split; [by apply (si_serving _ _ _ _ _ HI)|]. split; [done|]. by left. }
  destruct (continues_stopping VERSION it s listen_returns log_returns Hlisten Hdepth _ _ _ HI Hst Hcont)
    as (tr1 & HI1 & Hst1).
  split; [by eapply signal_bound|]. intros m q2 Hm Hstuck.
  pose proof (signal_steps_continue VERSION it s listen_returns log_returns _ _ _ Hm) as Hc2.
  destruct (continues_stopping VERSION it s listen_returns log_returns Hlisten Hdepth _ _ _ HI1 Hst1 Hc2)
    as (tr2 & HI2 & heard & Ho & Hor).
  pose proof (requested_stays VERSION it s listen_returns log_returns _ _ Hc2 Hreq) as Hreq2.
  destruct (signal_rest VERSION it s listen_returns log_returns Hdepth _ _ HI2 Hstuck)
    as [Hlog|[Hno [He|(Hl & Hidle & Hnever)]]]; [by right|by left|exfalso].
  destruct (orderly_listening _ _ _ Ho Hl) as (-> & _).
  destruct Hor as [|(_ & _ & [Hf|[Hs|(i & h & p & Hi & Hw & _)]])]; [done|congruence| |].
  - rewrite Hs in Hnever. destruct (Hstop _ Hidle) as [ok Hok]. by apply (Hnever ok).
  - apply (Forall_lookup_1 _ _ _ _ Hno Hi). by apply will_stop_busy.
Qed.

(** C9: lost signal: once a signal has been handled without stopping the
    listener (it came before cpp-httplib served), nothing that happens later,
    no further SIGTERM or SIGINT on any thread, stops the listener or even
    looks at the adapter. *)
Theorem handled_signal_lost q q1
    (Hreq : sg_requested (p_sig q) = true) (Hnot : sg_stopped (p_sig q) = false)
    (Hdone : Forall (fun hp => hp.2 = Ret tt) (p_handlers q)) (Hcont : continues q q1) :
  sg_stopped (p_sig q1) = false /\
  Forall (fun hp => hp.2 = Ret tt \/ exists n, hp.2 = handler_steps n) (p_handlers q1).
Proof.
  assert (Forall (fun hp => hp.2 = Ret tt \/ exists n, hp.2 = handler_steps n) (p_handlers q)) as Hq.
  { eapply Forall_impl; [exact Hdone|]. by left. }
  clear Hdone. induction Hcont as [q|q a tr q1 q2 Hstep _ IH]; [done|].
  destruct Hstep as [p g hs a tr p' _ _ _|p g hs h n _ _
    |p g hs i h X e k x g' Hi _ _ Hp|p g hs _];
    cbn [p_sig p_handlers] in *.
  - destruct (after_view p a g) as [H1 H2]. apply IH; cbn; by rewrite ?H1, ?H2.
  - apply IH; [done|done|]. apply Forall_app. split; [done|]. constructor; [right; by exists n|constructor].
  - pose proof (Forall_lookup_1 _ _ _ _ Hq Hi) as [Hr|[n Hr]]; [done|]. cbn in Hr.
    destruct (handler_again n _ _ _ _ _ _ Hr Hreq Hp) as (Hk & H1 & H2). rewrite Hnot in H2.
    apply IH; cbn; [done|done|].
    apply Forall_insert; [done|]. left. exact Hk.
  - by apply IH.
Qed.
End SignalProperties.

(** ** Witnesses *)

Module SignalsWitness.
Import HandlerWitness AdapterWitness LivenessWitness DeployedWitness LifecycleWitness.

(** cpp-httplib returns, stopped or not, once no request is in progress. *)
Definition returns (stopped : bool) (y : system) (ok : bool) : Prop := idle y.

(** spdlog does not return to a handler that interrupted the worker. *)
Definition log_gets_through (p : life) (h : sig_host) : Prop := h <> OnWorker.
Definition gets_through (h : sig_host) : bool := match h with OnWorker => false | _ => true end.

#[local] Notation signal_step := (signal_step "1.0" toy_it server returns log_gets_through).
#[local] Notation signal_steps := (signal_steps "1.0" toy_it server returns log_gets_through).
#[local] Notation continues := (continues "1.0" toy_it server returns log_gets_through).
#[local] Notation processes := (processes "1.0" toy_it server true 24000 engine returns log_gets_through).

(** What happens next: a step of the process (with no handler in progress), a
    signal, or a step of a handler. *)
Variant tick := TLife | TServing | TDeliver (h : sig_host) (signum : Z) | THandler (i : nat).

(** The step [life_turn] makes is one of [main()]. *)
Definition main_turns (p : life) : bool :=
  match lf_main p with
  | MainAt (Vis e _) =>
      match shuts_down e with Some _ => true | None => negb (listens_here e) || negb (bool_decide (y_threads (lf_system p) = [])) && bool_decide (idle (lf_system p)) end
  | MainIn c _ => match clients (y_pool (lf_system p)) !! c with Some (Ret _) => true | _ => false end
  | _ => false
  end.

Definition can_receive (p : life) (h : sig_host) : bool :=
  match h with
  | OnMain => match lf_main p with MainAt (Vis _ _) | MainIn _ _ => true | _ => false end
  | OnWorker => negb (has_exited (worker (y_pool (lf_system p))))
  | OnHttp _ => listening (lf_main p)
  end.

Definition tick_step (t : tick) (q : process) : option (trace * process) :=
  let '(mk_process p g hs) := q in
  match t with
  | TLife =>
      if bool_decide (Forall (fun hp => ~ busy hp) hs) then
        '(tr, p') ← life_turn p;
        Some (tr, mk_process p' (after_step p (if main_turns p then None else Some Arrival) g) hs)
      else None
  | TServing => if listening (lf_main p) then Some ([], mk_process p (now_serving g) hs) else None
  | TDeliver h n =>
      if bool_decide (n ∈ sg_installed g) && can_receive p h then
        Some ([], mk_process p g (hs ++ [(h, handler_steps n)]))
      else None
  | THandler i =>
      match hs !! i with
      | Some (h, Vis e k) =>
          if bool_decide (length hs = S i) && (negb (logs e) || gets_through h) then
            let '(x, g') := perform_sig e g in
            Some ([], mk_process p g' (<[i := (h, k x)]> hs))
          else None
      | _ => None
      end
  end.

Fixpoint ticks (ts : list tick) (q : process) : trace * process :=
  match ts with
  | [] => ([], q)
  | t :: ts' =>
      match tick_step t q with
      | Some (tr, q1) => let '(tr', q2) := ticks ts' q1 in (tr ++ tr', q2)
      | None => ([], q)
      end
  end.

Lemma main_turns_step p tr p' :
  life_turn p = Some (tr, p') -> exists a, life_step "1.0" toy_it server returns_idle p a tr p' /\
    forall g, after_step p a g = after_step p (if main_turns p then None else Some Arrival) g.
Proof.
  destruct p as [y [[z|err|X e k]|c k]]; unfold life_turn, main_turns; cbn [lf_system lf_main]; try done.
  - destruct (shuts_down e) as [dec|] eqn:Hs.
    { intros [= <- <-]. exists None. split; [by apply lc_enter|done]. }
    destruct (listens_here e) eqn:Hl; cbn [negb andb orb].
    + destruct (bool_decide (y_threads y = [])) eqn:Hnil; cbn [negb andb].
      { intros [= <- <-]. exists (Some Arrival). split; [|done].
        apply lc_system; [by apply sy_arrive|done|done]. }
      destruct (bool_decide (idle y)) eqn:Hi; cbn [negb].
      * destruct (main_default e) as [x|] eqn:Hx; [|done]. intros [= <- <-]. exists None. split; [|done].
        apply lc_main; [done|]. apply default_answers; [done|]. intros _. by apply bool_decide_eq_true in Hi.
      * destruct (turn server 0 y) as [[tr1 y1]|] eqn:Ht; [|done]. intros [= <- <-].
        destruct (turn_step _ _ _ _ _ Ht) as (a & Ha & Hst). exists (Some a). split; [|done].
        apply lc_system; [done|by destruct a|by destruct a].
    + destruct (main_default e) as [x|] eqn:Hx; [|done]. intros [= <- <-]. exists None. split; [|done].
      apply lc_main; [done|]. apply default_answers; [done|]. by rewrite Hl.
  - intros Ht. destruct (life_turn_step (mk_life y (MainIn c k)) tr p' Ht) as [a Ha]. exists a.
    split; [done|]. intros g. unfold after_step. cbn [lf_main]. destruct a; by repeat case_match.
Qed.

Lemma tick_sound t q tr q' : tick_step t q = Some (tr, q') -> exists a, signal_step q a tr q'.
Proof.
  destruct q as [p g hs]. destruct t as [| |h n|i]; cbn [tick_step].
  - destruct (bool_decide _) eqn:Hb; [|done]. apply bool_decide_eq_true in Hb.
    destruct (life_turn p) as [[tr1 p1]|] eqn:Ht; [|done]. intros [= <- <-].
    destruct (main_turns_step p tr1 p1 Ht) as (a & Ha & <-). exists (ALife a).
    assert (Hfree : forall h, ~ interrupts hs h).
    { intros h (pr & Hin & Hbusy). by apply (proj1 (Forall_forall _ _) Hb (h, pr)). }
    apply ss_life; [done| |intros _ _ r; apply Hfree].
    destruct a as [[|i|c o| |o]|]; cbn; try (by apply Hfree); try (by intros []).
    intros [[_ H]|(i & th & _ & _ & H)]; by apply Hfree in H.
  - destruct (listening (lf_main p)) eqn:Hl; [|done]. intros [= <- <-]. exists AServing.
    by apply ss_serving.
  - destruct (bool_decide (n ∈ sg_installed g)) eqn:Hn; [|done]. apply bool_decide_eq_true in Hn.
    destruct (can_receive p h) eqn:Hr; [|done]. intros [= <- <-]. exists (ADeliver h n).
    apply ss_deliver; [done|]. destruct h; cbn in Hr |- *; [| |done].
    + intros [z Hz]. by rewrite Hz in Hr.
    + intros Hx. by rewrite Hx in Hr.
  - destruct (hs !! i) as [[h [a|err|X e k]]|] eqn:Hi; try done.
    destruct (bool_decide _) eqn:Hlast; [|done]. apply bool_decide_eq_true in Hlast.
    destruct (negb (logs e) || gets_through h) eqn:Hlog; [|done]. cbn [andb].
    destruct (perform_sig e g) as [x g'] eqn:Hp. intros [= <- <-]. exists (AHandler i).
    eapply ss_handler; [done| | |done].
    + intros j q Hj Hjq. apply lookup_lt_Some in Hjq. lia.
    + intros He ->. by rewrite He in Hlog.
Qed.

Lemma ticks_processes ts tr q :
  processes tr q -> processes (tr ++ (ticks ts q).1) (ticks ts q).2.
Proof.
  revert tr q. induction ts as [|t ts IH]; intros tr q H; [by rewrite app_nil_r|]. cbn [ticks].
  destruct (tick_step t q) as [[tr1 q1]|] eqn:Ht; [|by rewrite app_nil_r].
  destruct (tick_sound t q tr1 q1 Ht) as [a Ha].
  specialize (IH (tr ++ tr1) q1 (processes_step _ _ _ _ _ _ _ _ _ _ _ _ _ H Ha)).
  destruct (ticks ts q1) as [tr2 q2]. cbn [fst snd] in *. by rewrite app_assoc.
Qed.

Lemma ticks_continue ts q : continues q (ticks ts q).2.
Proof.
  revert q. induction ts as [|t ts IH]; intros q; [constructor|]. cbn [ticks].
  destruct (tick_step t q) as [[tr1 q1]|] eqn:Ht; [|constructor].
  destruct (tick_sound t q tr1 q1 Ht) as [a Ha]. specialize (IH q1).
  destruct (ticks ts q1) as [tr2 q2]. by econstructor.
Qed.

Definition born_process : process := mk_process born no_signals [].
Definition ticked (ts : list tick) : trace * process := ticks ts born_process.

Lemma ticked_processes ts : processes (ticked ts).1 (ticked ts).2.
Proof. rewrite <- (app_nil_l (ticked ts).1). apply ticks_processes. by apply processes_init. Qed.

(** A request is being served; SIGTERM interrupts the worker. *)
Definition served_ticks : list tick := replicate 10 TLife ++ TServing :: replicate 20 TLife.
Definition serving : trace * process := ticked served_ticks.
Definition signalled : process := (ticks [TDeliver OnWorker SIGTERM; THandler 0] serving.2).2.

(** The handler has seen [g_adapter]. *)
Definition seen_ticks : list tick :=
  served_ticks ++ [TDeliver OnWorker SIGTERM; THandler 0; THandler 0; THandler 0].
Definition seen : trace * process := ticked seen_ticks.

Lemma seen_uses : List.Exists (fun hp => uses_adapter hp.2) (p_handlers seen.2).
Proof. vm_compute. by constructor. Qed.

Lemma serving_first :
  sg_serving (p_sig serving.2) = true /\ sg_requested (p_sig serving.2) = false.
Proof. by vm_compute. Qed.

Lemma signalled_requested : sg_requested (p_sig signalled) = true.
Proof. by vm_compute. Qed.

(** SIGTERM right after its handler was installed; then the listener runs, and
    SIGTERM and SIGINT arrive. *)
Definition early_process : process :=
  (ticked [TLife; TDeliver OnMain SIGTERM; THandler 0; THandler 0; THandler 0]).2.
Definition late_process : process :=
  (ticks (replicate 12 TLife ++ [TDeliver OnMain SIGTERM; THandler 1; TDeliver (OnHttp None) SIGINT; THandler 2])
     early_process).2.

Lemma early_state :
  sg_requested (p_sig early_process) = true /\ sg_stopped (p_sig early_process) = false /\
  Forall (fun hp => hp.2 = Ret tt) (p_handlers early_process).
Proof. vm_compute. repeat constructor. Qed.

Lemma late_listens :
  listening (lf_main (p_life late_process)) = true /\ length (p_handlers late_process) = 3%nat.
Proof. by vm_compute. Qed.

Lemma returns_when_idle stopped y ok : returns stopped y ok -> idle y.
Proof. done. Qed.

Lemma idle_may_return y : idle y -> exists ok, returns true y ok.
Proof. intros H. by exists true. Qed.

Lemma handlers_safe_witness :
  List.Exists (fun hp => uses_adapter hp.2) (p_handlers seen.2) /\
  (forall h p, (h, p) ∈ p_handlers seen.2 -> uses_adapter p -> av_life (sg_view (p_sig seen.2)) = Alive) /\
  (av_published (sg_view (p_sig seen.2)) = true -> av_life (sg_view (p_sig seen.2)) = Alive) /\
  (forall a tr' q', signal_step seen.2 a tr' q' -> av_life (sg_view (p_sig seen.2)) = Alive ->
     av_life (sg_view (p_sig q')) = Destroyed -> Forall (fun hp => ~ busy hp) (p_handlers seen.2)).
Proof.
  split; [exact seen_uses|].
  exact (handlers_safe "1.0" toy_it server true 24000 engine returns log_gets_through seen.1 seen.2 returns_when_idle
    server_depth eq_refl server_pool (ticked_processes seen_ticks)).
Defined.

Lemma signal_ends_process_witness :
  sg_requested (p_sig signalled) = true /\
  (forall m q2, signal_steps m signalled q2 -> (m <= process_left signalled)%nat) /\
  (forall m q2, signal_steps m signalled q2 ->
     (forall a tr' q3, own_happening a -> ~ signal_step q2 a tr' q3) ->
     ended (p_life q2) \/ log_blocked log_gets_through q2).
Proof.
  split; [exact signalled_requested|].
  exact (signal_ends_process "1.0" toy_it server true 24000 engine returns log_gets_through serving.1 serving.2 signalled
    returns_when_idle idle_may_return server_depth eq_refl server_pool (ticked_processes served_ticks)
    (proj1 serving_first) (proj2 serving_first) (ticks_continue _ serving.2) signalled_requested).
Defined.

Lemma handled_signal_lost_witness :
  (listening (lf_main (p_life late_process)) = true /\ length (p_handlers late_process) = 3%nat) /\
  sg_stopped (p_sig late_process) = false /\
  Forall (fun hp => hp.2 = Ret tt \/ exists n, hp.2 = handler_steps n) (p_handlers late_process).
Proof.
  split; [exact late_listens|].
  exact (handled_signal_lost "1.0" toy_it server returns log_gets_through early_process late_process
    (proj1 early_state) (proj1 (proj2 early_state)) (proj2 (proj2 early_state))
    (ticks_continue _ early_process)).
Defined.
End SignalsWitness.
